(** * Racing simulation engine: a shallow embedding over the real numbers

    The engine of [src/simulation] (track geometry, vehicle dynamics and
    control, collision and elimination, the fixed-timestep, Markov and
    event-driven schedulers) is rendered as Rocq functions.  Python and
    NumPy floats are read as real numbers; object mutation is rendered by
    explicit state passing over records; random draws are answers of an
    explicit oracle. *)

From Stdlib Require Import Reals Lra Lia List ZArith Bool Arith Permutation Sorted.
Import ListNotations.
Local Open Scope R_scope.

(** ** Python and NumPy primitives *)

Definition Rltb (a b : R) : bool := if Rlt_dec a b then true else false.
Definition Rleb (a b : R) : bool := if Rle_dec a b then true else false.

(** [np.clip(a, a_min, a_max)] is [minimum(maximum(a, a_min), a_max)]. *)
Definition np_clip (a a_min a_max : R) : R := Rmin (Rmax a a_min) a_max.

(** Python's [a % b] on floats: the result takes the sign of [b]. *)
Definition py_mod (a b : R) : R := a - b * IZR (Zfloor (a / b)).

(** [int(a)] truncates toward zero. *)
Definition py_int (a : R) : Z := if Rle_dec 0 a then Zfloor a else Zceil a.

(** [np.round(a)] rounds to the nearest integer, halves to the even one. *)
Definition np_round (a : R) : Z :=
  let f := Zfloor a in
  let d := a - IZR f in
  if Rlt_dec d (1 / 2) then f
  else if Rlt_dec (1 / 2) d then (f + 1)%Z
  else if Z.even f then f else (f + 1)%Z.

(** [np.arctan2(y, x)] for finite arguments. *)
Definition arctan2 (y x : R) : R :=
  if Rlt_dec 0 x then atan (y / x)
  else if Rlt_dec x 0 then
    if Rle_dec 0 y then atan (y / x) + PI else atan (y / x) - PI
  else if Rlt_dec 0 y then PI / 2
  else if Rlt_dec y 0 then - (PI / 2)
  else 0.

Definition np_radians (deg : R) : R := deg * PI / 180.

(** Euclidean length of the vector [(dx, dy)], written
    [np.sqrt(dx**2 + dy**2)] throughout the source. *)
Definition norm2 (dx dy : R) : R := sqrt (dx ^ 2 + dy ^ 2).

Definition np_sum (l : list R) : R := fold_left Rplus l 0.

Definition np_mean (l : list R) : R := np_sum l / INR (length l).

Fixpoint np_diff (l : list R) : list R :=
  match l with
  | a :: (b :: _) as l' => (b - a) :: np_diff l'
  | _ => []
  end.

Fixpoint cumsum_from (acc : R) (l : list R) : list R :=
  match l with
  | [] => []
  | a :: l' => (acc + a) :: cumsum_from (acc + a) l'
  end.

Definition np_cumsum (l : list R) : list R := cumsum_from 0 l.

(** [np.argmin]: the first index of the minimum; an empty array raises
    [ValueError], rendered as [None]. *)
Fixpoint argmin_from (best_i : nat) (best : R) (i : nat) (l : list R) : nat :=
  match l with
  | [] => best_i
  | a :: l' =>
      if Rlt_dec a best then argmin_from i a (S i) l'
      else argmin_from best_i best (S i) l'
  end.

Definition np_argmin (l : list R) : option nat :=
  match l with
  | [] => None
  | a :: l' => Some (argmin_from 0 a 1 l')
  end.

(** [a[start:stop]] for non-negative bounds. *)
Definition py_slice {A : Type} (l : list A) (start stop : nat) : list A :=
  firstn (stop - start) (skipn start l).

(** [np.searchsorted(xs, v)] (side left) on a sorted array: the first
    index whose entry is not below [v]. *)
Fixpoint searchsorted (xs : list R) (v : R) : nat :=
  match xs with
  | [] => 0%nat
  | a :: xs' => if Rlt_dec a v then S (searchsorted xs' v) else 0%nat
  end.

(** [xs.searchsorted(v, side='right')]: the first index whose entry is
    above [v]. *)
Fixpoint searchsorted_right (xs : list R) (v : R) : nat :=
  match xs with
  | [] => 0%nat
  | a :: xs' => if Rle_dec a v then S (searchsorted_right xs' v) else 0%nat
  end.

(** [scipy.interpolate.interp1d(xs, ys, kind='linear', bounds_error=False,
    fill_value='extrapolate')] called at [x_new], for [xs] already sorted:
    the bracketing index is clipped to [1 .. len-1], so the end segments
    extend beyond the table. *)
Module interp1d.
Record t : Type := mk { xs : list R; ys : list R }.

Definition call (f : t) (x_new : R) : R :=
  let idx := Z.min (Z.max (Z.of_nat (searchsorted (xs f) x_new)) 1)
                   (Z.of_nat (length (xs f)) - 1) in
  let lo := Z.to_nat (idx - 1) in
  let hi := Z.to_nat idx in
  let x_lo := nth lo (xs f) 0 in
  let x_hi := nth hi (xs f) 0 in
  let y_lo := nth lo (ys f) 0 in
  let y_hi := nth hi (ys f) 0 in
  let slope := (y_hi - y_lo) / (x_hi - x_lo) in
  slope * (x_new - x_lo) + y_lo.
End interp1d.

(** A stable sort by a real key (Python's [list.sort(key=...)]). *)
Fixpoint insert_by {A : Type} (key : A -> R) (a : A) (l : list A) : list A :=
  match l with
  | [] => [a]
  | b :: l' => if Rle_dec (key a) (key b) then a :: l else b :: insert_by key a l'
  end.

Definition sort_by {A : Type} (key : A -> R) (l : list A) : list A :=
  fold_right (insert_by key) [] l.

(** ** Data model *)

Module Strategy.
Inductive t : Type := aggressive | balanced | cautious | eliminated.

Definition eqb (a b : t) : bool :=
  match a, b with
  | aggressive, aggressive | balanced, balanced
  | cautious, cautious | eliminated, eliminated => true
  | _, _ => false
  end.
End Strategy.

(** The two texts stored in [elimination_reason]. *)
Inductive EliminationReason : Type :=
| Eliminated_after_collision (roll threshold : Z)
| Markov_Chain_state_transition.

Module TrajectoryPoint.
Record t : Type := mk {
  x : R; y : R; yaw : R; velocity : R; acceleration : R;
  s_position : R; lap : nat
}.
End TrajectoryPoint.

Module IDMController.
Record t : Type := mk {
  a_max : R; b_max : R; min_gap : R; reaction_time : R;
  desired_speed : R; delta : nat
}.
End IDMController.

Module PurePursuitController.
Record t : Type := mk { lookahead_distance : R; wheelbase : R }.
End PurePursuitController.

Module CombinedController.
Record t : Type := mk {
  idm : IDMController.t;
  pure_pursuit : PurePursuitController.t
}.
End CombinedController.

(** The [controller] section of the configuration. *)
Module ControllerConfig.
Record t : Type := mk {
  desired_speed : Strategy.t -> R;
  a_max : R; b_max : R; reaction_time : R; min_gap : R;
  wheelbase : R; lookahead_distance : R
}.
End ControllerConfig.

Module Car.

Record t : Type := mk {
  car_id : nat;
  strategy_type : Strategy.t;
  x : R;
  y : R;
  yaw : R;
  velocity : R;
  acceleration : R;
  lane : R;
  target_lane : R;
  lap_count : nat;
  s_position : R;
  lane_change_timer : R;
  desired_speed : R;
  max_accel : R;
  max_brake : R;
  reaction_time : R;
  min_gap : R;
  wheelbase : R;
  lookahead_distance : R;
  speed_multiplier : R;
  trajectory : list TrajectoryPoint.t;
  collision_flag : bool;
  collision_count : nat;
  total_collision_severity : R;
  eliminated : bool;
  elimination_time : option R;
  elimination_reason : option EliminationReason;
  lap_times : list R;
  last_lap_start_s : R;
  last_lap_start_time : R;
  controller : CombinedController.t
}.

Definition set_strategy_type (c : t) (v : Strategy.t) : t :=
  {| car_id := car_id c; strategy_type := v; x := x c; y := y c; yaw := yaw c;
     velocity := velocity c; acceleration := acceleration c; lane := lane c;
     target_lane := target_lane c; lap_count := lap_count c; s_position := s_position c;
     lane_change_timer := lane_change_timer c; desired_speed := desired_speed c;
     max_accel := max_accel c; max_brake := max_brake c; reaction_time := reaction_time c;
     min_gap := min_gap c; wheelbase := wheelbase c;
     lookahead_distance := lookahead_distance c; speed_multiplier := speed_multiplier c;
     trajectory := trajectory c; collision_flag := collision_flag c;
     collision_count := collision_count c;
     total_collision_severity := total_collision_severity c; eliminated := eliminated c;
     elimination_time := elimination_time c; elimination_reason := elimination_reason c;
     lap_times := lap_times c; last_lap_start_s := last_lap_start_s c;
     last_lap_start_time := last_lap_start_time c; controller := controller c |}.

Definition set_x (c : t) (v : R) : t :=
  {| car_id := car_id c; strategy_type := strategy_type c; x := v; y := y c; yaw := yaw c;
     velocity := velocity c; acceleration := acceleration c; lane := lane c;
     target_lane := target_lane c; lap_count := lap_count c; s_position := s_position c;
     lane_change_timer := lane_change_timer c; desired_speed := desired_speed c;
     max_accel := max_accel c; max_brake := max_brake c; reaction_time := reaction_time c;
     min_gap := min_gap c; wheelbase := wheelbase c;
     lookahead_distance := lookahead_distance c; speed_multiplier := speed_multiplier c;
     trajectory := trajectory c; collision_flag := collision_flag c;
     collision_count := collision_count c;
     total_collision_severity := total_collision_severity c; eliminated := eliminated c;
     elimination_time := elimination_time c; elimination_reason := elimination_reason c;
     lap_times := lap_times c; last_lap_start_s := last_lap_start_s c;
     last_lap_start_time := last_lap_start_time c; controller := controller c |}.

Definition set_y (c : t) (v : R) : t :=
  {| car_id := car_id c; strategy_type := strategy_type c; x := x c; y := v; yaw := yaw c;
     velocity := velocity c; acceleration := acceleration c; lane := lane c;
     target_lane := target_lane c; lap_count := lap_count c; s_position := s_position c;
     lane_change_timer := lane_change_timer c; desired_speed := desired_speed c;
     max_accel := max_accel c; max_brake := max_brake c; reaction_time := reaction_time c;
     min_gap := min_gap c; wheelbase := wheelbase c;
     lookahead_distance := lookahead_distance c; speed_multiplier := speed_multiplier c;
     trajectory := trajectory c; collision_flag := collision_flag c;
     collision_count := collision_count c;
     total_collision_severity := total_collision_severity c; eliminated := eliminated c;
     elimination_time := elimination_time c; elimination_reason := elimination_reason c;
     lap_times := lap_times c; last_lap_start_s := last_lap_start_s c;
     last_lap_start_time := last_lap_start_time c; controller := controller c |}.

Definition set_yaw (c : t) (v : R) : t :=
  {| car_id := car_id c; strategy_type := strategy_type c; x := x c; y := y c; yaw := v;
     velocity := velocity c; acceleration := acceleration c; lane := lane c;
     target_lane := target_lane c; lap_count := lap_count c; s_position := s_position c;
     lane_change_timer := lane_change_timer c; desired_speed := desired_speed c;
     max_accel := max_accel c; max_brake := max_brake c; reaction_time := reaction_time c;
     min_gap := min_gap c; wheelbase := wheelbase c;
     lookahead_distance := lookahead_distance c; speed_multiplier := speed_multiplier c;
     trajectory := trajectory c; collision_flag := collision_flag c;
     collision_count := collision_count c;
     total_collision_severity := total_collision_severity c; eliminated := eliminated c;
     elimination_time := elimination_time c; elimination_reason := elimination_reason c;
     lap_times := lap_times c; last_lap_start_s := last_lap_start_s c;
     last_lap_start_time := last_lap_start_time c; controller := controller c |}.

Definition set_velocity (c : t) (v : R) : t :=
  {| car_id := car_id c; strategy_type := strategy_type c; x := x c; y := y c; yaw := yaw c;
     velocity := v; acceleration := acceleration c; lane := lane c;
     target_lane := target_lane c; lap_count := lap_count c; s_position := s_position c;
     lane_change_timer := lane_change_timer c; desired_speed := desired_speed c;
     max_accel := max_accel c; max_brake := max_brake c; reaction_time := reaction_time c;
     min_gap := min_gap c; wheelbase := wheelbase c;
     lookahead_distance := lookahead_distance c; speed_multiplier := speed_multiplier c;
     trajectory := trajectory c; collision_flag := collision_flag c;
     collision_count := collision_count c;
     total_collision_severity := total_collision_severity c; eliminated := eliminated c;
     elimination_time := elimination_time c; elimination_reason := elimination_reason c;
     lap_times := lap_times c; last_lap_start_s := last_lap_start_s c;
     last_lap_start_time := last_lap_start_time c; controller := controller c |}.

Definition set_acceleration (c : t) (v : R) : t :=
  {| car_id := car_id c; strategy_type := strategy_type c; x := x c; y := y c; yaw := yaw c;
     velocity := velocity c; acceleration := v; lane := lane c; target_lane := target_lane c;
     lap_count := lap_count c; s_position := s_position c;
     lane_change_timer := lane_change_timer c; desired_speed := desired_speed c;
     max_accel := max_accel c; max_brake := max_brake c; reaction_time := reaction_time c;
     min_gap := min_gap c; wheelbase := wheelbase c;
     lookahead_distance := lookahead_distance c; speed_multiplier := speed_multiplier c;
     trajectory := trajectory c; collision_flag := collision_flag c;
     collision_count := collision_count c;
     total_collision_severity := total_collision_severity c; eliminated := eliminated c;
     elimination_time := elimination_time c; elimination_reason := elimination_reason c;
     lap_times := lap_times c; last_lap_start_s := last_lap_start_s c;
     last_lap_start_time := last_lap_start_time c; controller := controller c |}.

Definition set_lane (c : t) (v : R) : t :=
  {| car_id := car_id c; strategy_type := strategy_type c; x := x c; y := y c; yaw := yaw c;
     velocity := velocity c; acceleration := acceleration c; lane := v;
     target_lane := target_lane c; lap_count := lap_count c; s_position := s_position c;
     lane_change_timer := lane_change_timer c; desired_speed := desired_speed c;
     max_accel := max_accel c; max_brake := max_brake c; reaction_time := reaction_time c;
     min_gap := min_gap c; wheelbase := wheelbase c;
     lookahead_distance := lookahead_distance c; speed_multiplier := speed_multiplier c;
     trajectory := trajectory c; collision_flag := collision_flag c;
     collision_count := collision_count c;
     total_collision_severity := total_collision_severity c; eliminated := eliminated c;
     elimination_time := elimination_time c; elimination_reason := elimination_reason c;
     lap_times := lap_times c; last_lap_start_s := last_lap_start_s c;
     last_lap_start_time := last_lap_start_time c; controller := controller c |}.

Definition set_target_lane (c : t) (v : R) : t :=
  {| car_id := car_id c; strategy_type := strategy_type c; x := x c; y := y c; yaw := yaw c;
     velocity := velocity c; acceleration := acceleration c; lane := lane c; target_lane := v;
     lap_count := lap_count c; s_position := s_position c;
     lane_change_timer := lane_change_timer c; desired_speed := desired_speed c;
     max_accel := max_accel c; max_brake := max_brake c; reaction_time := reaction_time c;
     min_gap := min_gap c; wheelbase := wheelbase c;
     lookahead_distance := lookahead_distance c; speed_multiplier := speed_multiplier c;
     trajectory := trajectory c; collision_flag := collision_flag c;
     collision_count := collision_count c;
     total_collision_severity := total_collision_severity c; eliminated := eliminated c;
     elimination_time := elimination_time c; elimination_reason := elimination_reason c;
     lap_times := lap_times c; last_lap_start_s := last_lap_start_s c;
     last_lap_start_time := last_lap_start_time c; controller := controller c |}.

Definition set_lap_count (c : t) (v : nat) : t :=
  {| car_id := car_id c; strategy_type := strategy_type c; x := x c; y := y c; yaw := yaw c;
     velocity := velocity c; acceleration := acceleration c; lane := lane c;
     target_lane := target_lane c; lap_count := v; s_position := s_position c;
     lane_change_timer := lane_change_timer c; desired_speed := desired_speed c;
     max_accel := max_accel c; max_brake := max_brake c; reaction_time := reaction_time c;
     min_gap := min_gap c; wheelbase := wheelbase c;
     lookahead_distance := lookahead_distance c; speed_multiplier := speed_multiplier c;
     trajectory := trajectory c; collision_flag := collision_flag c;
     collision_count := collision_count c;
     total_collision_severity := total_collision_severity c; eliminated := eliminated c;
     elimination_time := elimination_time c; elimination_reason := elimination_reason c;
     lap_times := lap_times c; last_lap_start_s := last_lap_start_s c;
     last_lap_start_time := last_lap_start_time c; controller := controller c |}.

Definition set_s_position (c : t) (v : R) : t :=
  {| car_id := car_id c; strategy_type := strategy_type c; x := x c; y := y c; yaw := yaw c;
     velocity := velocity c; acceleration := acceleration c; lane := lane c;
     target_lane := target_lane c; lap_count := lap_count c; s_position := v;
     lane_change_timer := lane_change_timer c; desired_speed := desired_speed c;
     max_accel := max_accel c; max_brake := max_brake c; reaction_time := reaction_time c;
     min_gap := min_gap c; wheelbase := wheelbase c;
     lookahead_distance := lookahead_distance c; speed_multiplier := speed_multiplier c;
     trajectory := trajectory c; collision_flag := collision_flag c;
     collision_count := collision_count c;
     total_collision_severity := total_collision_severity c; eliminated := eliminated c;
     elimination_time := elimination_time c; elimination_reason := elimination_reason c;
     lap_times := lap_times c; last_lap_start_s := last_lap_start_s c;
     last_lap_start_time := last_lap_start_time c; controller := controller c |}.

Definition set_lane_change_timer (c : t) (v : R) : t :=
  {| car_id := car_id c; strategy_type := strategy_type c; x := x c; y := y c; yaw := yaw c;
     velocity := velocity c; acceleration := acceleration c; lane := lane c;
     target_lane := target_lane c; lap_count := lap_count c; s_position := s_position c;
     lane_change_timer := v; desired_speed := desired_speed c; max_accel := max_accel c;
     max_brake := max_brake c; reaction_time := reaction_time c; min_gap := min_gap c;
     wheelbase := wheelbase c; lookahead_distance := lookahead_distance c;
     speed_multiplier := speed_multiplier c; trajectory := trajectory c;
     collision_flag := collision_flag c; collision_count := collision_count c;
     total_collision_severity := total_collision_severity c; eliminated := eliminated c;
     elimination_time := elimination_time c; elimination_reason := elimination_reason c;
     lap_times := lap_times c; last_lap_start_s := last_lap_start_s c;
     last_lap_start_time := last_lap_start_time c; controller := controller c |}.

Definition set_desired_speed (c : t) (v : R) : t :=
  {| car_id := car_id c; strategy_type := strategy_type c; x := x c; y := y c; yaw := yaw c;
     velocity := velocity c; acceleration := acceleration c; lane := lane c;
     target_lane := target_lane c; lap_count := lap_count c; s_position := s_position c;
     lane_change_timer := lane_change_timer c; desired_speed := v; max_accel := max_accel c;
     max_brake := max_brake c; reaction_time := reaction_time c; min_gap := min_gap c;
     wheelbase := wheelbase c; lookahead_distance := lookahead_distance c;
     speed_multiplier := speed_multiplier c; trajectory := trajectory c;
     collision_flag := collision_flag c; collision_count := collision_count c;
     total_collision_severity := total_collision_severity c; eliminated := eliminated c;
     elimination_time := elimination_time c; elimination_reason := elimination_reason c;
     lap_times := lap_times c; last_lap_start_s := last_lap_start_s c;
     last_lap_start_time := last_lap_start_time c; controller := controller c |}.

Definition set_min_gap (c : t) (v : R) : t :=
  {| car_id := car_id c; strategy_type := strategy_type c; x := x c; y := y c; yaw := yaw c;
     velocity := velocity c; acceleration := acceleration c; lane := lane c;
     target_lane := target_lane c; lap_count := lap_count c; s_position := s_position c;
     lane_change_timer := lane_change_timer c; desired_speed := desired_speed c;
     max_accel := max_accel c; max_brake := max_brake c; reaction_time := reaction_time c;
     min_gap := v; wheelbase := wheelbase c; lookahead_distance := lookahead_distance c;
     speed_multiplier := speed_multiplier c; trajectory := trajectory c;
     collision_flag := collision_flag c; collision_count := collision_count c;
     total_collision_severity := total_collision_severity c; eliminated := eliminated c;
     elimination_time := elimination_time c; elimination_reason := elimination_reason c;
     lap_times := lap_times c; last_lap_start_s := last_lap_start_s c;
     last_lap_start_time := last_lap_start_time c; controller := controller c |}.

Definition set_speed_multiplier (c : t) (v : R) : t :=
  {| car_id := car_id c; strategy_type := strategy_type c; x := x c; y := y c; yaw := yaw c;
     velocity := velocity c; acceleration := acceleration c; lane := lane c;
     target_lane := target_lane c; lap_count := lap_count c; s_position := s_position c;
     lane_change_timer := lane_change_timer c; desired_speed := desired_speed c;
     max_accel := max_accel c; max_brake := max_brake c; reaction_time := reaction_time c;
     min_gap := min_gap c; wheelbase := wheelbase c;
     lookahead_distance := lookahead_distance c; speed_multiplier := v;
     trajectory := trajectory c; collision_flag := collision_flag c;
     collision_count := collision_count c;
     total_collision_severity := total_collision_severity c; eliminated := eliminated c;
     elimination_time := elimination_time c; elimination_reason := elimination_reason c;
     lap_times := lap_times c; last_lap_start_s := last_lap_start_s c;
     last_lap_start_time := last_lap_start_time c; controller := controller c |}.

Definition set_trajectory (c : t) (v : list TrajectoryPoint.t) : t :=
  {| car_id := car_id c; strategy_type := strategy_type c; x := x c; y := y c; yaw := yaw c;
     velocity := velocity c; acceleration := acceleration c; lane := lane c;
     target_lane := target_lane c; lap_count := lap_count c; s_position := s_position c;
     lane_change_timer := lane_change_timer c; desired_speed := desired_speed c;
     max_accel := max_accel c; max_brake := max_brake c; reaction_time := reaction_time c;
     min_gap := min_gap c; wheelbase := wheelbase c;
     lookahead_distance := lookahead_distance c; speed_multiplier := speed_multiplier c;
     trajectory := v; collision_flag := collision_flag c; collision_count := collision_count c;
     total_collision_severity := total_collision_severity c; eliminated := eliminated c;
     elimination_time := elimination_time c; elimination_reason := elimination_reason c;
     lap_times := lap_times c; last_lap_start_s := last_lap_start_s c;
     last_lap_start_time := last_lap_start_time c; controller := controller c |}.

Definition set_collision_flag (c : t) (v : bool) : t :=
  {| car_id := car_id c; strategy_type := strategy_type c; x := x c; y := y c; yaw := yaw c;
     velocity := velocity c; acceleration := acceleration c; lane := lane c;
     target_lane := target_lane c; lap_count := lap_count c; s_position := s_position c;
     lane_change_timer := lane_change_timer c; desired_speed := desired_speed c;
     max_accel := max_accel c; max_brake := max_brake c; reaction_time := reaction_time c;
     min_gap := min_gap c; wheelbase := wheelbase c;
     lookahead_distance := lookahead_distance c; speed_multiplier := speed_multiplier c;
     trajectory := trajectory c; collision_flag := v; collision_count := collision_count c;
     total_collision_severity := total_collision_severity c; eliminated := eliminated c;
     elimination_time := elimination_time c; elimination_reason := elimination_reason c;
     lap_times := lap_times c; last_lap_start_s := last_lap_start_s c;
     last_lap_start_time := last_lap_start_time c; controller := controller c |}.

Definition set_collision_count (c : t) (v : nat) : t :=
  {| car_id := car_id c; strategy_type := strategy_type c; x := x c; y := y c; yaw := yaw c;
     velocity := velocity c; acceleration := acceleration c; lane := lane c;
     target_lane := target_lane c; lap_count := lap_count c; s_position := s_position c;
     lane_change_timer := lane_change_timer c; desired_speed := desired_speed c;
     max_accel := max_accel c; max_brake := max_brake c; reaction_time := reaction_time c;
     min_gap := min_gap c; wheelbase := wheelbase c;
     lookahead_distance := lookahead_distance c; speed_multiplier := speed_multiplier c;
     trajectory := trajectory c; collision_flag := collision_flag c; collision_count := v;
     total_collision_severity := total_collision_severity c; eliminated := eliminated c;
     elimination_time := elimination_time c; elimination_reason := elimination_reason c;
     lap_times := lap_times c; last_lap_start_s := last_lap_start_s c;
     last_lap_start_time := last_lap_start_time c; controller := controller c |}.

Definition set_total_collision_severity (c : t) (v : R) : t :=
  {| car_id := car_id c; strategy_type := strategy_type c; x := x c; y := y c; yaw := yaw c;
     velocity := velocity c; acceleration := acceleration c; lane := lane c;
     target_lane := target_lane c; lap_count := lap_count c; s_position := s_position c;
     lane_change_timer := lane_change_timer c; desired_speed := desired_speed c;
     max_accel := max_accel c; max_brake := max_brake c; reaction_time := reaction_time c;
     min_gap := min_gap c; wheelbase := wheelbase c;
     lookahead_distance := lookahead_distance c; speed_multiplier := speed_multiplier c;
     trajectory := trajectory c; collision_flag := collision_flag c;
     collision_count := collision_count c; total_collision_severity := v;
     eliminated := eliminated c; elimination_time := elimination_time c;
     elimination_reason := elimination_reason c; lap_times := lap_times c;
     last_lap_start_s := last_lap_start_s c; last_lap_start_time := last_lap_start_time c;
     controller := controller c |}.

Definition set_eliminated (c : t) (v : bool) : t :=
  {| car_id := car_id c; strategy_type := strategy_type c; x := x c; y := y c; yaw := yaw c;
     velocity := velocity c; acceleration := acceleration c; lane := lane c;
     target_lane := target_lane c; lap_count := lap_count c; s_position := s_position c;
     lane_change_timer := lane_change_timer c; desired_speed := desired_speed c;
     max_accel := max_accel c; max_brake := max_brake c; reaction_time := reaction_time c;
     min_gap := min_gap c; wheelbase := wheelbase c;
     lookahead_distance := lookahead_distance c; speed_multiplier := speed_multiplier c;
     trajectory := trajectory c; collision_flag := collision_flag c;
     collision_count := collision_count c;
     total_collision_severity := total_collision_severity c; eliminated := v;
     elimination_time := elimination_time c; elimination_reason := elimination_reason c;
     lap_times := lap_times c; last_lap_start_s := last_lap_start_s c;
     last_lap_start_time := last_lap_start_time c; controller := controller c |}.

Definition set_elimination_time (c : t) (v : option R) : t :=
  {| car_id := car_id c; strategy_type := strategy_type c; x := x c; y := y c; yaw := yaw c;
     velocity := velocity c; acceleration := acceleration c; lane := lane c;
     target_lane := target_lane c; lap_count := lap_count c; s_position := s_position c;
     lane_change_timer := lane_change_timer c; desired_speed := desired_speed c;
     max_accel := max_accel c; max_brake := max_brake c; reaction_time := reaction_time c;
     min_gap := min_gap c; wheelbase := wheelbase c;
     lookahead_distance := lookahead_distance c; speed_multiplier := speed_multiplier c;
     trajectory := trajectory c; collision_flag := collision_flag c;
     collision_count := collision_count c;
     total_collision_severity := total_collision_severity c; eliminated := eliminated c;
     elimination_time := v; elimination_reason := elimination_reason c;
     lap_times := lap_times c; last_lap_start_s := last_lap_start_s c;
     last_lap_start_time := last_lap_start_time c; controller := controller c |}.

Definition set_elimination_reason (c : t) (v : option EliminationReason) : t :=
  {| car_id := car_id c; strategy_type := strategy_type c; x := x c; y := y c; yaw := yaw c;
     velocity := velocity c; acceleration := acceleration c; lane := lane c;
     target_lane := target_lane c; lap_count := lap_count c; s_position := s_position c;
     lane_change_timer := lane_change_timer c; desired_speed := desired_speed c;
     max_accel := max_accel c; max_brake := max_brake c; reaction_time := reaction_time c;
     min_gap := min_gap c; wheelbase := wheelbase c;
     lookahead_distance := lookahead_distance c; speed_multiplier := speed_multiplier c;
     trajectory := trajectory c; collision_flag := collision_flag c;
     collision_count := collision_count c;
     total_collision_severity := total_collision_severity c; eliminated := eliminated c;
     elimination_time := elimination_time c; elimination_reason := v; lap_times := lap_times c;
     last_lap_start_s := last_lap_start_s c; last_lap_start_time := last_lap_start_time c;
     controller := controller c |}.

Definition set_lap_times (c : t) (v : list R) : t :=
  {| car_id := car_id c; strategy_type := strategy_type c; x := x c; y := y c; yaw := yaw c;
     velocity := velocity c; acceleration := acceleration c; lane := lane c;
     target_lane := target_lane c; lap_count := lap_count c; s_position := s_position c;
     lane_change_timer := lane_change_timer c; desired_speed := desired_speed c;
     max_accel := max_accel c; max_brake := max_brake c; reaction_time := reaction_time c;
     min_gap := min_gap c; wheelbase := wheelbase c;
     lookahead_distance := lookahead_distance c; speed_multiplier := speed_multiplier c;
     trajectory := trajectory c; collision_flag := collision_flag c;
     collision_count := collision_count c;
     total_collision_severity := total_collision_severity c; eliminated := eliminated c;
     elimination_time := elimination_time c; elimination_reason := elimination_reason c;
     lap_times := v; last_lap_start_s := last_lap_start_s c;
     last_lap_start_time := last_lap_start_time c; controller := controller c |}.

Definition set_last_lap_start_s (c : t) (v : R) : t :=
  {| car_id := car_id c; strategy_type := strategy_type c; x := x c; y := y c; yaw := yaw c;
     velocity := velocity c; acceleration := acceleration c; lane := lane c;
     target_lane := target_lane c; lap_count := lap_count c; s_position := s_position c;
     lane_change_timer := lane_change_timer c; desired_speed := desired_speed c;
     max_accel := max_accel c; max_brake := max_brake c; reaction_time := reaction_time c;
     min_gap := min_gap c; wheelbase := wheelbase c;
     lookahead_distance := lookahead_distance c; speed_multiplier := speed_multiplier c;
     trajectory := trajectory c; collision_flag := collision_flag c;
     collision_count := collision_count c;
     total_collision_severity := total_collision_severity c; eliminated := eliminated c;
     elimination_time := elimination_time c; elimination_reason := elimination_reason c;
     lap_times := lap_times c; last_lap_start_s := v;
     last_lap_start_time := last_lap_start_time c; controller := controller c |}.

Definition set_last_lap_start_time (c : t) (v : R) : t :=
  {| car_id := car_id c; strategy_type := strategy_type c; x := x c; y := y c; yaw := yaw c;
     velocity := velocity c; acceleration := acceleration c; lane := lane c;
     target_lane := target_lane c; lap_count := lap_count c; s_position := s_position c;
     lane_change_timer := lane_change_timer c; desired_speed := desired_speed c;
     max_accel := max_accel c; max_brake := max_brake c; reaction_time := reaction_time c;
     min_gap := min_gap c; wheelbase := wheelbase c;
     lookahead_distance := lookahead_distance c; speed_multiplier := speed_multiplier c;
     trajectory := trajectory c; collision_flag := collision_flag c;
     collision_count := collision_count c;
     total_collision_severity := total_collision_severity c; eliminated := eliminated c;
     elimination_time := elimination_time c; elimination_reason := elimination_reason c;
     lap_times := lap_times c; last_lap_start_s := last_lap_start_s c;
     last_lap_start_time := v; controller := controller c |}.

Definition set_controller (c : t) (v : CombinedController.t) : t :=
  {| car_id := car_id c; strategy_type := strategy_type c; x := x c; y := y c; yaw := yaw c;
     velocity := velocity c; acceleration := acceleration c; lane := lane c;
     target_lane := target_lane c; lap_count := lap_count c; s_position := s_position c;
     lane_change_timer := lane_change_timer c; desired_speed := desired_speed c;
     max_accel := max_accel c; max_brake := max_brake c; reaction_time := reaction_time c;
     min_gap := min_gap c; wheelbase := wheelbase c;
     lookahead_distance := lookahead_distance c; speed_multiplier := speed_multiplier c;
     trajectory := trajectory c; collision_flag := collision_flag c;
     collision_count := collision_count c;
     total_collision_severity := total_collision_severity c; eliminated := eliminated c;
     elimination_time := elimination_time c; elimination_reason := elimination_reason c;
     lap_times := lap_times c; last_lap_start_s := last_lap_start_s c;
     last_lap_start_time := last_lap_start_time c; controller := v |}.

End Car.

(** ** Track geometry ([track.py]) *)

Fixpoint zip_with {A B C : Type} (f : A -> B -> C) (l1 : list A) (l2 : list B) : list C :=
  match l1, l2 with
  | a :: l1', b :: l2' => f a b :: zip_with f l1' l2'
  | _, _ => []
  end.

Module Lane.
Record t : Type := mk {
  x : list R; y : list R;
  x_interp : interp1d.t; y_interp : interp1d.t
}.
End Lane.

Module Track.
Record t : Type := mk {
  radius_x : R; radius_y : R; width : R;
  num_points : nat; num_lanes : nat; lane_width : R;
  centerline_x : list R; centerline_y : list R;
  total_length : R;
  arc_lengths : list R;
  x_interp : interp1d.t; y_interp : interp1d.t;
  lanes : list Lane.t
}.

(** [ds = np.sqrt(dx**2 + dy**2)] over [np.diff] of the centerline. *)
Definition segment_lengths (cx cy : list R) : list R :=
  zip_with norm2 (np_diff cx) (np_diff cy).

Definition _compute_total_length (cx cy : list R) : R :=
  np_sum (segment_lengths cx cy).

(** [np.concatenate([[0], np.cumsum(ds)])]. *)
Definition _compute_arc_lengths (cx cy : list R) : list R :=
  0 :: np_cumsum (segment_lengths cx cy).

(** One lane of [_generate_lanes]: the centerline moved by [offset] along
    the normal, the normal of the last segment repeated for the last
    sample. *)
Definition _generate_lane (cx cy arcs : list R) (width lane_width : R) (lane_id : nat) : Lane.t :=
  let dx := np_diff cx in
  let dy := np_diff cy in
  let ds := zip_with norm2 dx dy in
  let tangent_x := zip_with (fun d s => d / (s + 1 / 1000000)) dx ds in
  let tangent_y := zip_with (fun d s => d / (s + 1 / 1000000)) dy ds in
  let normal_x := map Ropp tangent_y in
  let normal_y := tangent_x in
  let normal_x := normal_x ++ [last normal_x 0] in
  let normal_y := normal_y ++ [last normal_y 0] in
  let offset := - width / 2 + lane_width / 2 + INR lane_id * lane_width in
  let lane_x := zip_with (fun c n => c + offset * n) cx normal_x in
  let lane_y := zip_with (fun c n => c + offset * n) cy normal_y in
  Lane.mk lane_x lane_y (interp1d.mk arcs lane_x) (interp1d.mk arcs lane_y).

Definition _generate_lanes (cx cy arcs : list R) (width lane_width : R) (num_lanes : nat)
  : list Lane.t :=
  map (_generate_lane cx cy arcs width lane_width) (seq 0 num_lanes).

(** [Track.__init__].  The sampled and smoothed centerline (the output of
    SciPy's periodic cubic spline and Gaussian filter, [num_points]
    samples) is taken as the argument [centerline]; everything derived from
    it follows the source.  [None] stands for the exceptions of the
    constructor: the division [width / num_lanes] by zero, and
    [normal_x[-1]] on a centerline of fewer than two samples. *)
Definition init (radius_x radius_y width : R) (num_lanes : nat) (centerline : list (R * R))
  : option t :=
  let cx := map fst centerline in
  let cy := map snd centerline in
  if (num_lanes =? 0)%nat then None
  else if (length centerline <? 2)%nat then None
  else
    let lane_width := width / INR num_lanes in
    let total := _compute_total_length cx cy in
    let arcs := _compute_arc_lengths cx cy in
    Some {| radius_x := radius_x; radius_y := radius_y; width := width;
            num_points := length centerline; num_lanes := num_lanes;
            lane_width := lane_width;
            centerline_x := cx; centerline_y := cy;
            total_length := total;
            arc_lengths := arcs;
            x_interp := interp1d.mk arcs cx;
            y_interp := interp1d.mk arcs cy;
            lanes := _generate_lanes cx cy arcs width lane_width num_lanes |}.

(** [get_target_point(s, lookahead_distance, lane)]; [lane = None] is the
    centerline, and so is a lane number outside [0 .. num_lanes-1]. *)
Definition get_target_point (self : t) (s lookahead_distance : R) (lane : option Z) : R * R :=
  let s := py_mod s (total_length self) in
  let target_s := py_mod (s + lookahead_distance) (total_length self) in
  let on_lane :=
    match lane with
    | Some l =>
        if ((0 <=? l) && (l <? Z.of_nat (num_lanes self)))%Z
        then nth_error (lanes self) (Z.to_nat l) else None
    | None => None
    end in
  match on_lane with
  | Some ln => (interp1d.call (Lane.x_interp ln) target_s,
                interp1d.call (Lane.y_interp ln) target_s)
  | None => (interp1d.call (x_interp self) target_s,
             interp1d.call (y_interp self) target_s)
  end.

(** Distances from [(x, y)] to the samples [cx], [cy]. *)
Definition distances_to (cx cy : list R) (x y : R) : list R :=
  zip_with (fun px py => sqrt ((px - x) ^ 2 + (py - y) ^ 2)) cx cy.

(** The index found by the coarse global search of
    [project_car_position]. *)
Definition closest_idx (self : t) (x y : R) : option nat :=
  np_argmin (distances_to (centerline_x self) (centerline_y self) x y).

(** The index [refined_idx] computed by [project_car_position(x, y)]: the
    coarse global search, then the search in the window around its result.
    [None] is the [ValueError] of [np.argmin] on an empty array. *)
Definition refined_idx (self : t) (x y : R) : option nat :=
  let distances := distances_to (centerline_x self) (centerline_y self) x y in
  match np_argmin distances with
  | None => None
  | Some closest_idx =>
      let search_range := Z.min 50 (Z.of_nat (length (arc_lengths self)) / 10) in
      let start_idx := Z.max 0 (Z.of_nat closest_idx - search_range) in
      let end_idx := Z.min (Z.of_nat (length (arc_lengths self)))
                           (Z.of_nat closest_idx + search_range) in
      let local_distances :=
        distances_to
          (py_slice (centerline_x self) (Z.to_nat start_idx) (Z.to_nat end_idx))
          (py_slice (centerline_y self) (Z.to_nat start_idx) (Z.to_nat end_idx)) x y in
      match np_argmin local_distances with
      | None => None
      | Some local_closest => Some (Z.to_nat start_idx + local_closest)%nat
      end
  end.

(** [project_car_position(x, y)] returns [arc_lengths[refined_idx]]. *)
Definition project_car_position (self : t) (x y : R) : option R :=
  match refined_idx self x y with
  | None => None
  | Some refined_idx => nth_error (arc_lengths self) refined_idx
  end.
End Track.

(** ** Vehicle methods ([car.py]) *)

Module SimulationConfig.
Record elimination_t : Type := mk_elimination {
  enabled : option bool;
  elimination_chance : option Z
}.
Record t : Type := mk {
  dt : R; laps : nat; time_limit : R;
  collision_radius : R; near_miss_ttc_threshold : R;
  elimination : option elimination_t
}.
End SimulationConfig.

Module Config.
Record t : Type := mk {
  num_cars : nat;
  controller : ControllerConfig.t;
  simulation : SimulationConfig.t
}.
End Config.

(** [CombinedController.__init__(config, strategy_type)]. *)
Definition CombinedController_init (config : Config.t) (strategy_type : Strategy.t)
  : CombinedController.t :=
  let cc := Config.controller config in
  CombinedController.mk
    (IDMController.mk (ControllerConfig.a_max cc) (ControllerConfig.b_max cc)
       (ControllerConfig.min_gap cc) (ControllerConfig.reaction_time cc)
       (ControllerConfig.desired_speed cc strategy_type) 4)
    (PurePursuitController.mk (ControllerConfig.lookahead_distance cc)
       (ControllerConfig.wheelbase cc)).

(** [Car.__init__]; [initial_lane] is the draw [np.random.randint(0, 5)].
    The controller slot is filled by the schedulers right after. *)
Definition Car_init (car_id : nat) (x y yaw : R) (strategy_type : Strategy.t)
    (config : Config.t) (initial_lane : Z) : Car.t :=
  let cc := Config.controller config in
  let speed_multiplier :=
    match strategy_type with
    | Strategy.aggressive => 12 / 10
    | Strategy.balanced => 1
    | _ => 9 / 10
    end in
  let min_gap :=
    match strategy_type with
    | Strategy.aggressive => ControllerConfig.min_gap cc * (8 / 10)
    | Strategy.balanced => ControllerConfig.min_gap cc
    | _ => ControllerConfig.min_gap cc * (12 / 10)
    end in
  {| Car.car_id := car_id; Car.strategy_type := strategy_type;
     Car.x := x; Car.y := y; Car.yaw := yaw;
     Car.velocity := 0; Car.acceleration := 0;
     Car.lane := IZR initial_lane; Car.target_lane := IZR initial_lane;
     Car.lap_count := 0; Car.s_position := 0; Car.lane_change_timer := 0;
     Car.desired_speed := ControllerConfig.desired_speed cc strategy_type;
     Car.max_accel := ControllerConfig.a_max cc;
     Car.max_brake := ControllerConfig.b_max cc;
     Car.reaction_time := ControllerConfig.reaction_time cc;
     Car.min_gap := min_gap;
     Car.wheelbase := ControllerConfig.wheelbase cc;
     Car.lookahead_distance := ControllerConfig.lookahead_distance cc;
     Car.speed_multiplier := speed_multiplier;
     Car.trajectory := []; Car.collision_flag := false;
     Car.collision_count := 0; Car.total_collision_severity := 0;
     Car.eliminated := false; Car.elimination_time := None;
     Car.elimination_reason := None;
     Car.lap_times := []; Car.last_lap_start_s := 0; Car.last_lap_start_time := 0;
     Car.controller := CombinedController_init config strategy_type |}.

(** [Car.get_max_speed]. *)
Definition get_max_speed (self : Car.t) : R :=
  Car.desired_speed self * Car.speed_multiplier self.

(** [Car.reset_collision_flag]. *)
Definition reset_collision_flag (self : Car.t) : Car.t :=
  Car.set_collision_flag self false.

(** [Car.update_state(dt, track)]: reprojection, lap detection, lap timer
    and trajectory log.  [None] when the projection raises. *)
Definition update_state (self : Car.t) (dt : R) (track : Track.t) : option Car.t :=
  let old_s := Car.s_position self in
  match Track.project_car_position track (Car.x self) (Car.y self) with
  | None => None
  | Some s =>
      let self := Car.set_s_position self s in
      let self :=
        if Rltb (Track.total_length track * (9 / 10)) old_s
           && Rltb (Car.s_position self) (Track.total_length track * (1 / 10))
        then
          let self := Car.set_lap_count self (Car.lap_count self + 1) in
          let self :=
            if Rltb 0 (Car.last_lap_start_time self)
            then Car.set_lap_times self
                   (Car.lap_times self ++ [Car.last_lap_start_time self])
            else self in
          let self := Car.set_last_lap_start_s self (Car.s_position self) in
          Car.set_last_lap_start_time self 0
        else self in
      let self := Car.set_last_lap_start_time self (Car.last_lap_start_time self + dt) in
      Some (Car.set_trajectory self
              (Car.trajectory self ++
               [ {| TrajectoryPoint.x := Car.x self;
                    TrajectoryPoint.y := Car.y self;
                    TrajectoryPoint.yaw := Car.yaw self;
                    TrajectoryPoint.velocity := Car.velocity self;
                    TrajectoryPoint.acceleration := Car.acceleration self;
                    TrajectoryPoint.s_position := Car.s_position self;
                    TrajectoryPoint.lap := Car.lap_count self |} ]))
  end.

(** One entry of [sense_neighbors]: the sensed car, its distance and the
    relative velocity along the line of sight. *)
Definition neighbor : Type := (Car.t * R * R)%type.

Definition sense_one (self other_car : Car.t) (radius : R) : list neighbor :=
  if (Car.car_id other_car =? Car.car_id self)%nat then []
  else
    let dx := Car.x other_car - Car.x self in
    let dy := Car.y other_car - Car.y self in
    let distance := norm2 dx dy in
    if Rleb distance radius then
      let rel_vx := Car.velocity other_car * cos (Car.yaw other_car)
                    - Car.velocity self * cos (Car.yaw self) in
      let rel_vy := Car.velocity other_car * sin (Car.yaw other_car)
                    - Car.velocity self * sin (Car.yaw self) in
      let relative_velocity :=
        if Rltb 0 distance then
          let cos_theta := dx / distance in
          let sin_theta := dy / distance in
          rel_vx * cos_theta + rel_vy * sin_theta
        else 0 in
      [(other_car, distance, relative_velocity)]
    else [].

(** [Car.sense_neighbors(all_cars, radius)], closest first. *)
Definition sense_neighbors (self : Car.t) (all_cars : list Car.t) (radius : R)
  : list neighbor :=
  sort_by (fun n : neighbor => snd (fst n))
          (flat_map (fun other_car => sense_one self other_car radius) all_cars).

(** ** Kinematic bicycle model ([physics.py]) *)

Definition update_car_dynamics (car : Car.t) (acceleration steering_angle dt : R) : Car.t :=
  let car := Car.set_velocity car (Car.velocity car + acceleration * dt) in
  let max_speed := get_max_speed car in
  let car := Car.set_velocity car (np_clip (Car.velocity car) 0 max_speed) in
  let car := Car.set_x car (Car.x car + Car.velocity car * cos (Car.yaw car) * dt) in
  let car := Car.set_y car (Car.y car + Car.velocity car * sin (Car.yaw car) * dt) in
  let car :=
    if Rltb (1 / 100) (Car.velocity car) then
      let car := Car.set_yaw car
                   (Car.yaw car
                    + (Car.velocity car / Car.wheelbase car) * tan steering_angle * dt) in
      Car.set_yaw car (py_mod (Car.yaw car) (2 * PI))
    else car in
  Car.set_acceleration car acceleration.

(** ** Controllers ([controller.py]) *)

(** [IDMController.compute_acceleration(car, leading_car, distance,
    relative_velocity)].  The quotient [v / v0] is read where [v0 <> 0];
    at [v0 = 0] the source has no value for it (dividing the Python float
    [car.velocity] raises [ZeroDivisionError]), and the statements about
    runs that complete assume [v0 <> 0] for every car. *)
Definition compute_acceleration (self : IDMController.t) (car : Car.t)
    (leading_car : option Car.t) (distance : option R) (relative_velocity : R) : R :=
  let v := Car.velocity car in
  let v0 := Car.desired_speed car * Car.speed_multiplier car in
  let free_term := 1 - (v / v0) ^ IDMController.delta self in
  let acceleration :=
    match leading_car, distance with
    | Some _, Some distance =>
        let s0 := IDMController.min_gap self in
        let T := IDMController.reaction_time self in
        let dv := - relative_velocity in
        let s_star :=
          s0 + v * T
          + (v * dv) / (2 * sqrt (IDMController.a_max self * IDMController.b_max self)) in
        let interaction_term := (s_star / Rmax distance (1 / 10)) ^ 2 in
        IDMController.a_max self * (free_term - interaction_term)
    | _, _ => IDMController.a_max self * free_term
    end in
  np_clip acceleration (- IDMController.b_max self) (IDMController.a_max self).

(** [PurePursuitController.compute_steering_angle(car, target_x, target_y)]. *)
Definition compute_steering_angle (self : PurePursuitController.t) (car : Car.t)
    (target_x target_y : R) : R :=
  let dx := target_x - Car.x car in
  let dy := target_y - Car.y car in
  let distance := norm2 dx dy in
  if Rltb distance (1 / 10) then 0
  else
    let alpha := arctan2 dy dx - Car.yaw car in
    let alpha := arctan2 (sin alpha) (cos alpha) in
    let effective_lookahead :=
      Rmin distance (PurePursuitController.lookahead_distance self) in
    let delta :=
      arctan2 (2 * PurePursuitController.wheelbase self * sin alpha) effective_lookahead in
    let max_steering := np_radians 30 in
    np_clip delta (- max_steering) max_steering.

(** Projection of the offset to [other_car] onto the heading of [car]. *)
Definition forward_projection (car other_car : Car.t) : R :=
  let dx := Car.x other_car - Car.x car in
  let dy := Car.y other_car - Car.y car in
  let forward_x := cos (Car.yaw car) in
  let forward_y := sin (Car.yaw car) in
  dx * forward_x + dy * forward_y.

(** [CombinedController._check_lane_clear(car, target_lane, all_cars)]
    with the default [lookahead_distance = 20.0]. *)
Definition _check_lane_clear (car : Car.t) (target_lane : R) (all_cars : list Car.t)
    (lookahead_distance : R) : bool :=
  if Rltb target_lane 0 || Rleb 5 target_lane then false
  else
    forallb
      (fun other_car =>
         if (Car.car_id other_car =? Car.car_id car)%nat then true
         else if Rltb (1 / 2) (Rabs (Car.lane other_car - target_lane)) then true
         else negb (Rltb (Rabs (forward_projection car other_car)) lookahead_distance))
      all_cars.

(** The loop of [_decide_lane_change] that looks for the nearest car ahead
    in the own lane, within 30 m of forward projection. *)
Definition leading_in_lane_step (car : Car.t) (best : option (Car.t * R * R))
    (other_car : Car.t) : option (Car.t * R * R) :=
  if (Car.car_id other_car =? Car.car_id car)%nat then best
  else if Rltb (1 / 2) (Rabs (Car.lane other_car - Car.lane car)) then best
  else
    let projection := forward_projection car other_car in
    if Rltb 0 projection && Rltb projection 30 then
      let distance := norm2 (Car.x other_car - Car.x car) (Car.y other_car - Car.y car) in
      match best with
      | None => Some (other_car, distance, Car.velocity other_car)
      | Some (_, leading_distance, _) =>
          if Rltb distance leading_distance
          then Some (other_car, distance, Car.velocity other_car)
          else best
      end
    else best.

(** [CombinedController._decide_lane_change(car, track, all_cars)]. *)
Definition _decide_lane_change (car : Car.t) (all_cars : list Car.t) : option R :=
  if Rltb 0 (Car.lane_change_timer car) then None
  else
    match fold_left (leading_in_lane_step car) all_cars None with
    | Some (_, _, leading_speed) =>
        if Rltb leading_speed (Car.velocity car * (9 / 10)) then
          let candidates :=
            (if Rltb (Car.lane car) 4 then [Car.lane car + 1] else [])
            ++ (if Rltb (Car.lane car) 3 then [Car.lane car + 2] else [])
            ++ (if Rltb 0 (Car.lane car) then [Car.lane car - 1] else [])
            ++ (if Rltb 1 (Car.lane car) then [Car.lane car - 2] else []) in
          find (fun candidate_lane => _check_lane_clear car candidate_lane all_cars 20)
               candidates
        else None
    | None => None
    end.

(** The first sensed neighbour in the own lane that is ahead. *)
Definition find_leader (car : Car.t) (neighbors : list neighbor) : option neighbor :=
  find
    (fun n : neighbor =>
       let neighbor_car := fst (fst n) in
       negb (Rltb (1 / 2) (Rabs (Car.lane neighbor_car - Car.lane car)))
       && Rltb 0 (forward_projection car neighbor_car))
    neighbors.

(** [CombinedController.compute_control(car, track, all_cars)] with the
    default [sensing_radius = 50.0].  It writes the lane fields of [car]
    and returns the command; every loop over [all_cars] skips the entries
    carrying the identifier of [car], so the car's own entry is never
    read. *)
Definition compute_control (self : CombinedController.t) (car : Car.t) (track : Track.t)
    (all_cars : list Car.t) (sensing_radius : R) : (R * R) * Car.t :=
  let car :=
    match _decide_lane_change car all_cars with
    | Some target_lane =>
        Car.set_lane_change_timer (Car.set_target_lane car target_lane) 2
    | None => car
    end in
  let lane_diff := Car.target_lane car - Car.lane car in
  let car :=
    if Rltb (1 / 10) (Rabs lane_diff) then
      let lane_change_rate := 1 / 10 in
      if Rltb 0 lane_diff
      then Car.set_lane car (Rmin (Car.lane car + lane_change_rate) (Car.target_lane car))
      else Car.set_lane car (Rmax (Car.lane car - lane_change_rate) (Car.target_lane car))
    else Car.set_lane car (Car.target_lane car) in
  let car := Car.set_lane car (np_clip (Car.lane car) 0 4) in
  let car := Car.set_target_lane car (np_clip (Car.target_lane car) 0 4) in
  let neighbors := sense_neighbors car all_cars sensing_radius in
  let leading := find_leader car neighbors in
  let acceleration :=
    match leading with
    | Some (leading_car, leading_distance, leading_relative_velocity) =>
        compute_acceleration (CombinedController.idm self) car
          (Some leading_car) (Some leading_distance) leading_relative_velocity
    | None => compute_acceleration (CombinedController.idm self) car None None 0
    end in
  let target_lane_int := np_round (Car.lane car) in
  let '(target_x, target_y) :=
    Track.get_target_point track (Car.s_position car) (Car.lookahead_distance car)
      (Some target_lane_int) in
  let steering_angle :=
    compute_steering_angle (CombinedController.pure_pursuit self) car target_x target_y in
  ((acceleration, steering_angle), car).

(** ** Collision detection ([collision.py]) *)

Module CollisionEvent.
Record t : Type := mk {
  timestamp : R; car_id1 : nat; car_id2 : nat;
  x : R; y : R; lap : nat; severity : R
}.
End CollisionEvent.

Module CollisionDetector.
Record t : Type := mk {
  collision_radius : R;
  collisions : list CollisionEvent.t
}.
End CollisionDetector.

(** [tuple(sorted([id1, id2]))]. *)
Definition sorted_pair (id1 id2 : nat) : nat * nat := (Nat.min id1 id2, Nat.max id1 id2).

Definition pair_eqb (p q : nat * nat) : bool :=
  (fst p =? fst q)%nat && (snd p =? snd q)%nat.

(** Membership in the [collision_pairs] set. *)
Definition pair_in (p : nat * nat) (s : list (nat * nat)) : bool := existsb (pair_eqb p) s.

(** Magnitude of the relative velocity vector of two cars. *)
Definition relative_speed (car1 car2 : Car.t) : R :=
  let v1x := Car.velocity car1 * cos (Car.yaw car1) in
  let v1y := Car.velocity car1 * sin (Car.yaw car1) in
  let v2x := Car.velocity car2 * cos (Car.yaw car2) in
  let v2y := Car.velocity car2 * sin (Car.yaw car2) in
  let rel_vx := v2x - v1x in
  let rel_vy := v2y - v1y in
  sqrt (rel_vx ^ 2 + rel_vy ^ 2).

(** The state carried through the two loops of [check_collisions]. *)
Module Pass.
Record t : Type := mk {
  new_collisions : list CollisionEvent.t;
  collision_pairs : list (nat * nat);
  collisions : list CollisionEvent.t
}.
End Pass.

(** The body of the inner loop for one pair [car1], [car2]. *)
Definition check_pair (radius timestamp : R) (car1 car2 : Car.t) (st : Pass.t)
  : Car.t * Car.t * Pass.t :=
  if Car.eliminated car2 then (car1, car2, st)
  else
    let pair := sorted_pair (Car.car_id car1) (Car.car_id car2) in
    if pair_in pair (Pass.collision_pairs st) then (car1, car2, st)
    else
      let dx := Car.x car1 - Car.x car2 in
      let dy := Car.y car1 - Car.y car2 in
      let distance := norm2 dx dy in
      if Rltb distance radius then
        let severity := relative_speed car1 car2 in
        let collision_event :=
          {| CollisionEvent.timestamp := timestamp;
             CollisionEvent.car_id1 := Car.car_id car1;
             CollisionEvent.car_id2 := Car.car_id car2;
             CollisionEvent.x := (Car.x car1 + Car.x car2) / 2;
             CollisionEvent.y := (Car.y car1 + Car.y car2) / 2;
             CollisionEvent.lap := Nat.min (Car.lap_count car1) (Car.lap_count car2);
             CollisionEvent.severity := severity |} in
        let st :=
          {| Pass.new_collisions := Pass.new_collisions st ++ [collision_event];
             Pass.collision_pairs := pair :: Pass.collision_pairs st;
             Pass.collisions := Pass.collisions st ++ [collision_event] |} in
        let car1 := Car.set_collision_count car1 (Car.collision_count car1 + 1) in
        let car1 := Car.set_total_collision_severity car1
                      (Car.total_collision_severity car1 + severity) in
        let car2 := Car.set_collision_count car2 (Car.collision_count car2 + 1) in
        let car2 := Car.set_total_collision_severity car2
                      (Car.total_collision_severity car2 + severity) in
        let car1 := Car.set_collision_flag car1 true in
        let car2 := Car.set_collision_flag car2 true in
        (car1, car2, st)
      else (car1, car2, st).

(** The inner loop [for car2 in cars[i+1:]] for a fixed [car1]; it returns
    [car1] and the cars of the slice as the loop leaves them. *)
Fixpoint check_against (radius timestamp : R) (car1 : Car.t) (rest : list Car.t)
    (st : Pass.t) : Car.t * list Car.t * Pass.t :=
  match rest with
  | [] => (car1, [], st)
  | car2 :: rest' =>
      let '(car1, car2, st) := check_pair radius timestamp car1 car2 st in
      let '(car1, rest', st) := check_against radius timestamp car1 rest' st in
      (car1, car2 :: rest', st)
  end.

(** The outer loop [for i, car1 in enumerate(cars)], [n] iterations over
    the cars still to visit. *)
Fixpoint check_from (n : nat) (radius timestamp : R) (cars : list Car.t) (st : Pass.t)
  : list Car.t * Pass.t :=
  match n, cars with
  | S n', car1 :: rest =>
      if Car.eliminated car1 then
        let '(rest, st) := check_from n' radius timestamp rest st in
        (car1 :: rest, st)
      else
        let '(car1, rest, st) := check_against radius timestamp car1 rest st in
        let '(rest, st) := check_from n' radius timestamp rest st in
        (car1 :: rest, st)
  | _, _ => (cars, st)
  end.

(** [CollisionDetector.check_collisions(cars, timestamp)]: the events of
    this call, the detector with its log extended, and the cars with their
    collision statistics updated. *)
Definition check_collisions (self : CollisionDetector.t) (cars : list Car.t) (timestamp : R)
  : list CollisionEvent.t * CollisionDetector.t * list Car.t :=
  let st := {| Pass.new_collisions := []; Pass.collision_pairs := [];
               Pass.collisions := CollisionDetector.collisions self |} in
  let '(cars, st) :=
    check_from (length cars) (CollisionDetector.collision_radius self) timestamp cars st in
  (Pass.new_collisions st,
   CollisionDetector.mk (CollisionDetector.collision_radius self) (Pass.collisions st),
   cars).

(** One pair of [compute_near_misses]. *)
Definition near_miss (ttc_threshold : R) (car1 car2 : Car.t) : nat :=
  let dx := Car.x car2 - Car.x car1 in
  let dy := Car.y car2 - Car.y car1 in
  let distance := norm2 dx dy in
  if Rltb distance 10 then
    let v1x := Car.velocity car1 * cos (Car.yaw car1) in
    let v1y := Car.velocity car1 * sin (Car.yaw car1) in
    let v2x := Car.velocity car2 * cos (Car.yaw car2) in
    let v2y := Car.velocity car2 * sin (Car.yaw car2) in
    let rel_vx := v2x - v1x in
    let rel_vy := v2y - v1y in
    if Rltb (1 / 10) distance then
      let rel_v := (dx * rel_vx + dy * rel_vy) / distance in
      if Rltb rel_v 0 then
        let ttc := distance / Rabs rel_v in
        if Rltb 0 ttc && Rltb ttc ttc_threshold then 1%nat else 0%nat
      else 0%nat
    else 0%nat
  else 0%nat.

(** [CollisionDetector.compute_near_misses(cars, timestamp, ttc_threshold)]. *)
Fixpoint compute_near_misses (cars : list Car.t) (ttc_threshold : R) : nat :=
  match cars with
  | [] => 0%nat
  | car1 :: rest =>
      (fold_left (fun n car2 => (n + near_miss ttc_threshold car1 car2)%nat) rest 0
       + compute_near_misses rest ttc_threshold)%nat
  end.

(** ** Random source

    The draws of NumPy's global generator are the answers of an oracle:
    [randint_1_11 k] is what [np.random.randint(1, 11)] returns when it is
    the [k]-th draw, [random_sample k] the uniform sample a
    [np.random.choice] consumes there. *)
Module Rng.
Record t : Type := mk {
  randint_1_11 : nat -> Z;
  random_sample : nat -> R;
  drawn : nat
}.

Definition randint (g : t) : Z * t :=
  (randint_1_11 g (drawn g), mk (randint_1_11 g) (random_sample g) (S (drawn g))).

Definition sample (g : t) : R * t :=
  (random_sample g (drawn g), mk (randint_1_11 g) (random_sample g) (S (drawn g))).
End Rng.

(** ** Roster helpers *)

(** [l[i] = v] on the roster. *)
Fixpoint list_set {A : Type} (l : list A) (i : nat) (v : A) : list A :=
  match l, i with
  | [], _ => []
  | _ :: l', O => v :: l'
  | a :: l', S i' => a :: list_set l' i' v
  end.

Definition is_active (c : Car.t) : bool := negb (Car.eliminated c).

(** [[c for c in cars if not c.eliminated]]. *)
Definition active_cars (cars : list Car.t) : list Car.t := filter is_active cars.

(** Position of [next((c for c in cars if c.car_id == car_id), None)]. *)
Fixpoint find_car (cars : list Car.t) (car_id : nat) : option nat :=
  match cars with
  | [] => None
  | c :: cars' =>
      if (Car.car_id c =? car_id)%nat then Some 0%nat
      else option_map S (find_car cars' car_id)
  end.

(** ** Fixed-timestep scheduler ([simulation.py]) *)

Module RacingSimulation.
Record t : Type := mk {
  config : Config.t;
  track : Track.t;
  cars : list Car.t;
  collision_detector : CollisionDetector.t;
  dt : R; target_laps : nat; time_limit : R; ttc_threshold : R;
  timestamp : R;
  near_misses : nat;
  (** roster positions of the cars appended to [eliminated_cars] *)
  eliminated_cars : list nat;
  elimination_enabled : bool;
  elimination_chance : Z;
  rng : Rng.t
}.

Definition set_cars (s : t) (v : list Car.t) : t :=
  mk (config s) (track s) v (collision_detector s) (dt s) (target_laps s) (time_limit s)
     (ttc_threshold s) (timestamp s) (near_misses s) (eliminated_cars s)
     (elimination_enabled s) (elimination_chance s) (rng s).

Definition set_collision_detector (s : t) (v : CollisionDetector.t) : t :=
  mk (config s) (track s) (cars s) v (dt s) (target_laps s) (time_limit s)
     (ttc_threshold s) (timestamp s) (near_misses s) (eliminated_cars s)
     (elimination_enabled s) (elimination_chance s) (rng s).

Definition set_timestamp (s : t) (v : R) : t :=
  mk (config s) (track s) (cars s) (collision_detector s) (dt s) (target_laps s)
     (time_limit s) (ttc_threshold s) v (near_misses s) (eliminated_cars s)
     (elimination_enabled s) (elimination_chance s) (rng s).

Definition set_near_misses (s : t) (v : nat) : t :=
  mk (config s) (track s) (cars s) (collision_detector s) (dt s) (target_laps s)
     (time_limit s) (ttc_threshold s) (timestamp s) v (eliminated_cars s)
     (elimination_enabled s) (elimination_chance s) (rng s).

Definition set_eliminated_cars (s : t) (v : list nat) : t :=
  mk (config s) (track s) (cars s) (collision_detector s) (dt s) (target_laps s)
     (time_limit s) (ttc_threshold s) (timestamp s) (near_misses s) v
     (elimination_enabled s) (elimination_chance s) (rng s).

Definition set_rng (s : t) (v : Rng.t) : t :=
  mk (config s) (track s) (cars s) (collision_detector s) (dt s) (target_laps s)
     (time_limit s) (ttc_threshold s) (timestamp s) (near_misses s) (eliminated_cars s)
     (elimination_enabled s) (elimination_chance s) v.

(** [elim_config.get('enabled', True)] and
    [elim_config.get('elimination_chance', 6)] on
    [sim_config.get('elimination', {})]. *)
Definition config_elimination_enabled (sc : SimulationConfig.t) : bool :=
  match SimulationConfig.elimination sc with
  | Some e => match SimulationConfig.enabled e with Some b => b | None => true end
  | None => true
  end.

Definition config_elimination_chance (sc : SimulationConfig.t) : Z :=
  match SimulationConfig.elimination sc with
  | Some e => match SimulationConfig.elimination_chance e with Some n => n | None => 6%Z end
  | None => 6%Z
  end.

(** [RacingSimulation.__init__] without visualization; the track and the
    randomly placed cars are built beforehand and passed in. *)
Definition init (config : Config.t) (track : Track.t) (cars : list Car.t) (rng : Rng.t) : t :=
  let sc := Config.simulation config in
  {| config := config; track := track; cars := cars;
     collision_detector := CollisionDetector.mk (SimulationConfig.collision_radius sc) [];
     dt := SimulationConfig.dt sc;
     target_laps := SimulationConfig.laps sc;
     time_limit := SimulationConfig.time_limit sc;
     ttc_threshold := SimulationConfig.near_miss_ttc_threshold sc;
     timestamp := 0; near_misses := 0; eliminated_cars := [];
     elimination_enabled := config_elimination_enabled sc;
     elimination_chance := config_elimination_chance sc;
     rng := rng |}.

(** The elimination roll of [_check_eliminations] for the car found at
    roster position [found]. *)
Definition roll_elimination (self : t) (found : option nat) : t :=
  match found with
  | None => self
  | Some i =>
      match nth_error (cars self) i with
      | None => self
      | Some car =>
          if Car.eliminated car then self
          else
            let '(roll, g) := Rng.randint (rng self) in
            let self := set_rng self g in
            if (roll <? elimination_chance self)%Z then
              let car := Car.set_eliminated car true in
              let car := Car.set_elimination_time car (Some (timestamp self)) in
              let car := Car.set_elimination_reason car
                           (Some (Eliminated_after_collision roll (elimination_chance self))) in
              let car := Car.set_velocity car 0 in
              let self := set_cars self (list_set (cars self) i car) in
              set_eliminated_cars self (eliminated_cars self ++ [i])
            else self
      end
  end.

(** [_check_eliminations(new_collisions)]. *)
Definition _check_eliminations (self : t) (new_collisions : list CollisionEvent.t) : t :=
  fold_left
    (fun self collision =>
       let car1 := find_car (cars self) (CollisionEvent.car_id1 collision) in
       let car2 := find_car (cars self) (CollisionEvent.car_id2 collision) in
       let self := roll_elimination self car1 in
       roll_elimination self car2)
    new_collisions self.

(** [_log_telemetry]: the CSV rows are outside the model; every car's
    collision flag is cleared after its row is written. *)
Definition _log_telemetry (self : t) : t :=
  set_cars self (map reset_collision_flag (cars self)).

(** The lane-change timer update at the head of the per-car loop. *)
Definition tick_lane_change_timer (car : Car.t) (dt : R) : Car.t :=
  if Rltb 0 (Car.lane_change_timer car)
  then Car.set_lane_change_timer car (Car.lane_change_timer car - dt)
  else car.

(** The per-car loop of [run].  [done] holds the cars already visited in
    this cycle, as the loop left them, [todo] the cars still to visit.  The
    list [active_cars] is rebuilt from the live roster at every iteration.
    The returned log records the command issued to each car ([None] for an
    eliminated car); the engine itself does not use it. *)
Fixpoint update_cars (track : Track.t) (dt : R) (done todo : list Car.t)
    (log : list (option (R * R))) : option (list Car.t * list (option (R * R))) :=
  match todo with
  | [] => Some (done, log)
  | car :: rest =>
      if Car.eliminated car then update_cars track dt (done ++ [car]) rest (log ++ [None])
      else
        let car := tick_lane_change_timer car dt in
        let active := active_cars (done ++ car :: rest) in
        let '((acceleration, steering_angle), car) :=
          compute_control (Car.controller car) car track active 50 in
        let car := update_car_dynamics car acceleration steering_angle dt in
        match update_state car dt track with
        | None => None
        | Some car =>
            update_cars track dt (done ++ [car]) rest
              (log ++ [Some (acceleration, steering_angle)])
        end
  end.

(** One cycle of [run] after the termination checks: the per-car loop, the
    collision pass, the elimination pass when enabled, the near-miss pass
    and the telemetry hook. *)
Definition cycle (self : t) : option (t * list CollisionEvent.t) :=
  match update_cars (track self) (dt self) [] (cars self) [] with
  | None => None
  | Some (cars', _) =>
      let self := set_cars self cars' in
      let '(new_collisions, detector, cars') :=
        check_collisions (collision_detector self) (cars self) (timestamp self) in
      let self := set_cars (set_collision_detector self detector) cars' in
      let self :=
        if elimination_enabled self then _check_eliminations self new_collisions
        else self in
      let self :=
        set_near_misses self
          (near_misses self
           + compute_near_misses (active_cars (cars self)) (ttc_threshold self))%nat in
      Some (_log_telemetry self, new_collisions)
  end.

Definition all_finished (self : t) : bool :=
  forallb (fun car => (target_laps self <=? Car.lap_count car)%nat) (active_cars (cars self)).

(** The loop [for step in range(max_steps)] from [step] on, [remaining]
    iterations left; the two [break]s end it early. *)
Fixpoint run_from (self : t) (all_collisions : list CollisionEvent.t) (step remaining : nat)
  : option (t * list CollisionEvent.t) :=
  match remaining with
  | O => Some (self, all_collisions)
  | S remaining' =>
      let self := set_timestamp self (INR step * dt self) in
      if (length (active_cars (cars self)) =? 0)%nat then Some (self, all_collisions)
      else if all_finished self then Some (self, all_collisions)
      else
        match cycle self with
        | None => None
        | Some (self, new_collisions) =>
            run_from self (all_collisions ++ new_collisions) (S step) remaining'
        end
  end.

(** [RacingSimulation.run] without visualization: the final state and the
    collision events of the run; [None] when a cycle raises. *)
Definition run (self : t) : option (t * list CollisionEvent.t) :=
  let max_steps := Z.to_nat (py_int (time_limit self / dt self)) in
  run_from self [] 0 max_steps.
End RacingSimulation.

(** ** Markov strategy-transition layer ([markov_chain.py]) *)

(** One row of the transition matrix, in the key order of the source
    dictionaries. *)
Module TransitionProbs.
Record t : Type := mk { aggressive : R; balanced : R; cautious : R; eliminated : R }.

Definition values (p : t) : list R := [aggressive p; balanced p; cautious p; eliminated p].

Definition keys : list Strategy.t :=
  [Strategy.aggressive; Strategy.balanced; Strategy.cautious; Strategy.eliminated].
End TransitionProbs.

Module MarkovChainSimulation.

Definition base_transition_matrix (state : Strategy.t) : TransitionProbs.t :=
  match state with
  | Strategy.aggressive => TransitionProbs.mk (7 / 10) (2 / 10) (5 / 100) (5 / 100)
  | Strategy.balanced => TransitionProbs.mk (1 / 10) (8 / 10) (8 / 100) (2 / 100)
  | Strategy.cautious => TransitionProbs.mk (5 / 100) (15 / 100) (75 / 100) (5 / 100)
  | Strategy.eliminated => TransitionProbs.mk 0 0 0 1
  end.

(** [_update_transition_probabilities(car, all_cars)]; [None] is the bare
    [return] taken from the eliminated state. *)
Definition _update_transition_probabilities (car : Car.t) : option TransitionProbs.t :=
  let current_state := Car.strategy_type car in
  if Strategy.eqb current_state Strategy.eliminated then None
  else
    let collision_rate :=
      INR (Car.collision_count car) / INR (Nat.max (Car.lap_count car) 1) in
    let avg_speed :=
      match Car.trajectory car with
      | [] => 0
      | _ => np_mean (map TrajectoryPoint.velocity (Car.trajectory car))
      end in
    let p := base_transition_matrix current_state in
    let p :=
      if Rltb (1 / 2) collision_rate then
        let e := Rmin (3 / 10) (TransitionProbs.eliminated p * 2) in
        let c := Rmin (4 / 10) (TransitionProbs.cautious p * 2) in
        let a := Rmax 0 (TransitionProbs.aggressive p * (1 / 2)) in
        TransitionProbs.mk a (TransitionProbs.balanced p) c e
      else if Rltb collision_rate (1 / 10)
              && Rltb (Car.desired_speed car * (9 / 10)) avg_speed then
        let a := Rmin (3 / 10) (TransitionProbs.aggressive p * (15 / 10)) in
        let e := Rmax 0 (TransitionProbs.eliminated p * (1 / 2)) in
        TransitionProbs.mk a (TransitionProbs.balanced p) (TransitionProbs.cautious p) e
      else p in
    let total := np_sum (TransitionProbs.values p) in
    let p :=
      if Rltb 0 total then
        TransitionProbs.mk (TransitionProbs.aggressive p / total)
          (TransitionProbs.balanced p / total) (TransitionProbs.cautious p / total)
          (TransitionProbs.eliminated p / total)
      else p in
    Some p.

(** [np.random.choice(states, p=probs)]: the probabilities must sum to one
    (its tolerance is read as exactness over the reals), the normalized
    cumulative sums are searched from the right for the uniform sample.
    [None] is an exception. *)
Definition random_choice (states : list Strategy.t) (probs : list R) (g : Rng.t)
  : option (Strategy.t * Rng.t) :=
  if Req_dec_T (np_sum probs) 1 then
    let cdf := np_cumsum probs in
    let cdf := map (fun c => c / last cdf 0) cdf in
    let '(u, g) := Rng.sample g in
    match nth_error states (searchsorted_right cdf u) with
    | Some s => Some (s, g)
    | None => None
    end
  else None.

(** [_transition_state(car, all_cars)]. *)
Definition _transition_state (config : Config.t) (car : Car.t) (g : Rng.t)
  : option (Car.t * Rng.t) :=
  if Car.eliminated car then Some (Car.set_strategy_type car Strategy.eliminated, g)
  else
    match _update_transition_probabilities car with
    | None => None
    | Some transition_probs =>
        match random_choice TransitionProbs.keys (TransitionProbs.values transition_probs) g with
        | None => None
        | Some (next_state, g) =>
            if negb (Strategy.eqb next_state (Car.strategy_type car))
               && negb (Strategy.eqb next_state Strategy.eliminated) then
              let car := Car.set_strategy_type car next_state in
              let car :=
                match next_state with
                | Strategy.aggressive =>
                    Car.set_min_gap (Car.set_speed_multiplier car (12 / 10))
                      (Car.min_gap car * (8 / 10))
                | Strategy.balanced => Car.set_speed_multiplier car 1
                | Strategy.cautious =>
                    Car.set_min_gap (Car.set_speed_multiplier car (9 / 10))
                      (Car.min_gap car * (12 / 10))
                | Strategy.eliminated => car
                end in
              Some (Car.set_controller car (CombinedController_init config next_state), g)
            else if Strategy.eqb next_state Strategy.eliminated then
              let car := Car.set_eliminated car true in
              let car := Car.set_elimination_time car None in
              Some (Car.set_elimination_reason car (Some Markov_Chain_state_transition), g)
            else Some (car, g)
        end
    end.

(** The per-car loop of [run_with_markov]: as in [RacingSimulation.run],
    with the strategy transition on every twentieth step. *)
Fixpoint update_cars (config : Config.t) (track : Track.t) (dt : R) (step : nat)
    (done todo : list Car.t) (g : Rng.t) : option (list Car.t * Rng.t) :=
  match todo with
  | [] => Some (done, g)
  | car :: rest =>
      if Car.eliminated car then update_cars config track dt step (done ++ [car]) rest g
      else
        let car := RacingSimulation.tick_lane_change_timer car dt in
        let transition :=
          if (step mod 20 =? 0)%nat then _transition_state config car g
          else Some (car, g) in
        match transition with
        | None => None
        | Some (car, g) =>
            if Car.eliminated car then
              update_cars config track dt step (done ++ [car]) rest g
            else
              let active := active_cars (done ++ car :: rest) in
              let '((acceleration, steering_angle), car) :=
                compute_control (Car.controller car) car track active 50 in
              let car := update_car_dynamics car acceleration steering_angle dt in
              match update_state car dt track with
              | None => None
              | Some car => update_cars config track dt step (done ++ [car]) rest g
              end
        end
  end.

(** One cycle of [run_with_markov] after the termination checks. *)
Definition cycle (simulation : RacingSimulation.t) (step : nat)
  : option (RacingSimulation.t * list CollisionEvent.t) :=
  match update_cars (RacingSimulation.config simulation) (RacingSimulation.track simulation)
          (RacingSimulation.dt simulation) step [] (RacingSimulation.cars simulation)
          (RacingSimulation.rng simulation) with
  | None => None
  | Some (cars', g) =>
      let simulation := RacingSimulation.set_rng (RacingSimulation.set_cars simulation cars') g in
      let '(new_collisions, detector, cars') :=
        check_collisions (RacingSimulation.collision_detector simulation)
          (RacingSimulation.cars simulation) (RacingSimulation.timestamp simulation) in
      let simulation :=
        RacingSimulation.set_cars
          (RacingSimulation.set_collision_detector simulation detector) cars' in
      let simulation :=
        if RacingSimulation.elimination_enabled simulation
        then RacingSimulation._check_eliminations simulation new_collisions
        else simulation in
      let simulation :=
        RacingSimulation.set_near_misses simulation
          (RacingSimulation.near_misses simulation
           + compute_near_misses (active_cars (RacingSimulation.cars simulation))
               (RacingSimulation.ttc_threshold simulation))%nat in
      Some (RacingSimulation._log_telemetry simulation, new_collisions)
  end.

Fixpoint run_from (simulation : RacingSimulation.t) (all_collisions : list CollisionEvent.t)
    (step remaining : nat) : option (RacingSimulation.t * list CollisionEvent.t) :=
  match remaining with
  | O => Some (simulation, all_collisions)
  | S remaining' =>
      let simulation :=
        RacingSimulation.set_timestamp simulation
          (INR step * RacingSimulation.dt simulation) in
      if (length (active_cars (RacingSimulation.cars simulation)) =? 0)%nat
      then Some (simulation, all_collisions)
      else if RacingSimulation.all_finished simulation then Some (simulation, all_collisions)
      else
        match cycle simulation step with
        | None => None
        | Some (simulation, new_collisions) =>
            run_from simulation (all_collisions ++ new_collisions) (S step) remaining'
        end
  end.

(** [MarkovChainSimulation.run] ([run_with_markov]) on the wrapped
    fixed-timestep simulation. *)
Definition run (simulation : RacingSimulation.t)
  : option (RacingSimulation.t * list CollisionEvent.t) :=
  let max_steps :=
    Z.to_nat (py_int (RacingSimulation.time_limit simulation
                      / RacingSimulation.dt simulation)) in
  run_from simulation [] 0 max_steps.
End MarkovChainSimulation.

(** ** Event-driven scheduler ([discrete_event.py]) *)

(** Python's [heapq] on a list, ordered by a strict comparison [lt]. *)
Module heapq.
Section Heap.
Context {A : Type} (lt : A -> A -> bool).

(** The loop of [_siftdown(heap, startpos, pos)] carrying [newitem]. *)
Fixpoint siftdown_loop (fuel : nat) (heap : list A) (startpos pos : nat) (newitem : A)
  : list A :=
  match fuel with
  | O => list_set heap pos newitem
  | S fuel' =>
      if (startpos <? pos)%nat then
        let parentpos := ((pos - 1) / 2)%nat in
        let parent := nth parentpos heap newitem in
        if lt newitem parent
        then siftdown_loop fuel' (list_set heap pos parent) startpos parentpos newitem
        else list_set heap pos newitem
      else list_set heap pos newitem
  end.

Definition _siftdown (heap : list A) (startpos pos : nat) : list A :=
  match nth_error heap pos with
  | Some newitem => siftdown_loop pos heap startpos pos newitem
  | None => heap
  end.

(** The loop of [_siftup(heap, pos)]: the smaller child moves up until a
    leaf is reached; it returns the heap and the leaf position. *)
Fixpoint siftup_loop (fuel : nat) (heap : list A) (endpos pos : nat) (newitem : A)
  : list A * nat :=
  match fuel with
  | O => (heap, pos)
  | S fuel' =>
      let childpos := (2 * pos + 1)%nat in
      if (childpos <? endpos)%nat then
        let rightpos := (childpos + 1)%nat in
        let childpos :=
          if (rightpos <? endpos)%nat
             && negb (lt (nth childpos heap newitem) (nth rightpos heap newitem))
          then rightpos else childpos in
        siftup_loop fuel' (list_set heap pos (nth childpos heap newitem)) endpos childpos
          newitem
      else (heap, pos)
  end.

Definition _siftup (heap : list A) (pos : nat) : list A :=
  match nth_error heap pos with
  | Some newitem =>
      let '(heap, leaf) := siftup_loop (length heap) heap (length heap) pos newitem in
      _siftdown (list_set heap leaf newitem) pos leaf
  | None => heap
  end.

Definition heappush (heap : list A) (item : A) : list A :=
  _siftdown (heap ++ [item]) 0 (length heap).

(** [heappop(heap)]; [None] on an empty heap. *)
Definition heappop (heap : list A) : option (A * list A) :=
  match rev heap with
  | [] => None
  | lastelt :: _ =>
      match removelast heap with
      | [] => Some (lastelt, [])
      | returnitem :: heap' => Some (returnitem, _siftup (lastelt :: heap') 0)
      end
  end.
End Heap.
End heapq.

Inductive EventType : Type := update | collision_check | collision.

(** The callables stored in events: the two bound methods scheduled by
    [run], and the closure [lambda: self._handle_collision(car1, car2)] over
    two cars, named by their roster positions. *)
Inductive Handler : Type :=
| _update_all_cars
| _check_all_collisions
| _handle_collision_of (car1 car2 : nat).

Module Event.
Record t : Type := mk {
  time : R;
  event_type : EventType;
  handler : Handler;
  data : option (nat * nat)
}.

(** [Event.__lt__]. *)
Definition lt (self other : t) : bool := Rltb (time self) (time other).
End Event.

(** What a scheduler run can end in. *)
Inductive outcome (A : Type) : Type :=
| Finished (a : A)
| Raised
| OutOfFuel.
Arguments Finished {A} a.
Arguments Raised {A}.
Arguments OutOfFuel {A}.

Module DiscreteEventSimulation.
Record t : Type := mk {
  config : Config.t;
  event_queue : list Event.t;
  current_time : R;
  track : Track.t;
  cars : list Car.t;
  collision_detector : CollisionDetector.t;
  target_laps : nat; time_limit : R; dt : R;
  collisions : list CollisionEvent.t;
  near_misses : nat;
  eliminated_cars : list nat;
  rng : Rng.t
}.

Definition set_event_queue (s : t) (v : list Event.t) : t :=
  mk (config s) v (current_time s) (track s) (cars s) (collision_detector s)
     (target_laps s) (time_limit s) (dt s) (collisions s) (near_misses s)
     (eliminated_cars s) (rng s).

Definition set_current_time (s : t) (v : R) : t :=
  mk (config s) (event_queue s) v (track s) (cars s) (collision_detector s)
     (target_laps s) (time_limit s) (dt s) (collisions s) (near_misses s)
     (eliminated_cars s) (rng s).

Definition set_cars (s : t) (v : list Car.t) : t :=
  mk (config s) (event_queue s) (current_time s) (track s) v (collision_detector s)
     (target_laps s) (time_limit s) (dt s) (collisions s) (near_misses s)
     (eliminated_cars s) (rng s).

Definition set_collision_detector (s : t) (v : CollisionDetector.t) : t :=
  mk (config s) (event_queue s) (current_time s) (track s) (cars s) v
     (target_laps s) (time_limit s) (dt s) (collisions s) (near_misses s)
     (eliminated_cars s) (rng s).

Definition set_collisions (s : t) (v : list CollisionEvent.t) : t :=
  mk (config s) (event_queue s) (current_time s) (track s) (cars s) (collision_detector s)
     (target_laps s) (time_limit s) (dt s) v (near_misses s)
     (eliminated_cars s) (rng s).

Definition set_eliminated_cars (s : t) (v : list nat) : t :=
  mk (config s) (event_queue s) (current_time s) (track s) (cars s) (collision_detector s)
     (target_laps s) (time_limit s) (dt s) (collisions s) (near_misses s)
     v (rng s).

Definition set_rng (s : t) (v : Rng.t) : t :=
  mk (config s) (event_queue s) (current_time s) (track s) (cars s) (collision_detector s)
     (target_laps s) (time_limit s) (dt s) (collisions s) (near_misses s)
     (eliminated_cars s) v.

(** [DiscreteEventSimulation.__init__] without visualization. *)
Definition init (config : Config.t) (track : Track.t) (cars : list Car.t) (rng : Rng.t) : t :=
  let sc := Config.simulation config in
  {| config := config; event_queue := []; current_time := 0;
     track := track; cars := cars;
     collision_detector := CollisionDetector.mk (SimulationConfig.collision_radius sc) [];
     target_laps := SimulationConfig.laps sc;
     time_limit := SimulationConfig.time_limit sc;
     dt := SimulationConfig.dt sc;
     collisions := []; near_misses := 0; eliminated_cars := [];
     rng := rng |}.

(** [schedule_event(time, event_type, handler, data)]. *)
Definition schedule_event (self : t) (time : R) (event_type : EventType) (handler : Handler)
    (data : option (nat * nat)) : t :=
  set_event_queue self
    (heapq.heappush Event.lt (event_queue self) (Event.mk time event_type handler data)).

(** [_check_elimination(car)] for the car at roster position [i]. *)
Definition _check_elimination (self : t) (i : nat) : t :=
  match nth_error (cars self) i with
  | None => self
  | Some car =>
      if Car.eliminated car then self
      else
        let sc := Config.simulation (config self) in
        if negb (RacingSimulation.config_elimination_enabled sc) then self
        else
          let elimination_chance := RacingSimulation.config_elimination_chance sc in
          let '(roll, g) := Rng.randint (rng self) in
          let self := set_rng self g in
          if (roll <? elimination_chance)%Z then
            let car := Car.set_eliminated car true in
            let car := Car.set_elimination_time car (Some (current_time self)) in
            let car := Car.set_elimination_reason car
                         (Some (Eliminated_after_collision roll elimination_chance)) in
            let car := Car.set_velocity car 0 in
            let self := set_cars self (list_set (cars self) i car) in
            set_eliminated_cars self (eliminated_cars self ++ [i])
          else self
  end.

(** [_handle_collision(car1, car2)] for the cars at roster positions [i]
    and [j]. *)
Definition _handle_collision (self : t) (i j : nat) : t :=
  match nth_error (cars self) i, nth_error (cars self) j with
  | Some car1, Some car2 =>
      let relative_speed := relative_speed car1 car2 in
      let collision_event :=
        {| CollisionEvent.timestamp := current_time self;
           CollisionEvent.car_id1 := Car.car_id car1;
           CollisionEvent.car_id2 := Car.car_id car2;
           CollisionEvent.x := (Car.x car1 + Car.x car2) / 2;
           CollisionEvent.y := (Car.y car1 + Car.y car2) / 2;
           CollisionEvent.lap := Nat.min (Car.lap_count car1) (Car.lap_count car2);
           CollisionEvent.severity := relative_speed |} in
      let self := set_collisions self (collisions self ++ [collision_event]) in
      let bump (self : t) (k : nat) : t :=
        match nth_error (cars self) k with
        | Some car =>
            let car := Car.set_collision_count car (Car.collision_count car + 1) in
            let car := Car.set_total_collision_severity car
                         (Car.total_collision_severity car + relative_speed) in
            set_cars self (list_set (cars self) k car)
        | None => self
        end in
      let flag (self : t) (k : nat) : t :=
        match nth_error (cars self) k with
        | Some car => set_cars self (list_set (cars self) k (Car.set_collision_flag car true))
        | None => self
        end in
      let self := flag (flag self i) j in
      let self := bump (bump self i) j in
      _check_elimination (_check_elimination self i) j
  | _, _ => self
  end.

(** [_check_collision_event(car1, car2)] for the cars at roster positions
    [i] and [j]: an immediate collision inside the radius, otherwise a
    ['collision'] event at the predicted contact time when that is less
    than 5 s away. *)
Definition _check_collision_event (self : t) (i j : nat) : t :=
  match nth_error (cars self) i, nth_error (cars self) j with
  | Some car1, Some car2 =>
      let dx := Car.x car2 - Car.x car1 in
      let dy := Car.y car2 - Car.y car1 in
      let distance := norm2 dx dy in
      if Rltb distance (CollisionDetector.collision_radius (collision_detector self))
      then _handle_collision self i j
      else
        let rel_v := relative_speed car1 car2 in
        if Rltb (1 / 10) rel_v then
          let collision_time := distance / rel_v in
          if Rltb collision_time 5 then
            schedule_event self (current_time self + collision_time) collision
              (_handle_collision_of i j) (Some (Car.car_id car1, Car.car_id car2))
          else self
        else self
  | _, _ => self
  end.

(** Cars of the roster at the given positions: the list [active_cars] of
    [_update_all_cars] is built once, and its entries are the live car
    objects. *)
Definition cars_at (store : list Car.t) (positions : list nat) : list Car.t :=
  flat_map (fun i => match nth_error store i with Some c => [c] | None => [] end) positions.

Fixpoint positions_from (i : nat) (cars : list Car.t) : list nat :=
  match cars with
  | [] => []
  | c :: cars' =>
      if is_active c then i :: positions_from (S i) cars' else positions_from (S i) cars'
  end.

Fixpoint update_cars (track : Track.t) (dt : R) (active_positions : list nat)
    (done todo : list Car.t) : option (list Car.t) :=
  match todo with
  | [] => Some done
  | car :: rest =>
      if Car.eliminated car then update_cars track dt active_positions (done ++ [car]) rest
      else
        let car := RacingSimulation.tick_lane_change_timer car dt in
        let active := cars_at (done ++ car :: rest) active_positions in
        let '((acceleration, steering_angle), car) :=
          compute_control (Car.controller car) car track active 50 in
        let car := update_car_dynamics car acceleration steering_angle dt in
        match update_state car dt track with
        | None => None
        | Some car => update_cars track dt active_positions (done ++ [car]) rest
        end
  end.

(** [_update_all_cars]. *)
Definition update_all_cars (self : t) : option t :=
  let active_positions := positions_from 0 (cars self) in
  match update_cars (track self) (dt self) active_positions [] (cars self) with
  | None => None
  | Some cars' => Some (set_cars self cars')
  end.

(** [_check_all_collisions]. *)
Definition check_all_collisions (self : t) : t :=
  let '(new_collisions, detector, cars') :=
    check_collisions (collision_detector self) (cars self) (current_time self) in
  let self := set_cars (set_collision_detector self detector) cars' in
  set_collisions self (collisions self ++ new_collisions).

(** [event.handler()]. *)
Definition call_handler (self : t) (h : Handler) : option t :=
  match h with
  | _update_all_cars => update_all_cars self
  | _check_all_collisions => Some (check_all_collisions self)
  | _handle_collision_of i j => Some (_handle_collision self i j)
  end.

Definition _log_telemetry (self : t) : t :=
  set_cars self (map reset_collision_flag (cars self)).

(** The two scheduling loops at the head of [run]. *)
Definition schedule_all (self : t) : t :=
  let update_interval := dt self in
  let self :=
    fold_left
      (fun self i => schedule_event self (INR i * update_interval) update _update_all_cars None)
      (seq 0 (Z.to_nat (py_int (time_limit self / update_interval)))) self in
  let check_interval := 1 / 10 in
  fold_left
    (fun self i =>
       schedule_event self (INR i * check_interval) collision_check _check_all_collisions None)
    (seq 0 (Z.to_nat (py_int (time_limit self / check_interval)))) self.

(** One iteration of the [while] loop of [run], entered with a non-empty
    queue before the time limit: the next state and log time, or the state
    the loop stops in at a [break]. *)
Inductive iteration : Type :=
| Continue (self : t) (last_log_time : R)
| Break (self : t)
| Raise.

Definition event_step (self : t) (last_log_time : R) : iteration :=
  match heapq.heappop Event.lt (event_queue self) with
  | None => Raise
  | Some (event, queue) =>
      let self := set_event_queue self queue in
      let self := set_current_time self (Event.time event) in
      if (length (active_cars (cars self)) =? 0)%nat then Break self
      else if forallb (fun c => (target_laps self <=? Car.lap_count c)%nat)
                (active_cars (cars self)) then Break self
      else
        match call_handler self (Event.handler event) with
        | None => Raise
        | Some self =>
            if Rleb (1 / 2) (current_time self - last_log_time)
            then Continue (_log_telemetry self) (current_time self)
            else Continue self last_log_time
        end
  end.

(** The [while] loop of [run], at most [fuel] iterations. *)
Fixpoint process_events (fuel : nat) (self : t) (last_log_time : R) : outcome t :=
  match event_queue self with
  | [] => Finished self
  | _ :: _ =>
      if negb (Rltb (current_time self) (time_limit self)) then Finished self
      else
        match fuel with
        | O => OutOfFuel
        | S fuel' =>
            match event_step self last_log_time with
            | Continue self last_log_time => process_events fuel' self last_log_time
            | Break self => Finished self
            | Raise => Raised
            end
        end
  end.

(** [DiscreteEventSimulation.run] without visualization; the fuel is the
    number of scheduled events. *)
Definition run (self : t) : outcome t :=
  let self := schedule_all self in
  process_events (length (event_queue self)) self 0.
End DiscreteEventSimulation.

(** ** Vocabulary of the statements *)

(** A finite sequence of commands [(acceleration, steering, dt)] applied
    tick after tick. *)
Definition drive (car : Car.t) (commands : list (R * R * R)) : Car.t :=
  fold_left (fun c cmd => update_car_dynamics c (fst (fst cmd)) (snd (fst cmd)) (snd cmd))
            commands car.

(** [i] is the first index at which [l] takes its minimum. *)
Definition first_argmin (l : list R) (i : nat) : Prop :=
  (i < length l)%nat
  /\ (forall k, (k < length l)%nat -> nth i l 0 <= nth k l 0)
  /\ (forall k, (k < i)%nat -> nth i l 0 < nth k l 0).

(** Sample [k] of the centerline and its arc length. *)
Definition sample_x (t : Track.t) (k : nat) : R := nth k (Track.centerline_x t) 0.
Definition sample_y (t : Track.t) (k : nat) : R := nth k (Track.centerline_y t) 0.
Definition arc (t : Track.t) (k : nat) : R := nth k (Track.arc_lengths t) 0.

(** The centerline point at arc length [s]: the position query with no
    look-ahead and no lane. *)
Definition position_at (t : Track.t) (s : R) : R * R := Track.get_target_point t s 0 None.

(** A centerline is well sampled when no sample lies in the closed disc
    whose diameter is a segment between two other consecutive samples: the
    curve does not come back within a sample spacing of itself. *)
Definition well_sampled (cl : list (R * R)) : Prop :=
  forall i j : nat,
    (S i < length cl)%nat -> (j < length cl)%nat -> j <> i -> j <> S i ->
    let a := nth i cl (0, 0) in
    let b := nth (S i) cl (0, 0) in
    let c := nth j cl (0, 0) in
    norm2 (fst b - fst a) (snd b - snd a) / 2
    < norm2 (fst c - (fst a + fst b) / 2) (snd c - (snd a + snd b) / 2).

(** [restat c count severity flag] is [c] with other collision statistics
    and collision flag: what the collision pass may write. *)
Definition restat (c : Car.t) (count : nat) (severity : R) (flag : bool) : Car.t :=
  Car.set_collision_flag
    (Car.set_total_collision_severity (Car.set_collision_count c count) severity) flag.

Definition stats_only (c c' : Car.t) : Prop :=
  exists count severity flag, c' = restat c count severity flag.

(** The three fields that record an elimination. *)
Definition elimination_record (c : Car.t) : bool * option R * option EliminationReason :=
  (Car.eliminated c, Car.elimination_time c, Car.elimination_reason c).

(** Between two states of a car, either its elimination record is
    untouched, or it was active and a Markov transition flagged it: flag
    set, no time, the Markov reason. *)
Definition markov_or_unchanged (c c' : Car.t) : Prop :=
  elimination_record c' = elimination_record c
  \/ (Car.eliminated c = false
      /\ elimination_record c' = (true, None, Some Markov_Chain_state_transition)).

(** An event scheduled by the two loops at the head of the event-driven
    [run]: a periodic update or collision check, not a predictive
    ['collision'] event. *)
Definition is_periodic (e : Event.t) : bool :=
  match Event.event_type e, Event.handler e with
  | update, _update_all_cars => true
  | collision_check, _check_all_collisions => true
  | _, _ => false
  end.

Definition periodic_queue (self : DiscreteEventSimulation.t) : Prop :=
  Forall (fun e => is_periodic e = true) (DiscreteEventSimulation.event_queue self).

(** [run_reaches self t self'] holds when the [while] loop of the
    event-driven [run], entered in state [self] with last log time [t],
    passes through state [self'] at the head of an iteration or stops in it
    at a [break]. *)
Inductive run_reaches : DiscreteEventSimulation.t -> R -> DiscreteEventSimulation.t -> Prop :=
| reaches_here (self : DiscreteEventSimulation.t) (t : R) : run_reaches self t self
| reaches_break (self self' : DiscreteEventSimulation.t) (t : R) :
    DiscreteEventSimulation.event_queue self <> [] ->
    DiscreteEventSimulation.current_time self < DiscreteEventSimulation.time_limit self ->
    DiscreteEventSimulation.event_step self t = DiscreteEventSimulation.Break self' ->
    run_reaches self t self'
| reaches_later (self self1 self' : DiscreteEventSimulation.t) (t t1 : R) :
    DiscreteEventSimulation.event_queue self <> [] ->
    DiscreteEventSimulation.current_time self < DiscreteEventSimulation.time_limit self ->
    DiscreteEventSimulation.event_step self t = DiscreteEventSimulation.Continue self1 t1 ->
    run_reaches self1 t1 self' ->
    run_reaches self t self'.

(** The unordered pair of identifiers an event reports. *)
Definition event_pair (e : CollisionEvent.t) : nat * nat :=
  sorted_pair (CollisionEvent.car_id1 e) (CollisionEvent.car_id2 e).

(** The event names the car [car_id]. *)
Definition involves (car_id : nat) (e : CollisionEvent.t) : bool :=
  (CollisionEvent.car_id1 e =? car_id)%nat || (CollisionEvent.car_id2 e =? car_id)%nat.

(** The severities of the events naming [car_id], added in order to
    [start]. *)
Definition severity_sum (car_id : nat) (events : list CollisionEvent.t) (start : R) : R :=
  fold_left (fun acc e => if involves car_id e then acc + CollisionEvent.severity e else acc)
            events start.

(** The same event with another timestamp. *)
Definition at_time (timestamp : R) (e : CollisionEvent.t) : CollisionEvent.t :=
  {| CollisionEvent.timestamp := timestamp;
     CollisionEvent.car_id1 := CollisionEvent.car_id1 e;
     CollisionEvent.car_id2 := CollisionEvent.car_id2 e;
     CollisionEvent.x := CollisionEvent.x e;
     CollisionEvent.y := CollisionEvent.y e;
     CollisionEvent.lap := CollisionEvent.lap e;
     CollisionEvent.severity := CollisionEvent.severity e |}.

(** The test the collision pass applies to an active [car1] and a later
    [car2]. *)
Definition collides (radius : R) (car1 car2 : Car.t) : bool :=
  negb (Car.eliminated car2)
  && Rltb (norm2 (Car.x car1 - Car.x car2) (Car.y car1 - Car.y car2)) radius.

(** The event recorded for a colliding pair. *)
Definition collision_event_of (timestamp : R) (car1 car2 : Car.t) : CollisionEvent.t :=
  {| CollisionEvent.timestamp := timestamp;
     CollisionEvent.car_id1 := Car.car_id car1;
     CollisionEvent.car_id2 := Car.car_id car2;
     CollisionEvent.x := (Car.x car1 + Car.x car2) / 2;
     CollisionEvent.y := (Car.y car1 + Car.y car2) / 2;
     CollisionEvent.lap := Nat.min (Car.lap_count car1) (Car.lap_count car2);
     CollisionEvent.severity := relative_speed car1 car2 |}.

(** The events of one car against the cars after it, and of a whole
    roster, as the specification words them: one event per pair of active
    cars closer than the radius, pairs in roster order. *)
Definition pair_events (radius timestamp : R) (car1 : Car.t) (rest : list Car.t)
  : list CollisionEvent.t :=
  flat_map (fun car2 => if collides radius car1 car2
                        then [collision_event_of timestamp car1 car2] else [])
           rest.

Fixpoint expected_events (radius timestamp : R) (cars : list Car.t) : list CollisionEvent.t :=
  match cars with
  | [] => []
  | car1 :: rest =>
      (if Car.eliminated car1 then [] else pair_events radius timestamp car1 rest)
      ++ expected_events radius timestamp rest
  end.

(** What one collision pass adds to a car: as many collisions as events
    name it, and their severities. *)
Definition accumulated (events : list CollisionEvent.t) (c c' : Car.t) : Prop :=
  stats_only c c'
  /\ Car.collision_count c'
     = (Car.collision_count c + length (filter (involves (Car.car_id c)) events))%nat
  /\ Car.total_collision_severity c'
     = severity_sum (Car.car_id c) events (Car.total_collision_severity c).

(** The state of a collision pass is consistent when the recorded pairs
    are those of the events reported so far, none of them twice. *)
Definition pass_invariant (st : Pass.t) : Prop :=
  map event_pair (Pass.new_collisions st) = rev (Pass.collision_pairs st)
  /\ NoDup (Pass.collision_pairs st).

(** The fields of a car that another car's controller reads and that
    [compute_control] does not write. *)
Definition pose (c : Car.t) : nat * bool * R * R * R * R :=
  (Car.car_id c, Car.eliminated c, Car.x c, Car.y c, Car.yaw c, Car.velocity c).

(** The command issued to [car] when the roster around it is [before]
    and [after]: none for an eliminated car, otherwise what the controller
    computes, after the lane-change timer tick, against the active cars of
    the roster. *)
Definition command_against (track : Track.t) (dt : R) (car : Car.t)
    (before after : list Car.t) : option (R * R) :=
  if Car.eliminated car then None
  else
    let car := RacingSimulation.tick_lane_change_timer car dt in
    Some (fst (compute_control (Car.controller car) car track
                 (active_cars (before ++ car :: after)) 50)).

(** The reference loop of the specification: every command is computed
    against the start-of-cycle state of all the other cars. *)
Fixpoint reference_from (track : Track.t) (dt : R) (before todo : list Car.t)
  : list (option (R * R)) :=
  match todo with
  | [] => []
  | car :: rest =>
      command_against track dt car before rest
      :: reference_from track dt (before ++ [car]) rest
  end.

Definition reference_commands (track : Track.t) (dt : R) (cars : list Car.t)
  : list (option (R * R)) :=
  reference_from track dt [] cars.

(** ** Sample inputs *)

(** A configuration with the documented defaults (elimination threshold 6,
    ten-per-second ticks) and a switch for the elimination flag. *)
Definition sample_controller_config : ControllerConfig.t :=
  {| ControllerConfig.desired_speed :=
       fun s => match s with
                | Strategy.aggressive => 25
                | Strategy.balanced => 20
                | _ => 15
                end;
     ControllerConfig.a_max := 3;
     ControllerConfig.b_max := 3;
     ControllerConfig.reaction_time := 3 / 2;
     ControllerConfig.min_gap := 2;
     ControllerConfig.wheelbase := 5 / 2;
     ControllerConfig.lookahead_distance := 10 |}.

Definition sample_config (num_cars : nat) (elimination_enabled : bool) : Config.t :=
  {| Config.num_cars := num_cars;
     Config.controller := sample_controller_config;
     Config.simulation :=
       {| SimulationConfig.dt := 1 / 10;
          SimulationConfig.laps := 3;
          SimulationConfig.time_limit := 2;
          SimulationConfig.collision_radius := 2;
          SimulationConfig.near_miss_ttc_threshold := 2;
          SimulationConfig.elimination :=
            Some (SimulationConfig.mk_elimination (Some elimination_enabled) (Some 6%Z)) |} |}.

(** A balanced car at position [(x, 0)] heading along the x axis, in lane
    0. *)
Definition sample_car (car_id : nat) (x : R) : Car.t :=
  Car_init car_id x 0 0 Strategy.balanced (sample_config 2 true) 0.

(** A straight centerline of [n] samples one metre apart. *)
Definition straight_centerline (n : nat) : list (R * R) :=
  map (fun k => (INR k, 0)) (seq 0 n).

(** ** Vocabulary of the further statements *)

(** What one collision pass may do to a car: nothing, or, for an active
    car, raise its collision flag and add to its collision statistics. *)
Definition hit_or_same (c c' : Car.t) : Prop :=
  c' = c
  \/ (Car.eliminated c = false /\ Car.collision_flag c' = true
      /\ stats_only c c' /\ (Car.collision_count c < Car.collision_count c')%nat).

(** One car taken through control, dynamics and reprojection against some
    roster [all_cars]. *)
Definition drive_step (track : Track.t) (dt : R) (c c' : Car.t) : Prop :=
  exists all_cars : list Car.t,
    let r := compute_control (Car.controller c) c track all_cars 50 in
    update_state (update_car_dynamics (snd r) (fst (fst r)) (snd (fst r)) dt) dt track
    = Some c'.

(** What the per-car loop of the fixed-timestep and event-driven
    schedulers does to one car: an eliminated car is skipped, an active
    one has its timer ticked and is driven. *)
Definition driven (track : Track.t) (dt : R) (c c' : Car.t) : Prop :=
  if Car.eliminated c then c' = c
  else drive_step track dt (RacingSimulation.tick_lane_change_timer c dt) c'.

(** The same for the Markov layer: between the tick and the drive the car
    may go through a strategy transition, and a car the transition flags
    is not driven. *)
Definition markov_driven (config : Config.t) (track : Track.t) (dt : R) (c c' : Car.t) : Prop :=
  if Car.eliminated c then c' = c
  else
    exists c1 : Car.t,
      (c1 = RacingSimulation.tick_lane_change_timer c dt
       \/ exists g g',
            MarkovChainSimulation._transition_state config
              (RacingSimulation.tick_lane_change_timer c dt) g = Some (c1, g'))
      /\ if Car.eliminated c1 then c' = c1 else drive_step track dt c1 c'.



(** The list [eliminated_cars] names exactly the roster positions of the
    eliminated cars, each once. *)
Definition positions_listed (eliminated_cars : list nat) (cars : list Car.t) : Prop :=
  NoDup eliminated_cars
  /\ forall k : nat,
       In k eliminated_cars
       <-> exists car, nth_error cars k = Some car /\ Car.eliminated car = true.

Definition eliminated_positions_listed (self : RacingSimulation.t) : Prop :=
  positions_listed (RacingSimulation.eliminated_cars self) (RacingSimulation.cars self).

(** An eliminated car was stopped by a collision roll below the
    threshold and carries the time of it. *)
Definition stopped_by_collision (c : Car.t) : Prop :=
  Car.eliminated c = true ->
  Car.velocity c = 0
  /\ exists (t : R) (roll threshold : Z),
       Car.elimination_time c = Some t
       /\ Car.elimination_reason c = Some (Eliminated_after_collision roll threshold)
       /\ (roll < threshold)%Z.

(** Between two states of a car its elimination record is the same, and
    so is the speed of an eliminated car. *)
Definition keeps_elimination (c c' : Car.t) : Prop :=
  elimination_record c' = elimination_record c
  /\ (Car.eliminated c = true -> Car.velocity c' = Car.velocity c).

(** Between two states of the event-driven scheduler nothing that has to
    do with eliminations or near misses has changed. *)
Definition elimination_state_kept (self self' : DiscreteEventSimulation.t) : Prop :=
  map elimination_record (DiscreteEventSimulation.cars self')
  = map elimination_record (DiscreteEventSimulation.cars self)
  /\ DiscreteEventSimulation.eliminated_cars self'
     = DiscreteEventSimulation.eliminated_cars self
  /\ DiscreteEventSimulation.near_misses self' = DiscreteEventSimulation.near_misses self
  /\ DiscreteEventSimulation.rng self' = DiscreteEventSimulation.rng self.

(** ** Further methods of [Track] ([track.py]) *)

(** [Track.get_centerline_points]. *)
Definition get_centerline_points (self : Track.t) : list R * list R :=
  (Track.centerline_x self, Track.centerline_y self).

(** [Track.get_track_boundaries]: the centerline moved by half the width
    along the normal, inward and outward; it returns
    [(inner_x, inner_y, outer_x, outer_y)]. *)
Definition get_track_boundaries (self : Track.t) : list R * list R * list R * list R :=
  let dx := np_diff (Track.centerline_x self) in
  let dy := np_diff (Track.centerline_y self) in
  let ds := zip_with norm2 dx dy in
  let tangent_x := zip_with (fun d s => d / (s + 1 / 1000000)) dx ds in
  let tangent_y := zip_with (fun d s => d / (s + 1 / 1000000)) dy ds in
  let normal_x := map Ropp tangent_y in
  let normal_y := tangent_x in
  let normal_x := normal_x ++ [last normal_x 0] in
  let normal_y := normal_y ++ [last normal_y 0] in
  let half_width := Track.width self / 2 in
  let inner_x := zip_with (fun c n => c - half_width * n) (Track.centerline_x self) normal_x in
  let inner_y := zip_with (fun c n => c - half_width * n) (Track.centerline_y self) normal_y in
  let outer_x := zip_with (fun c n => c + half_width * n) (Track.centerline_x self) normal_x in
  let outer_y := zip_with (fun c n => c + half_width * n) (Track.centerline_y self) normal_y in
  (inner_x, inner_y, outer_x, outer_y).

(** ** Vocabulary for the elimination pass *)

(** A car as the elimination roll leaves it when the roll is below the
    threshold. *)
Definition stamped (c : Car.t) (time : R) (roll threshold : Z) : Car.t :=
  Car.set_velocity
    (Car.set_elimination_reason
       (Car.set_elimination_time (Car.set_eliminated c true) (Some time))
       (Some (Eliminated_after_collision roll threshold))) 0.

(** What one elimination pass over [events] may do to a car: nothing, or,
    for an active car named by one of the events, stamp it. *)
Definition rolled_out (time : R) (threshold : Z) (events : list CollisionEvent.t)
    (c c' : Car.t) : Prop :=
  c' = c
  \/ (Car.eliminated c = false
      /\ (exists e, In e events /\ involves (Car.car_id c) e = true)
      /\ exists roll : Z, (roll < threshold)%Z /\ c' = stamped c time roll threshold).

(** A car still in the race drives one of the three strategies. *)
Definition strategy_ok (c : Car.t) : Prop :=
  Car.eliminated c = false -> Car.strategy_type c <> Strategy.eliminated.

(** The desired speed [v0 = desired_speed * speed_multiplier] of the car is
    not zero: the quotient [v / v0] of the car-following law is defined. *)
Definition v0_defined (c : Car.t) : Prop :=
  Car.desired_speed c * Car.speed_multiplier c <> 0.

(** * Theorems *)

(** * Basic facts on the numeric primitives *)

Lemma Rltb_true (a b : R) : Rltb a b = true <-> a < b.
Proof. unfold Rltb. destruct (Rlt_dec a b); split; intros; auto; discriminate. Qed.

Lemma Rltb_false (a b : R) : Rltb a b = false <-> b <= a.
Proof.
  unfold Rltb. destruct (Rlt_dec a b); split; intros; auto; try discriminate; lra.
Qed.

Lemma Rleb_true (a b : R) : Rleb a b = true <-> a <= b.
Proof. unfold Rleb. destruct (Rle_dec a b); split; intros; auto; discriminate. Qed.

Lemma Rleb_false (a b : R) : Rleb a b = false <-> b < a.
Proof.
  unfold Rleb. destruct (Rle_dec a b); split; intros; auto; try discriminate; lra.
Qed.

Lemma np_clip_bounds (a lo hi : R) : lo <= hi -> lo <= np_clip a lo hi <= hi.
Proof.
  intros H. unfold np_clip, Rmin, Rmax.
  destruct (Rle_dec a lo); destruct (Rle_dec _ hi); lra.
Qed.

(** * Velocity bound of the kinematic update *)

Lemma update_car_dynamics_velocity (car : Car.t) (a steer dt : R) :
  Car.velocity (update_car_dynamics car a steer dt)
  = np_clip (Car.velocity car + a * dt) 0 (get_max_speed car).
Proof.
  unfold update_car_dynamics. cbn.
  destruct (Rltb _ _); reflexivity.
Qed.

Lemma update_car_dynamics_max_speed (car : Car.t) (a steer dt : R) :
  get_max_speed (update_car_dynamics car a steer dt) = get_max_speed car.
Proof.
  unfold update_car_dynamics, get_max_speed. cbn.
  destruct (Rltb _ _); reflexivity.
Qed.

Lemma drive_max_speed (commands : list (R * R * R)) (car : Car.t) :
  get_max_speed (drive car commands) = get_max_speed car.
Proof.
  revert car. induction commands as [|cmd commands IH]; intros car; [reflexivity|].
  unfold drive in *. simpl. rewrite IH. apply update_car_dynamics_max_speed.
Qed.

(** C1. After [update_car_dynamics] the velocity lies in
    [[0, get_max_speed]], whatever the acceleration, steering angle and
    time step; hence after every tick of every finite command sequence the
    velocity is in [[0, desired_speed * speed_multiplier]]. *)
Theorem velocity_within_max_speed
    (car : Car.t) (commands : list (R * R * R)) (a steer dt : R) :
  0 <= get_max_speed car ->
  let car' := update_car_dynamics (drive car commands) a steer dt in
  0 <= Car.velocity car' <= Car.desired_speed car * Car.speed_multiplier car
  /\ get_max_speed car' = Car.desired_speed car * Car.speed_multiplier car.
Proof.
  intros Hmax car'. subst car'.
  rewrite update_car_dynamics_velocity, update_car_dynamics_max_speed, drive_max_speed.
  split; [|reflexivity].
  apply np_clip_bounds. exact Hmax.
Qed.

(** * Car-following law *)

(** C5. [compute_acceleration] of a controller built from the
    configuration returns the clamped free-road term when no leader is
    given, and the clamped free-road minus interaction term when a leader
    at distance [d] with relative speed [dv] is given. *)
Theorem compute_acceleration_idm
    (config : Config.t) (strategy : Strategy.t) (car leader : Car.t)
    (any_distance : option R) (d dv : R) :
  let idm := CombinedController.idm (CombinedController_init config strategy) in
  let aMax := ControllerConfig.a_max (Config.controller config) in
  let bMax := ControllerConfig.b_max (Config.controller config) in
  let gap0 := ControllerConfig.min_gap (Config.controller config) in
  let T := ControllerConfig.reaction_time (Config.controller config) in
  let v := Car.velocity car in
  let v0 := Car.desired_speed car * Car.speed_multiplier car in
  let s_star := gap0 + v * T + v * (- dv) / (2 * sqrt (aMax * bMax)) in
  compute_acceleration idm car None any_distance dv
  = Rmin (Rmax (aMax * (1 - (v / v0) ^ 4)) (- bMax)) aMax
  /\ compute_acceleration idm car (Some leader) (Some d) dv
     = Rmin (Rmax (aMax * (1 - (v / v0) ^ 4 - (s_star / Rmax d (1 / 10)) ^ 2)) (- bMax)) aMax.
Proof.
  cbv zeta. unfold compute_acceleration, CombinedController_init, np_clip. cbn.
  split; reflexivity.
Qed.

(** * Periodicity of the track position *)

Lemma py_mod_add_period (a b : R) : b <> 0 -> py_mod (a + b) b = py_mod a b.
Proof.
  intros Hb. unfold py_mod.
  replace ((a + b) / b) with (a / b + IZR 1) by (field; exact Hb).
  rewrite Zfloor_addz, plus_IZR. ring.
Qed.

(** C8. The target point at [s + total_length] is the target point at
    [s], for every look-ahead distance and lane. *)
Theorem get_target_point_periodic
    (track : Track.t) (s lookahead_distance : R) (lane : option Z) :
  Track.total_length track <> 0 ->
  Track.get_target_point track (s + Track.total_length track) lookahead_distance lane
  = Track.get_target_point track s lookahead_distance lane.
Proof.
  intros HL. unfold Track.get_target_point.
  rewrite py_mod_add_period by exact HL. reflexivity.
Qed.

(** * Nearest-sample search *)

Lemma first_argmin_unique (l : list R) (i j : nat) :
  first_argmin l i -> first_argmin l j -> i = j.
Proof.
  intros (Hi & Hmin_i & Hfirst_i) (Hj & Hmin_j & Hfirst_j).
  destruct (Nat.lt_trichotomy i j) as [Hlt | [Heq | Hgt]]; [|exact Heq|].
  - specialize (Hfirst_j i Hlt). specialize (Hmin_i j Hj). lra.
  - specialize (Hfirst_i j Hgt). specialize (Hmin_j i Hi). lra.
Qed.

Lemma first_argmin_snoc_new (pre : list R) (bi : nat) (a : R) :
  first_argmin pre bi -> a < nth bi pre 0 ->
  first_argmin (pre ++ [a]) (length pre).
Proof.
  intros (Hbi & Hmin & Hfirst) Ha.
  assert (Hnth : nth (length pre) (pre ++ [a]) 0 = a).
  { rewrite app_nth2 by lia. rewrite Nat.sub_diag. reflexivity. }
  unfold first_argmin. rewrite Hnth, length_app. simpl.
  repeat split.
  - lia.
  - intros k Hk. destruct (Nat.eq_dec k (length pre)) as [->|Hne].
    + rewrite Hnth. lra.
    + rewrite app_nth1 by lia. specialize (Hmin k ltac:(lia)). lra.
  - intros k Hk. rewrite app_nth1 by lia. specialize (Hmin k Hk). lra.
Qed.

Lemma first_argmin_snoc_keep (pre : list R) (bi : nat) (a : R) :
  first_argmin pre bi -> nth bi pre 0 <= a ->
  first_argmin (pre ++ [a]) bi.
Proof.
  intros (Hbi & Hmin & Hfirst) Ha.
  unfold first_argmin. rewrite length_app. simpl.
  rewrite (app_nth1 pre [a] 0 Hbi).
  repeat split.
  - lia.
  - intros k Hk. destruct (Nat.eq_dec k (length pre)) as [->|Hne].
    + rewrite app_nth2 by lia. rewrite Nat.sub_diag. simpl. exact Ha.
    + rewrite app_nth1 by lia. apply Hmin. lia.
  - intros k Hk. rewrite app_nth1 by lia. apply Hfirst. exact Hk.
Qed.

Lemma argmin_from_first (l pre : list R) (bi : nat) :
  first_argmin pre bi ->
  first_argmin (pre ++ l) (argmin_from bi (nth bi pre 0) (length pre) l).
Proof.
  revert pre bi. induction l as [|a l IH]; intros pre bi Hpre.
  - simpl. rewrite app_nil_r. exact Hpre.
  - simpl. destruct (Rlt_dec a (nth bi pre 0)) as [Hlt|Hge].
    + pose proof (first_argmin_snoc_new pre bi a Hpre Hlt) as Hnew.
      specialize (IH (pre ++ [a]) (length pre) Hnew).
      rewrite <- app_assoc in IH. simpl in IH.
      rewrite app_nth2 in IH by lia. rewrite Nat.sub_diag in IH. simpl in IH.
      rewrite length_app in IH. simpl in IH.
      replace (length pre + 1)%nat with (S (length pre)) in IH by lia.
      exact IH.
    + assert (Hle : nth bi pre 0 <= a) by lra.
      pose proof (first_argmin_snoc_keep pre bi a Hpre Hle) as Hkeep.
      specialize (IH (pre ++ [a]) bi Hkeep).
      rewrite <- app_assoc in IH. simpl in IH.
      destruct Hpre as (Hbi & _).
      rewrite app_nth1 in IH by exact Hbi.
      rewrite length_app in IH. simpl in IH.
      replace (length pre + 1)%nat with (S (length pre)) in IH by lia.
      exact IH.
Qed.

Lemma np_argmin_first (l : list R) :
  l <> [] -> exists i, np_argmin l = Some i /\ first_argmin l i.
Proof.
  destruct l as [|a l]; [congruence|]. intros _.
  eexists. split; [reflexivity|].
  apply (argmin_from_first l [a] 0%nat).
  unfold first_argmin. simpl. repeat split; try lia.
  intros k Hk. assert (k = 0%nat) as -> by lia. lra.
Qed.

Lemma np_argmin_of_first (l : list R) (i : nat) :
  first_argmin l i -> np_argmin l = Some i.
Proof.
  intros Hi. destruct (np_argmin_first l) as (j & Hj & Hfirst).
  - destruct Hi as (Hlen & _). destruct l; simpl in Hlen; [lia|congruence].
  - rewrite Hj. f_equal. eapply first_argmin_unique; eassumption.
Qed.

(** ** Slices *)

Lemma py_slice_length {A : Type} (l : list A) (start stop : nat) :
  (stop <= length l)%nat -> length (py_slice l start stop) = (stop - start)%nat.
Proof.
  intros H. unfold py_slice. rewrite length_firstn, length_skipn. lia.
Qed.

Lemma py_slice_nth (l : list R) (start stop k : nat) :
  (k < stop - start)%nat -> nth k (py_slice l start stop) 0 = nth (start + k) l 0.
Proof.
  intros Hk. unfold py_slice.
  rewrite nth_firstn. replace (k <? stop - start)%nat with true
    by (symmetry; apply Nat.ltb_lt; exact Hk).
  apply nth_skipn.
Qed.

Lemma first_argmin_slice (l : list R) (i start stop : nat) :
  first_argmin l i -> (start <= i < stop)%nat -> (stop <= length l)%nat ->
  first_argmin (py_slice l start stop) (i - start).
Proof.
  intros (Hi & Hmin & Hfirst) Hwin Hstop.
  unfold first_argmin. rewrite py_slice_length by exact Hstop.
  rewrite py_slice_nth by lia.
  replace (start + (i - start))%nat with i by lia.
  repeat split.
  - lia.
  - intros k Hk. rewrite py_slice_nth by exact Hk. apply Hmin. lia.
  - intros k Hk. rewrite py_slice_nth by lia. apply Hfirst. lia.
Qed.

Lemma zip_with_length {A B C : Type} (f : A -> B -> C) (l1 : list A) (l2 : list B) :
  length (zip_with f l1 l2) = Nat.min (length l1) (length l2).
Proof.
  revert l2. induction l1 as [|a l1 IH]; intros [|b l2]; simpl; auto.
Qed.

Lemma zip_with_skipn {A B C : Type} (f : A -> B -> C) (n : nat) (l1 : list A) (l2 : list B) :
  zip_with f (skipn n l1) (skipn n l2) = skipn n (zip_with f l1 l2).
Proof.
  revert l1 l2. induction n as [|n IH]; intros l1 l2; [reflexivity|].
  destruct l1 as [|a l1]; destruct l2 as [|b l2]; simpl; auto;
    rewrite ?skipn_nil; try reflexivity.
  destruct (skipn n l1); reflexivity.
Qed.

Lemma zip_with_firstn {A B C : Type} (f : A -> B -> C) (n : nat) (l1 : list A) (l2 : list B) :
  zip_with f (firstn n l1) (firstn n l2) = firstn n (zip_with f l1 l2).
Proof.
  revert l1 l2. induction n as [|n IH]; intros l1 l2; [reflexivity|].
  destruct l1 as [|a l1]; destruct l2 as [|b l2]; simpl; auto.
  f_equal. apply IH.
Qed.

Lemma distances_to_slice (cx cy : list R) (x y : R) (start stop : nat) :
  Track.distances_to (py_slice cx start stop) (py_slice cy start stop) x y
  = py_slice (Track.distances_to cx cy x y) start stop.
Proof.
  unfold Track.distances_to, py_slice.
  rewrite zip_with_firstn, zip_with_skipn. reflexivity.
Qed.

(** ** Shape of a constructed track *)

Lemma np_diff_length (l : list R) : length (np_diff l) = (length l - 1)%nat.
Proof.
  induction l as [|a [|b l] IH]; simpl in *; try reflexivity.
  rewrite IH. lia.
Qed.

Lemma cumsum_from_length (acc : R) (l : list R) : length (cumsum_from acc l) = length l.
Proof.
  revert acc. induction l as [|a l IH]; intros acc; simpl; [reflexivity|].
  rewrite IH. reflexivity.
Qed.

Lemma segment_lengths_length (cx cy : list R) :
  length cx = length cy ->
  length (Track.segment_lengths cx cy) = (length cx - 1)%nat.
Proof.
  intros H. unfold Track.segment_lengths.
  rewrite zip_with_length, !np_diff_length. lia.
Qed.

Lemma Track_init_fields (rx ry w : R) (nl : nat) (cl : list (R * R)) (t : Track.t) :
  Track.init rx ry w nl cl = Some t ->
  (2 <= length cl)%nat
  /\ Track.centerline_x t = map fst cl
  /\ Track.centerline_y t = map snd cl
  /\ Track.arc_lengths t = Track._compute_arc_lengths (map fst cl) (map snd cl)
  /\ Track.total_length t = Track._compute_total_length (map fst cl) (map snd cl)
  /\ Track.x_interp t = interp1d.mk (Track.arc_lengths t) (map fst cl)
  /\ Track.y_interp t = interp1d.mk (Track.arc_lengths t) (map snd cl).
Proof.
  unfold Track.init. destruct (nl =? 0)%nat; [discriminate|].
  destruct (length cl <? 2)%nat eqn:Hlen; [discriminate|].
  apply Nat.ltb_ge in Hlen.
  intros H. injection H as <-. simpl. repeat split; auto.
Qed.

Lemma arc_lengths_length (cx cy : list R) :
  length cx = length cy -> (1 <= length cx)%nat ->
  length (Track._compute_arc_lengths cx cy) = length cx.
Proof.
  intros Heq Hpos. unfold Track._compute_arc_lengths, np_cumsum. simpl.
  rewrite cumsum_from_length, segment_lengths_length by exact Heq. lia.
Qed.

Lemma distances_to_length (cl : list (R * R)) (x y : R) :
  length (Track.distances_to (map fst cl) (map snd cl) x y) = length cl.
Proof.
  unfold Track.distances_to. rewrite zip_with_length, !length_map. lia.
Qed.

(** The refinement window always contains the coarse index and returns it:
    the shared core of the projection results. *)
Lemma refined_idx_is_closest
    (rx ry w : R) (nl : nat) (cl : list (R * R)) (t : Track.t) (x y : R) :
  Track.init rx ry w nl cl = Some t ->
  (10 <= length cl)%nat ->
  exists i0,
    first_argmin (Track.distances_to (Track.centerline_x t) (Track.centerline_y t) x y) i0
    /\ Track.closest_idx t x y = Some i0
    /\ Track.refined_idx t x y = Some i0
    /\ Track.project_car_position t x y = Some (nth i0 (Track.arc_lengths t) 0).
Proof.
  intros Hinit Hlen.
  destruct (Track_init_fields _ _ _ _ _ _ Hinit) as (_ & Hcx & Hcy & Harcs & _).
  assert (Hal : length (Track.arc_lengths t) = length cl).
  { rewrite Harcs, arc_lengths_length; rewrite ?length_map; auto; lia. }
  set (D := Track.distances_to (Track.centerline_x t) (Track.centerline_y t) x y).
  assert (HD : length D = length cl).
  { unfold D. rewrite Hcx, Hcy. apply distances_to_length. }
  destruct (np_argmin_first D) as (i0 & Harg & Hfirst).
  { intros HD0. rewrite HD0 in HD. simpl in HD. lia. }
  exists i0. split; [exact Hfirst|]. split; [exact Harg|].
  assert (Hi0 : (i0 < length cl)%nat) by (destruct Hfirst as (H & _); lia).
  assert (Href : Track.refined_idx t x y = Some i0).
  { unfold Track.refined_idx. fold D. rewrite Harg.
    rewrite distances_to_slice. fold D. rewrite Hal.
    set (sr := Z.min 50 (Z.of_nat (length cl) / 10)).
    assert (Hsr : (1 <= sr)%Z).
    { unfold sr. apply Z.min_glb; [lia|].
      apply Z.div_le_lower_bound; lia. }
    set (start := Z.to_nat (Z.max 0 (Z.of_nat i0 - sr))).
    set (stop := Z.to_nat (Z.min (Z.of_nat (length cl)) (Z.of_nat i0 + sr))).
    assert (Hwin : (start <= i0 < stop)%nat) by (unfold start, stop; lia).
    assert (Hstop : (stop <= length D)%nat) by (unfold stop; lia).
    rewrite (np_argmin_of_first _ (i0 - start)%nat)
      by (apply first_argmin_slice; assumption).
    f_equal. lia. }
  split; [exact Href|].
  unfold Track.project_car_position. rewrite Href.
  apply nth_error_nth'. lia.
Qed.

Lemma zip_with_nth {A B C : Type} (f : A -> B -> C) (l1 : list A) (l2 : list B)
    (k : nat) (da : A) (db : B) (dc : C) :
  (k < length l1)%nat -> (k < length l2)%nat ->
  nth k (zip_with f l1 l2) dc = f (nth k l1 da) (nth k l2 db).
Proof.
  revert l2 k. induction l1 as [|a l1 IH]; intros [|b l2] k H1 H2; simpl in *; try lia.
  destruct k; [reflexivity|]. apply IH; lia.
Qed.

Lemma distances_to_nth (cx cy : list R) (x y : R) (k : nat) :
  (k < length cx)%nat -> (k < length cy)%nat ->
  nth k (Track.distances_to cx cy x y) 0
  = sqrt ((nth k cx 0 - x) ^ 2 + (nth k cy 0 - y) ^ 2).
Proof.
  intros Hx Hy. unfold Track.distances_to.
  rewrite (zip_with_nth _ _ _ k 0 0 0) by assumption. reflexivity.
Qed.

(** C10. On a track of at least ten samples, [project_car_position]
    returns [arc_lengths[i0]] for the first index [i0] that minimizes the
    distance [sqrt ((centerline_x[k] - x)^2 + (centerline_y[k] - y)^2)] from
    the query point to the centerline samples; the refined index equals
    the coarse closest index, ties included. *)
Theorem project_car_position_coarse_nearest
    (rx ry w : R) (nl : nat) (cl : list (R * R)) (t : Track.t) (x y : R) :
  Track.init rx ry w nl cl = Some t ->
  (10 <= length cl)%nat ->
  exists i0,
    (i0 < length (Track.centerline_x t))%nat
    /\ length (Track.centerline_y t) = length (Track.centerline_x t)
    /\ length (Track.arc_lengths t) = length (Track.centerline_x t)
    /\ (forall k, (k < length (Track.centerline_x t))%nat ->
          sqrt ((nth i0 (Track.centerline_x t) 0 - x) ^ 2
                + (nth i0 (Track.centerline_y t) 0 - y) ^ 2)
          <= sqrt ((nth k (Track.centerline_x t) 0 - x) ^ 2
                   + (nth k (Track.centerline_y t) 0 - y) ^ 2))
    /\ (forall k, (k < i0)%nat ->
          sqrt ((nth i0 (Track.centerline_x t) 0 - x) ^ 2
                + (nth i0 (Track.centerline_y t) 0 - y) ^ 2)
          < sqrt ((nth k (Track.centerline_x t) 0 - x) ^ 2
                  + (nth k (Track.centerline_y t) 0 - y) ^ 2))
    /\ Track.closest_idx t x y = Some i0
    /\ Track.refined_idx t x y = Track.closest_idx t x y
    /\ Track.project_car_position t x y = Some (nth i0 (Track.arc_lengths t) 0).
Proof.
  intros Hinit Hlen.
  destruct (refined_idx_is_closest rx ry w nl cl t x y Hinit Hlen)
    as (i0 & (Hi0 & Hmin & Hstrict) & Hclosest & Href & Hproj).
  destruct (Track_init_fields _ _ _ _ _ _ Hinit) as (_ & Hcx & Hcy & Harcs & _).
  assert (Hlx : length (Track.centerline_x t) = length cl)
    by (rewrite Hcx; apply length_map).
  assert (Hly : length (Track.centerline_y t) = length cl)
    by (rewrite Hcy; apply length_map).
  assert (Hal : length (Track.arc_lengths t) = length cl).
  { rewrite Harcs, arc_lengths_length; rewrite ?length_map; auto; lia. }
  assert (HD : length (Track.distances_to (Track.centerline_x t) (Track.centerline_y t) x y)
               = length cl).
  { rewrite Hcx, Hcy. apply distances_to_length. }
  rewrite HD in Hi0, Hmin.
  exists i0. rewrite Hclosest, Hlx.
  split; [exact Hi0|]. split; [exact Hly|]. split; [exact Hal|].
  split; [|split; [|auto]].
  - intros k Hk. specialize (Hmin k Hk).
    rewrite !distances_to_nth in Hmin by lia. exact Hmin.
  - intros k Hk. specialize (Hstrict k Hk).
    rewrite !distances_to_nth in Hstrict by lia. exact Hstrict.
Qed.

(** With fewer than ten samples the window of the refinement is empty and
    the projection raises. *)
Lemma project_car_position_small_track
    (rx ry w : R) (nl : nat) (cl : list (R * R)) (t : Track.t) (x y : R) :
  Track.init rx ry w nl cl = Some t ->
  (length cl < 10)%nat ->
  Track.project_car_position t x y = None.
Proof.
  intros Hinit Hlen.
  destruct (Track_init_fields _ _ _ _ _ _ Hinit) as (Hmin & Hcx & Hcy & Harcs & _).
  assert (Hal : length (Track.arc_lengths t) = length cl).
  { rewrite Harcs, arc_lengths_length; rewrite ?length_map; auto; lia. }
  unfold Track.project_car_position, Track.refined_idx.
  destruct (np_argmin _) as [i0|]; [|reflexivity].
  rewrite Hal.
  replace (Z.of_nat (length cl) / 10)%Z with 0%Z
    by (symmetry; apply Z.div_small; lia).
  replace (Z.min 50 0) with 0%Z by reflexivity.
  rewrite distances_to_slice. unfold py_slice.
  replace (Z.to_nat (Z.min (Z.of_nat (length cl)) (Z.of_nat i0 + 0))
           - Z.to_nat (Z.max 0 (Z.of_nat i0 - 0)))%nat with 0%nat by lia.
  reflexivity.
Qed.

(** * Round trip of the projection *)

(** ** Euclidean norm *)

Lemma norm2_nonneg (a b : R) : 0 <= norm2 a b.
Proof. unfold norm2. apply sqrt_pos. Qed.

Lemma norm2_dist_euc (a b : R) : norm2 a b = dist_euc a b 0 0.
Proof. unfold norm2, dist_euc, Rsqr. f_equal. ring. Qed.

Lemma norm2_sub_dist_euc (x0 y0 x1 y1 : R) : norm2 (x0 - x1) (y0 - y1) = dist_euc x0 y0 x1 y1.
Proof. unfold norm2, dist_euc, Rsqr. f_equal. ring. Qed.

Lemma norm2_triangle (x0 y0 x1 y1 x2 y2 : R) :
  norm2 (x0 - x1) (y0 - y1) <= norm2 (x0 - x2) (y0 - y2) + norm2 (x2 - x1) (y2 - y1).
Proof. rewrite !norm2_sub_dist_euc. apply triangle. Qed.

Lemma norm2_scale (k a b : R) : norm2 (k * a) (k * b) = Rabs k * norm2 a b.
Proof.
  unfold norm2.
  replace ((k * a) ^ 2 + (k * b) ^ 2) with (k ^ 2 * (a ^ 2 + b ^ 2)) by ring.
  rewrite sqrt_mult; [|nra|nra].
  f_equal. replace (k ^ 2) with (Rsqr k) by (unfold Rsqr; ring).
  apply sqrt_Rsqr_abs.
Qed.

Lemma norm2_sym (a b : R) : norm2 (- a) (- b) = norm2 a b.
Proof. unfold norm2. f_equal. ring. Qed.

Lemma norm2_zero (a b : R) : norm2 a b = 0 -> a = 0 /\ b = 0.
Proof.
  unfold norm2. intros H. apply sqrt_eq_0 in H; [|nra]. split; nra.
Qed.

(** ** Tables *)

Lemma np_diff_nth (l : list R) (k : nat) :
  (S k < length l)%nat -> nth k (np_diff l) 0 = nth (S k) l 0 - nth k l 0.
Proof.
  revert k. induction l as [|a [|b l] IH]; intros k Hk; simpl in Hk; try lia.
  destruct k; [reflexivity|].
  change (np_diff (a :: b :: l)) with ((b - a) :: np_diff (b :: l)).
  change (nth (S k) ((b - a) :: np_diff (b :: l)) 0) with (nth k (np_diff (b :: l)) 0).
  rewrite IH by (simpl; lia). reflexivity.
Qed.

Lemma segment_lengths_nth (cx cy : list R) (k : nat) :
  length cx = length cy -> (S k < length cx)%nat ->
  nth k (Track.segment_lengths cx cy) 0
  = norm2 (nth (S k) cx 0 - nth k cx 0) (nth (S k) cy 0 - nth k cy 0).
Proof.
  intros Heq Hk. unfold Track.segment_lengths.
  rewrite (zip_with_nth norm2 _ _ k 0 0 0) by (rewrite np_diff_length; lia).
  rewrite !np_diff_nth by lia. reflexivity.
Qed.

Lemma cumsum_from_step (l : list R) (acc : R) (k : nat) :
  (k < length l)%nat ->
  nth (S k) (acc :: cumsum_from acc l) 0 = nth k (acc :: cumsum_from acc l) 0 + nth k l 0.
Proof.
  revert acc k. induction l as [|a l IH]; intros acc k Hk; simpl in Hk; [lia|].
  destruct k as [|k]; [reflexivity|].
  change (nth (S (S k)) (acc :: cumsum_from acc (a :: l)) 0)
    with (nth (S k) ((acc + a) :: cumsum_from (acc + a) l) 0).
  change (nth (S k) (acc :: cumsum_from acc (a :: l)) 0)
    with (nth k ((acc + a) :: cumsum_from (acc + a) l) 0).
  rewrite IH by lia. reflexivity.
Qed.

Lemma cumsum_from_last (l : list R) (acc : R) :
  nth (length l) (acc :: cumsum_from acc l) 0 = fold_left Rplus l acc.
Proof.
  revert acc. induction l as [|a l IH]; intros acc; [reflexivity|].
  simpl length. simpl fold_left. rewrite <- IH. reflexivity.
Qed.

Section Constructed_track.

Variables (rx ry w : R) (nl : nat) (cl : list (R * R)) (t : Track.t).
Hypothesis Hinit : Track.init rx ry w nl cl = Some t.

Lemma constructed_lengths :
  (2 <= length cl)%nat
  /\ length (Track.centerline_x t) = length cl
  /\ length (Track.centerline_y t) = length cl
  /\ length (Track.arc_lengths t) = length cl.
Proof.
  destruct (Track_init_fields _ _ _ _ _ _ Hinit) as (Hmin & Hcx & Hcy & Harcs & _).
  rewrite Harcs, Hcx, Hcy, arc_lengths_length; rewrite ?length_map; auto.
  lia.
Qed.

Lemma sample_x_nth (k : nat) : sample_x t k = fst (nth k cl (0, 0)).
Proof.
  destruct (Track_init_fields _ _ _ _ _ _ Hinit) as (_ & Hcx & _).
  unfold sample_x. rewrite Hcx. change 0 with (fst (0, 0)) at 1. apply map_nth.
Qed.

Lemma sample_y_nth (k : nat) : sample_y t k = snd (nth k cl (0, 0)).
Proof.
  destruct (Track_init_fields _ _ _ _ _ _ Hinit) as (_ & _ & Hcy & _).
  unfold sample_y. rewrite Hcy. change 0 with (snd (0, 0)) at 1. apply map_nth.
Qed.

Lemma arc_0 : arc t 0 = 0.
Proof.
  destruct (Track_init_fields _ _ _ _ _ _ Hinit) as (_ & _ & _ & Harcs & _).
  unfold arc. rewrite Harcs. reflexivity.
Qed.

Lemma arc_step (k : nat) :
  (S k < length cl)%nat ->
  arc t (S k)
  = arc t k + norm2 (sample_x t (S k) - sample_x t k) (sample_y t (S k) - sample_y t k).
Proof.
  intros Hk.
  destruct (Track_init_fields _ _ _ _ _ _ Hinit) as (_ & Hcx & Hcy & Harcs & _).
  unfold arc, sample_x, sample_y. rewrite Harcs, Hcx, Hcy.
  unfold Track._compute_arc_lengths, np_cumsum.
  rewrite cumsum_from_step.
  - rewrite segment_lengths_nth; rewrite ?length_map; auto.
  - rewrite segment_lengths_length; rewrite ?length_map; auto. lia.
Qed.

Lemma arc_mono_step (k : nat) : (S k < length cl)%nat -> arc t k <= arc t (S k).
Proof.
  intros Hk. rewrite arc_step by exact Hk.
  pose proof (norm2_nonneg (sample_x t (S k) - sample_x t k)
                (sample_y t (S k) - sample_y t k)). lra.
Qed.

Lemma arc_mono (j k : nat) : (j <= k)%nat -> (k < length cl)%nat -> arc t j <= arc t k.
Proof.
  intros Hjk. induction Hjk as [|k Hjk IH]; intros Hk; [lra|].
  pose proof (arc_mono_step k Hk). specialize (IH ltac:(lia)). lra.
Qed.

Lemma total_length_last : Track.total_length t = arc t (length cl - 1).
Proof.
  destruct (Track_init_fields _ _ _ _ _ _ Hinit) as (Hmin & _ & _ & Harcs & Htot & _).
  unfold arc. rewrite Harcs, Htot.
  unfold Track._compute_total_length, Track._compute_arc_lengths, np_cumsum, np_sum.
  rewrite <- cumsum_from_last.
  rewrite segment_lengths_length by (rewrite !length_map; reflexivity).
  rewrite length_map. reflexivity.
Qed.

End Constructed_track.

(** ** Position on a segment *)

Lemma py_mod_small (s L : R) : 0 <= s < L -> py_mod s L = s.
Proof.
  intros [H0 HL]. unfold py_mod.
  assert (Hfl : Zfloor (s / L) = 0%Z).
  { apply Zfloor_eq. simpl. split.
    - apply Rmult_le_pos; [lra|]. left. apply Rinv_0_lt_compat. lra.
    - apply (Rmult_lt_reg_r L); [lra|]. field_simplify; lra. }
  rewrite Hfl. simpl. ring.
Qed.

Lemma searchsorted_spec (xs : list R) (v : R) :
  (searchsorted xs v <= length xs)%nat
  /\ (forall k, (k < searchsorted xs v)%nat -> nth k xs 0 < v)
  /\ ((searchsorted xs v < length xs)%nat -> v <= nth (searchsorted xs v) xs 0).
Proof.
  induction xs as [|a xs (IHlen & IHlt & IHge)]; simpl.
  - repeat split; intros; lia.
  - destruct (Rlt_dec a v) as [Hlt|Hge]; simpl.
    + repeat split.
      * lia.
      * intros [|k] Hk; [exact Hlt|]. apply IHlt. lia.
      * intros Hk. apply IHge. lia.
    + repeat split; intros; try lia. lra.
Qed.

(** A point at distance [d] from [a] on the segment from [a] to [b] of
    length [h]: its distances to both ends, and a lower bound of its
    distance to any [c] through the midpoint of the segment. *)
Lemma on_segment_distances (ax ay bx by_ cx cy h d : R) :
  h = norm2 (bx - ax) (by_ - ay) -> 0 < h -> 0 <= d <= h ->
  let qx := (bx - ax) / h * d + ax in
  let qy := (by_ - ay) / h * d + ay in
  norm2 (ax - qx) (ay - qy) = d
  /\ norm2 (bx - qx) (by_ - qy) = h - d
  /\ norm2 (cx - (ax + bx) / 2) (cy - (ay + by_) / 2) - Rabs (h / 2 - d)
     <= norm2 (cx - qx) (cy - qy).
Proof.
  intros Hh Hpos Hd qx qy.
  assert (Ha : norm2 (ax - qx) (ay - qy) = d).
  { replace (ax - qx) with (- (d / h) * (bx - ax)) by (unfold qx; field; lra).
    replace (ay - qy) with (- (d / h) * (by_ - ay)) by (unfold qy; field; lra).
    rewrite norm2_scale, <- Hh, Rabs_Ropp, Rabs_right.
    - field. lra.
    - apply Rle_ge. apply Rmult_le_pos; [lra|]. left. apply Rinv_0_lt_compat. lra. }
  assert (Hb : norm2 (bx - qx) (by_ - qy) = h - d).
  { replace (bx - qx) with ((1 - d / h) * (bx - ax)) by (unfold qx; field; lra).
    replace (by_ - qy) with ((1 - d / h) * (by_ - ay)) by (unfold qy; field; lra).
    rewrite norm2_scale, <- Hh, Rabs_right.
    - field. lra.
    - apply Rle_ge. apply (Rmult_le_reg_r h); [lra|]. field_simplify; lra. }
  assert (Hm : norm2 (qx - (ax + bx) / 2) (qy - (ay + by_) / 2) = Rabs (h / 2 - d)).
  { replace (qx - (ax + bx) / 2) with ((d / h - 1 / 2) * (bx - ax)) by (unfold qx; field; lra).
    replace (qy - (ay + by_) / 2) with ((d / h - 1 / 2) * (by_ - ay))
      by (unfold qy; field; lra).
    rewrite norm2_scale, <- Hh.
    replace (h / 2 - d) with (- ((d / h - 1 / 2) * h)) by (field; lra).
    rewrite Rabs_Ropp, Rabs_mult, (Rabs_right h) by lra. reflexivity. }
  split; [exact Ha|]. split; [exact Hb|].
  pose proof (norm2_triangle cx cy ((ax + bx) / 2) ((ay + by_) / 2) qx qy) as Htri.
  rewrite Hm in Htri. lra.
Qed.

Section Round_trip.

Variables (rx ry w : R) (nl : nat) (cl : list (R * R)) (t : Track.t).
Hypothesis Hinit : Track.init rx ry w nl cl = Some t.

Lemma bracketing (s : R) :
  0 <= s < Track.total_length t ->
  exists i : nat,
    (S i < length cl)%nat /\ arc t i <= s <= arc t (S i)
    /\ Z.min (Z.max (Z.of_nat (searchsorted (Track.arc_lengths t) s)) 1)
             (Z.of_nat (length (Track.arc_lengths t)) - 1) = Z.of_nat (S i).
Proof.
  intros [Hs0 HsL].
  destruct (constructed_lengths rx ry w nl cl t Hinit) as (Hn & _ & _ & Hal).
  rewrite (total_length_last rx ry w nl cl t Hinit) in HsL.
  destruct (searchsorted_spec (Track.arc_lengths t) s) as (Hle & Hlt & Hge).
  set (i := searchsorted (Track.arc_lengths t) s) in *.
  assert (Hi : (i <= length cl - 1)%nat).
  { destruct (Nat.le_gt_cases i (length cl - 1)) as [H|H]; [exact H|].
    specialize (Hlt (length cl - 1)%nat H). unfold arc in HsL. lra. }
  rewrite Hal in *.
  destruct i as [|i'].
  - exists 0%nat. split; [lia|]. split; [|lia].
    specialize (Hge ltac:(lia)).
    change (nth 0 (Track.arc_lengths t) 0) with (arc t 0) in Hge.
    rewrite (arc_0 rx ry w nl cl t Hinit) in *.
    pose proof (arc_mono_step rx ry w nl cl t Hinit 0 ltac:(lia)) as Hm.
    rewrite (arc_0 rx ry w nl cl t Hinit) in Hm. lra.
  - exists i'. split; [lia|]. split; [|lia].
    specialize (Hge ltac:(lia)). specialize (Hlt i' ltac:(lia)).
    unfold arc. lra.
Qed.

Lemma position_at_on_segment (s : R) :
  0 <= s < Track.total_length t ->
  exists i : nat,
    (S i < length cl)%nat /\ arc t i <= s <= arc t (S i)
    /\ position_at t s
       = ((sample_x t (S i) - sample_x t i) / (arc t (S i) - arc t i) * (s - arc t i)
          + sample_x t i,
          (sample_y t (S i) - sample_y t i) / (arc t (S i) - arc t i) * (s - arc t i)
          + sample_y t i).
Proof.
  intros Hs. destruct (bracketing s Hs) as (i & Hi & Harc & Hidx).
  exists i. split; [exact Hi|]. split; [exact Harc|].
  destruct (Track_init_fields _ _ _ _ _ _ Hinit) as (_ & Hcx & Hcy & _ & _ & Hxi & Hyi).
  unfold position_at, Track.get_target_point.
  rewrite (py_mod_small s) by exact Hs.
  rewrite Rplus_0_r, (py_mod_small s) by exact Hs.
  rewrite Hxi, Hyi. unfold interp1d.call. simpl interp1d.xs. simpl interp1d.ys.
  rewrite Hidx.
  replace (Z.to_nat (Z.of_nat (S i) - 1)) with i by lia.
  rewrite Nat2Z.id.
  unfold arc, sample_x, sample_y. rewrite Hcx, Hcy. reflexivity.
Qed.

Hypothesis Hsampled : well_sampled cl.
Hypothesis Hlen : (10 <= length cl)%nat.

Lemma segment_positive (i : nat) :
  (S i < length cl)%nat -> arc t i < arc t (S i).
Proof.
  intros Hi. rewrite (arc_step rx ry w nl cl t Hinit i Hi).
  pose proof (norm2_nonneg (sample_x t (S i) - sample_x t i)
                (sample_y t (S i) - sample_y t i)) as Hnn.
  destruct Hnn as [Hpos|Hzero]; [lra|]. exfalso.
  symmetry in Hzero. apply norm2_zero in Hzero. destruct Hzero as [Hx Hy].
  rewrite !(sample_x_nth rx ry w nl cl t Hinit) in Hx.
  rewrite !(sample_y_nth rx ry w nl cl t Hinit) in Hy.
  destruct i as [|i'].
  - (* sample 0 would sit on the end of segment 1 *)
    pose proof (Hsampled 1%nat 0%nat ltac:(lia) ltac:(lia) ltac:(lia) ltac:(lia)) as H.
    cbv zeta in H.
    replace (fst (nth 0 cl (0, 0))) with (fst (nth 1 cl (0, 0))) in H by lra.
    replace (snd (nth 0 cl (0, 0))) with (snd (nth 1 cl (0, 0))) in H by lra.
    set (a1 := fst (nth 1 cl (0, 0))) in *. set (b1 := snd (nth 1 cl (0, 0))) in *.
    set (a2 := fst (nth 2 cl (0, 0))) in *. set (b2 := snd (nth 2 cl (0, 0))) in *.
    replace (a1 - (a1 + a2) / 2) with (- (1 / 2) * (a2 - a1)) in H by field.
    replace (b1 - (b1 + b2) / 2) with (- (1 / 2) * (b2 - b1)) in H by field.
    rewrite norm2_scale, Rabs_Ropp, Rabs_right in H by lra. lra.
  - (* sample i'+2 would sit on the end of segment i' *)
    pose proof (Hsampled i' (S (S i')) ltac:(lia) ltac:(lia) ltac:(lia) ltac:(lia)) as H.
    cbv zeta in H.
    replace (fst (nth (S (S i')) cl (0, 0))) with (fst (nth (S i') cl (0, 0))) in H by lra.
    replace (snd (nth (S (S i')) cl (0, 0))) with (snd (nth (S i') cl (0, 0))) in H by lra.
    set (a1 := fst (nth i' cl (0, 0))) in *. set (b1 := snd (nth i' cl (0, 0))) in *.
    set (a2 := fst (nth (S i') cl (0, 0))) in *. set (b2 := snd (nth (S i') cl (0, 0))) in *.
    replace (a2 - (a1 + a2) / 2) with ((1 / 2) * (a2 - a1)) in H by field.
    replace (b2 - (b1 + b2) / 2) with ((1 / 2) * (b2 - b1)) in H by field.
    rewrite norm2_scale, Rabs_right in H by lra. lra.
Qed.

Lemma distances_nth (x y : R) (k : nat) :
  (k < length cl)%nat ->
  nth k (Track.distances_to (Track.centerline_x t) (Track.centerline_y t) x y) 0
  = norm2 (sample_x t k - x) (sample_y t k - y).
Proof.
  intros Hk.
  destruct (constructed_lengths rx ry w nl cl t Hinit) as (_ & Hlx & Hly & _).
  unfold Track.distances_to.
  rewrite (zip_with_nth _ _ _ k 0 0 0) by lia. reflexivity.
Qed.

Lemma round_trip_core (s : R) :
  0 <= s < Track.total_length t ->
  exists (r : R) (i : nat),
    Track.project_car_position t (fst (position_at t s)) (snd (position_at t s)) = Some r
    /\ (S i < length cl)%nat
    /\ arc t i <= s <= arc t (S i)
    /\ Rabs (r - s) <= (arc t (S i) - arc t i) / 2.
Proof.
  intros Hs.
  destruct (position_at_on_segment s Hs) as (i & Hi & Harc & Hpos).
  pose proof (segment_positive i Hi) as Hseg.
  set (h := arc t (S i) - arc t i) in *.
  set (d := s - arc t i) in *.
  rewrite Hpos. simpl fst. simpl snd.
  set (qx := (sample_x t (S i) - sample_x t i) / h * d + sample_x t i).
  set (qy := (sample_y t (S i) - sample_y t i) / h * d + sample_y t i).
  assert (Hh : h = norm2 (sample_x t (S i) - sample_x t i) (sample_y t (S i) - sample_y t i)).
  { unfold h. rewrite (arc_step rx ry w nl cl t Hinit i Hi). ring. }
  assert (Hd : 0 <= d <= h) by (unfold d, h; lra).
  assert (Hhpos : 0 < h) by (unfold h; lra).
  destruct (refined_idx_is_closest rx ry w nl cl t qx qy Hinit Hlen)
    as (i0 & (Hi0 & Hmin & _) & _ & _ & Hproj).
  rewrite Hproj. exists (nth i0 (Track.arc_lengths t) 0), i.
  split; [reflexivity|]. split; [exact Hi|]. split; [exact Harc|].
  destruct (constructed_lengths rx ry w nl cl t Hinit) as (_ & Hlx & Hly & _).
  assert (HDlen : length (Track.distances_to (Track.centerline_x t) (Track.centerline_y t)
                            qx qy) = length cl).
  { unfold Track.distances_to. rewrite zip_with_length. lia. }
  rewrite HDlen in Hi0, Hmin.
  pose proof (Hmin i ltac:(lia)) as Hlo. pose proof (Hmin (S i) Hi) as Hhi.
  rewrite !distances_nth in Hlo, Hhi by lia.
  change (nth i0 (Track.arc_lengths t) 0) with (arc t i0).
  destruct (Nat.eq_dec i0 i) as [->|Hne1].
  - (* nearest sample is the lower end *)
    destruct (on_segment_distances (sample_x t i) (sample_y t i)
                (sample_x t (S i)) (sample_y t (S i)) 0 0 h d Hh Hhpos Hd)
      as (Ha & Hb & _).
    fold qx qy in Ha, Hb. rewrite Ha, Hb in Hhi.
    unfold d, h in *. rewrite Rabs_left1; lra.
  - destruct (Nat.eq_dec i0 (S i)) as [->|Hne2].
    + destruct (on_segment_distances (sample_x t i) (sample_y t i)
                  (sample_x t (S i)) (sample_y t (S i)) 0 0 h d Hh Hhpos Hd)
        as (Ha & Hb & _).
      fold qx qy in Ha, Hb. rewrite Ha, Hb in Hlo.
      unfold d, h in *. rewrite Rabs_right; lra.
    + (* any other sample is farther than the nearer end *)
      exfalso.
      destruct (on_segment_distances (sample_x t i) (sample_y t i)
                  (sample_x t (S i)) (sample_y t (S i))
                  (sample_x t i0) (sample_y t i0) h d Hh Hhpos Hd)
        as (Ha & Hb & Hc).
      fold qx qy in Ha, Hb, Hc. rewrite Ha in Hlo. rewrite Hb in Hhi.
      pose proof (Hsampled i i0 Hi Hi0 Hne1 Hne2) as Hgab. cbv zeta in Hgab.
      rewrite <- !(sample_x_nth rx ry w nl cl t Hinit) in Hgab.
      rewrite <- !(sample_y_nth rx ry w nl cl t Hinit) in Hgab.
      rewrite <- Hh in Hgab.
      unfold Rabs in Hc. destruct (Rcase_abs (h / 2 - d)); unfold d, h in *; lra.
Qed.

End Round_trip.

(** C7. On a well-sampled centerline of at least ten samples, projecting
    the centerline point at arc length [s] gives the arc length of a sample
    bracketing [s], within the spacing of those two samples (indeed within
    half of it). *)
Theorem projection_round_trip
    (rx ry w : R) (nl : nat) (cl : list (R * R)) (t : Track.t) (s : R) :
  Track.init rx ry w nl cl = Some t ->
  well_sampled cl ->
  (10 <= length cl)%nat ->
  0 <= s < Track.total_length t ->
  exists (r : R) (i : nat),
    Track.project_car_position t (fst (position_at t s)) (snd (position_at t s)) = Some r
    /\ (S i < length cl)%nat
    /\ arc t i <= s <= arc t (S i)
    /\ Rabs (r - s) <= arc t (S i) - arc t i.
Proof.
  intros Hinit Hsampled Hlen Hs.
  destruct (round_trip_core rx ry w nl cl t Hinit Hsampled Hlen s Hs)
    as (r & i & Hproj & Hi & Harc & Hbound).
  exists r, i. repeat split; try assumption; try lra.
Qed.

Lemma velocity_within_max_speed_witness :
  0 <= get_max_speed (sample_car 0 0)
  /\ (let car' := update_car_dynamics (drive (sample_car 0 0) [(3, 0, 1 / 10)]) 3 0 (1 / 10) in
      0 <= Car.velocity car' <= Car.desired_speed (sample_car 0 0)
                                * Car.speed_multiplier (sample_car 0 0)
      /\ get_max_speed car' = Car.desired_speed (sample_car 0 0)
                              * Car.speed_multiplier (sample_car 0 0)).
Proof.
  assert (H : 0 <= get_max_speed (sample_car 0 0)).
  { unfold get_max_speed. simpl. lra. }
  split; [exact H|].
  exact (velocity_within_max_speed (sample_car 0 0) [(3, 0, 1 / 10)] 3 0 (1 / 10) H).
Defined.

(** ** The straight centerline *)

Lemma straight_centerline_length (n : nat) : length (straight_centerline n) = n.
Proof. unfold straight_centerline. rewrite length_map, length_seq. reflexivity. Qed.

Lemma straight_centerline_nth (n k : nat) :
  (k < n)%nat -> nth k (straight_centerline n) (0, 0) = (INR k, 0).
Proof.
  intros Hk. unfold straight_centerline.
  change (0, 0) with ((fun k : nat => (INR k, 0)) 0%nat).
  rewrite map_nth, seq_nth by exact Hk. reflexivity.
Qed.

Lemma norm2_flat (a : R) : norm2 a 0 = Rabs a.
Proof.
  unfold norm2. replace (a ^ 2 + 0 ^ 2) with (Rsqr a) by (unfold Rsqr; ring).
  apply sqrt_Rsqr_abs.
Qed.

Lemma straight_centerline_well_sampled (n : nat) : well_sampled (straight_centerline n).
Proof.
  intros i j Hi Hj Hne1 Hne2. rewrite straight_centerline_length in Hi, Hj.
  cbv zeta. rewrite !straight_centerline_nth by lia. cbn [fst snd].
  replace (0 - 0) with 0 by ring. replace (0 - (0 + 0) / 2) with 0 by field.
  rewrite !norm2_flat, S_INR.
  replace (INR i + 1 - INR i) with 1 by ring. rewrite Rabs_R1.
  destruct (Nat.lt_ge_cases j i) as [Hlt|Hge].
  - assert (H : INR j + 1 <= INR i).
    { rewrite <- S_INR. apply le_INR. lia. }
    rewrite Rabs_left by lra. lra.
  - assert (H : INR i + 2 <= INR j).
    { replace (INR i + 2) with (INR (S (S i))) by (rewrite !S_INR; ring).
      apply le_INR. lia. }
    rewrite Rabs_right by lra. lra.
Qed.

Lemma straight_track_built (n : nat) :
  (2 <= n)%nat ->
  exists t, Track.init 60 40 12 5 (straight_centerline n) = Some t.
Proof.
  intros Hn. unfold Track.init. simpl Nat.eqb. cbv iota.
  rewrite straight_centerline_length.
  destruct (n <? 2)%nat eqn:E; [apply Nat.ltb_lt in E; lia|].
  eexists. reflexivity.
Qed.

Lemma straight_track_total_length (n : nat) (t : Track.t) :
  Track.init 60 40 12 5 (straight_centerline n) = Some t ->
  1 <= Track.total_length t.
Proof.
  intros Hinit.
  destruct (constructed_lengths _ _ _ _ _ _ Hinit) as (Hn & _).
  rewrite (total_length_last _ _ _ _ _ _ Hinit).
  assert (H1 : arc t 1 = 1).
  { rewrite (arc_step _ _ _ _ _ _ Hinit 0 ltac:(lia)), (arc_0 _ _ _ _ _ _ Hinit).
    rewrite !(sample_x_nth _ _ _ _ _ _ Hinit), !(sample_y_nth _ _ _ _ _ _ Hinit).
    rewrite straight_centerline_length in Hn.
    rewrite !straight_centerline_nth by lia. cbn [fst snd].
    replace (0 - 0) with 0 by ring. rewrite norm2_flat.
    replace (INR 1 - INR 0) with 1 by (simpl; ring). rewrite Rabs_R1. ring. }
  rewrite <- H1. apply (arc_mono _ _ _ _ _ _ Hinit); lia.
Qed.

Lemma projection_round_trip_witness :
  exists t : Track.t,
    Track.init 60 40 12 5 (straight_centerline 12) = Some t
    /\ well_sampled (straight_centerline 12)
    /\ (10 <= length (straight_centerline 12))%nat
    /\ 0 <= 1 / 2 < Track.total_length t
    /\ exists (r : R) (i : nat),
         Track.project_car_position t (fst (position_at t (1 / 2)))
           (snd (position_at t (1 / 2))) = Some r
         /\ (S i < length (straight_centerline 12))%nat
         /\ arc t i <= 1 / 2 <= arc t (S i)
         /\ Rabs (r - 1 / 2) <= arc t (S i) - arc t i.
Proof.
  destruct (straight_track_built 12 ltac:(lia)) as (t & Ht).
  assert (Hlen : (10 <= length (straight_centerline 12))%nat).
  { rewrite straight_centerline_length. lia. }
  assert (Hs : 0 <= 1 / 2 < Track.total_length t).
  { pose proof (straight_track_total_length 12 t Ht). lra. }
  exists t. split; [exact Ht|].
  split; [apply straight_centerline_well_sampled|].
  split; [exact Hlen|]. split; [exact Hs|].
  exact (projection_round_trip 60 40 12 5 (straight_centerline 12) t (1 / 2) Ht
           (straight_centerline_well_sampled 12) Hlen Hs).
Defined.

Lemma get_target_point_periodic_witness :
  exists t : Track.t,
    Track.init 60 40 12 5 (straight_centerline 12) = Some t
    /\ Track.total_length t <> 0
    /\ Track.get_target_point t (3 + Track.total_length t) 10 (Some 2%Z)
       = Track.get_target_point t 3 10 (Some 2%Z).
Proof.
  destruct (straight_track_built 12 ltac:(lia)) as (t & Ht).
  assert (HL : Track.total_length t <> 0).
  { pose proof (straight_track_total_length 12 t Ht). lra. }
  exists t. split; [exact Ht|]. split; [exact HL|].
  exact (get_target_point_periodic t 3 10 (Some 2%Z) HL).
Defined.

Lemma project_car_position_coarse_nearest_witness :
  exists t : Track.t,
    Track.init 60 40 12 5 (straight_centerline 12) = Some t
    /\ (10 <= length (straight_centerline 12))%nat
    /\ exists i0 : nat,
         (i0 < length (Track.centerline_x t))%nat
         /\ length (Track.centerline_y t) = length (Track.centerline_x t)
         /\ length (Track.arc_lengths t) = length (Track.centerline_x t)
         /\ (forall k, (k < length (Track.centerline_x t))%nat ->
               sqrt ((nth i0 (Track.centerline_x t) 0 - 3) ^ 2
                     + (nth i0 (Track.centerline_y t) 0 - 1) ^ 2)
               <= sqrt ((nth k (Track.centerline_x t) 0 - 3) ^ 2
                        + (nth k (Track.centerline_y t) 0 - 1) ^ 2))
         /\ (forall k, (k < i0)%nat ->
               sqrt ((nth i0 (Track.centerline_x t) 0 - 3) ^ 2
                     + (nth i0 (Track.centerline_y t) 0 - 1) ^ 2)
               < sqrt ((nth k (Track.centerline_x t) 0 - 3) ^ 2
                       + (nth k (Track.centerline_y t) 0 - 1) ^ 2))
         /\ Track.closest_idx t 3 1 = Some i0
         /\ Track.refined_idx t 3 1 = Track.closest_idx t 3 1
         /\ Track.project_car_position t 3 1 = Some (nth i0 (Track.arc_lengths t) 0).
Proof.
  destruct (straight_track_built 12 ltac:(lia)) as (t & Ht).
  assert (Hlen : (10 <= length (straight_centerline 12))%nat).
  { rewrite straight_centerline_length. lia. }
  exists t. split; [exact Ht|]. split; [exact Hlen|].
  exact (project_car_position_coarse_nearest 60 40 12 5 (straight_centerline 12) t 3 1
           Ht Hlen).
Defined.

(** ** A query traced by hand *)

Lemma straight_track_arc (n : nat) (t : Track.t) :
  Track.init 60 40 12 5 (straight_centerline n) = Some t ->
  forall k, (k < n)%nat -> arc t k = INR k.
Proof.
  intros Hinit.
  destruct (constructed_lengths _ _ _ _ _ _ Hinit) as (Hn & _).
  rewrite straight_centerline_length in Hn.
  induction k as [|k IH]; intros Hk.
  - apply (arc_0 _ _ _ _ _ _ Hinit).
  - rewrite (arc_step _ _ _ _ _ _ Hinit k)
      by (rewrite straight_centerline_length; exact Hk).
    rewrite IH by lia.
    rewrite !(sample_x_nth _ _ _ _ _ _ Hinit), !(sample_y_nth _ _ _ _ _ _ Hinit).
    rewrite !straight_centerline_nth by lia. cbn [fst snd].
    replace (0 - 0) with 0 by ring. rewrite norm2_flat, S_INR.
    replace (INR k + 1 - INR k) with 1 by ring. rewrite Rabs_R1. reflexivity.
Qed.

(** On the straight centerline of twelve samples one metre apart the point
    [(3, 1)] is nearest to sample 3, at arc length 3: the coarse search, the
    refinement and the projection all return it. *)
Lemma project_car_position_straight_example (t : Track.t) :
  Track.init 60 40 12 5 (straight_centerline 12) = Some t ->
  Track.closest_idx t 3 1 = Some 3%nat
  /\ Track.refined_idx t 3 1 = Some 3%nat
  /\ Track.project_car_position t 3 1 = Some 3.
Proof.
  intros Hinit.
  assert (Hlen : (10 <= length (straight_centerline 12))%nat)
    by (rewrite straight_centerline_length; lia).
  destruct (refined_idx_is_closest 60 40 12 5 _ t 3 1 Hinit Hlen)
    as (i0 & (Hi0 & Hmin & _) & Hclosest & Href & Hproj).
  destruct (Track_init_fields _ _ _ _ _ _ Hinit) as (_ & Hcx & Hcy & _).
  assert (HD : length (Track.distances_to (Track.centerline_x t) (Track.centerline_y t) 3 1)
               = 12%nat).
  { rewrite Hcx, Hcy, distances_to_length. apply straight_centerline_length. }
  rewrite HD in Hi0, Hmin.
  assert (Hd : forall k, (k < 12)%nat ->
             nth k (Track.distances_to (Track.centerline_x t) (Track.centerline_y t) 3 1) 0
             = sqrt ((INR k - 3) ^ 2 + 1)).
  { intros k Hk.
    rewrite distances_to_nth
      by (rewrite ?Hcx, ?Hcy, length_map, straight_centerline_length; exact Hk).
    fold (sample_x t k) (sample_y t k).
    rewrite (sample_x_nth _ _ _ _ _ _ Hinit), (sample_y_nth _ _ _ _ _ _ Hinit).
    rewrite straight_centerline_nth by exact Hk. cbn [fst snd]. f_equal. ring. }
  assert (Hi : i0 = 3%nat).
  { specialize (Hmin 3%nat ltac:(lia)). rewrite !Hd in Hmin by lia.
    replace ((INR 3 - 3) ^ 2 + 1) with 1 in Hmin by (simpl; ring).
    rewrite sqrt_1 in Hmin.
    assert (Hsq : (INR i0 - 3) ^ 2 + 1 <= 1).
    { destruct (Rle_or_lt ((INR i0 - 3) ^ 2 + 1) 1) as [H|H]; [exact H|].
      assert (H' : sqrt 1 < sqrt ((INR i0 - 3) ^ 2 + 1)) by (apply sqrt_lt_1_alt; lra).
      rewrite sqrt_1 in H'. lra. }
    assert (H0 : INR i0 - 3 = 0) by nra.
    apply INR_eq. simpl. lra. }
  subst i0. split; [exact Hclosest|]. split; [exact Href|].
  rewrite Hproj. f_equal. fold (arc t 3).
  rewrite (straight_track_arc 12 t Hinit 3%nat ltac:(lia)). simpl. ring.
Qed.

(** * What the collision pass writes *)

Lemma stats_only_refl (c : Car.t) : stats_only c c.
Proof.
  exists (Car.collision_count c), (Car.total_collision_severity c), (Car.collision_flag c).
  destruct c; reflexivity.
Qed.

Lemma stats_only_trans (a b c : Car.t) : stats_only a b -> stats_only b c -> stats_only a c.
Proof.
  intros (n1 & s1 & f1 & ->) (n2 & s2 & f2 & ->).
  exists n2, s2, f2. reflexivity.
Qed.

Lemma check_pair_stats_only (radius ts : R) (car1 car2 : Car.t) (st : Pass.t) :
  stats_only car1 (fst (fst (check_pair radius ts car1 car2 st)))
  /\ stats_only car2 (snd (fst (check_pair radius ts car1 car2 st))).
Proof.
  unfold check_pair.
  destruct (Car.eliminated car2); [split; apply stats_only_refl|].
  destruct (pair_in _ _); [split; apply stats_only_refl|].
  destruct (Rltb _ _); [|split; apply stats_only_refl].
  cbn [fst snd]. split.
  - exists (Car.collision_count car1 + 1)%nat,
           (Car.total_collision_severity car1 + relative_speed car1 car2), true.
    reflexivity.
  - exists (Car.collision_count car2 + 1)%nat,
           (Car.total_collision_severity car2 + relative_speed car1 car2), true.
    reflexivity.
Qed.

Lemma check_against_stats_only (radius ts : R) (rest : list Car.t) :
  forall (car1 : Car.t) (st : Pass.t),
    stats_only car1 (fst (fst (check_against radius ts car1 rest st)))
    /\ Forall2 stats_only rest (snd (fst (check_against radius ts car1 rest st))).
Proof.
  induction rest as [|car2 rest IH]; intros car1 st; simpl.
  - split; [apply stats_only_refl|constructor].
  - destruct (check_pair_stats_only radius ts car1 car2 st) as [H1 H2].
    destruct (check_pair radius ts car1 car2 st) as [[car1' car2'] st'].
    cbn [fst snd] in H1, H2.
    specialize (IH car1' st').
    destruct (check_against radius ts car1' rest st') as [[car1'' rest'] st''].
    cbn [fst snd] in IH |- *. destruct IH as [IH1 IH2].
    split; [eapply stats_only_trans; eassumption|].
    constructor; assumption.
Qed.

Lemma Forall2_stats_only_refl (cars : list Car.t) : Forall2 stats_only cars cars.
Proof. induction cars; constructor; auto using stats_only_refl. Qed.

Lemma Forall2_stats_only_trans (a b c : list Car.t) :
  Forall2 stats_only a b -> Forall2 stats_only b c -> Forall2 stats_only a c.
Proof.
  intros Hab. revert c. induction Hab as [|x y a b Hxy Hab IH]; intros c Hbc.
  - inversion Hbc. constructor.
  - inversion Hbc as [|y' z b' c' Hyz Hbc']; subst.
    constructor; [eapply stats_only_trans; eassumption|]. apply IH. assumption.
Qed.

Lemma check_from_stats_only (n : nat) (radius ts : R) :
  forall (cars : list Car.t) (st : Pass.t),
    Forall2 stats_only cars (fst (check_from n radius ts cars st)).
Proof.
  induction n as [|n IH]; intros cars st; simpl.
  - apply Forall2_stats_only_refl.
  - destruct cars as [|car1 rest]; [constructor|].
    destruct (Car.eliminated car1).
    + specialize (IH rest st).
      destruct (check_from n radius ts rest st) as [rest' st'].
      cbn [fst] in *. constructor; [apply stats_only_refl|exact IH].
    + destruct (check_against_stats_only radius ts rest car1 st) as [H1 H2].
      destruct (check_against radius ts car1 rest st) as [[car1' rest'] st'].
      cbn [fst snd] in H1, H2.
      specialize (IH rest' st').
      destruct (check_from n radius ts rest' st') as [rest'' st''].
      cbn [fst] in *. constructor; [exact H1|].
      eapply Forall2_stats_only_trans; eassumption.
Qed.

Lemma check_collisions_stats_only (self : CollisionDetector.t) (cars : list Car.t) (ts : R) :
  Forall2 stats_only cars (snd (check_collisions self cars ts)).
Proof.
  unfold check_collisions.
  pose proof (check_from_stats_only (length cars) (CollisionDetector.collision_radius self)
                ts cars
                {| Pass.new_collisions := []; Pass.collision_pairs := [];
                   Pass.collisions := CollisionDetector.collisions self |}) as H.
  destruct (check_from _ _ _ _ _) as [cars' st']. exact H.
Qed.

(** ** The elimination fields *)

Lemma stats_only_elimination_record (c c' : Car.t) :
  stats_only c c' -> elimination_record c' = elimination_record c.
Proof. intros (n & s & f & ->). reflexivity. Qed.

Lemma Forall2_map_eq {A B : Type} (f : A -> B) (R : A -> A -> Prop) (l l' : list A) :
  (forall a a', R a a' -> f a' = f a) -> Forall2 R l l' -> map f l' = map f l.
Proof.
  intros HR H. induction H as [|a a' l l' Ha Hl IH]; simpl; [reflexivity|].
  rewrite IH, (HR a a' Ha). reflexivity.
Qed.

Lemma check_collisions_elimination_record
    (self : CollisionDetector.t) (cars : list Car.t) (ts : R) :
  map elimination_record (snd (check_collisions self cars ts)) = map elimination_record cars.
Proof.
  apply (Forall2_map_eq elimination_record stats_only).
  - apply stats_only_elimination_record.
  - apply check_collisions_stats_only.
Qed.

(** ** Operations of a cycle that leave the elimination record alone *)

Lemma tick_lane_change_timer_record (car : Car.t) (dt : R) :
  elimination_record (RacingSimulation.tick_lane_change_timer car dt) = elimination_record car.
Proof.
  unfold RacingSimulation.tick_lane_change_timer. destruct (Rltb _ _); reflexivity.
Qed.

Lemma compute_control_record (self : CombinedController.t) (car : Car.t) (track : Track.t)
    (all_cars : list Car.t) (radius : R) :
  elimination_record (snd (compute_control self car track all_cars radius))
  = elimination_record car.
Proof.
  unfold compute_control.
  match goal with
  | |- context [Track.get_target_point ?a ?b ?c ?d] =>
      destruct (Track.get_target_point a b c d)
  end.
  cbn [snd].
  destruct (_decide_lane_change car all_cars); cbn;
    repeat match goal with |- context [Rltb ?a ?b] => destruct (Rltb a b) end;
    reflexivity.
Qed.

Lemma update_car_dynamics_record (car : Car.t) (a steer dt : R) :
  elimination_record (update_car_dynamics car a steer dt) = elimination_record car.
Proof.
  unfold update_car_dynamics. cbn. destruct (Rltb _ _); reflexivity.
Qed.

Lemma update_state_record (car car' : Car.t) (dt : R) (track : Track.t) :
  update_state car dt track = Some car' ->
  elimination_record car' = elimination_record car.
Proof.
  unfold update_state.
  destruct (Track.project_car_position _ _ _); [|discriminate].
  intros H. injection H as <-. cbn.
  repeat match goal with |- context [Rltb ?a ?b] => destruct (Rltb a b) end;
    reflexivity.
Qed.

Lemma reset_collision_flag_record (cars : list Car.t) :
  map elimination_record (map reset_collision_flag cars) = map elimination_record cars.
Proof. rewrite map_map. apply map_ext. intros c. reflexivity. Qed.

(** One car driven through control, dynamics and reprojection. *)
Lemma drive_step_record (car car' : Car.t) (track : Track.t) (all_cars : list Car.t)
    (dt : R) :
  (let '((acceleration, steering_angle), c) :=
     compute_control (Car.controller car) car track all_cars 50 in
   update_state (update_car_dynamics c acceleration steering_angle dt) dt track) = Some car' ->
  elimination_record car' = elimination_record car.
Proof.
  pose proof (compute_control_record (Car.controller car) car track all_cars 50) as Hc.
  destruct (compute_control _ _ _ _ _) as [[a s] c]. cbn [snd] in Hc.
  intros H. apply update_state_record in H.
  rewrite H, update_car_dynamics_record. exact Hc.
Qed.

(** * Eliminations in the fixed-timestep scheduler *)

Lemma driven_car_record (car c car' : Car.t) (track : Track.t) (all_cars : list Car.t)
    (dt a s : R) :
  compute_control (Car.controller (RacingSimulation.tick_lane_change_timer car dt))
    (RacingSimulation.tick_lane_change_timer car dt) track all_cars 50 = ((a, s), c) ->
  update_state (update_car_dynamics c a s dt) dt track = Some car' ->
  elimination_record car' = elimination_record car.
Proof.
  intros Hc Hu.
  pose proof (compute_control_record
                (Car.controller (RacingSimulation.tick_lane_change_timer car dt))
                (RacingSimulation.tick_lane_change_timer car dt) track all_cars 50) as H.
  rewrite Hc in H. cbn [snd] in H.
  apply update_state_record in Hu.
  rewrite Hu, update_car_dynamics_record, H. apply tick_lane_change_timer_record.
Qed.

Lemma update_cars_record (track : Track.t) (dt : R) (todo : list Car.t) :
  forall (done : list Car.t) (log : list (option (R * R)))
         (cars' : list Car.t) (log' : list (option (R * R))),
    RacingSimulation.update_cars track dt done todo log = Some (cars', log') ->
    map elimination_record cars' = map elimination_record (done ++ todo).
Proof.
  induction todo as [|car rest IH]; intros done log cars' log' H; simpl in H.
  - injection H as <- _. rewrite app_nil_r. reflexivity.
  - destruct (Car.eliminated car).
    + apply IH in H. rewrite H, <- app_assoc. reflexivity.
    + destruct (compute_control _ _ _ _ _) as [[a s] c] eqn:Hc.
      destruct (update_state _ _ _) as [car''|] eqn:Hu; [|discriminate].
      apply IH in H. rewrite H, <- app_assoc. simpl.
      rewrite !map_app. simpl.
      rewrite (driven_car_record car c car'' track _ dt a s Hc Hu). reflexivity.
Qed.

Lemma cycle_record_disabled (self self' : RacingSimulation.t)
    (new_collisions : list CollisionEvent.t) :
  RacingSimulation.elimination_enabled self = false ->
  RacingSimulation.cycle self = Some (self', new_collisions) ->
  map elimination_record (RacingSimulation.cars self')
  = map elimination_record (RacingSimulation.cars self)
  /\ RacingSimulation.elimination_enabled self' = false.
Proof.
  intros Hoff. unfold RacingSimulation.cycle.
  destruct (RacingSimulation.update_cars _ _ _ _ _) as [[cars' log']|] eqn:Hu; [|discriminate].
  apply update_cars_record in Hu. simpl in Hu.
  cbn [RacingSimulation.cars RacingSimulation.set_cars
       RacingSimulation.collision_detector RacingSimulation.timestamp].
  pose proof (check_collisions_elimination_record
                (RacingSimulation.collision_detector self) cars'
                (RacingSimulation.timestamp self)) as Hc.
  destruct (check_collisions _ _ _) as [[new det] cars''].
  cbn [snd] in Hc. cbn. rewrite Hoff.
  intros H. injection H as <- _. cbn.
  rewrite reset_collision_flag_record, Hc, Hu. auto.
Qed.

Lemma run_from_record_disabled (remaining : nat) :
  forall (self self' : RacingSimulation.t) (acc events : list CollisionEvent.t) (step : nat),
    RacingSimulation.elimination_enabled self = false ->
    RacingSimulation.run_from self acc step remaining = Some (self', events) ->
    map elimination_record (RacingSimulation.cars self')
    = map elimination_record (RacingSimulation.cars self).
Proof.
  induction remaining as [|remaining IH]; intros self self' acc events step Hoff H;
    simpl in H.
  - injection H as <- _. reflexivity.
  - destruct (length _ =? 0)%nat; [injection H as <- _; reflexivity|].
    destruct (RacingSimulation.all_finished _); [injection H as <- _; reflexivity|].
    destruct (RacingSimulation.cycle _) as [[self1 new]|] eqn:Hc; [|discriminate].
    apply cycle_record_disabled in Hc; [|exact Hoff].
    destruct Hc as [Hrec Hoff1].
    apply IH in H; [|exact Hoff1]. rewrite H, Hrec. reflexivity.
Qed.

(** * Eliminations in the Markov layer *)

Lemma ifR_true (a b : R) {A : Type} (u v : A) :
  a < b -> (if Rltb a b then u else v) = u.
Proof. intros H. apply Rltb_true in H. rewrite H. reflexivity. Qed.

Lemma ifR_false (a b : R) {A : Type} (u v : A) :
  b <= a -> (if Rltb a b then u else v) = v.
Proof. intros H. apply Rltb_false in H. rewrite H. reflexivity. Qed.

Lemma transition_state_record (config : Config.t) (car car' : Car.t) (g g' : Rng.t) :
  MarkovChainSimulation._transition_state config car g = Some (car', g') ->
  markov_or_unchanged car car'.
Proof.
  unfold MarkovChainSimulation._transition_state, markov_or_unchanged.
  destruct (Car.eliminated car) eqn:Hel.
  - intros H. injection H as <- _. left. reflexivity.
  - destruct (MarkovChainSimulation._update_transition_probabilities car); [|discriminate].
    destruct (MarkovChainSimulation.random_choice _ _ _) as [[next g1]|]; [|discriminate].
    destruct (negb (Strategy.eqb next (Car.strategy_type car))
              && negb (Strategy.eqb next Strategy.eliminated)).
    + intros H. injection H as <- _. left. destruct next; reflexivity.
    + destruct (Strategy.eqb next Strategy.eliminated).
      * intros H. injection H as <- _. right. split; reflexivity.
      * intros H. injection H as <- _. left. reflexivity.
Qed.

Lemma markov_or_unchanged_refl (c : Car.t) : markov_or_unchanged c c.
Proof. left. reflexivity. Qed.

Lemma markov_or_unchanged_trans (a b c : Car.t) :
  markov_or_unchanged a b -> markov_or_unchanged b c -> markov_or_unchanged a c.
Proof.
  unfold markov_or_unchanged, elimination_record.
  intros [Hab|[Ha Hab]] [Hbc|[Hb Hbc]].
  - left. congruence.
  - right. split; [congruence|exact Hbc].
  - right. split; [exact Ha|congruence].
  - congruence.
Qed.

Lemma markov_or_unchanged_record (a b c : Car.t) :
  markov_or_unchanged a b -> elimination_record c = elimination_record b ->
  markov_or_unchanged a c.
Proof.
  intros Hab Hbc. eapply markov_or_unchanged_trans; [exact Hab|]. left. exact Hbc.
Qed.

Lemma Forall2_markov_refl (l : list Car.t) : Forall2 markov_or_unchanged l l.
Proof. induction l; constructor; auto using markov_or_unchanged_refl. Qed.

Lemma Forall2_markov_trans (a b c : list Car.t) :
  Forall2 markov_or_unchanged a b -> Forall2 markov_or_unchanged b c ->
  Forall2 markov_or_unchanged a c.
Proof.
  intros Hab. revert c. induction Hab as [|x y a b Hxy Hab IH]; intros c Hbc.
  - inversion Hbc. constructor.
  - inversion Hbc as [|y' z b' c' Hyz Hbc']; subst.
    constructor; [eapply markov_or_unchanged_trans; eassumption|]. apply IH. assumption.
Qed.

Lemma Forall2_markov_record (a b c : list Car.t) :
  Forall2 markov_or_unchanged a b ->
  map elimination_record c = map elimination_record b ->
  Forall2 markov_or_unchanged a c.
Proof.
  intros Hab. revert c. induction Hab as [|x y a b Hxy Hab IH]; intros c Hc.
  - destruct c; [constructor|discriminate].
  - destruct c as [|z c]; [discriminate|]. cbn [map] in Hc.
    assert (Hz : elimination_record z = elimination_record y) by congruence.
    assert (Hc' : map elimination_record c = map elimination_record b) by congruence.
    constructor; [eapply markov_or_unchanged_record; eassumption|]. apply IH. exact Hc'.
Qed.

Lemma markov_update_cars_record (config : Config.t) (track : Track.t) (dt : R) (step : nat)
    (todo : list Car.t) :
  forall (done cars' : list Car.t) (g g' : Rng.t),
    MarkovChainSimulation.update_cars config track dt step done todo g = Some (cars', g') ->
    exists todo', cars' = done ++ todo' /\ Forall2 markov_or_unchanged todo todo'.
Proof.
  induction todo as [|car rest IH]; intros done cars' g g' H;
    cbn [MarkovChainSimulation.update_cars] in H.
  - injection H as <- _. exists []. rewrite app_nil_r. split; [reflexivity|constructor].
  - destruct (Car.eliminated car).
    + apply IH in H. destruct H as (todo' & -> & Hrest).
      exists (car :: todo'). rewrite <- app_assoc. split; [reflexivity|].
      constructor; [apply markov_or_unchanged_refl|exact Hrest].
    + set (ticked := RacingSimulation.tick_lane_change_timer car dt) in *.
      assert (Htick : markov_or_unchanged car ticked).
      { left. apply tick_lane_change_timer_record. }
      match type of H with
      | context [if ?b then MarkovChainSimulation._transition_state _ _ _ else _] =>
          destruct (if b then MarkovChainSimulation._transition_state config ticked g
                    else Some (ticked, g)) as [[c1 g1]|] eqn:Htr; [|discriminate];
          assert (H1 : markov_or_unchanged car c1);
          [ destruct b;
            [ apply transition_state_record in Htr;
              eapply markov_or_unchanged_trans; eassumption
            | injection Htr as <- _; exact Htick ] | ]
      end.
      destruct (Car.eliminated c1).
      * apply IH in H. destruct H as (todo' & -> & Hrest).
        exists (c1 :: todo'). rewrite <- app_assoc. split; [reflexivity|].
        constructor; assumption.
      * destruct (compute_control _ _ _ _ _) as [[a s] c2] eqn:Hc.
        destruct (update_state _ _ _) as [c3|] eqn:Hu; [|discriminate].
        apply IH in H. destruct H as (todo' & -> & Hrest).
        exists (c3 :: todo'). rewrite <- app_assoc. split; [reflexivity|].
        constructor; [|exact Hrest].
        eapply markov_or_unchanged_record; [exact H1|].
        apply update_state_record in Hu. rewrite Hu, update_car_dynamics_record.
        pose proof (compute_control_record (Car.controller c1) c1 track
                      (active_cars (done ++ c1 :: rest)) 50) as Hcc.
        rewrite Hc in Hcc. exact Hcc.
Qed.

Lemma markov_cycle_record_disabled (simulation simulation' : RacingSimulation.t) (step : nat)
    (new_collisions : list CollisionEvent.t) :
  RacingSimulation.elimination_enabled simulation = false ->
  MarkovChainSimulation.cycle simulation step = Some (simulation', new_collisions) ->
  Forall2 markov_or_unchanged (RacingSimulation.cars simulation)
    (RacingSimulation.cars simulation')
  /\ RacingSimulation.elimination_enabled simulation' = false.
Proof.
  intros Hoff. unfold MarkovChainSimulation.cycle.
  destruct (MarkovChainSimulation.update_cars _ _ _ _ _ _ _) as [[cars' g']|] eqn:Hu;
    [|discriminate].
  apply markov_update_cars_record in Hu. destruct Hu as (todo' & -> & Hu).
  cbn [RacingSimulation.cars RacingSimulation.set_cars RacingSimulation.set_rng
       RacingSimulation.collision_detector RacingSimulation.timestamp app].
  pose proof (check_collisions_elimination_record
                (RacingSimulation.collision_detector simulation) todo'
                (RacingSimulation.timestamp simulation)) as Hc.
  destruct (check_collisions _ _ _) as [[new det] cars''].
  cbn [snd] in Hc. cbn. rewrite Hoff.
  intros H. injection H as <- _. cbn. split; [|exact Hoff].
  eapply Forall2_markov_record; [exact Hu|].
  rewrite reset_collision_flag_record. exact Hc.
Qed.

Lemma markov_run_from_record_disabled (remaining : nat) :
  forall (simulation simulation' : RacingSimulation.t)
         (acc events : list CollisionEvent.t) (step : nat),
    RacingSimulation.elimination_enabled simulation = false ->
    MarkovChainSimulation.run_from simulation acc step remaining
    = Some (simulation', events) ->
    Forall2 markov_or_unchanged (RacingSimulation.cars simulation)
      (RacingSimulation.cars simulation').
Proof.
  induction remaining as [|remaining IH]; intros sim sim' acc events step Hoff H;
    simpl in H.
  - injection H as <- _. apply Forall2_markov_refl.
  - destruct (length _ =? 0)%nat; [injection H as <- _; apply Forall2_markov_refl|].
    destruct (RacingSimulation.all_finished _);
      [injection H as <- _; apply Forall2_markov_refl|].
    destruct (MarkovChainSimulation.cycle _ _) as [[sim1 new]|] eqn:Hc; [|discriminate].
    apply markov_cycle_record_disabled in Hc; [|exact Hoff].
    destruct Hc as [Hrec Hoff1].
    apply IH in H; [|exact Hoff1].
    eapply Forall2_markov_trans; eassumption.
Qed.

Lemma init_elimination_disabled (config : Config.t) (track : Track.t) (cars : list Car.t)
    (rng : Rng.t) (e : SimulationConfig.elimination_t) :
  SimulationConfig.elimination (Config.simulation config) = Some e ->
  SimulationConfig.enabled e = Some false ->
  RacingSimulation.elimination_enabled (RacingSimulation.init config track cars rng) = false.
Proof.
  intros He Hoff. unfold RacingSimulation.init, RacingSimulation.config_elimination_enabled.
  cbn. rewrite He, Hoff. reflexivity.
Qed.

(** C3 (amended). With elimination disabled in the configuration, no
    vehicle becomes eliminated in any number of cycles of the fixed-timestep
    scheduler.  In the Markov layer the collision pass eliminates nobody
    either, and a vehicle found eliminated was flagged by a strategy
    transition: no elimination time, the Markov reason. *)
Theorem elimination_disabled_only_markov_eliminates
    (config : Config.t) (track : Track.t) (cars : list Car.t) (rng : Rng.t)
    (e : SimulationConfig.elimination_t) :
  SimulationConfig.elimination (Config.simulation config) = Some e ->
  SimulationConfig.enabled e = Some false ->
  Forall (fun c => Car.eliminated c = false) cars ->
  (forall (cycles : nat) (sim' : RacingSimulation.t) (events : list CollisionEvent.t),
      RacingSimulation.run_from (RacingSimulation.init config track cars rng) [] 0 cycles
      = Some (sim', events) ->
      Forall (fun c => Car.eliminated c = false) (RacingSimulation.cars sim'))
  /\ (forall (cycles : nat) (sim' : RacingSimulation.t) (events : list CollisionEvent.t),
         MarkovChainSimulation.run_from (RacingSimulation.init config track cars rng)
           [] 0 cycles = Some (sim', events) ->
         Forall (fun c => Car.eliminated c = false
                          \/ (Car.elimination_time c = None
                              /\ Car.elimination_reason c
                                 = Some Markov_Chain_state_transition))
                (RacingSimulation.cars sim')).
Proof.
  intros He Hoff Hactive.
  pose proof (init_elimination_disabled config track cars rng e He Hoff) as Hdis.
  split; intros cycles sim' events Hrun.
  - apply run_from_record_disabled in Hrun; [|exact Hdis].
    cbn [RacingSimulation.init RacingSimulation.cars] in Hrun.
    revert Hactive Hrun. generalize (RacingSimulation.cars sim') as cars'.
    induction cars as [|c cars IH]; intros [|c' cars'] Hactive Hrun;
      try discriminate; constructor.
    + simpl in Hrun. injection Hrun as Hc _. unfold elimination_record in Hc.
      inversion Hactive; subst. congruence.
    + simpl in Hrun. injection Hrun as _ Hrest. inversion Hactive; subst. auto.
  - apply markov_run_from_record_disabled in Hrun; [|exact Hdis].
    cbn [RacingSimulation.init RacingSimulation.cars] in Hrun.
    revert Hactive. induction Hrun as [|c c' cars cars' Hc Hrest IH]; intros Hactive;
      constructor.
    + inversion Hactive; subst.
      destruct Hc as [Hsame|[_ Hflag]]; unfold elimination_record in *.
      * left. congruence.
      * right. split; congruence.
    + inversion Hactive; subst. auto.
Qed.

(** * A sampled transition to the eliminated state *)

Ltac decide_Rltb :=
  match goal with
  | |- context [Rltb ?a ?b] =>
      first [ rewrite (proj2 (Rltb_true a b)) by lra
            | rewrite (proj2 (Rltb_false a b)) by lra ]
  end.

Lemma transition_samples_eliminated (config : Config.t) (car : Car.t) (g : Rng.t) :
  Car.eliminated car = false ->
  Car.strategy_type car = Strategy.balanced ->
  Car.collision_count car = 0%nat ->
  Car.trajectory car = [] ->
  0 <= Car.desired_speed car ->
  Rng.random_sample g (Rng.drawn g) = 99 / 100 ->
  exists (car' : Car.t) (g' : Rng.t),
    MarkovChainSimulation._transition_state config car g = Some (car', g')
    /\ car' = Car.set_elimination_reason
                (Car.set_elimination_time (Car.set_eliminated car true) None)
                (Some Markov_Chain_state_transition).
Proof.
  intros Hel Hst Hcount Htraj Hspeed Hu.
  unfold MarkovChainSimulation._transition_state. rewrite Hel.
  unfold MarkovChainSimulation._update_transition_probabilities.
  rewrite Hst, Hcount, Htraj.
  cbn [Strategy.eqb MarkovChainSimulation.base_transition_matrix INR].
  replace (0 / INR (Nat.max (Car.lap_count car) 1)) with 0 by (unfold Rdiv; ring).
  repeat decide_Rltb. cbn [andb].
  unfold TransitionProbs.values, np_sum.
  cbn [TransitionProbs.aggressive TransitionProbs.balanced
       TransitionProbs.cautious TransitionProbs.eliminated fold_left].
  replace (0 + 1 / 10 + 8 / 10 + 8 / 100 + 2 / 100) with 1 by lra.
  decide_Rltb.
  unfold TransitionProbs.values.
  cbn [TransitionProbs.aggressive TransitionProbs.balanced
       TransitionProbs.cautious TransitionProbs.eliminated].
  unfold MarkovChainSimulation.random_choice.
  destruct (Req_dec_T _ _) as [_|Hne].
  2:{ exfalso. apply Hne. unfold np_sum. cbn [fold_left]. lra. }
  unfold Rng.sample. rewrite Hu.
  unfold np_cumsum. cbn [cumsum_from last map searchsorted_right].
  repeat match goal with
         | |- context [Rle_dec ?a ?b] =>
             destruct (Rle_dec a b); [|exfalso; lra]
         end.
  destruct (Rle_dec _ _) as [Hbad|_]; [exfalso; lra|].
  cbn [nth_error TransitionProbs.keys Strategy.eqb negb andb].
  eexists _, _. split; reflexivity.
Qed.

(** Projections of a scheduler state through its setters. *)
Ltac sim_cbn :=
  cbn [RacingSimulation.config RacingSimulation.track RacingSimulation.cars
       RacingSimulation.collision_detector RacingSimulation.dt RacingSimulation.target_laps
       RacingSimulation.time_limit RacingSimulation.ttc_threshold RacingSimulation.timestamp
       RacingSimulation.near_misses RacingSimulation.eliminated_cars
       RacingSimulation.elimination_enabled RacingSimulation.elimination_chance
       RacingSimulation.rng
       RacingSimulation.set_cars RacingSimulation.set_collision_detector
       RacingSimulation.set_timestamp RacingSimulation.set_near_misses
       RacingSimulation.set_eliminated_cars RacingSimulation.set_rng].

(** The first cycle of the Markov run on a single fresh car whose
    transition samples the eliminated state: the car is flagged, the
    collision pass skips it, and the next cycle finds no active car. *)
Lemma markov_run_single_car (sim : RacingSimulation.t) (car : Car.t) (k : nat) :
  RacingSimulation.cars sim = [car] ->
  RacingSimulation.elimination_enabled sim = false ->
  (Car.lap_count car < RacingSimulation.target_laps sim)%nat ->
  Car.lane_change_timer car <= 0 ->
  Car.eliminated car = false ->
  Car.strategy_type car = Strategy.balanced ->
  Car.collision_count car = 0%nat ->
  Car.trajectory car = [] ->
  0 <= Car.desired_speed car ->
  Rng.random_sample (RacingSimulation.rng sim) (Rng.drawn (RacingSimulation.rng sim))
  = 99 / 100 ->
  exists (sim' : RacingSimulation.t),
    MarkovChainSimulation.run_from sim [] 0 (S (S k)) = Some (sim', [])
    /\ exists car', RacingSimulation.cars sim' = [car'] /\ Car.eliminated car' = true.
Proof.
  intros Hcars Hoff Hlaps Htimer Hel Hst Hcount Htraj Hspeed Hu.
  destruct (transition_samples_eliminated (RacingSimulation.config sim) car
              (RacingSimulation.rng sim) Hel Hst Hcount Htraj Hspeed Hu)
    as (car' & g' & Htr & Hcar').
  assert (Hel' : Car.eliminated car' = true) by (rewrite Hcar'; reflexivity).
  clear Hcar'.
  destruct sim as [config track cars detector dt target_laps time_limit ttc timestamp
                   near_misses eliminated_cars enabled chance rng].
  cbn [RacingSimulation.cars RacingSimulation.elimination_enabled
       RacingSimulation.target_laps RacingSimulation.rng RacingSimulation.config] in *.
  subst cars enabled.
  assert (Hlaps' : (target_laps <=? Car.lap_count car)%nat = false)
    by (apply Nat.leb_gt; exact Hlaps).
  cbn [MarkovChainSimulation.run_from].
  unfold RacingSimulation.all_finished, active_cars, is_active.
  sim_cbn. cbn [filter]. rewrite Hel.
  cbn [negb length Nat.eqb forallb]. rewrite Hlaps'. cbn [andb].
  unfold MarkovChainSimulation.cycle.
  sim_cbn. cbn [MarkovChainSimulation.update_cars].
  rewrite Hel.
  unfold RacingSimulation.tick_lane_change_timer.
  rewrite (ifR_false 0 (Car.lane_change_timer car)) by exact Htimer.
  replace (0 mod 20 =? 0)%nat with true by reflexivity.
  rewrite Htr, Hel'. cbn [app MarkovChainSimulation.update_cars].
  unfold check_collisions.
  sim_cbn. cbn [length check_from].
  rewrite Hel'.
  cbn [check_from Pass.new_collisions Pass.collisions]. sim_cbn.
  unfold RacingSimulation._log_telemetry, active_cars, is_active.
  sim_cbn. cbn [map filter].
  replace (Car.eliminated (reset_collision_flag car')) with true
    by (symmetry; exact Hel').
  cbn [negb length Nat.eqb].
  eexists. split; [reflexivity|].
  exists (reset_collision_flag car'). split; [reflexivity|exact Hel'].
Qed.

Lemma py_int_20 : Z.to_nat (py_int (2 / (1 / 10))) = 20%nat.
Proof.
  replace (2 / (1 / 10)) with (IZR 20) by field.
  unfold py_int. destruct (Rle_dec 0 (IZR 20)) as [_|H].
  - rewrite ZfloorZ. reflexivity.
  - exfalso. apply H. apply IZR_le. lia.
Qed.

(** C3, counterexample.  With elimination disabled in the configuration, a
    Markov run on one fresh balanced car whose first transition samples 0.99
    ends with that car eliminated. *)
Lemma markov_layer_eliminates_when_disabled :
  exists (track : Track.t) (sim' : RacingSimulation.t) (events : list CollisionEvent.t),
    SimulationConfig.elimination (Config.simulation (sample_config 1 false))
    = Some (SimulationConfig.mk_elimination (Some false) (Some 6%Z))
    /\ Forall (fun c => Car.eliminated c = false) [sample_car 0 0]
    /\ MarkovChainSimulation.run
         (RacingSimulation.init (sample_config 1 false) track [sample_car 0 0]
            (Rng.mk (fun _ => 1%Z) (fun _ => 99 / 100) 0))
       = Some (sim', events)
    /\ Exists (fun c => Car.eliminated c = true) (RacingSimulation.cars sim').
Proof.
  destruct (straight_track_built 12 ltac:(lia)) as (track & _).
  set (sim := RacingSimulation.init (sample_config 1 false) track [sample_car 0 0]
                (Rng.mk (fun _ => 1%Z) (fun _ => 99 / 100) 0)).
  destruct (markov_run_single_car sim (sample_car 0 0) 18) as (sim' & Hrun & car' & Hcars & Hel).
  - reflexivity.
  - reflexivity.
  - cbn. lia.
  - cbn. lra.
  - reflexivity.
  - reflexivity.
  - reflexivity.
  - reflexivity.
  - cbn. lra.
  - reflexivity.
  - exists track, sim', []. split; [reflexivity|]. split; [repeat constructor|].
    split.
    + unfold MarkovChainSimulation.run. cbv zeta.
      fold sim.
      change (RacingSimulation.time_limit sim / RacingSimulation.dt sim)
        with (2 / (1 / 10)).
      rewrite py_int_20. exact Hrun.
    + rewrite Hcars. constructor. exact Hel.
Qed.

Lemma elimination_disabled_only_markov_eliminates_witness :
  exists track : Track.t,
    SimulationConfig.elimination (Config.simulation (sample_config 1 false))
    = Some (SimulationConfig.mk_elimination (Some false) (Some 6%Z))
    /\ SimulationConfig.enabled (SimulationConfig.mk_elimination (Some false) (Some 6%Z))
       = Some false
    /\ Forall (fun c => Car.eliminated c = false) [sample_car 0 0; sample_car 1 1]
    /\ (forall (cycles : nat) (sim' : RacingSimulation.t) (events : list CollisionEvent.t),
           RacingSimulation.run_from
             (RacingSimulation.init (sample_config 1 false) track
                [sample_car 0 0; sample_car 1 1]
                (Rng.mk (fun _ => 1%Z) (fun _ => 99 / 100) 0)) [] 0 cycles
           = Some (sim', events) ->
           Forall (fun c => Car.eliminated c = false) (RacingSimulation.cars sim'))
    /\ (forall (cycles : nat) (sim' : RacingSimulation.t) (events : list CollisionEvent.t),
           MarkovChainSimulation.run_from
             (RacingSimulation.init (sample_config 1 false) track
                [sample_car 0 0; sample_car 1 1]
                (Rng.mk (fun _ => 1%Z) (fun _ => 99 / 100) 0)) [] 0 cycles
           = Some (sim', events) ->
           Forall (fun c => Car.eliminated c = false
                            \/ (Car.elimination_time c = None
                                /\ Car.elimination_reason c
                                   = Some Markov_Chain_state_transition))
                  (RacingSimulation.cars sim')).
Proof.
  destruct (straight_track_built 12 ltac:(lia)) as (track & _).
  assert (Hactive : Forall (fun c => Car.eliminated c = false)
                      [sample_car 0 0; sample_car 1 1]) by (repeat constructor).
  exists track. split; [reflexivity|]. split; [reflexivity|]. split; [exact Hactive|].
  exact (elimination_disabled_only_markov_eliminates (sample_config 1 false) track
           [sample_car 0 0; sample_car 1 1] (Rng.mk (fun _ => 1%Z) (fun _ => 99 / 100) 0)
           (SimulationConfig.mk_elimination (Some false) (Some 6%Z))
           eq_refl eq_refl Hactive).
Defined.

(** * The elimination pass and cars already flagged *)

Lemma list_set_length {A : Type} (l : list A) (i : nat) (v : A) :
  length (list_set l i v) = length l.
Proof.
  revert i. induction l as [|a l IH]; intros [|i]; simpl; auto.
Qed.

Lemma nth_error_list_set_same {A : Type} (l : list A) (i : nat) (v : A) :
  (i < length l)%nat -> nth_error (list_set l i v) i = Some v.
Proof.
  revert i. induction l as [|a l IH]; intros [|i] H; simpl in *; try lia; auto.
  apply IH. lia.
Qed.

Lemma nth_error_list_set_other {A : Type} (l : list A) (i k : nat) (v : A) :
  i <> k -> nth_error (list_set l i v) k = nth_error l k.
Proof.
  revert i k. induction l as [|a l IH]; intros [|i] [|k] H; simpl; auto; try lia.
Qed.

Lemma roll_elimination_keeps_eliminated (self : RacingSimulation.t) (found : option nat)
    (k : nat) (car : Car.t) :
  nth_error (RacingSimulation.cars self) k = Some car ->
  Car.eliminated car = true ->
  nth_error (RacingSimulation.cars (RacingSimulation.roll_elimination self found)) k
  = Some car.
Proof.
  intros Hk Hel. unfold RacingSimulation.roll_elimination.
  destruct found as [i|]; [|exact Hk].
  destruct (nth_error (RacingSimulation.cars self) i) as [c|] eqn:Hi; [|exact Hk].
  destruct (Car.eliminated c) eqn:Hc; [exact Hk|].
  destruct (Rng.randint (RacingSimulation.rng self)) as [roll g].
  cbn [RacingSimulation.set_rng RacingSimulation.elimination_chance].
  destruct (roll <? _)%Z; [|exact Hk].
  cbn [RacingSimulation.set_eliminated_cars RacingSimulation.set_cars RacingSimulation.cars].
  rewrite nth_error_list_set_other; [exact Hk|].
  intros ->. rewrite Hk in Hi. injection Hi as <-. congruence.
Qed.

Lemma check_eliminations_keeps_eliminated (new_collisions : list CollisionEvent.t) :
  forall (self : RacingSimulation.t) (k : nat) (car : Car.t),
    nth_error (RacingSimulation.cars self) k = Some car ->
    Car.eliminated car = true ->
    nth_error (RacingSimulation.cars
                 (RacingSimulation._check_eliminations self new_collisions)) k
    = Some car.
Proof.
  unfold RacingSimulation._check_eliminations.
  induction new_collisions as [|ev evs IH]; intros self k car Hk Hel; [exact Hk|].
  cbn [fold_left]. apply IH; [|exact Hel].
  apply roll_elimination_keeps_eliminated; [|exact Hel].
  apply roll_elimination_keeps_eliminated; assumption.
Qed.

Lemma Forall2_nth_error {A : Type} (R : A -> A -> Prop) (l l' : list A) (k : nat) (a : A) :
  Forall2 R l l' -> nth_error l k = Some a ->
  exists a', nth_error l' k = Some a' /\ R a a'.
Proof.
  intros H. revert k. induction H as [|x y l l' Hxy Hl IH]; intros [|k] Hk;
    simpl in *; try discriminate.
  - injection Hk as <-. eauto.
  - apply IH. exact Hk.
Qed.

(** C4.  A car flagged by a Markov transition ([eliminated] set,
    [elimination_time] unset) keeps its elimination time unset through the
    collision pass followed by the elimination pass of a cycle, and through
    the elimination pass on any list of collision events: no later pass
    assigns the time. *)
Theorem flagged_car_elimination_time_stays_unset
    (self : RacingSimulation.t) (k : nat) (car : Car.t)
    (events : list CollisionEvent.t) :
  nth_error (RacingSimulation.cars self) k = Some car ->
  Car.eliminated car = true ->
  Car.elimination_time car = None ->
  (let '(new_collisions, detector, cars') :=
     check_collisions (RacingSimulation.collision_detector self)
       (RacingSimulation.cars self) (RacingSimulation.timestamp self) in
   let self' :=
     RacingSimulation._check_eliminations
       (RacingSimulation.set_cars
          (RacingSimulation.set_collision_detector self detector) cars') new_collisions in
   exists car', nth_error (RacingSimulation.cars self') k = Some car'
                /\ Car.eliminated car' = true /\ Car.elimination_time car' = None)
  /\ (exists car',
         nth_error (RacingSimulation.cars
                      (RacingSimulation._check_eliminations self events)) k = Some car'
         /\ Car.eliminated car' = true /\ Car.elimination_time car' = None).
Proof.
  intros Hk Hel Htime. split.
  - pose proof (check_collisions_stats_only (RacingSimulation.collision_detector self)
                  (RacingSimulation.cars self) (RacingSimulation.timestamp self)) as Hst.
    destruct (check_collisions _ _ _) as [[new det] cars']. cbn [snd] in Hst.
    destruct (Forall2_nth_error _ _ _ k car Hst Hk) as (car1 & Hk1 & Hstat).
    apply stats_only_elimination_record in Hstat. unfold elimination_record in Hstat.
    assert (Hel1 : Car.eliminated car1 = true) by congruence.
    exists car1. split; [|split; congruence].
    apply check_eliminations_keeps_eliminated; [exact Hk1|exact Hel1].
  - exists car. split; [|split; assumption].
    apply check_eliminations_keeps_eliminated; assumption.
Qed.

Lemma flagged_car_elimination_time_stays_unset_witness :
  exists (track : Track.t) (flagged : Car.t) (g : Rng.t),
    MarkovChainSimulation._transition_state (sample_config 2 true) (sample_car 1 0)
      (Rng.mk (fun _ => 1%Z) (fun _ => 99 / 100) 0) = Some (flagged, g)
    /\ Car.eliminated flagged = true
    /\ Car.elimination_time flagged = None
    /\ let self := RacingSimulation.init (sample_config 2 true) track
                     [sample_car 0 0; flagged] g in
       let event :=
         {| CollisionEvent.timestamp := 0; CollisionEvent.car_id1 := 0;
            CollisionEvent.car_id2 := 1; CollisionEvent.x := 0; CollisionEvent.y := 0;
            CollisionEvent.lap := 0; CollisionEvent.severity := 0 |} in
       (let '(new_collisions, detector, cars') :=
          check_collisions (RacingSimulation.collision_detector self)
            (RacingSimulation.cars self) (RacingSimulation.timestamp self) in
        let self' :=
          RacingSimulation._check_eliminations
            (RacingSimulation.set_cars
               (RacingSimulation.set_collision_detector self detector) cars')
            new_collisions in
        exists car', nth_error (RacingSimulation.cars self') 1 = Some car'
                     /\ Car.eliminated car' = true /\ Car.elimination_time car' = None)
       /\ (exists car',
              nth_error (RacingSimulation.cars
                           (RacingSimulation._check_eliminations self [event])) 1
              = Some car'
              /\ Car.eliminated car' = true /\ Car.elimination_time car' = None).
Proof.
  destruct (straight_track_built 12 ltac:(lia)) as (track & _).
  destruct (transition_samples_eliminated (sample_config 2 true) (sample_car 1 0)
              (Rng.mk (fun _ => 1%Z) (fun _ => 99 / 100) 0))
    as (flagged & g & Htr & Hflagged);
    try reflexivity; [cbn; lra|].
  assert (Hel : Car.eliminated flagged = true) by (rewrite Hflagged; reflexivity).
  assert (Htime : Car.elimination_time flagged = None) by (rewrite Hflagged; reflexivity).
  exists track, flagged, g.
  split; [exact Htr|]. split; [exact Hel|]. split; [exact Htime|].
  exact (flagged_car_elimination_time_stays_unset
           (RacingSimulation.init (sample_config 2 true) track [sample_car 0 0; flagged] g)
           1 flagged
           [ {| CollisionEvent.timestamp := 0; CollisionEvent.car_id1 := 0;
                CollisionEvent.car_id2 := 1; CollisionEvent.x := 0; CollisionEvent.y := 0;
                CollisionEvent.lap := 0; CollisionEvent.severity := 0 |} ]
           eq_refl Hel Htime).
Defined.

(** * The event queue of the event-driven scheduler *)

Section Heap_contents.
Context {A : Type} (lt : A -> A -> bool) (P : A -> Prop).

Lemma list_set_Forall (l : list A) (i : nat) (v : A) :
  Forall P l -> P v -> Forall P (list_set l i v).
Proof.
  intros Hl Hv. revert i. induction Hl as [|a l Ha Hl IH]; intros [|i]; simpl;
    constructor; auto.
Qed.

Lemma nth_Forall (l : list A) (i : nat) (d : A) : Forall P l -> P d -> P (nth i l d).
Proof.
  intros Hl Hd. revert i. induction Hl as [|a l Ha Hl IH]; intros [|i]; simpl; auto.
Qed.

Lemma siftdown_loop_Forall (fuel : nat) :
  forall (heap : list A) (startpos pos : nat) (newitem : A),
    Forall P heap -> P newitem ->
    Forall P (heapq.siftdown_loop lt fuel heap startpos pos newitem).
Proof.
  induction fuel as [|fuel IH]; intros heap startpos pos newitem Hh Hn; simpl.
  - apply list_set_Forall; assumption.
  - destruct (startpos <? pos)%nat; [|apply list_set_Forall; assumption].
    destruct (lt newitem _); [|apply list_set_Forall; assumption].
    apply IH; [|exact Hn].
    apply list_set_Forall; [exact Hh|]. apply nth_Forall; assumption.
Qed.

Lemma siftdown_loop_length (fuel : nat) :
  forall (heap : list A) (startpos pos : nat) (newitem : A),
    length (heapq.siftdown_loop lt fuel heap startpos pos newitem) = length heap.
Proof.
  induction fuel as [|fuel IH]; intros heap startpos pos newitem; simpl.
  - apply list_set_length.
  - destruct (startpos <? pos)%nat; [|apply list_set_length].
    destruct (lt newitem _); [|apply list_set_length].
    rewrite IH. apply list_set_length.
Qed.

Lemma _siftdown_Forall (heap : list A) (startpos pos : nat) :
  Forall P heap -> Forall P (heapq._siftdown lt heap startpos pos).
Proof.
  intros Hh. unfold heapq._siftdown.
  destruct (nth_error heap pos) as [newitem|] eqn:Hn; [|exact Hh].
  apply siftdown_loop_Forall; [exact Hh|].
  apply nth_error_In in Hn. rewrite Forall_forall in Hh. auto.
Qed.

Lemma _siftdown_length (heap : list A) (startpos pos : nat) :
  length (heapq._siftdown lt heap startpos pos) = length heap.
Proof.
  unfold heapq._siftdown. destruct (nth_error heap pos); [|reflexivity].
  apply siftdown_loop_length.
Qed.

Lemma siftup_loop_Forall (fuel : nat) :
  forall (heap : list A) (endpos pos : nat) (newitem : A),
    Forall P heap -> P newitem ->
    Forall P (fst (heapq.siftup_loop lt fuel heap endpos pos newitem)).
Proof.
  induction fuel as [|fuel IH]; intros heap endpos pos newitem Hh Hn; simpl; [exact Hh|].
  destruct (pos + (pos + 0) + 1 <? endpos)%nat; [|exact Hh].
  apply IH; [|exact Hn].
  apply list_set_Forall; [exact Hh|]. apply nth_Forall; assumption.
Qed.

Lemma siftup_loop_length (fuel : nat) :
  forall (heap : list A) (endpos pos : nat) (newitem : A),
    length (fst (heapq.siftup_loop lt fuel heap endpos pos newitem)) = length heap.
Proof.
  induction fuel as [|fuel IH]; intros heap endpos pos newitem; simpl; [reflexivity|].
  destruct (pos + (pos + 0) + 1 <? endpos)%nat; [|reflexivity].
  rewrite IH. apply list_set_length.
Qed.

Lemma _siftup_Forall (heap : list A) (pos : nat) :
  Forall P heap -> Forall P (heapq._siftup lt heap pos).
Proof.
  intros Hh. unfold heapq._siftup.
  destruct (nth_error heap pos) as [newitem|] eqn:Hn; [|exact Hh].
  assert (Hnew : P newitem).
  { apply nth_error_In in Hn. rewrite Forall_forall in Hh. auto. }
  pose proof (siftup_loop_Forall (length heap) heap (length heap) pos newitem Hh Hnew) as H.
  destruct (heapq.siftup_loop lt _ _ _ _ _) as [heap' leaf]. cbn [fst] in H.
  apply _siftdown_Forall. apply list_set_Forall; assumption.
Qed.

Lemma _siftup_length (heap : list A) (pos : nat) :
  length (heapq._siftup lt heap pos) = length heap.
Proof.
  unfold heapq._siftup. destruct (nth_error heap pos) as [newitem|]; [|reflexivity].
  pose proof (siftup_loop_length (length heap) heap (length heap) pos newitem) as H.
  destruct (heapq.siftup_loop lt _ _ _ _ _) as [heap' leaf]. cbn [fst] in H.
  rewrite _siftdown_length, list_set_length. exact H.
Qed.

Lemma heappush_Forall (heap : list A) (item : A) :
  Forall P heap -> P item -> Forall P (heapq.heappush lt heap item).
Proof.
  intros Hh Hi. unfold heapq.heappush. apply _siftdown_Forall.
  apply Forall_app. split; [exact Hh|]. constructor; [exact Hi|constructor].
Qed.

Lemma heappush_length (heap : list A) (item : A) :
  length (heapq.heappush lt heap item) = S (length heap).
Proof.
  unfold heapq.heappush. rewrite _siftdown_length, length_app. simpl. lia.
Qed.

Lemma heappop_Forall (heap heap' : list A) (item : A) :
  Forall P heap -> heapq.heappop lt heap = Some (item, heap') ->
  P item /\ Forall P heap' /\ length heap = S (length heap').
Proof.
  intros Hh. unfold heapq.heappop.
  destruct (rev heap) as [|lastelt r] eqn:Hrev; [discriminate|].
  assert (Hheap : heap = rev r ++ [lastelt]).
  { rewrite <- (rev_involutive heap), Hrev. reflexivity. }
  assert (Hlast : P lastelt).
  { rewrite Forall_forall in Hh. apply Hh. rewrite Hheap. apply in_or_app. right. left.
    reflexivity. }
  assert (Hinit : removelast heap = rev r).
  { rewrite Hheap. apply removelast_last. }
  rewrite Hinit.
  assert (Hr : Forall P (rev r)).
  { rewrite Hheap in Hh. apply Forall_app in Hh. tauto. }
  assert (Hlen : length heap = S (length (rev r))).
  { rewrite Hheap, length_app. simpl. lia. }
  destruct (rev r) as [|returnitem rest] eqn:Hrr.
  - intros H. injection H as <- <-. repeat split; auto.
  - intros H. injection H as <- <-.
    inversion Hr; subst. split; [assumption|]. split.
    + apply _siftup_Forall. constructor; assumption.
    + rewrite _siftup_length. exact Hlen.
Qed.

End Heap_contents.

(** Projections of the event-driven scheduler state through its setters. *)
Ltac des_cbn :=
  cbn [DiscreteEventSimulation.config DiscreteEventSimulation.event_queue
       DiscreteEventSimulation.current_time DiscreteEventSimulation.track
       DiscreteEventSimulation.cars DiscreteEventSimulation.collision_detector
       DiscreteEventSimulation.target_laps DiscreteEventSimulation.time_limit
       DiscreteEventSimulation.dt DiscreteEventSimulation.collisions
       DiscreteEventSimulation.near_misses DiscreteEventSimulation.eliminated_cars
       DiscreteEventSimulation.rng
       DiscreteEventSimulation.set_event_queue DiscreteEventSimulation.set_current_time
       DiscreteEventSimulation.set_cars DiscreteEventSimulation.set_collision_detector
       DiscreteEventSimulation.set_collisions DiscreteEventSimulation.set_eliminated_cars
       DiscreteEventSimulation.set_rng].

Lemma schedule_event_periodic (self : DiscreteEventSimulation.t) (time : R)
    (ty : EventType) (h : Handler) (data : option (nat * nat)) :
  periodic_queue self -> is_periodic (Event.mk time ty h data) = true ->
  periodic_queue (DiscreteEventSimulation.schedule_event self time ty h data).
Proof.
  intros Hq He. unfold periodic_queue, DiscreteEventSimulation.schedule_event. des_cbn.
  apply heappush_Forall; assumption.
Qed.

Lemma fold_left_invariant {A B : Type} (I : A -> Prop) (f : A -> B -> A) (l : list B) :
  (forall a b, I a -> I (f a b)) -> forall a, I a -> I (fold_left f l a).
Proof.
  intros Hf. induction l as [|b l IH]; intros a Ha; simpl; auto.
Qed.

Lemma schedule_all_periodic (self : DiscreteEventSimulation.t) :
  periodic_queue self -> periodic_queue (DiscreteEventSimulation.schedule_all self).
Proof.
  intros Hq. unfold DiscreteEventSimulation.schedule_all.
  apply fold_left_invariant.
  - intros a i Ha. apply schedule_event_periodic; [exact Ha|reflexivity].
  - apply fold_left_invariant; [|exact Hq].
    intros a i Ha. apply schedule_event_periodic; [exact Ha|reflexivity].
Qed.

(** No handler touches the queue or the time limit. *)
Lemma _check_elimination_queue (self : DiscreteEventSimulation.t) (i : nat) :
  DiscreteEventSimulation.event_queue (DiscreteEventSimulation._check_elimination self i)
  = DiscreteEventSimulation.event_queue self.
Proof.
  unfold DiscreteEventSimulation._check_elimination.
  destruct (nth_error _ i); [|reflexivity].
  destruct (Car.eliminated _); [reflexivity|].
  destruct (negb _); [reflexivity|].
  destruct (Rng.randint _) as [roll g].
  destruct (roll <? _)%Z; reflexivity.
Qed.

Lemma _handle_collision_queue (self : DiscreteEventSimulation.t) (i j : nat) :
  DiscreteEventSimulation.event_queue (DiscreteEventSimulation._handle_collision self i j)
  = DiscreteEventSimulation.event_queue self.
Proof.
  unfold DiscreteEventSimulation._handle_collision.
  destruct (nth_error _ i); [|reflexivity].
  destruct (nth_error _ j); [|reflexivity].
  rewrite !_check_elimination_queue.
  repeat match goal with
         | |- context [match nth_error ?l ?k with _ => _ end] =>
             destruct (nth_error l k); des_cbn
         end; reflexivity.
Qed.

Lemma call_handler_queue (self self' : DiscreteEventSimulation.t) (h : Handler) :
  DiscreteEventSimulation.call_handler self h = Some self' ->
  DiscreteEventSimulation.event_queue self' = DiscreteEventSimulation.event_queue self.
Proof.
  destruct h as [| |i j]; simpl.
  - unfold DiscreteEventSimulation.update_all_cars.
    destruct (DiscreteEventSimulation.update_cars _ _ _ _ _); [|discriminate].
    intros H. injection H as <-. reflexivity.
  - unfold DiscreteEventSimulation.check_all_collisions.
    destruct (check_collisions _ _ _) as [[new det] cars'].
    intros H. injection H as <-. reflexivity.
  - intros H. injection H as <-. apply _handle_collision_queue.
Qed.

Lemma event_step_queue (self : DiscreteEventSimulation.t) (t : R) :
  periodic_queue self ->
  match DiscreteEventSimulation.event_step self t with
  | DiscreteEventSimulation.Continue self' _ =>
      periodic_queue self'
      /\ length (DiscreteEventSimulation.event_queue self)
         = S (length (DiscreteEventSimulation.event_queue self'))
  | DiscreteEventSimulation.Break self' => periodic_queue self'
  | DiscreteEventSimulation.Raise => True
  end.
Proof.
  intros Hq. unfold DiscreteEventSimulation.event_step.
  destruct (heapq.heappop _ _) as [[event queue]|] eqn:Hpop; [|exact I].
  destruct (heappop_Forall Event.lt _ _ _ _ Hq Hpop) as (_ & Hqueue & Hlen).
  des_cbn.
  destruct (length _ =? 0)%nat; [exact Hqueue|].
  destruct (forallb _ _); [exact Hqueue|].
  destruct (DiscreteEventSimulation.call_handler _ _) as [self1|] eqn:Hcall; [|exact I].
  apply call_handler_queue in Hcall.
  destruct (Rleb _ _); unfold periodic_queue, DiscreteEventSimulation._log_telemetry; des_cbn;
    rewrite Hcall; des_cbn; split; assumption.
Qed.

Lemma run_reaches_periodic (self self' : DiscreteEventSimulation.t) (t : R) :
  run_reaches self t self' -> periodic_queue self -> periodic_queue self'.
Proof.
  intros H. induction H as [self t|self self' t _ _ Hstep|self self1 self' t t1 _ _ Hstep _ IH];
    intros Hq.
  - exact Hq.
  - pose proof (event_step_queue self t Hq) as H. rewrite Hstep in H. exact H.
  - pose proof (event_step_queue self t Hq) as H. rewrite Hstep in H. apply IH. tauto.
Qed.

(** The fuel of [run] is never exhausted: every iteration pops one event
    and no handler pushes one. *)
Lemma process_events_fuel (fuel : nat) :
  forall (self : DiscreteEventSimulation.t) (t : R),
    periodic_queue self ->
    (length (DiscreteEventSimulation.event_queue self) <= fuel)%nat ->
    DiscreteEventSimulation.process_events fuel self t <> OutOfFuel.
Proof.
  induction fuel as [|fuel IH]; intros self t Hq Hlen; simpl.
  - destruct (DiscreteEventSimulation.event_queue self); [discriminate|simpl in Hlen; lia].
  - destruct (DiscreteEventSimulation.event_queue self) eqn:Hqueue; [discriminate|].
    destruct (negb _); [discriminate|].
    pose proof (event_step_queue self t Hq) as Hstep.
    destruct (DiscreteEventSimulation.event_step self t) as [self1 t1|self1|];
      try discriminate.
    destruct Hstep as [Hq1 Hl]. apply IH; [exact Hq1|].
    rewrite Hqueue in Hl. simpl in Hl, Hlen. lia.
Qed.

Lemma init_periodic (config : Config.t) (track : Track.t) (cars : list Car.t) (rng : Rng.t) :
  periodic_queue (DiscreteEventSimulation.init config track cars rng).
Proof. constructor. Qed.

(** C9.  Every state the event-driven [run] passes through has a queue of
    periodic update and collision-check events only: no predictive
    ['collision'] event is ever scheduled, whatever the positions and
    speeds of the cars; and the run ends by its own loop condition. *)
Theorem run_never_schedules_predictive_collision
    (config : Config.t) (track : Track.t) (cars : list Car.t) (rng : Rng.t)
    (self' : DiscreteEventSimulation.t) :
  run_reaches
    (DiscreteEventSimulation.schedule_all (DiscreteEventSimulation.init config track cars rng))
    0 self' ->
  Forall (fun e => Event.event_type e <> collision
                   /\ forall i j, Event.handler e <> _handle_collision_of i j)
         (DiscreteEventSimulation.event_queue self')
  /\ DiscreteEventSimulation.run (DiscreteEventSimulation.init config track cars rng)
     <> OutOfFuel.
Proof.
  intros Hreach.
  pose proof (schedule_all_periodic _ (init_periodic config track cars rng)) as Hq0.
  split.
  - pose proof (run_reaches_periodic _ _ _ Hreach Hq0) as Hq.
    unfold periodic_queue in Hq. rewrite Forall_forall in *.
    intros e He. specialize (Hq e He). unfold is_periodic in Hq.
    destruct (Event.event_type e), (Event.handler e); try discriminate;
      split; intros; discriminate.
  - unfold DiscreteEventSimulation.run. apply process_events_fuel; [exact Hq0|lia].
Qed.

Lemma run_never_schedules_predictive_collision_witness :
  exists track : Track.t,
    let cars := [Car.set_velocity (sample_car 0 0) 2; sample_car 1 3] in
    let self := DiscreteEventSimulation.schedule_all
                  (DiscreteEventSimulation.init (sample_config 2 true) track cars
                     (Rng.mk (fun _ => 1%Z) (fun _ => 0) 0)) in
    run_reaches self 0 self
    /\ Forall (fun e => Event.event_type e <> collision
                        /\ forall i j, Event.handler e <> _handle_collision_of i j)
              (DiscreteEventSimulation.event_queue self)
    /\ DiscreteEventSimulation.run
         (DiscreteEventSimulation.init (sample_config 2 true) track cars
            (Rng.mk (fun _ => 1%Z) (fun _ => 0) 0)) <> OutOfFuel.
Proof.
  destruct (straight_track_built 12 ltac:(lia)) as (track & _).
  exists track. cbv zeta. split; [apply reaches_here|].
  exact (run_never_schedules_predictive_collision (sample_config 2 true) track
           [Car.set_velocity (sample_car 0 0) 2; sample_car 1 3]
           (Rng.mk (fun _ => 1%Z) (fun _ => 0) 0) _ (reaches_here _ _)).
Defined.

(** * The collision pass *)

(** ** Pairs of identifiers *)

Lemma pair_eqb_eq (p q : nat * nat) : pair_eqb p q = true <-> p = q.
Proof.
  destruct p as [a b], q as [c d]. unfold pair_eqb. simpl.
  rewrite andb_true_iff, !Nat.eqb_eq. split; [intros [-> ->]; reflexivity|].
  intros H. injection H as -> ->. auto.
Qed.

Lemma pair_in_In (p : nat * nat) (s : list (nat * nat)) : pair_in p s = true <-> In p s.
Proof.
  unfold pair_in. rewrite existsb_exists. split.
  - intros (q & Hq & Heq). apply pair_eqb_eq in Heq. subst. exact Hq.
  - intros H. exists p. split; [exact H|]. apply pair_eqb_eq. reflexivity.
Qed.

Lemma pair_in_false (p : nat * nat) (s : list (nat * nat)) :
  pair_in p s = false <-> ~ In p s.
Proof.
  rewrite <- pair_in_In. destruct (pair_in p s); split; intros; congruence.
Qed.

Lemma sorted_pair_eq (a b c d : nat) :
  sorted_pair a b = sorted_pair c d <-> (a = c /\ b = d) \/ (a = d /\ b = c).
Proof.
  unfold sorted_pair. split.
  - intros H. injection H as Hmin Hmax. lia.
  - intros [[-> ->]|[-> ->]]; f_equal; lia.
Qed.

(** ** Each pair at most once, whatever the identifiers *)

Lemma check_pair_invariant (radius ts : R) (car1 car2 : Car.t) (st : Pass.t) :
  pass_invariant st -> pass_invariant (snd (check_pair radius ts car1 car2 st)).
Proof.
  intros [Hmap Hnd]. unfold check_pair.
  destruct (Car.eliminated car2); [split; assumption|].
  destruct (pair_in _ _) eqn:Hin; [split; assumption|].
  destruct (Rltb _ _); [|split; assumption].
  cbn [snd]. unfold pass_invariant. cbn [Pass.new_collisions Pass.collision_pairs].
  split.
  - rewrite map_app, Hmap. reflexivity.
  - constructor; [|exact Hnd]. apply pair_in_false. exact Hin.
Qed.

Lemma check_against_invariant (radius ts : R) (rest : list Car.t) :
  forall (car1 : Car.t) (st : Pass.t),
    pass_invariant st -> pass_invariant (snd (check_against radius ts car1 rest st)).
Proof.
  induction rest as [|car2 rest IH]; intros car1 st Hst; simpl; [exact Hst|].
  pose proof (check_pair_invariant radius ts car1 car2 st Hst) as H1.
  destruct (check_pair radius ts car1 car2 st) as [[car1' car2'] st']. cbn [snd] in H1.
  specialize (IH car1' st' H1).
  destruct (check_against radius ts car1' rest st') as [[car1'' rest'] st''].
  exact IH.
Qed.

Lemma check_from_invariant (n : nat) (radius ts : R) :
  forall (cars : list Car.t) (st : Pass.t),
    pass_invariant st -> pass_invariant (snd (check_from n radius ts cars st)).
Proof.
  induction n as [|n IH]; intros cars st Hst; simpl; [exact Hst|].
  destruct cars as [|car1 rest]; [exact Hst|].
  destruct (Car.eliminated car1).
  - specialize (IH rest st Hst).
    destruct (check_from n radius ts rest st) as [rest' st']. exact IH.
  - pose proof (check_against_invariant radius ts rest car1 st Hst) as H1.
    destruct (check_against radius ts car1 rest st) as [[car1' rest'] st']. cbn [snd] in H1.
    specialize (IH rest' st' H1).
    destruct (check_from n radius ts rest' st') as [rest'' st'']. exact IH.
Qed.

Lemma check_collisions_pairs_once (self : CollisionDetector.t) (cars : list Car.t) (ts : R) :
  NoDup (map event_pair (fst (fst (check_collisions self cars ts)))).
Proof.
  unfold check_collisions.
  pose proof (check_from_invariant (length cars) (CollisionDetector.collision_radius self) ts
                cars
                {| Pass.new_collisions := []; Pass.collision_pairs := [];
                   Pass.collisions := CollisionDetector.collisions self |}) as H.
  destruct (check_from _ _ _ _ _) as [cars' st']. cbn [fst snd] in *.
  destruct H as [Hmap Hnd].
  - split; [reflexivity|constructor].
  - rewrite Hmap. apply NoDup_rev. exact Hnd.
Qed.

(** ** The pass on cars with distinct identifiers *)

Lemma stats_only_car_id (c c' : Car.t) : stats_only c c' -> Car.car_id c' = Car.car_id c.
Proof. intros (n & s & f & ->). reflexivity. Qed.

Lemma stats_only_collides_l (radius : R) (c1 c1' c2 : Car.t) :
  stats_only c1 c1' -> collides radius c1' c2 = collides radius c1 c2.
Proof. intros (n & s & f & ->). reflexivity. Qed.

Lemma stats_only_collides_r (radius : R) (c1 c2 c2' : Car.t) :
  stats_only c2 c2' -> collides radius c1 c2' = collides radius c1 c2.
Proof. intros (n & s & f & ->). reflexivity. Qed.

Lemma stats_only_event_l (ts : R) (c1 c1' c2 : Car.t) :
  stats_only c1 c1' -> collision_event_of ts c1' c2 = collision_event_of ts c1 c2.
Proof. intros (n & s & f & ->). reflexivity. Qed.

Lemma stats_only_event_r (ts : R) (c1 c2 c2' : Car.t) :
  stats_only c2 c2' -> collision_event_of ts c1 c2' = collision_event_of ts c1 c2.
Proof. intros (n & s & f & ->). reflexivity. Qed.

Lemma stats_only_eliminated (c c' : Car.t) :
  stats_only c c' -> Car.eliminated c' = Car.eliminated c.
Proof. intros (n & s & f & ->). reflexivity. Qed.

Lemma pair_events_stats_only_l (radius ts : R) (c1 c1' : Car.t) (rest : list Car.t) :
  stats_only c1 c1' -> pair_events radius ts c1' rest = pair_events radius ts c1 rest.
Proof.
  intros H. unfold pair_events. induction rest as [|c2 rest IH]; simpl; [reflexivity|].
  rewrite IH, (stats_only_collides_l radius c1 c1' c2 H), (stats_only_event_l ts c1 c1' c2 H).
  reflexivity.
Qed.

Lemma pair_events_stats_only_r (radius ts : R) (c1 : Car.t) (rest rest' : list Car.t) :
  Forall2 stats_only rest rest' ->
  pair_events radius ts c1 rest' = pair_events radius ts c1 rest.
Proof.
  intros H. unfold pair_events. induction H as [|c2 c2' rest rest' Hc Hrest IH]; simpl;
    [reflexivity|].
  rewrite IH, (stats_only_collides_r radius c1 c2 c2' Hc), (stats_only_event_r ts c1 c2 c2' Hc).
  reflexivity.
Qed.

Lemma expected_events_stats_only (radius ts : R) (cars cars' : list Car.t) :
  Forall2 stats_only cars cars' ->
  expected_events radius ts cars' = expected_events radius ts cars.
Proof.
  intros H. induction H as [|c c' cars cars' Hc Hcars IH]; simpl; [reflexivity|].
  rewrite IH, (stats_only_eliminated c c' Hc).
  rewrite (pair_events_stats_only_r radius ts c' cars cars' Hcars).
  rewrite (pair_events_stats_only_l radius ts c c' cars Hc). reflexivity.
Qed.

Lemma Forall2_stats_only_ids (cars cars' : list Car.t) :
  Forall2 stats_only cars cars' -> map Car.car_id cars' = map Car.car_id cars.
Proof.
  apply (Forall2_map_eq Car.car_id stats_only). apply stats_only_car_id.
Qed.

(** The events of one car against the cars after it name that car first
    and one of the later cars second. *)
Lemma pair_events_ids (radius ts : R) (c1 : Car.t) (rest : list Car.t) :
  Forall (fun e => CollisionEvent.car_id1 e = Car.car_id c1
                   /\ In (CollisionEvent.car_id2 e) (map Car.car_id rest))
         (pair_events radius ts c1 rest).
Proof.
  unfold pair_events. induction rest as [|c2 rest IH]; simpl; [constructor|].
  apply Forall_app. split.
  - destruct (collides radius c1 c2); constructor; [|constructor].
    simpl. auto.
  - eapply Forall_impl; [|exact IH]. intros e [H1 H2]. simpl. auto.
Qed.

Lemma expected_events_ids (radius ts : R) (cars : list Car.t) :
  Forall (fun e => In (CollisionEvent.car_id1 e) (map Car.car_id cars)
                   /\ In (CollisionEvent.car_id2 e) (map Car.car_id cars))
         (expected_events radius ts cars).
Proof.
  induction cars as [|c1 rest IH]; simpl; [constructor|].
  apply Forall_app. split.
  - destruct (Car.eliminated c1); [constructor|].
    eapply Forall_impl; [|apply pair_events_ids]. intros e [H1 H2]. simpl. auto.
  - eapply Forall_impl; [|exact IH]. intros e [H1 H2]. simpl. auto.
Qed.

(** Events that do not name a car add nothing to it. *)
Lemma filter_involves_none (car_id : nat) (events : list CollisionEvent.t) :
  Forall (fun e => involves car_id e = false) events ->
  filter (involves car_id) events = []
  /\ forall start, severity_sum car_id events start = start.
Proof.
  intros H. unfold severity_sum. induction H as [|e events He Hev [IH1 IH2]]; simpl.
  - auto.
  - rewrite He. auto.
Qed.

Lemma filter_involves_all (car_id : nat) (events : list CollisionEvent.t) :
  Forall (fun e => involves car_id e = true) events ->
  filter (involves car_id) events = events
  /\ forall start,
       severity_sum car_id events start
       = fold_left (fun acc e => acc + CollisionEvent.severity e) events start.
Proof.
  intros H. unfold severity_sum. induction H as [|e events He Hev [IH1 IH2]]; simpl.
  - auto.
  - rewrite He, IH1. auto.
Qed.

Lemma severity_sum_app (car_id : nat) (e1 e2 : list CollisionEvent.t) (start : R) :
  severity_sum car_id (e1 ++ e2) start = severity_sum car_id e2 (severity_sum car_id e1 start).
Proof. unfold severity_sum. apply fold_left_app. Qed.

Lemma accumulated_none (c : Car.t) (events : list CollisionEvent.t) :
  Forall (fun e => involves (Car.car_id c) e = false) events -> accumulated events c c.
Proof.
  intros H. destruct (filter_involves_none _ _ H) as [Hf Hs].
  unfold accumulated. rewrite Hf, Hs. simpl. split; [apply stats_only_refl|]. split; [lia|auto].
Qed.

(** Accumulation over two successive batches of events. *)
Lemma accumulated_app (e1 e2 : list CollisionEvent.t) (a b c : Car.t) :
  accumulated e1 a b -> accumulated e2 b c -> accumulated (e1 ++ e2) a c.
Proof.
  intros (Hs1 & Hc1 & Ht1) (Hs2 & Hc2 & Ht2).
  pose proof (stats_only_car_id a b Hs1) as Hid. rewrite Hid in *.
  unfold accumulated. rewrite filter_app, length_app, severity_sum_app.
  split; [eapply stats_only_trans; eassumption|]. split; [lia|congruence].
Qed.

Lemma Forall2_impl_In {A B : Type} (P Q : A -> B -> Prop) (l : list A) (l' : list B) :
  (forall a b, In a l -> P a b -> Q a b) -> Forall2 P l l' -> Forall2 Q l l'.
Proof.
  intros H HF. induction HF as [|a b l l' Hab Hl IH]; constructor.
  - apply H; [left; reflexivity|exact Hab].
  - apply IH. intros a' b' Hin. apply H. right. exact Hin.
Qed.

Lemma Forall2_app_events (e1 e2 : list CollisionEvent.t) (a b c : list Car.t) :
  Forall2 (accumulated e1) a b -> Forall2 (accumulated e2) b c ->
  Forall2 (accumulated (e1 ++ e2)) a c.
Proof.
  intros Hab. revert c. induction Hab as [|x y a b Hxy Hab IH]; intros c Hbc.
  - inversion Hbc. constructor.
  - inversion Hbc as [|y' z b' c' Hyz Hbc']; subst.
    constructor; [eapply accumulated_app; eassumption|]. apply IH. assumption.
Qed.

Lemma check_pair_fresh (radius ts : R) (car1 car2 : Car.t) (st : Pass.t) :
  pair_in (sorted_pair (Car.car_id car1) (Car.car_id car2)) (Pass.collision_pairs st) = false ->
  check_pair radius ts car1 car2 st
  = if collides radius car1 car2 then
      (restat car1 (Car.collision_count car1 + 1)
         (Car.total_collision_severity car1 + relative_speed car1 car2) true,
       restat car2 (Car.collision_count car2 + 1)
         (Car.total_collision_severity car2 + relative_speed car1 car2) true,
       {| Pass.new_collisions :=
            Pass.new_collisions st ++ [collision_event_of ts car1 car2];
          Pass.collision_pairs :=
            sorted_pair (Car.car_id car1) (Car.car_id car2) :: Pass.collision_pairs st;
          Pass.collisions := Pass.collisions st ++ [collision_event_of ts car1 car2] |})
    else (car1, car2, st).
Proof.
  intros Hfresh. unfold check_pair, collides. rewrite Hfresh.
  destruct (Car.eliminated car2); [reflexivity|].
  cbn [negb andb]. destruct (Rltb _ _); reflexivity.
Qed.

Lemma pair_events_not_involved (radius ts : R) (c1 : Car.t) (rest : list Car.t) (car_id : nat) :
  car_id <> Car.car_id c1 -> ~ In car_id (map Car.car_id rest) ->
  Forall (fun e => involves car_id e = false) (pair_events radius ts c1 rest).
Proof.
  intros Hne Hnin. eapply Forall_impl; [|apply pair_events_ids].
  intros e [H1 H2]. unfold involves. apply orb_false_iff. split; apply Nat.eqb_neq.
  - congruence.
  - intros Heq. apply Hnin. rewrite <- Heq. exact H2.
Qed.

Lemma accumulated_hit (ts : R) (c1 c2 c : Car.t) :
  involves (Car.car_id c) (collision_event_of ts c1 c2) = true ->
  accumulated [collision_event_of ts c1 c2] c
    (restat c (Car.collision_count c + 1)
       (Car.total_collision_severity c + relative_speed c1 c2) true).
Proof.
  intros H. unfold accumulated, severity_sum. cbn [filter fold_left]. rewrite H.
  split; [eexists _, _, _; reflexivity|]. split; reflexivity.
Qed.

Lemma accumulated_miss (ts : R) (c1 c2 c : Car.t) :
  Car.car_id c <> Car.car_id c1 -> Car.car_id c <> Car.car_id c2 ->
  accumulated [collision_event_of ts c1 c2] c c.
Proof.
  intros H1 H2. apply accumulated_none. constructor; [|constructor].
  unfold involves. cbn [collision_event_of CollisionEvent.car_id1 CollisionEvent.car_id2].
  apply orb_false_iff. split; apply Nat.eqb_neq; congruence.
Qed.

Lemma check_against_spec (radius ts : R) (rest : list Car.t) :
  forall (c1 : Car.t) (st : Pass.t),
    NoDup (map Car.car_id rest) ->
    ~ In (Car.car_id c1) (map Car.car_id rest) ->
    (forall c2, In c2 rest ->
                ~ In (sorted_pair (Car.car_id c1) (Car.car_id c2)) (Pass.collision_pairs st)) ->
    exists c1' rest' st',
      check_against radius ts c1 rest st = (c1', rest', st')
      /\ Pass.new_collisions st'
         = Pass.new_collisions st ++ pair_events radius ts c1 rest
      /\ Pass.collisions st' = Pass.collisions st ++ pair_events radius ts c1 rest
      /\ Pass.collision_pairs st'
         = rev (map event_pair (pair_events radius ts c1 rest)) ++ Pass.collision_pairs st
      /\ accumulated (pair_events radius ts c1 rest) c1 c1'
      /\ Forall2 (accumulated (pair_events radius ts c1 rest)) rest rest'.
Proof.
  induction rest as [|c2 tl IH]; intros c1 st Hnd Hc1 Hfresh.
  - exists c1, [], st. cbn. rewrite !app_nil_r.
    split; [reflexivity|]. split; [reflexivity|]. split; [reflexivity|].
    split; [reflexivity|]. split; [|constructor].
    apply accumulated_none. constructor.
  - cbn [map] in Hnd, Hc1. inversion Hnd as [|? ? Hc2 Hnd_tl]; subst.
    assert (Hne : Car.car_id c1 <> Car.car_id c2) by (intros E; apply Hc1; left; auto).
    assert (Hc1_tl : ~ In (Car.car_id c1) (map Car.car_id tl))
      by (intros E; apply Hc1; right; auto).
    cbn [check_against].
    rewrite check_pair_fresh
      by (apply pair_in_false; apply Hfresh; left; reflexivity).
    unfold pair_events. cbn [flat_map]. fold (pair_events radius ts c1 tl).
    destruct (collides radius c1 c2) eqn:Hcol.
    + set (ev := collision_event_of ts c1 c2).
      set (c1b := restat c1 (Car.collision_count c1 + 1)
                    (Car.total_collision_severity c1 + relative_speed c1 c2) true).
      set (c2b := restat c2 (Car.collision_count c2 + 1)
                    (Car.total_collision_severity c2 + relative_speed c1 c2) true).
      assert (Hs1 : stats_only c1 c1b) by (eexists _, _, _; reflexivity).
      match goal with
      | |- context [check_against radius ts c1b tl ?s] => set (st1 := s)
      end.
      destruct (IH c1b st1 Hnd_tl Hc1_tl) as (c1' & tl' & st' & Heq & Hnew & Hcol' & Hpairs & Hacc1 & Htl).
      { intros c3 Hc3 [Hin|Hin].
        - change (Car.car_id c1b) with (Car.car_id c1) in Hin.
          apply sorted_pair_eq in Hin. apply Hc2.
          destruct Hin as [[_ Hin]|[_ Hin]]; [|congruence].
          rewrite Hin. apply in_map. exact Hc3.
        - apply (Hfresh c3); [right; exact Hc3|exact Hin]. }
      rewrite (pair_events_stats_only_l radius ts c1 c1b tl Hs1) in *.
      exists c1', (c2b :: tl'), st'. rewrite Heq.
      split; [reflexivity|].
      split; [rewrite Hnew; unfold st1; cbn [Pass.new_collisions];
              rewrite <- app_assoc; reflexivity|].
      split; [rewrite Hcol'; unfold st1; cbn [Pass.collisions];
              rewrite <- app_assoc; reflexivity|].
      split; [rewrite Hpairs; unfold st1; cbn [Pass.collision_pairs map rev app];
              rewrite <- app_assoc; reflexivity|].
      split.
      * apply (accumulated_app [ev] _ c1 c1b c1'); [|exact Hacc1].
        apply accumulated_hit. unfold involves. cbn. rewrite Nat.eqb_refl. reflexivity.
      * constructor.
        -- apply (accumulated_app [ev] _ c2 c2b c2b).
           ++ apply accumulated_hit. unfold involves. cbn. rewrite Nat.eqb_refl.
              apply orb_true_r.
           ++ apply accumulated_none. apply pair_events_not_involved; [|exact Hc2].
              change (Car.car_id c2b) with (Car.car_id c2). congruence.
        -- apply (Forall2_impl_In (accumulated (pair_events radius ts c1 tl))); [|exact Htl].
           intros c3 c3' Hin Hacc.
           apply (accumulated_app [ev] _ c3 c3 c3'); [|exact Hacc].
           apply accumulated_miss.
           ++ intros E. apply Hc1_tl. rewrite <- E. apply in_map. exact Hin.
           ++ intros E. apply Hc2. rewrite <- E. apply in_map. exact Hin.
    + destruct (IH c1 st Hnd_tl Hc1_tl) as (c1' & tl' & st' & Heq & Hnew & Hcol' & Hpairs & Hacc1 & Htl).
      { intros c3 Hc3. apply Hfresh. right. exact Hc3. }
      exists c1', (c2 :: tl'), st'. rewrite Heq. cbn [app].
      split; [reflexivity|]. split; [exact Hnew|]. split; [exact Hcol'|].
      split; [exact Hpairs|]. split; [exact Hacc1|].
      constructor; [|exact Htl].
      apply accumulated_none. apply pair_events_not_involved; [congruence|exact Hc2].
Qed.

Lemma Forall2_accumulated_stats_only (events : list CollisionEvent.t) (l l' : list Car.t) :
  Forall2 (accumulated events) l l' -> Forall2 stats_only l l'.
Proof.
  intros H. eapply Forall2_impl; [|exact H]. intros a b (Hs & _). exact Hs.
Qed.

Lemma expected_events_not_involved (radius ts : R) (cars : list Car.t) (car_id : nat) :
  ~ In car_id (map Car.car_id cars) ->
  Forall (fun e => involves car_id e = false) (expected_events radius ts cars).
Proof.
  intros Hnin. eapply Forall_impl; [|apply expected_events_ids].
  intros e [H1 H2]. unfold involves. apply orb_false_iff.
  split; apply Nat.eqb_neq; intros Heq; apply Hnin; rewrite <- Heq; assumption.
Qed.

Lemma check_from_spec (radius ts : R) (n : nat) :
  forall (cars : list Car.t) (st : Pass.t),
    length cars = n ->
    NoDup (map Car.car_id cars) ->
    (forall a b, In a (map Car.car_id cars) -> In b (map Car.car_id cars) ->
                 ~ In (sorted_pair a b) (Pass.collision_pairs st)) ->
    exists cars' st',
      check_from n radius ts cars st = (cars', st')
      /\ Pass.new_collisions st'
         = Pass.new_collisions st ++ expected_events radius ts cars
      /\ Pass.collisions st' = Pass.collisions st ++ expected_events radius ts cars
      /\ Forall2 (accumulated (expected_events radius ts cars)) cars cars'.
Proof.
  induction n as [|n IH]; intros cars st Hlen Hnd Hfresh.
  - destruct cars; [|discriminate].
    exists [], st. cbn. rewrite !app_nil_r. repeat split; constructor.
  - destruct cars as [|c1 rest]; [discriminate|].
    cbn [length] in Hlen. injection Hlen as Hlen.
    cbn [map] in Hnd. inversion Hnd as [|? ? Hc1 Hnd_rest]; subst.
    cbn [check_from expected_events].
    destruct (Car.eliminated c1) eqn:Hel.
    + destruct (IH rest st eq_refl Hnd_rest) as (rest' & st' & Heq & Hnew & Hcol & Hacc).
      { intros a b Ha Hb. apply Hfresh; right; assumption. }
      exists (c1 :: rest'), st'. rewrite Heq. cbn [app].
      split; [reflexivity|]. split; [exact Hnew|]. split; [exact Hcol|].
      constructor; [|exact Hacc].
      apply accumulated_none. apply expected_events_not_involved. exact Hc1.
    + destruct (check_against_spec radius ts rest c1 st Hnd_rest Hc1)
        as (c1' & rest1 & st1 & Heq1 & Hnew1 & Hcol1 & Hpairs1 & Hacc1 & Hrest1).
      { intros c2 Hc2. apply Hfresh; [left; reflexivity|right; apply in_map; exact Hc2]. }
      rewrite Heq1.
      pose proof (Forall2_accumulated_stats_only _ _ _ Hrest1) as Hstats1.
      pose proof (Forall2_stats_only_ids _ _ Hstats1) as Hids1.
      assert (Hlen1 : length rest1 = length rest)
        by (symmetry; eapply Forall2_length; exact Hrest1).
      destruct (IH rest1 st1 Hlen1) as (rest2 & st2 & Heq2 & Hnew2 & Hcol2 & Hrest2).
      { rewrite Hids1. exact Hnd_rest. }
      { rewrite Hids1, Hpairs1. intros a b Ha Hb Hin.
        apply in_app_or in Hin. destruct Hin as [Hin|Hin].
        - apply in_rev, in_map_iff in Hin. destruct Hin as (e & Hpair & He).
          pose proof (pair_events_ids radius ts c1 rest) as Hev.
          rewrite Forall_forall in Hev. destruct (Hev e He) as [H1 H2].
          unfold event_pair in Hpair. rewrite H1 in Hpair.
          apply sorted_pair_eq in Hpair. apply Hc1.
          destruct Hpair as [[<- _]|[<- _]]; assumption.
        - revert Hin. apply Hfresh; right; assumption. }
      rewrite (expected_events_stats_only radius ts rest rest1 Hstats1) in *.
      exists (c1' :: rest2), st2. rewrite Heq2.
      split; [reflexivity|].
      split; [rewrite Hnew2, Hnew1, <- app_assoc; reflexivity|].
      split; [rewrite Hcol2, Hcol1, <- app_assoc; reflexivity|].
      constructor.
      * apply (accumulated_app _ _ c1 c1' c1'); [exact Hacc1|].
        apply accumulated_none. apply expected_events_not_involved.
        destruct Hacc1 as (Hs & _). rewrite (stats_only_car_id _ _ Hs). exact Hc1.
      * eapply Forall2_app_events; eassumption.
Qed.

Lemma check_collisions_expected (self : CollisionDetector.t) (cars : list Car.t) (ts : R) :
  NoDup (map Car.car_id cars) ->
  exists cars',
    check_collisions self cars ts
    = (expected_events (CollisionDetector.collision_radius self) ts cars,
       CollisionDetector.mk (CollisionDetector.collision_radius self)
         (CollisionDetector.collisions self
          ++ expected_events (CollisionDetector.collision_radius self) ts cars),
       cars')
    /\ Forall2 (accumulated (expected_events (CollisionDetector.collision_radius self) ts cars))
         cars cars'.
Proof.
  intros Hnd. unfold check_collisions.
  destruct (check_from_spec (CollisionDetector.collision_radius self) ts (length cars) cars
              {| Pass.new_collisions := []; Pass.collision_pairs := [];
                 Pass.collisions := CollisionDetector.collisions self |} eq_refl Hnd)
    as (cars' & st' & Heq & Hnew & Hcol & Hacc).
  { intros a b _ _ []. }
  rewrite Heq, Hnew, Hcol. exists cars'. split; [reflexivity|exact Hacc].
Qed.

Lemma filter_none {A : Type} (f : A -> bool) (l : list A) :
  Forall (fun a => f a = false) l -> filter f l = [].
Proof.
  intros H. induction H as [|a l Ha Hl IH]; simpl; [reflexivity|]. rewrite Ha. exact IH.
Qed.

Lemma pair_events_filter (radius ts : R) (c1 c2 : Car.t) (rest : list Car.t) (j : nat) :
  NoDup (map Car.car_id rest) ->
  nth_error rest j = Some c2 ->
  collides radius c1 c2 = true ->
  filter (fun e => pair_eqb (event_pair e) (sorted_pair (Car.car_id c1) (Car.car_id c2)))
         (pair_events radius ts c1 rest)
  = [collision_event_of ts c1 c2].
Proof.
  revert j. induction rest as [|c rest IH]; intros j Hnd Hj Hcol.
  - destruct j; discriminate.
  - cbn [map] in Hnd. inversion Hnd as [|? ? Hc Hnd_rest]; subst.
    unfold pair_events. cbn [flat_map]. fold (pair_events radius ts c1 rest).
    rewrite filter_app. destruct j as [|j]; cbn [nth_error] in Hj.
    + injection Hj as ->. rewrite Hcol. cbn [filter].
      replace (pair_eqb (event_pair (collision_event_of ts c1 c2))
                 (sorted_pair (Car.car_id c1) (Car.car_id c2))) with true
        by (symmetry; apply pair_eqb_eq; reflexivity).
      rewrite filter_none; [reflexivity|].
      eapply Forall_impl; [|apply pair_events_ids]. intros e [H1 H2].
      destruct (pair_eqb _ _) eqn:E; [|reflexivity]. exfalso.
      apply pair_eqb_eq in E. unfold event_pair in E. rewrite H1 in E.
      apply sorted_pair_eq in E. apply Hc.
      destruct E as [[_ <-]|[<- <-]]; exact H2.
    + rewrite (IH j Hnd_rest Hj Hcol).
      assert (Hne : Car.car_id c <> Car.car_id c2).
      { intros E. apply Hc. rewrite E. apply in_map. eapply nth_error_In. exact Hj. }
      destruct (collides radius c1 c); [|reflexivity]. cbn [filter].
      destruct (pair_eqb _ _) eqn:E; [|reflexivity]. exfalso.
      apply pair_eqb_eq in E. unfold event_pair in E.
      cbn [collision_event_of CollisionEvent.car_id1 CollisionEvent.car_id2] in E.
      apply sorted_pair_eq in E. destruct E as [[_ E]|[E1 E2]]; congruence.
Qed.

Lemma expected_events_filter (radius ts : R) (cars : list Car.t) :
  forall (i j : nat) (c1 c2 : Car.t),
    NoDup (map Car.car_id cars) ->
    (i < j)%nat ->
    nth_error cars i = Some c1 -> nth_error cars j = Some c2 ->
    Car.eliminated c1 = false ->
    collides radius c1 c2 = true ->
    filter (fun e => pair_eqb (event_pair e) (sorted_pair (Car.car_id c1) (Car.car_id c2)))
           (expected_events radius ts cars)
    = [collision_event_of ts c1 c2].
Proof.
  induction cars as [|c rest IH]; intros i j c1 c2 Hnd Hij Hi Hj Hel Hcol.
  - destruct i; discriminate.
  - cbn [map] in Hnd. inversion Hnd as [|? ? Hc Hnd_rest]; subst.
    destruct j as [|j]; [lia|]. cbn [nth_error] in Hj.
    cbn [expected_events]. rewrite filter_app.
    destruct i as [|i]; cbn [nth_error] in Hi.
    + injection Hi as ->. rewrite Hel.
      rewrite (pair_events_filter radius ts c1 c2 rest j Hnd_rest Hj Hcol).
      rewrite filter_none; [reflexivity|].
      eapply Forall_impl; [|apply expected_events_ids]. intros e [H1 H2].
      destruct (pair_eqb _ _) eqn:E; [|reflexivity]. exfalso.
      apply pair_eqb_eq in E. unfold event_pair in E.
      apply sorted_pair_eq in E. apply Hc.
      destruct E as [[<- _]|[_ <-]]; assumption.
    + rewrite (IH i j c1 c2 Hnd_rest ltac:(lia) Hi Hj Hel Hcol).
      rewrite filter_none; [reflexivity|].
      assert (H1 : Car.car_id c <> Car.car_id c1).
      { intros E. apply Hc. rewrite E. apply in_map. eapply nth_error_In. exact Hi. }
      assert (H2 : Car.car_id c <> Car.car_id c2).
      { intros E. apply Hc. rewrite E. apply in_map. eapply nth_error_In. exact Hj. }
      destruct (Car.eliminated c); [constructor|].
      eapply Forall_impl; [|apply pair_events_ids]. intros e [He1 He2].
      destruct (pair_eqb _ _) eqn:E; [|reflexivity]. exfalso.
      apply pair_eqb_eq in E. unfold event_pair in E. rewrite He1 in E.
      apply sorted_pair_eq in E. destruct E as [[E _]|[E _]]; congruence.
Qed.

Lemma pair_events_at_time (radius ts ts' : R) (c1 : Car.t) (rest : list Car.t) :
  pair_events radius ts' c1 rest = map (at_time ts') (pair_events radius ts c1 rest).
Proof.
  unfold pair_events. induction rest as [|c2 rest IH]; [reflexivity|].
  cbn [flat_map]. rewrite map_app, IH. destruct (collides radius c1 c2); reflexivity.
Qed.

Lemma expected_events_at_time (radius ts ts' : R) (cars : list Car.t) :
  expected_events radius ts' cars = map (at_time ts') (expected_events radius ts cars).
Proof.
  induction cars as [|c1 rest IH]; [reflexivity|].
  cbn [expected_events]. rewrite map_app, IH.
  destruct (Car.eliminated c1); [reflexivity|].
  rewrite (pair_events_at_time radius ts ts'). reflexivity.
Qed.

Lemma pair_events_In (radius ts : R) (c1 : Car.t) (rest : list Car.t) (e : CollisionEvent.t) :
  In e (pair_events radius ts c1 rest) ->
  exists j c2, nth_error rest j = Some c2 /\ collides radius c1 c2 = true
               /\ e = collision_event_of ts c1 c2.
Proof.
  unfold pair_events. intros H. apply in_flat_map in H. destruct H as (c2 & Hc2 & He).
  apply In_nth_error in Hc2. destruct Hc2 as (j & Hj).
  exists j, c2. destruct (collides radius c1 c2); [|destruct He].
  destruct He as [<-|[]]. auto.
Qed.

Lemma expected_events_In (radius ts : R) (cars : list Car.t) (e : CollisionEvent.t) :
  In e (expected_events radius ts cars) ->
  exists i j c1 c2,
    (i < j)%nat /\ nth_error cars i = Some c1 /\ nth_error cars j = Some c2
    /\ Car.eliminated c1 = false /\ Car.eliminated c2 = false
    /\ norm2 (Car.x c1 - Car.x c2) (Car.y c1 - Car.y c2) < radius
    /\ e = collision_event_of ts c1 c2.
Proof.
  induction cars as [|c1 rest IH]; cbn [expected_events]; [intros []|].
  intros H. apply in_app_or in H. destruct H as [H|H].
  - destruct (Car.eliminated c1) eqn:E1; [destruct H|].
    apply pair_events_In in H. destruct H as (j & c2 & Hj & Hcol & ->).
    unfold collides in Hcol. apply andb_true_iff in Hcol. destruct Hcol as [E2 Hd].
    apply negb_true_iff in E2. apply Rltb_true in Hd.
    exists 0%nat, (S j), c1, c2. cbn [nth_error]. repeat split; try assumption; lia.
  - destruct (IH H) as (i & j & a & b & Hij & Hi & Hj & Ha & Hb & Hd & He).
    exists (S i), (S j), a, b. cbn [nth_error]. repeat split; try assumption; lia.
Qed.

(** C6.  On cars with distinct identifiers, one call of [check_collisions]
    reports no unordered pair twice; for every pair of non-eliminated cars
    closer than the collision radius it reports exactly one event, whose
    severity is the magnitude of their relative velocity vector
    [(v2 cos yaw2 - v1 cos yaw1, v2 sin yaw2 - v1 sin yaw1)]; every reported
    event names two cars of the roster and carries that magnitude; every
    car gains one collision and the severity of each event naming it; and
    a second call on the cars as the first left them reports the same
    events again. *)
Theorem check_collisions_once_per_pair
    (self : CollisionDetector.t) (cars : list Car.t) (ts : R) :
  NoDup (map Car.car_id cars) ->
  let '(events, self', cars') := check_collisions self cars ts in
  NoDup (map event_pair events)
  /\ (forall (i j : nat) (c1 c2 : Car.t),
         (i < j)%nat ->
         nth_error cars i = Some c1 -> nth_error cars j = Some c2 ->
         Car.eliminated c1 = false -> Car.eliminated c2 = false ->
         sqrt ((Car.x c1 - Car.x c2) ^ 2 + (Car.y c1 - Car.y c2) ^ 2)
         < CollisionDetector.collision_radius self ->
         exists e,
           filter (fun e => pair_eqb (event_pair e)
                              (sorted_pair (Car.car_id c1) (Car.car_id c2))) events = [e]
           /\ CollisionEvent.car_id1 e = Car.car_id c1
           /\ CollisionEvent.car_id2 e = Car.car_id c2
           /\ CollisionEvent.severity e
              = sqrt ((Car.velocity c2 * cos (Car.yaw c2)
                       - Car.velocity c1 * cos (Car.yaw c1)) ^ 2
                      + (Car.velocity c2 * sin (Car.yaw c2)
                         - Car.velocity c1 * sin (Car.yaw c1)) ^ 2))
  /\ (forall e, In e events ->
         exists (i j : nat) (c1 c2 : Car.t),
           (i < j)%nat /\ nth_error cars i = Some c1 /\ nth_error cars j = Some c2
           /\ CollisionEvent.car_id1 e = Car.car_id c1
           /\ CollisionEvent.car_id2 e = Car.car_id c2
           /\ CollisionEvent.severity e
              = sqrt ((Car.velocity c2 * cos (Car.yaw c2)
                       - Car.velocity c1 * cos (Car.yaw c1)) ^ 2
                      + (Car.velocity c2 * sin (Car.yaw c2)
                         - Car.velocity c1 * sin (Car.yaw c1)) ^ 2))
  /\ Forall2 (accumulated events) cars cars'
  /\ (forall ts', fst (fst (check_collisions self' cars' ts')) = map (at_time ts') events).
Proof.
  intros Hnd.
  pose proof (check_collisions_pairs_once self cars ts) as Honce.
  destruct (check_collisions_expected self cars ts Hnd) as (cars' & Heq & Hacc).
  rewrite Heq in *. cbn [fst] in Honce.
  split; [exact Honce|]. split; [|split; [|split; [exact Hacc|]]].
  - intros i j c1 c2 Hij Hi Hj Hel1 Hel2 Hdist.
    exists (collision_event_of ts c1 c2). split; [|repeat split].
    apply (expected_events_filter _ ts cars i j c1 c2 Hnd Hij Hi Hj Hel1).
    fold (norm2 (Car.x c1 - Car.x c2) (Car.y c1 - Car.y c2)) in Hdist.
    unfold collides. rewrite Hel2. apply Rltb_true in Hdist. rewrite Hdist. reflexivity.
  - intros e He. apply expected_events_In in He.
    destruct He as (i & j & c1 & c2 & Hij & Hi & Hj & _ & _ & _ & ->).
    exists i, j, c1, c2. repeat split; assumption.
  - intros ts'.
    pose proof (Forall2_accumulated_stats_only _ _ _ Hacc) as Hstats.
    destruct (check_collisions_expected
                (CollisionDetector.mk (CollisionDetector.collision_radius self)
                   (CollisionDetector.collisions self
                    ++ expected_events (CollisionDetector.collision_radius self) ts cars))
                cars' ts') as (cars'' & Heq' & _).
    { rewrite (Forall2_stats_only_ids _ _ Hstats). exact Hnd. }
    rewrite Heq'. cbn [fst CollisionDetector.collision_radius].
    rewrite (expected_events_stats_only _ ts' cars cars' Hstats).
    apply expected_events_at_time.
Qed.

Lemma check_collisions_once_per_pair_witness :
  let cars := [Car.set_velocity (sample_car 0 0) 10; Car.set_velocity (sample_car 1 1) 4;
               sample_car 2 9] in
  NoDup (map Car.car_id cars)
  /\ (let '(events, self', cars') := check_collisions (CollisionDetector.mk 2 []) cars 0 in
      NoDup (map event_pair events)
      /\ (forall (i j : nat) (c1 c2 : Car.t),
             (i < j)%nat ->
             nth_error cars i = Some c1 -> nth_error cars j = Some c2 ->
             Car.eliminated c1 = false -> Car.eliminated c2 = false ->
             sqrt ((Car.x c1 - Car.x c2) ^ 2 + (Car.y c1 - Car.y c2) ^ 2)
             < CollisionDetector.collision_radius (CollisionDetector.mk 2 []) ->
             exists e,
               filter (fun e => pair_eqb (event_pair e)
                                  (sorted_pair (Car.car_id c1) (Car.car_id c2))) events = [e]
               /\ CollisionEvent.car_id1 e = Car.car_id c1
               /\ CollisionEvent.car_id2 e = Car.car_id c2
               /\ CollisionEvent.severity e
                  = sqrt ((Car.velocity c2 * cos (Car.yaw c2)
                           - Car.velocity c1 * cos (Car.yaw c1)) ^ 2
                          + (Car.velocity c2 * sin (Car.yaw c2)
                             - Car.velocity c1 * sin (Car.yaw c1)) ^ 2))
      /\ (forall e, In e events ->
             exists (i j : nat) (c1 c2 : Car.t),
               (i < j)%nat /\ nth_error cars i = Some c1 /\ nth_error cars j = Some c2
               /\ CollisionEvent.car_id1 e = Car.car_id c1
               /\ CollisionEvent.car_id2 e = Car.car_id c2
               /\ CollisionEvent.severity e
                  = sqrt ((Car.velocity c2 * cos (Car.yaw c2)
                           - Car.velocity c1 * cos (Car.yaw c1)) ^ 2
                          + (Car.velocity c2 * sin (Car.yaw c2)
                             - Car.velocity c1 * sin (Car.yaw c1)) ^ 2))
      /\ Forall2 (accumulated events) cars cars'
      /\ (forall ts',
             fst (fst (check_collisions self' cars' ts')) = map (at_time ts') events)).
Proof.
  cbv zeta.
  assert (Hnd : NoDup (map Car.car_id
                         [Car.set_velocity (sample_car 0 0) 10;
                          Car.set_velocity (sample_car 1 1) 4; sample_car 2 9])).
  { cbn. repeat constructor; cbn; intuition lia. }
  split; [exact Hnd|].
  exact (check_collisions_once_per_pair (CollisionDetector.mk 2 [])
           [Car.set_velocity (sample_car 0 0) 10; Car.set_velocity (sample_car 1 1) 4;
            sample_car 2 9] 0 Hnd).
Defined.

(** Two cars one metre apart heading along the x axis at 10 and 4 m/s: one
    event, of severity 6, counted once and added to the total of both
    cars. *)
Lemma check_collisions_moving_pair :
  let c0 := Car.set_velocity (sample_car 0 0) 10 in
  let c1 := Car.set_velocity (sample_car 1 1) 4 in
  let '(events, _, cars') := check_collisions (CollisionDetector.mk 2 []) [c0; c1] 0 in
  map CollisionEvent.severity events = [6]
  /\ map Car.collision_count cars' = [1%nat; 1%nat]
  /\ map Car.total_collision_severity cars' = [0 + 6; 0 + 6].
Proof.
  cbv zeta.
  assert (Hnd : NoDup (map Car.car_id [Car.set_velocity (sample_car 0 0) 10;
                                       Car.set_velocity (sample_car 1 1) 4])).
  { cbn. repeat constructor; cbn; intuition lia. }
  destruct (check_collisions_expected (CollisionDetector.mk 2 []) _ 0 Hnd)
    as (cars' & -> & Hacc).
  assert (Hev : expected_events (CollisionDetector.collision_radius (CollisionDetector.mk 2 []))
                  0 [Car.set_velocity (sample_car 0 0) 10; Car.set_velocity (sample_car 1 1) 4]
                = [collision_event_of 0 (Car.set_velocity (sample_car 0 0) 10)
                     (Car.set_velocity (sample_car 1 1) 4)]).
  { cbn [expected_events pair_events flat_map app CollisionDetector.collision_radius].
    assert (Hc : collides 2 (Car.set_velocity (sample_car 0 0) 10)
                   (Car.set_velocity (sample_car 1 1) 4) = true).
    { unfold collides.
      cbn [sample_car Car_init Car.x Car.y Car.eliminated Car.set_velocity negb andb].
      replace (0 - 1) with (- (1)) by ring. replace (0 - 0) with 0 by ring.
      rewrite norm2_flat, Rabs_Ropp, Rabs_right by lra. apply Rltb_true. lra. }
    rewrite Hc. reflexivity. }
  rewrite Hev in *.
  assert (Hv : relative_speed (Car.set_velocity (sample_car 0 0) 10)
                 (Car.set_velocity (sample_car 1 1) 4) = 6).
  { unfold relative_speed.
    cbn [sample_car Car_init Car.velocity Car.yaw Car.set_velocity].
    rewrite cos_0, sin_0.
    replace ((4 * 1 - 10 * 1) ^ 2 + (4 * 0 - 10 * 0) ^ 2) with (Rsqr 6) by (unfold Rsqr; ring).
    apply sqrt_Rsqr. lra. }
  split; [cbn [map collision_event_of CollisionEvent.severity]; rewrite Hv; reflexivity|].
  inversion Hacc as [|a a' l l' (_ & Hn0 & Hs0) Hrest]; subst.
  inversion Hrest as [|b b' m m' (_ & Hn1 & Hs1) Hnil]; subst.
  inversion Hnil; subst.
  cbn [map]. rewrite Hn0, Hn1, Hs0, Hs1.
  unfold severity_sum, involves.
  cbn [fold_left filter length collision_event_of CollisionEvent.car_id1
       CollisionEvent.car_id2 CollisionEvent.severity sample_car Car_init Car.car_id
       Car.collision_count Car.total_collision_severity Car.set_velocity Nat.eqb orb
       Nat.add].
  rewrite Hv. split; reflexivity.
Qed.

(** * The per-car loop reads the live roster *)

(** ** What control, dynamics and reprojection leave alone *)

Lemma compute_control_pose (self : CombinedController.t) (car : Car.t) (track : Track.t)
    (all_cars : list Car.t) (radius : R) :
  pose (snd (compute_control self car track all_cars radius)) = pose car.
Proof.
  unfold compute_control.
  match goal with
  | |- context [Track.get_target_point ?a ?b ?c ?d] =>
      destruct (Track.get_target_point a b c d)
  end.
  cbn [snd].
  destruct (_decide_lane_change car all_cars); cbn;
    repeat match goal with |- context [Rltb ?a ?b] => destruct (Rltb a b) end;
    reflexivity.
Qed.

Lemma compute_control_acceleration_bounds (self : CombinedController.t) (car : Car.t)
    (track : Track.t) (all_cars : list Car.t) (radius : R) :
  - IDMController.b_max (CombinedController.idm self)
  <= IDMController.a_max (CombinedController.idm self) ->
  - IDMController.b_max (CombinedController.idm self)
  <= fst (fst (compute_control self car track all_cars radius))
  <= IDMController.a_max (CombinedController.idm self).
Proof.
  intros Hle. unfold compute_control.
  match goal with
  | |- context [Track.get_target_point ?a ?b ?c ?d] =>
      destruct (Track.get_target_point a b c d)
  end.
  cbn [fst].
  destruct (find_leader _ _) as [[[lc ld] lv]|]; unfold compute_acceleration;
    apply np_clip_bounds; exact Hle.
Qed.

Lemma update_state_fields (car car' : Car.t) (dt : R) (track : Track.t) :
  update_state car dt track = Some car' ->
  pose car' = pose car /\ Car.lane car' = Car.lane car.
Proof.
  unfold update_state.
  destruct (Track.project_car_position _ _ _); [|discriminate].
  intros H. injection H as <-. cbn.
  repeat match goal with |- context [Rltb ?a ?b] => destruct (Rltb a b) end;
    split; reflexivity.
Qed.

Lemma update_state_total (rx ry w : R) (nl : nat) (cl : list (R * R)) (track : Track.t)
    (car : Car.t) (dt : R) :
  Track.init rx ry w nl cl = Some track -> (10 <= length cl)%nat ->
  exists car', update_state car dt track = Some car'.
Proof.
  intros Hinit Hlen.
  destruct (refined_idx_is_closest rx ry w nl cl track (Car.x car) (Car.y car) Hinit Hlen)
    as (i0 & _ & _ & _ & Hproj).
  unfold update_state. rewrite Hproj. eexists. reflexivity.
Qed.

Lemma update_car_dynamics_fields (car : Car.t) (a steer dt : R) :
  let car' := update_car_dynamics car a steer dt in
  Car.car_id car' = Car.car_id car
  /\ Car.eliminated car' = Car.eliminated car
  /\ Car.lane car' = Car.lane car
  /\ Car.velocity car' = np_clip (Car.velocity car + a * dt) 0 (get_max_speed car)
  /\ Car.x car' = Car.x car + Car.velocity car' * cos (Car.yaw car) * dt
  /\ Car.y car' = Car.y car + Car.velocity car' * sin (Car.yaw car) * dt.
Proof.
  cbv zeta. unfold update_car_dynamics. cbn.
  destruct (Rltb _ _); repeat split; reflexivity.
Qed.

(** ** The command of a standing follower behind one leader *)

Section Follower.

Variables (f x : Car.t).
Hypothesis Hid : Car.car_id x <> Car.car_id f.
Hypothesis Hfx : Car.x f = 0.
Hypothesis Hfy : Car.y f = 0.
Hypothesis Hfyaw : Car.yaw f = 0.
Hypothesis Hfv : Car.velocity f = 0.
Hypothesis Hxy : Car.y x = 0.
Hypothesis Hxx : 2 <= Car.x x <= 29.
Hypothesis Hxlane : Car.lane x = 0.
Hypothesis Hxv : 0 <= Car.velocity x.

Lemma follower_projection : forward_projection f x = Car.x x.
Proof.
  unfold forward_projection. rewrite Hfx, Hfy, Hfyaw, Hxy, cos_0, sin_0. ring.
Qed.

Lemma follower_distance : norm2 (Car.x x - Car.x f) (Car.y x - Car.y f) = Car.x x.
Proof.
  rewrite Hfx, Hfy, Hxy.
  replace (0 - 0) with 0 by ring. replace (Car.x x - 0) with (Car.x x) by ring.
  rewrite norm2_flat. apply Rabs_right. lra.
Qed.

Lemma follower_no_lane_change (all_after : list Car.t) :
  Car.lane f = 0 ->
  Car.lane_change_timer f <= 0 ->
  _decide_lane_change f [x; f] = None.
Proof.
  intros Hflane Htimer. unfold _decide_lane_change.
  rewrite (ifR_false 0 (Car.lane_change_timer f)) by exact Htimer.
  cbn [fold_left]. unfold leading_in_lane_step at 2.
  replace (Car.car_id x =? Car.car_id f)%nat with false
    by (symmetry; apply Nat.eqb_neq; exact Hid).
  rewrite Hxlane, Hflane. replace (0 - 0) with 0 by ring. rewrite Rabs_R0.
  rewrite (ifR_false (1 / 2) 0) by lra.
  rewrite follower_projection.
  rewrite (proj2 (Rltb_true 0 (Car.x x))) by lra.
  rewrite (proj2 (Rltb_true (Car.x x) 30)) by lra.
  cbn [andb]. unfold leading_in_lane_step. rewrite Nat.eqb_refl.
  rewrite Hfv. rewrite (ifR_false (Car.velocity x) (0 * (9 / 10))) by lra.
  reflexivity.
Qed.

(** Any state [c] of the follower that differs from [f] in lane fields
    only senses the leader alone, ahead and in its lane. *)
Lemma follower_senses_leader (c : Car.t) :
  pose c = pose f -> Car.lane c = 0 ->
  exists rv,
    find_leader c (sense_neighbors c [x; f] 50) = Some (x, Car.x x, rv).
Proof.
  intros Hpose Hclane. unfold pose in Hpose.
  injection Hpose as Hcid Hcel Hcx Hcy Hcyaw Hcv.
  assert (Hproj : forward_projection c x = Car.x x).
  { unfold forward_projection. rewrite Hcx, Hcy, Hcyaw, Hfx, Hfy, Hfyaw, Hxy, cos_0, sin_0.
    ring. }
  assert (Hdist : norm2 (Car.x x - Car.x c) (Car.y x - Car.y c) = Car.x x).
  { rewrite Hcx, Hcy. exact follower_distance. }
  unfold sense_neighbors. cbn [flat_map]. unfold sense_one.
  rewrite Hcid.
  replace (Car.car_id x =? Car.car_id f)%nat with false
    by (symmetry; apply Nat.eqb_neq; exact Hid).
  rewrite Nat.eqb_refl, Hdist.
  replace (Rleb (Car.x x) 50) with true by (symmetry; apply Rleb_true; lra).
  rewrite (ifR_true 0 (Car.x x)) by lra.
  cbn [app sort_by fold_right insert_by].
  eexists. unfold find_leader. cbn [find fst snd].
  rewrite Hxlane, Hclane. replace (0 - 0) with 0 by ring. rewrite Rabs_R0.
  rewrite (proj2 (Rltb_false (1 / 2) 0)) by lra.
  rewrite Hproj. rewrite (proj2 (Rltb_true 0 (Car.x x))) by lra.
  cbn [negb andb]. reflexivity.
Qed.

Lemma np_clip_inside (a lo hi : R) : lo <= a <= hi -> np_clip a lo hi = a.
Proof.
  intros [H1 H2]. unfold np_clip, Rmax, Rmin.
  destruct (Rle_dec a lo); destruct (Rle_dec _ hi); lra.
Qed.

Lemma follower_acceleration (idm : IDMController.t) (c : Car.t) (rv : R) :
  IDMController.a_max idm = 3 -> IDMController.b_max idm = 3 ->
  IDMController.min_gap idm = 2 -> IDMController.delta idm = 4%nat ->
  Car.velocity c = 0 ->
  compute_acceleration idm c (Some x) (Some (Car.x x)) rv
  = 3 * (1 - (2 / Car.x x) ^ 2).
Proof.
  intros Ha Hb Hgap Hdelta Hv. unfold compute_acceleration.
  rewrite Ha, Hb, Hgap, Hdelta, Hv.
  replace (Rmax (Car.x x) (1 / 10)) with (Car.x x)
    by (unfold Rmax; destruct (Rle_dec (Car.x x) (1 / 10)); lra).
  replace (0 / (Car.desired_speed c * Car.speed_multiplier c)) with 0
    by (unfold Rdiv; ring).
  replace (2 + 0 * IDMController.reaction_time idm + 0 * - rv / (2 * sqrt (3 * 3)))
    with 2 by (unfold Rdiv; ring).
  replace (1 - 0 ^ 4) with 1 by ring.
  assert (Hq : 0 < 2 / Car.x x <= 1).
  { split.
    - apply Rdiv_lt_0_compat; lra.
    - apply (Rmult_le_reg_r (Car.x x)); [lra|]. field_simplify; lra. }
  apply np_clip_inside. nra.
Qed.

End Follower.

Lemma np_clip_0_0_4 : np_clip 0 0 4 = 0.
Proof. apply np_clip_inside. lra. Qed.

Lemma follower_command (ctl : CombinedController.t) (track : Track.t) (f x : Car.t) :
  Car.car_id x <> Car.car_id f ->
  Car.x f = 0 -> Car.y f = 0 -> Car.yaw f = 0 -> Car.velocity f = 0 ->
  Car.lane f = 0 -> Car.target_lane f = 0 -> Car.lane_change_timer f <= 0 ->
  Car.y x = 0 -> 2 <= Car.x x <= 29 -> Car.lane x = 0 -> 0 <= Car.velocity x ->
  IDMController.a_max (CombinedController.idm ctl) = 3 ->
  IDMController.b_max (CombinedController.idm ctl) = 3 ->
  IDMController.min_gap (CombinedController.idm ctl) = 2 ->
  IDMController.delta (CombinedController.idm ctl) = 4%nat ->
  fst (fst (compute_control ctl f track [x; f] 50)) = 3 * (1 - (2 / Car.x x) ^ 2).
Proof.
  intros Hid Hfx Hfy Hfyaw Hfv Hflane Hftarget Htimer Hxy Hxx Hxlane Hxv Ha Hb Hgap Hdelta.
  unfold compute_control.
  rewrite (follower_no_lane_change f x Hid Hfx Hfy Hfyaw Hfv Hxy Hxx Hxlane Hxv [] Hflane
             Htimer).
  cbv zeta. rewrite Hftarget, Hflane. replace (0 - 0) with 0 by ring.
  rewrite Rabs_R0, (ifR_false (1 / 10) 0) by lra.
  cbn [Car.lane Car.target_lane Car.set_lane Car.set_target_lane].
  rewrite Hftarget, np_clip_0_0_4.
  match goal with
  | |- context [sense_neighbors ?car _ _] => set (c := car)
  end.
  destruct (follower_senses_leader f x Hid Hfx Hfy Hfyaw Hxy Hxx Hxlane c eq_refl eq_refl)
    as (rv & Hlead).
  rewrite Hlead.
  match goal with
  | |- context [Track.get_target_point ?a ?b ?c ?d] =>
      destruct (Track.get_target_point a b c d)
  end.
  cbn [fst].
  apply (follower_acceleration x Hxx); assumption.
Qed.

(** ** The commands of one cycle *)

Lemma update_cars_log (track : Track.t) (dt : R) (todo : list Car.t) :
  forall (done : list Car.t) (log : list (option (R * R)))
         (cars' : list Car.t) (log' : list (option (R * R))),
    RacingSimulation.update_cars track dt done todo log = Some (cars', log') ->
    exists (todo' : list Car.t) (log_t : list (option (R * R))),
      cars' = done ++ todo' /\ log' = log ++ log_t
      /\ length todo' = length todo /\ length log_t = length todo
      /\ forall (k : nat) (car : Car.t),
           nth_error todo k = Some car ->
           nth_error log_t k
           = Some (command_against track dt car (done ++ firstn k todo') (skipn (S k) todo)).
Proof.
  induction todo as [|car rest IH]; intros done log cars' log' H;
    cbn [RacingSimulation.update_cars] in H.
  - injection H as <- <-. exists [], []. rewrite !app_nil_r.
    repeat split; try reflexivity. intros [|k] c Hk; discriminate.
  - destruct (Car.eliminated car) eqn:Hel.
    + apply IH in H. destruct H as (todo' & log_t & -> & -> & Hlen1 & Hlen2 & Hcmd).
      exists (car :: todo'), (None :: log_t). rewrite <- !app_assoc. cbn [app length].
      split; [reflexivity|]. split; [reflexivity|]. split; [lia|]. split; [lia|].
      intros [|k] c Hk; cbn [nth_error] in Hk |- *.
      * injection Hk as <-. unfold command_against. rewrite Hel. reflexivity.
      * rewrite (Hcmd k c Hk). cbn [firstn skipn]. rewrite <- app_assoc. reflexivity.
    + destruct (compute_control _ _ _ _ _) as [[a s] c1] eqn:Hc.
      destruct (update_state _ _ _) as [c3|] eqn:Hu; [|discriminate].
      apply IH in H. destruct H as (todo' & log_t & -> & -> & Hlen1 & Hlen2 & Hcmd).
      exists (c3 :: todo'), (Some (a, s) :: log_t). rewrite <- !app_assoc. cbn [app length].
      split; [reflexivity|]. split; [reflexivity|]. split; [lia|]. split; [lia|].
      intros [|k] c Hk; cbn [nth_error] in Hk |- *.
      * injection Hk as <-. unfold command_against. rewrite Hel.
        cbn [firstn skipn]. rewrite app_nil_r. cbv zeta. rewrite Hc. reflexivity.
      * rewrite (Hcmd k c Hk). cbn [firstn skipn]. rewrite <- app_assoc. reflexivity.
Qed.

Lemma reference_from_nth (track : Track.t) (dt : R) (todo : list Car.t) :
  forall (before : list Car.t) (k : nat) (car : Car.t),
    nth_error todo k = Some car ->
    nth_error (reference_from track dt before todo) k
    = Some (command_against track dt car (before ++ firstn k todo) (skipn (S k) todo)).
Proof.
  induction todo as [|c rest IH]; intros before [|k] car Hk; cbn [nth_error] in Hk;
    try discriminate; cbn [reference_from nth_error firstn skipn].
  - injection Hk as <-. rewrite app_nil_r. reflexivity.
  - rewrite (IH _ k car Hk), <- app_assoc. reflexivity.
Qed.

(** C2 (amended).  In one cycle of the fixed-timestep scheduler the command
    of the car at roster position [k] is computed against the live roster:
    the cars before it in the state this same cycle has left them in, the
    car itself and the cars after it in their start-of-cycle state.  For
    the first car this is the start-of-cycle snapshot. *)
Theorem update_cars_commands_read_live_roster
    (track : Track.t) (dt : R) (cars cars' : list Car.t) (log : list (option (R * R))) :
  RacingSimulation.update_cars track dt [] cars [] = Some (cars', log) ->
  length cars' = length cars /\ length log = length cars
  /\ (forall (k : nat) (car : Car.t),
         nth_error cars k = Some car ->
         nth_error log k
         = Some (command_against track dt car (firstn k cars') (skipn (S k) cars)))
  /\ nth_error log 0 = nth_error (reference_commands track dt cars) 0.
Proof.
  intros H. apply update_cars_log in H.
  destruct H as (todo' & log_t & -> & -> & Hlen1 & Hlen2 & Hcmd). cbn [app].
  split; [exact Hlen1|]. split; [exact Hlen2|]. split; [exact Hcmd|].
  destruct cars as [|car rest].
  - destruct log_t; [reflexivity|discriminate].
  - rewrite (Hcmd 0%nat car eq_refl). unfold reference_commands.
    rewrite (reference_from_nth track dt (car :: rest) [] 0%nat car eq_refl). reflexivity.
Qed.

(** ** A follower behind a moving leader *)

Lemma pose_eq (c d : Car.t) :
  pose c = pose d ->
  Car.car_id c = Car.car_id d /\ Car.eliminated c = Car.eliminated d
  /\ Car.x c = Car.x d /\ Car.y c = Car.y d /\ Car.yaw c = Car.yaw d
  /\ Car.velocity c = Car.velocity d.
Proof. unfold pose. intros H. injection H as H1 H2 H3 H4 H5 H6. tauto. Qed.

Lemma compute_control_max_speed (self : CombinedController.t) (car : Car.t) (track : Track.t)
    (all_cars : list Car.t) (radius : R) :
  get_max_speed (snd (compute_control self car track all_cars radius)) = get_max_speed car.
Proof.
  unfold compute_control.
  match goal with
  | |- context [Track.get_target_point ?a ?b ?c ?d] =>
      destruct (Track.get_target_point a b c d)
  end.
  cbn [snd].
  destruct (_decide_lane_change car all_cars); cbn;
    repeat match goal with |- context [Rltb ?a ?b] => destruct (Rltb a b) end;
    reflexivity.
Qed.

(** A car with nobody ahead keeps its lane. *)
Lemma leader_keeps_lane (ctl : CombinedController.t) (track : Track.t) (l f : Car.t) :
  Car.car_id f <> Car.car_id l ->
  Car.yaw l = 0 -> Car.x f <= Car.x l -> Car.y f = Car.y l ->
  Car.lane l = 0 -> Car.target_lane l = 0 -> Car.lane_change_timer l <= 0 ->
  Car.lane (snd (compute_control ctl l track [l; f] 50)) = 0.
Proof.
  intros Hid Hyaw Hx Hy Hlane Htarget Htimer.
  assert (Hnone : _decide_lane_change l [l; f] = None).
  { unfold _decide_lane_change.
    rewrite (ifR_false 0 (Car.lane_change_timer l)) by exact Htimer.
    cbn [fold_left]. unfold leading_in_lane_step at 2. rewrite Nat.eqb_refl.
    unfold leading_in_lane_step.
    replace (Car.car_id f =? Car.car_id l)%nat with false
      by (symmetry; apply Nat.eqb_neq; exact Hid).
    destruct (Rltb (1 / 2) _); [reflexivity|].
    unfold forward_projection. rewrite Hyaw, Hy, cos_0, sin_0.
    rewrite (proj2 (Rltb_false 0 _)) by lra. reflexivity. }
  unfold compute_control. rewrite Hnone. cbv zeta.
  rewrite Htarget, Hlane. replace (0 - 0) with 0 by ring.
  rewrite Rabs_R0, (ifR_false (1 / 10) 0) by lra.
  cbn [Car.lane Car.target_lane Car.set_lane Car.set_target_lane].
  match goal with
  | |- context [Track.get_target_point ?a ?b ?c ?d] =>
      destruct (Track.get_target_point a b c d)
  end.
  cbn [snd Car.lane Car.target_lane Car.set_lane Car.set_target_lane].
  rewrite ?Htarget. apply np_clip_0_0_4.
Qed.

Lemma tick_lane_change_timer_idle (car : Car.t) (dt : R) :
  Car.lane_change_timer car <= 0 -> RacingSimulation.tick_lane_change_timer car dt = car.
Proof.
  intros H. unfold RacingSimulation.tick_lane_change_timer. apply ifR_false. exact H.
Qed.

(** With the leader first in the roster, the follower's command is computed
    from the position the leader has already been moved to; the reference
    loop computes it from the leader's start-of-cycle position. *)
Lemma follower_reads_moved_leader (rx ry w : R) (nl : nat) (cl : list (R * R))
    (track : Track.t) (l f : Car.t) :
  Track.init rx ry w nl cl = Some track -> (10 <= length cl)%nat ->
  Car.car_id l <> Car.car_id f ->
  Car.eliminated l = false -> Car.eliminated f = false ->
  Car.x l = 10 -> Car.y l = 0 -> Car.yaw l = 0 -> Car.velocity l = 10 ->
  Car.lane l = 0 -> Car.target_lane l = 0 -> Car.lane_change_timer l <= 0 ->
  get_max_speed l = 20 ->
  IDMController.a_max (CombinedController.idm (Car.controller l)) = 3 ->
  IDMController.b_max (CombinedController.idm (Car.controller l)) = 3 ->
  Car.x f = 0 -> Car.y f = 0 -> Car.yaw f = 0 -> Car.velocity f = 0 ->
  Car.lane f = 0 -> Car.target_lane f = 0 -> Car.lane_change_timer f <= 0 ->
  IDMController.a_max (CombinedController.idm (Car.controller f)) = 3 ->
  IDMController.b_max (CombinedController.idm (Car.controller f)) = 3 ->
  IDMController.min_gap (CombinedController.idm (Car.controller f)) = 2 ->
  IDMController.delta (CombinedController.idm (Car.controller f)) = 4%nat ->
  exists (cars' : list Car.t) (log : list (option (R * R))) (a s s_ref : R),
    RacingSimulation.update_cars track (1 / 10) [] [l; f] [] = Some (cars', log)
    /\ nth_error log 1 = Some (Some (a, s))
    /\ nth_error (reference_commands track (1 / 10) [l; f]) 1
       = Some (Some (3 * (1 - (2 / 10) ^ 2), s_ref))
    /\ 3 * (1 - (2 / 10) ^ 2) < a.
Proof.
  intros Hinit Hlen Hid Hlel Hfel Hlx Hly Hlyaw Hlv Hllane Hltarget Hltimer Hlmax Hla Hlb
    Hfx Hfy Hfyaw Hfv Hflane Hftarget Hftimer Hfa Hfb Hfgap Hfdelta.
  assert (Hid' : Car.car_id f <> Car.car_id l) by congruence.
  cbn [RacingSimulation.update_cars]. rewrite Hlel.
  rewrite (tick_lane_change_timer_idle l) by exact Hltimer. cbn [app].
  unfold active_cars at 1. cbn [filter]. unfold is_active. rewrite Hlel, Hfel. cbn [negb].
  pose proof (compute_control_pose (Car.controller l) l track [l; f] 50) as Hpose1.
  pose proof (compute_control_max_speed (Car.controller l) l track [l; f] 50) as Hmax1.
  pose proof (compute_control_acceleration_bounds (Car.controller l) l track [l; f] 50)
    as Hacc1.
  pose proof (leader_keeps_lane (Car.controller l) track l f Hid' Hlyaw
                ltac:(lra) ltac:(lra) Hllane Hltarget Hltimer) as Hlane1.
  destruct (compute_control (Car.controller l) l track [l; f] 50) as [[a1 s1] c1].
  cbn [fst snd] in Hpose1, Hmax1, Hacc1, Hlane1.
  rewrite Hla, Hlb in Hacc1. specialize (Hacc1 ltac:(lra)).
  apply pose_eq in Hpose1. destruct Hpose1 as (Hc1id & Hc1el & Hc1x & Hc1y & Hc1yaw & Hc1v).
  pose proof (update_car_dynamics_fields c1 a1 s1 (1 / 10)) as Hdyn. cbv zeta in Hdyn.
  destruct Hdyn as (Hdid & Hdel & Hdlane & Hdv & Hdx & Hdy).
  destruct (update_state_total rx ry w nl cl track (update_car_dynamics c1 a1 s1 (1 / 10))
              (1 / 10) Hinit Hlen) as (l2 & Hl2).
  rewrite Hl2.
  destruct (update_state_fields _ _ _ _ Hl2) as (Hpose2 & Hlane2).
  apply pose_eq in Hpose2. destruct Hpose2 as (Hl2id & Hl2el & Hl2x & Hl2y & Hl2yaw & Hl2v).
  set (v' := Car.velocity (update_car_dynamics c1 a1 s1 (1 / 10))) in *.
  assert (Hv' : 97 / 10 <= v' <= 20).
  { rewrite Hdv, Hmax1, Hlmax, Hc1v, Hlv. unfold np_clip, Rmin, Rmax.
    destruct (Rle_dec (10 + a1 * (1 / 10)) 0); destruct (Rle_dec _ 20); lra. }
  assert (Hx2 : Car.x l2 = 10 + v' * (1 / 10)).
  { rewrite Hl2x, Hdx, Hc1x, Hc1yaw, Hlx, Hlyaw, cos_0. ring. }
  assert (Hy2 : Car.y l2 = 0).
  { rewrite Hl2y, Hdy, Hc1y, Hc1yaw, Hly, Hlyaw, sin_0. ring. }
  assert (Hlane_l2 : Car.lane l2 = 0) by congruence.
  assert (Hel2 : Car.eliminated l2 = false) by congruence.
  assert (Hid2 : Car.car_id l2 <> Car.car_id f) by congruence.
  assert (Hv2 : 0 <= Car.velocity l2) by (rewrite Hl2v; fold v'; lra).
  rewrite ?Hfel. rewrite (tick_lane_change_timer_idle f) by exact Hftimer. cbn [app].
  unfold active_cars at 1. cbn [filter]. unfold is_active. rewrite Hel2, ?Hfel. cbn [negb].
  pose proof (follower_command (Car.controller f) track f l2 Hid2 Hfx Hfy Hfyaw Hfv Hflane
                Hftarget Hftimer Hy2 ltac:(lra) Hlane_l2 Hv2 Hfa Hfb Hfgap Hfdelta) as Hcmd.
  destruct (compute_control (Car.controller f) f track [l2; f] 50) as [[a2 s2] c2].
  cbn [fst] in Hcmd.
  destruct (update_state_total rx ry w nl cl track (update_car_dynamics c2 a2 s2 (1 / 10))
              (1 / 10) Hinit Hlen) as (f2 & Hf2).
  rewrite Hf2. cbn [RacingSimulation.update_cars app].
  pose proof (follower_command (Car.controller f) track f l Hid Hfx Hfy Hfyaw Hfv Hflane
                Hftarget Hftimer Hly ltac:(lra) Hllane ltac:(lra) Hfa Hfb Hfgap Hfdelta)
    as Href.
  rewrite Hlx in Href.
  exists [l2; f2], [Some (a1, s1); Some (a2, s2)], a2, s2,
    (snd (fst (compute_control (Car.controller f) f track [l; f] 50))).
  split; [reflexivity|]. split; [reflexivity|]. split.
  - unfold reference_commands. cbn [reference_from nth_error app].
    unfold command_against. rewrite Hfel.
    rewrite (tick_lane_change_timer_idle f) by exact Hftimer. cbn [app].
    unfold active_cars. cbn [filter]. unfold is_active. rewrite Hlel, Hfel. cbn [negb].
    rewrite <- Href.
    destruct (compute_control (Car.controller f) f track [l; f] 50) as [[a3 s3] c3].
    reflexivity.
  - rewrite Hcmd, Hx2.
    assert (Hq : 0 < 2 / (10 + v' * (1 / 10)) < 2 / 10).
    { split.
      - apply Rdiv_lt_0_compat; lra.
      - apply (Rmult_lt_reg_r (10 + v' * (1 / 10))); [lra|]. field_simplify; lra. }
    nra.
Qed.

Lemma leader_follower_cycle :
  exists (track : Track.t) (cars' : list Car.t) (log : list (option (R * R)))
         (a s s_ref : R),
    Track.init 60 40 12 5 (straight_centerline 12) = Some track
    /\ RacingSimulation.update_cars track (1 / 10) []
         [Car.set_velocity (sample_car 0 10) 10; sample_car 1 0] [] = Some (cars', log)
    /\ nth_error log 1 = Some (Some (a, s))
    /\ nth_error
         (reference_commands track (1 / 10)
            [Car.set_velocity (sample_car 0 10) 10; sample_car 1 0]) 1
       = Some (Some (3 * (1 - (2 / 10) ^ 2), s_ref))
    /\ 3 * (1 - (2 / 10) ^ 2) < a.
Proof.
  destruct (straight_track_built 12 ltac:(lia)) as (track & Ht).
  assert (Hlen : (10 <= length (straight_centerline 12))%nat).
  { rewrite straight_centerline_length. lia. }
  pose proof (follower_reads_moved_leader 60 40 12 5 (straight_centerline 12) track
                (Car.set_velocity (sample_car 0 10) 10) (sample_car 1 0) Ht Hlen) as H.
  repeat match type of H with
         | ?A -> _ =>
             let h := fresh in
             assert (h : A)
               by first [reflexivity | discriminate | cbn; lra
                        | unfold get_max_speed; cbn; lra];
             specialize (H h); clear h
         end.
  destruct H as (cars' & log & a & s & s_ref & H).
  exists track, cars', log, a, s, s_ref. split; [exact Ht|]. exact H.
Qed.

(** C2 (counterexample).  On a straight track, with a leader at 10 m moving
    at 10 m/s placed first in the roster and a standing follower at 0 m
    placed second, the commands of the per-car loop differ from those of
    the reference loop: the follower's acceleration is computed from the
    leader's position after this cycle's integration. *)
Lemma update_cars_differs_from_reference_commands :
  exists (track : Track.t) (cars' : list Car.t) (log : list (option (R * R))),
    Track.init 60 40 12 5 (straight_centerline 12) = Some track
    /\ RacingSimulation.update_cars track (1 / 10) []
         [Car.set_velocity (sample_car 0 10) 10; sample_car 1 0] [] = Some (cars', log)
    /\ log <> reference_commands track (1 / 10)
                [Car.set_velocity (sample_car 0 10) 10; sample_car 1 0].
Proof.
  destruct leader_follower_cycle as (track & cars' & log & a & s & s_ref & Ht & Hrun & Hlog
                                     & Href & Hlt).
  exists track, cars', log. split; [exact Ht|]. split; [exact Hrun|].
  intros Heq. rewrite <- Heq, Hlog in Href. injection Href as Ha _. lra.
Qed.

Lemma update_cars_commands_read_live_roster_witness :
  exists (track : Track.t) (cars' : list Car.t) (log : list (option (R * R))),
    RacingSimulation.update_cars track (1 / 10) []
      [Car.set_velocity (sample_car 0 10) 10; sample_car 1 0] [] = Some (cars', log)
    /\ length cars' = 2%nat /\ length log = 2%nat
    /\ (forall (k : nat) (car : Car.t),
           nth_error [Car.set_velocity (sample_car 0 10) 10; sample_car 1 0] k = Some car ->
           nth_error log k
           = Some (command_against track (1 / 10) car (firstn k cars')
                     (skipn (S k) [Car.set_velocity (sample_car 0 10) 10; sample_car 1 0])))
    /\ nth_error log 0
       = nth_error
           (reference_commands track (1 / 10)
              [Car.set_velocity (sample_car 0 10) 10; sample_car 1 0]) 0.
Proof.
  destruct leader_follower_cycle as (track & cars' & log & a & s & s_ref & Ht & Hrun & _).
  exists track, cars', log. split; [exact Hrun|].
  exact (update_cars_commands_read_live_roster track (1 / 10)
           [Car.set_velocity (sample_car 0 10) 10; sample_car 1 0] cars' log Hrun).
Defined.

(** The helper that predicts contacts does schedule a ['collision'] event
    when it is called: for two cars 3 m apart closing at 2 m/s it queues
    the contact 1.5 s ahead.  [run] never calls it. *)
Lemma check_collision_event_schedules (track : Track.t) (rng : Rng.t) :
  DiscreteEventSimulation.event_queue
    (DiscreteEventSimulation._check_collision_event
       (DiscreteEventSimulation.init (sample_config 2 true) track
          [Car.set_velocity (sample_car 0 0) 2; sample_car 1 3] rng) 0 1)
  = [Event.mk (0 + 3 / 2) collision (_handle_collision_of 0 1) (Some (0%nat, 1%nat))].
Proof.
  unfold DiscreteEventSimulation._check_collision_event, DiscreteEventSimulation.init.
  des_cbn. cbn [nth_error].
  assert (Hd : norm2 (Car.x (sample_car 1 3) - Car.x (Car.set_velocity (sample_car 0 0) 2))
                 (Car.y (sample_car 1 3) - Car.y (Car.set_velocity (sample_car 0 0) 2)) = 3).
  { cbn [sample_car Car_init Car.x Car.y Car.set_velocity].
    replace (3 - 0) with 3 by ring. replace (0 - 0) with 0 by ring.
    rewrite norm2_flat. apply Rabs_right. lra. }
  assert (Hv : relative_speed (Car.set_velocity (sample_car 0 0) 2) (sample_car 1 3) = 2).
  { unfold relative_speed.
    cbn [sample_car Car_init Car.velocity Car.yaw Car.set_velocity].
    rewrite cos_0, sin_0.
    replace ((0 * 1 - 2 * 1) ^ 2 + (0 * 0 - 2 * 0) ^ 2) with (Rsqr 2) by (unfold Rsqr; ring).
    apply sqrt_Rsqr. lra. }
  cbv zeta. rewrite Hd, Hv.
  cbn [CollisionDetector.collision_radius sample_config Config.simulation
       SimulationConfig.collision_radius].
  rewrite (ifR_false 3 2) by lra. rewrite (ifR_true (1 / 10) 2) by lra.
  rewrite (ifR_true (3 / 2) 5) by lra.
  reflexivity.
Qed.

(** * Limits of the commands and of the lane fields *)





(** The lane fields written by [compute_control]: whatever they were, both
    end in [[0, 4]]; and a lane that was in that range moves by at most 0.1
    per call. *)
Theorem compute_control_lane_step (self : CombinedController.t) (car : Car.t)
    (track : Track.t) (all_cars : list Car.t) (sensing_radius : R) :
  let car' := snd (compute_control self car track all_cars sensing_radius) in
  0 <= Car.lane car' <= 4
  /\ 0 <= Car.target_lane car' <= 4
  /\ (0 <= Car.lane car <= 4 -> Rabs (Car.lane car' - Car.lane car) <= 1 / 10).
Proof.
  intros car'. subst car'. unfold compute_control.
  match goal with
  | |- context [Track.get_target_point ?a ?b ?c ?d] =>
      destruct (Track.get_target_point a b c d)
  end.
  cbn [snd].
  destruct (_decide_lane_change car all_cars) as [target|]; cbn;
    repeat match goal with
           | |- context [Rltb ?a ?b] =>
               let E := fresh "E" in
               destruct (Rltb a b) eqn:E;
               [apply Rltb_true in E | apply Rltb_false in E]
           end;
    cbn; unfold np_clip, Rmin, Rmax in *;
    repeat match goal with
           | |- context [Rle_dec ?a ?b] => destruct (Rle_dec a b)
           | H : context [Rle_dec ?a ?b] |- _ => destruct (Rle_dec a b)
           end;
    unfold Rabs in *;
    repeat match goal with
           | H : context [Rcase_abs ?a] |- _ => destruct (Rcase_abs a)
           | |- context [Rcase_abs ?a] => destruct (Rcase_abs a)
           end;
    repeat split; try intros Hlane; lra.
Qed.

Lemma compute_control_lane_step_witness :
  0 <= Car.lane (Car.set_target_lane (sample_car 0 0) 3) <= 4
  /\ forall track : Track.t,
       let car' :=
         snd (compute_control (Car.controller (sample_car 0 0))
                (Car.set_target_lane (sample_car 0 0) 3) track [] 50) in
       0 <= Car.lane car' <= 4
       /\ 0 <= Car.target_lane car' <= 4
       /\ Rabs (Car.lane car' - Car.lane (Car.set_target_lane (sample_car 0 0) 3)) <= 1 / 10.
Proof.
  assert (H : 0 <= Car.lane (Car.set_target_lane (sample_car 0 0) 3) <= 4) by (cbn; lra).
  split; [exact H|]. intros track.
  destruct (compute_control_lane_step (Car.controller (sample_car 0 0))
              (Car.set_target_lane (sample_car 0 0) 3) track [] 50) as (H1 & H2 & H3).
  split; [exact H1|]. split; [exact H2|]. exact (H3 H).
Defined.

(** * Lane-change decisions *)

Lemma leading_in_lane_step_sound (car : Car.t) (all_cars : list Car.t)
    (best : option (Car.t * R * R)) (other_car : Car.t) :
  In other_car all_cars ->
  (forall c d v, best = Some (c, d, v) ->
     In c all_cars /\ Car.car_id c <> Car.car_id car
     /\ Rabs (Car.lane c - Car.lane car) <= 1 / 2
     /\ 0 < forward_projection car c < 30 /\ v = Car.velocity c) ->
  forall c d v, leading_in_lane_step car best other_car = Some (c, d, v) ->
    In c all_cars /\ Car.car_id c <> Car.car_id car
    /\ Rabs (Car.lane c - Car.lane car) <= 1 / 2
    /\ 0 < forward_projection car c < 30 /\ v = Car.velocity c.
Proof.
  intros Hin Hbest c d v. unfold leading_in_lane_step.
  destruct (Car.car_id other_car =? Car.car_id car)%nat eqn:Eid; [intros Hb; exact (Hbest _ _ _ Hb)|].
  apply Nat.eqb_neq in Eid.
  destruct (Rltb (1 / 2) _) eqn:Elane; [intros Hb; exact (Hbest _ _ _ Hb)|]. apply Rltb_false in Elane.
  destruct (Rltb 0 _) eqn:E0; cbn [andb]; [|intros Hb; exact (Hbest _ _ _ Hb)]. apply Rltb_true in E0.
  destruct (Rltb _ 30) eqn:E30; [|intros Hb; exact (Hbest _ _ _ Hb)]. apply Rltb_true in E30.
  assert (Hnew : In other_car all_cars /\ Car.car_id other_car <> Car.car_id car
                 /\ Rabs (Car.lane other_car - Car.lane car) <= 1 / 2
                 /\ 0 < forward_projection car other_car < 30
                 /\ Car.velocity other_car = Car.velocity other_car) by tauto.
  destruct best as [[[bc bd] bv]|].
  - destruct (Rltb _ bd); intros H.
    + injection H as <- _ <-. exact Hnew.
    + exact (Hbest _ _ _ H).
  - intros H. injection H as <- _ <-. exact Hnew.
Qed.

Lemma leading_in_lane_sound (car : Car.t) (all_cars : list Car.t) :
  forall (l : list Car.t) (best : option (Car.t * R * R)),
    incl l all_cars ->
    (forall c d v, best = Some (c, d, v) ->
       In c all_cars /\ Car.car_id c <> Car.car_id car
       /\ Rabs (Car.lane c - Car.lane car) <= 1 / 2
       /\ 0 < forward_projection car c < 30 /\ v = Car.velocity c) ->
    forall c d v, fold_left (leading_in_lane_step car) l best = Some (c, d, v) ->
      In c all_cars /\ Car.car_id c <> Car.car_id car
      /\ Rabs (Car.lane c - Car.lane car) <= 1 / 2
      /\ 0 < forward_projection car c < 30 /\ v = Car.velocity c.
Proof.
  induction l as [|o l IH]; intros best Hincl Hbest c d v; cbn [fold_left].
  - intros Hb; exact (Hbest _ _ _ Hb).
  - apply IH.
    + intros x Hx. apply Hincl. right. exact Hx.
    + apply leading_in_lane_step_sound; [apply Hincl; left; reflexivity|exact Hbest].
Qed.

Lemma _check_lane_clear_sound (car : Car.t) (target_lane : R) (all_cars : list Car.t)
    (lookahead_distance : R) :
  _check_lane_clear car target_lane all_cars lookahead_distance = true ->
  0 <= target_lane < 5
  /\ forall other_car,
       In other_car all_cars -> Car.car_id other_car <> Car.car_id car ->
       Rabs (Car.lane other_car - target_lane) <= 1 / 2 ->
       lookahead_distance <= Rabs (forward_projection car other_car).
Proof.
  unfold _check_lane_clear.
  destruct (Rltb target_lane 0) eqn:E0; [discriminate|]. apply Rltb_false in E0.
  destruct (Rleb 5 target_lane) eqn:E5; [discriminate|]. apply Rleb_false in E5.
  cbn [orb]. intros H. split; [lra|].
  intros other_car Hin Hid Hlane. rewrite forallb_forall in H. specialize (H _ Hin).
  replace (Car.car_id other_car =? Car.car_id car)%nat with false in H
    by (symmetry; apply Nat.eqb_neq; exact Hid).
  rewrite (ifR_false (1 / 2) _) in H by exact Hlane.
  destruct (Rltb _ lookahead_distance) eqn:E; [discriminate|]. apply Rltb_false in E. exact E.
Qed.

(** A lane change is decided only when the cooldown timer has run out and
    a slower car is within 30 m ahead in the own lane; the lane chosen is
    one or two lanes away, lies in [[0, 5)], and no other car in it is within
    20 m of forward projection, ahead or behind. *)
Theorem _decide_lane_change_sound (car : Car.t) (all_cars : list Car.t) (target_lane : R) :
  _decide_lane_change car all_cars = Some target_lane ->
  Car.lane_change_timer car <= 0
  /\ (exists leading_car,
         In leading_car all_cars /\ Car.car_id leading_car <> Car.car_id car
         /\ Rabs (Car.lane leading_car - Car.lane car) <= 1 / 2
         /\ 0 < forward_projection car leading_car < 30
         /\ Car.velocity leading_car < Car.velocity car * (9 / 10))
  /\ (target_lane = Car.lane car + 1 \/ target_lane = Car.lane car + 2
      \/ target_lane = Car.lane car - 1 \/ target_lane = Car.lane car - 2)
  /\ 0 <= target_lane < 5
  /\ forall other_car,
       In other_car all_cars -> Car.car_id other_car <> Car.car_id car ->
       Rabs (Car.lane other_car - target_lane) <= 1 / 2 ->
       20 <= Rabs (forward_projection car other_car).
Proof.
  unfold _decide_lane_change.
  destruct (Rltb 0 (Car.lane_change_timer car)) eqn:Et; [discriminate|].
  apply Rltb_false in Et.
  destruct (fold_left _ _ _) as [[[lc ld] lv]|] eqn:Hfold; [|discriminate].
  destruct (Rltb lv _) eqn:Ev; [|discriminate]. apply Rltb_true in Ev.
  intros Hfind. apply find_some in Hfind. destruct Hfind as [Hin Hclear].
  apply _check_lane_clear_sound in Hclear. destruct Hclear as [Hrange Hclear].
  destruct (leading_in_lane_sound car all_cars all_cars None (incl_refl _)
              ltac:(discriminate) lc ld lv Hfold) as (Hlc & Hid & Hlane & Hproj & Hv).
  split; [exact Et|]. split.
  - exists lc. subst lv. tauto.
  - split; [|split; assumption].
    repeat match type of Hin with
           | context [Rltb ?a ?b] => destruct (Rltb a b)
           end;
      cbn in Hin; intuition.
Qed.

Lemma forward_projection_level (car other_car : Car.t) :
  Car.yaw car = 0 -> Car.y other_car = Car.y car ->
  forward_projection car other_car = Car.x other_car - Car.x car.
Proof.
  intros Hyaw Hy. unfold forward_projection. rewrite Hyaw, Hy, cos_0, sin_0. ring.
Qed.

Lemma _decide_lane_change_overtake :
  _decide_lane_change (Car.set_velocity (sample_car 0 0) 10)
    [Car.set_velocity (sample_car 0 0) 10; sample_car 1 10] = Some 1.
Proof.
  unfold _decide_lane_change.
  rewrite (ifR_false 0 _) by (cbn; lra).
  cbn [fold_left]. unfold leading_in_lane_step at 2. rewrite Nat.eqb_refl.
  unfold leading_in_lane_step.
  replace (Car.car_id (sample_car 1 10) =? Car.car_id (Car.set_velocity (sample_car 0 0) 10))%nat
    with false by reflexivity.
  rewrite (forward_projection_level (Car.set_velocity (sample_car 0 0) 10) (sample_car 1 10)
             eq_refl eq_refl).
  rewrite (ifR_false (1 / 2) _)
    by (cbn; replace (0 - 0) with 0 by ring; rewrite Rabs_R0; lra).
  rewrite (proj2 (Rltb_true 0 _)) by (cbn; lra).
  rewrite (proj2 (Rltb_true _ 30)) by (cbn; lra).
  cbn [andb]. rewrite (ifR_true _ _) by (cbn; lra).
  rewrite (ifR_true _ 4) by (cbn; lra).
  cbn [app find]. unfold _check_lane_clear.
  rewrite (proj2 (Rltb_false _ 0)) by (cbn; lra).
  replace (Rleb 5 _) with false by (symmetry; apply Rleb_false; cbn; lra).
  cbn [orb forallb]. rewrite Nat.eqb_refl.
  replace (Car.car_id (sample_car 1 10) =? Car.car_id (Car.set_velocity (sample_car 0 0) 10))%nat
    with false by reflexivity.
  rewrite (ifR_true (1 / 2) _); [cbn; f_equal; ring|].
  cbn. replace (0 - (0 + 1)) with (- (1)) by ring. rewrite Rabs_Ropp, Rabs_R1. lra.
Qed.

Lemma _decide_lane_change_sound_witness :
  _decide_lane_change (Car.set_velocity (sample_car 0 0) 10)
    [Car.set_velocity (sample_car 0 0) 10; sample_car 1 10] = Some 1
  /\ Car.lane_change_timer (Car.set_velocity (sample_car 0 0) 10) <= 0
  /\ (exists leading_car,
         In leading_car [Car.set_velocity (sample_car 0 0) 10; sample_car 1 10]
         /\ Car.car_id leading_car <> Car.car_id (Car.set_velocity (sample_car 0 0) 10)
         /\ Rabs (Car.lane leading_car - Car.lane (Car.set_velocity (sample_car 0 0) 10))
            <= 1 / 2
         /\ 0 < forward_projection (Car.set_velocity (sample_car 0 0) 10) leading_car < 30
         /\ Car.velocity leading_car
            < Car.velocity (Car.set_velocity (sample_car 0 0) 10) * (9 / 10))
  /\ (1 = Car.lane (Car.set_velocity (sample_car 0 0) 10) + 1
      \/ 1 = Car.lane (Car.set_velocity (sample_car 0 0) 10) + 2
      \/ 1 = Car.lane (Car.set_velocity (sample_car 0 0) 10) - 1
      \/ 1 = Car.lane (Car.set_velocity (sample_car 0 0) 10) - 2)
  /\ 0 <= 1 < 5
  /\ forall other_car,
       In other_car [Car.set_velocity (sample_car 0 0) 10; sample_car 1 10] ->
       Car.car_id other_car <> Car.car_id (Car.set_velocity (sample_car 0 0) 10) ->
       Rabs (Car.lane other_car - 1) <= 1 / 2 ->
       20 <= Rabs (forward_projection (Car.set_velocity (sample_car 0 0) 10) other_car).
Proof.
  split; [exact _decide_lane_change_overtake|].
  exact (_decide_lane_change_sound (Car.set_velocity (sample_car 0 0) 10)
           [Car.set_velocity (sample_car 0 0) 10; sample_car 1 10] 1
           _decide_lane_change_overtake).
Defined.

(** * Sensing and the choice of the leader *)

Section Sort_by.
Context {A : Type} (key : A -> R).

Lemma insert_by_perm (a : A) (l : list A) : Permutation (insert_by key a l) (a :: l).
Proof.
  induction l as [|b l IH]; cbn [insert_by]; [reflexivity|].
  destruct (Rle_dec (key a) (key b)); [reflexivity|].
  rewrite IH. apply perm_swap.
Qed.

Lemma sort_by_perm (l : list A) : Permutation (sort_by key l) l.
Proof.
  induction l as [|a l IH]; [reflexivity|].
  unfold sort_by in *. cbn [fold_right]. rewrite insert_by_perm, IH. reflexivity.
Qed.

Lemma insert_by_sorted (a : A) (l : list A) :
  StronglySorted (fun u v => key u <= key v) l ->
  StronglySorted (fun u v => key u <= key v) (insert_by key a l).
Proof.
  induction 1 as [|b l Hl IH Hb]; cbn [insert_by].
  - repeat constructor.
  - destruct (Rle_dec (key a) (key b)) as [Hle|Hgt].
    + constructor; [constructor; assumption|].
      constructor; [exact Hle|].
      rewrite Forall_forall in *. intros x Hx. specialize (Hb x Hx). lra.
    + constructor; [exact IH|].
      rewrite Forall_forall in *. intros x Hx.
      apply (Permutation_in _ (insert_by_perm a l)) in Hx. destruct Hx as [<-|Hx].
      * lra.
      * apply Hb. exact Hx.
Qed.

Lemma sort_by_sorted (l : list A) :
  StronglySorted (fun u v => key u <= key v) (sort_by key l).
Proof.
  induction l as [|a l IH]; [constructor|].
  unfold sort_by in *. cbn [fold_right]. apply insert_by_sorted. exact IH.
Qed.

End Sort_by.

Lemma sense_one_In (self other_car : Car.t) (radius : R) (n : neighbor) :
  In n (sense_one self other_car radius) <->
  Car.car_id other_car <> Car.car_id self
  /\ norm2 (Car.x other_car - Car.x self) (Car.y other_car - Car.y self) <= radius
  /\ fst (fst n) = other_car
  /\ snd (fst n) = norm2 (Car.x other_car - Car.x self) (Car.y other_car - Car.y self)
  /\ n = hd n (sense_one self other_car radius).
Proof.
  unfold sense_one.
  destruct (Car.car_id other_car =? Car.car_id self)%nat eqn:Eid.
  - apply Nat.eqb_eq in Eid. cbn. tauto.
  - apply Nat.eqb_neq in Eid.
    destruct (Rleb _ radius) eqn:Er.
    + apply Rleb_true in Er. cbn [In hd]. split.
      * intros [<-|[]]. cbn [fst snd]. tauto.
      * intros (_ & _ & _ & _ & ->). left. reflexivity.
    + apply Rleb_false in Er. cbn. split; [tauto|]. intros (_ & H & _). lra.
Qed.

Lemma sense_neighbors_spec (self : Car.t) (all_cars : list Car.t) (radius : R) :
  let distance_to (c : Car.t) := norm2 (Car.x c - Car.x self) (Car.y c - Car.y self) in
  let neighbors := sense_neighbors self all_cars radius in
  StronglySorted (fun n m : neighbor => snd (fst n) <= snd (fst m)) neighbors
  /\ (forall other_car distance relative_velocity,
         In (other_car, distance, relative_velocity) neighbors ->
         In other_car all_cars /\ Car.car_id other_car <> Car.car_id self
         /\ distance = distance_to other_car /\ distance <= radius)
  /\ (forall other_car,
         In other_car all_cars -> Car.car_id other_car <> Car.car_id self ->
         distance_to other_car <= radius ->
         exists relative_velocity,
           In (other_car, distance_to other_car, relative_velocity) neighbors)
  /\ length neighbors
     = length (filter (fun c => negb (Car.car_id c =? Car.car_id self)%nat
                                && Rleb (distance_to c) radius) all_cars).
Proof.
  intros distance_to neighbors. subst neighbors. unfold sense_neighbors.
  split; [apply sort_by_sorted|]. split; [|split].
  - intros other_car distance rv Hin.
    apply (Permutation_in _ (sort_by_perm _ _)) in Hin.
    apply in_flat_map in Hin. destruct Hin as (c & Hc & Hin).
    apply sense_one_In in Hin. cbn [fst snd] in Hin.
    destruct Hin as (Hid & Hr & <- & -> & _). subst distance_to. cbv beta. tauto.
  - intros other_car Hin Hid Hr. subst distance_to. cbv beta in *.
    assert (Hone : exists rv,
               In (other_car,
                   norm2 (Car.x other_car - Car.x self) (Car.y other_car - Car.y self), rv)
                  (sense_one self other_car radius)).
    { unfold sense_one.
      replace (Car.car_id other_car =? Car.car_id self)%nat with false
        by (symmetry; apply Nat.eqb_neq; exact Hid).
      replace (Rleb _ radius) with true by (symmetry; apply Rleb_true; exact Hr).
      eexists. left. reflexivity. }
    destruct Hone as (rv & Hone). exists rv.
    apply (Permutation_in _ (Permutation_sym (sort_by_perm _ _))).
    apply in_flat_map. exists other_car. split; assumption.
  - rewrite (Permutation_length (sort_by_perm _ _)).
    induction all_cars as [|c l IH]; [reflexivity|].
    cbn [flat_map filter]. rewrite length_app, IH. subst distance_to. cbv beta.
    unfold sense_one.
    destruct (Car.car_id c =? Car.car_id self)%nat; cbn [negb andb]; [reflexivity|].
    destruct (Rleb _ radius); reflexivity.
Qed.

(** [sense_neighbors] lists, closest first, exactly the other cars of the
    roster within the sensing radius, each with its distance; the car
    itself is never listed. *)
Theorem sense_neighbors_sorted_complete (self : Car.t) (all_cars : list Car.t) (radius : R) :
  let distance_to (c : Car.t) := norm2 (Car.x c - Car.x self) (Car.y c - Car.y self) in
  let neighbors := sense_neighbors self all_cars radius in
  StronglySorted (fun n m : neighbor => snd (fst n) <= snd (fst m)) neighbors
  /\ (forall other_car distance relative_velocity,
         In (other_car, distance, relative_velocity) neighbors ->
         In other_car all_cars /\ Car.car_id other_car <> Car.car_id self
         /\ distance = distance_to other_car /\ distance <= radius)
  /\ (forall other_car,
         In other_car all_cars -> Car.car_id other_car <> Car.car_id self ->
         distance_to other_car <= radius ->
         exists relative_velocity,
           In (other_car, distance_to other_car, relative_velocity) neighbors)
  /\ length neighbors
     = length (filter (fun c => negb (Car.car_id c =? Car.car_id self)%nat
                                && Rleb (distance_to c) radius) all_cars).
Proof.
  exact (sense_neighbors_spec self all_cars radius).
Qed.

(** ** The leader *)

Lemma find_sorted_first {A : Type} (key : A -> R) (p : A -> bool) (l : list A) (a : A) :
  StronglySorted (fun u v => key u <= key v) l ->
  find p l = Some a ->
  In a l /\ p a = true /\ forall b, In b l -> p b = true -> key a <= key b.
Proof.
  induction 1 as [|c l Hl IH Hc]; cbn [find]; [discriminate|].
  destruct (p c) eqn:Ec.
  - intros H. injection H as <-. split; [left; reflexivity|]. split; [exact Ec|].
    intros b [<-|Hb] _; [lra|]. rewrite Forall_forall in Hc. apply Hc. exact Hb.
  - intros H. destruct (IH H) as (Hin & Hp & Hmin).
    split; [right; exact Hin|]. split; [exact Hp|].
    intros b [<-|Hb] Hpb; [congruence|]. apply Hmin; assumption.
Qed.

(** The leader that [compute_control] follows is a nearest car among those
    sensed within the radius, in the own lane (within half a lane) and
    ahead; there is none only when no sensed car is in the lane and
    ahead. *)
Theorem find_leader_nearest_ahead (car : Car.t) (all_cars : list Car.t) (radius : R) :
  let distance_to (c : Car.t) := norm2 (Car.x c - Car.x car) (Car.y c - Car.y car) in
  let eligible (c : Car.t) :=
    In c all_cars /\ Car.car_id c <> Car.car_id car /\ distance_to c <= radius
    /\ Rabs (Car.lane c - Car.lane car) <= 1 / 2 /\ 0 < forward_projection car c in
  match find_leader car (sense_neighbors car all_cars radius) with
  | Some (leading_car, leading_distance, _) =>
      eligible leading_car /\ leading_distance = distance_to leading_car
      /\ forall c, eligible c -> leading_distance <= distance_to c
  | None => forall c, ~ eligible c
  end.
Proof.
  intros distance_to eligible.
  destruct (sense_neighbors_spec car all_cars radius)
    as (Hsorted & Hsound & Hcomplete & _).
  fold distance_to in Hsound, Hcomplete.
  destruct (find_leader car (sense_neighbors car all_cars radius))
    as [[[lc ld] lrv]|] eqn:Hfind; unfold find_leader in Hfind.
  - apply (find_sorted_first (fun n : neighbor => snd (fst n))) in Hfind; [|exact Hsorted].
    destruct Hfind as (Hin & Hp & Hmin). cbn [fst snd] in Hp.
    apply andb_true_iff in Hp. destruct Hp as [Hlane Hahead].
    apply negb_true_iff, Rltb_false in Hlane. apply Rltb_true in Hahead.
    destruct (Hsound _ _ _ Hin) as (Hall & Hid & Hd & Hr).
    split; [|split; [exact Hd|]].
    + unfold eligible. rewrite Hd in Hr. tauto.
    + intros c (Hc & Hcid & Hcr & Hclane & Hcahead).
      destruct (Hcomplete c Hc Hcid Hcr) as (rv & Hcin).
      apply (Hmin _ Hcin). cbn [fst snd].
      rewrite (proj2 (Rltb_false (1 / 2) _)) by exact Hclane.
      rewrite (proj2 (Rltb_true 0 _)) by exact Hcahead. reflexivity.
  - intros c (Hc & Hcid & Hcr & Hclane & Hcahead).
    destruct (Hcomplete c Hc Hcid Hcr) as (rv & Hcin).
    pose proof (find_none _ _ Hfind _ Hcin) as Hp. cbn [fst snd] in Hp.
    rewrite (proj2 (Rltb_false (1 / 2) _)) in Hp by exact Hclane.
    rewrite (proj2 (Rltb_true 0 _)) in Hp by exact Hcahead. discriminate.
Qed.

(** * One tick of the kinematic model *)


Lemma norm2_heading (r yaw : R) : norm2 (r * cos yaw) (r * sin yaw) = Rabs r.
Proof.
  unfold norm2.
  replace ((r * cos yaw) ^ 2 + (r * sin yaw) ^ 2)
    with (Rsqr r * (Rsqr (sin yaw) + Rsqr (cos yaw))) by (unfold Rsqr; ring).
  rewrite sin2_cos2, Rmult_1_r. apply sqrt_Rsqr_abs.
Qed.

(** In one tick of duration [dt >= 0] a car moves along its previous
    heading by exactly its new speed times [dt], hence by no more than
    [get_max_speed * dt]. *)
Theorem update_car_dynamics_displacement (car : Car.t) (acceleration steering_angle dt : R) :
  0 <= get_max_speed car -> 0 <= dt ->
  let car' := update_car_dynamics car acceleration steering_angle dt in
  norm2 (Car.x car' - Car.x car) (Car.y car' - Car.y car) = Car.velocity car' * dt
  /\ norm2 (Car.x car' - Car.x car) (Car.y car' - Car.y car) <= get_max_speed car * dt.
Proof.
  intros Hmax Hdt car'. subst car'.
  destruct (update_car_dynamics_fields car acceleration steering_angle dt)
    as (_ & _ & _ & Hv & Hx & Hy).
  assert (Hbound : 0 <= Car.velocity (update_car_dynamics car acceleration steering_angle dt)
                   <= get_max_speed car).
  { rewrite Hv. apply np_clip_bounds. exact Hmax. }
  rewrite Hx, Hy.
  set (v := Car.velocity (update_car_dynamics car acceleration steering_angle dt)) in *.
  replace (Car.x car + v * cos (Car.yaw car) * dt - Car.x car)
    with (v * dt * cos (Car.yaw car)) by ring.
  replace (Car.y car + v * sin (Car.yaw car) * dt - Car.y car)
    with (v * dt * sin (Car.yaw car)) by ring.
  rewrite norm2_heading, Rabs_right by nra.
  split; [reflexivity|nra].
Qed.

Lemma update_car_dynamics_displacement_witness :
  0 <= get_max_speed (sample_car 0 0) /\ 0 <= 1 / 10
  /\ (let car' := update_car_dynamics (sample_car 0 0) 3 0 (1 / 10) in
      norm2 (Car.x car' - Car.x (sample_car 0 0)) (Car.y car' - Car.y (sample_car 0 0))
      = Car.velocity car' * (1 / 10)
      /\ norm2 (Car.x car' - Car.x (sample_car 0 0)) (Car.y car' - Car.y (sample_car 0 0))
         <= get_max_speed (sample_car 0 0) * (1 / 10)).
Proof.
  assert (H : 0 <= get_max_speed (sample_car 0 0)) by (unfold get_max_speed; cbn; lra).
  assert (Hdt : 0 <= 1 / 10) by lra.
  split; [exact H|]. split; [exact Hdt|].
  exact (update_car_dynamics_displacement (sample_car 0 0) 3 0 (1 / 10) H Hdt).
Defined.


(** * The collision pass: which events, which cars *)

(** Every event reported by one call of [check_collisions] comes from a
    pair of non-eliminated cars closer than the collision radius, the
    earlier one in the roster first, with the magnitude of their relative
    velocity vector as severity; the detector's log is the old log followed
    by the reported events. *)
Theorem check_collisions_events_sound
    (self : CollisionDetector.t) (cars : list Car.t) (ts : R) :
  NoDup (map Car.car_id cars) ->
  let '(events, self', _) := check_collisions self cars ts in
  (forall e, In e events ->
     exists i j c1 c2,
       (i < j)%nat /\ nth_error cars i = Some c1 /\ nth_error cars j = Some c2
       /\ Car.eliminated c1 = false /\ Car.eliminated c2 = false
       /\ sqrt ((Car.x c1 - Car.x c2) ^ 2 + (Car.y c1 - Car.y c2) ^ 2)
          < CollisionDetector.collision_radius self
       /\ CollisionEvent.timestamp e = ts
       /\ CollisionEvent.car_id1 e = Car.car_id c1
       /\ CollisionEvent.car_id2 e = Car.car_id c2
       /\ CollisionEvent.severity e
          = sqrt ((Car.velocity c2 * cos (Car.yaw c2)
                   - Car.velocity c1 * cos (Car.yaw c1)) ^ 2
                  + (Car.velocity c2 * sin (Car.yaw c2)
                     - Car.velocity c1 * sin (Car.yaw c1)) ^ 2)
       /\ CollisionEvent.x e = (Car.x c1 + Car.x c2) / 2
       /\ CollisionEvent.y e = (Car.y c1 + Car.y c2) / 2
       /\ CollisionEvent.lap e = Nat.min (Car.lap_count c1) (Car.lap_count c2))
  /\ CollisionDetector.collisions self' = CollisionDetector.collisions self ++ events
  /\ CollisionDetector.collision_radius self' = CollisionDetector.collision_radius self.
Proof.
  intros Hnd. destruct (check_collisions_expected self cars ts Hnd) as (cars' & -> & _).
  split; [|split; reflexivity].
  intros e He. apply expected_events_In in He.
  destruct He as (i & j & c1 & c2 & Hij & Hi & Hj & H1 & H2 & Hd & ->).
  exists i, j, c1, c2. cbn. repeat split; assumption.
Qed.

Lemma check_collisions_events_sound_witness :
  NoDup (map Car.car_id [Car.set_velocity (sample_car 0 0) 10;
                         Car.set_velocity (sample_car 1 1) 4; sample_car 2 9])
  /\ (let '(events, self', _) :=
        check_collisions (CollisionDetector.mk 2 [])
          [Car.set_velocity (sample_car 0 0) 10; Car.set_velocity (sample_car 1 1) 4;
           sample_car 2 9] 0 in
      (forall e, In e events ->
         exists i j c1 c2,
           (i < j)%nat
           /\ nth_error [Car.set_velocity (sample_car 0 0) 10;
                         Car.set_velocity (sample_car 1 1) 4; sample_car 2 9] i = Some c1
           /\ nth_error [Car.set_velocity (sample_car 0 0) 10;
                         Car.set_velocity (sample_car 1 1) 4; sample_car 2 9] j = Some c2
           /\ Car.eliminated c1 = false /\ Car.eliminated c2 = false
           /\ sqrt ((Car.x c1 - Car.x c2) ^ 2 + (Car.y c1 - Car.y c2) ^ 2)
              < CollisionDetector.collision_radius (CollisionDetector.mk 2 [])
           /\ CollisionEvent.timestamp e = 0
           /\ CollisionEvent.car_id1 e = Car.car_id c1
           /\ CollisionEvent.car_id2 e = Car.car_id c2
           /\ CollisionEvent.severity e
              = sqrt ((Car.velocity c2 * cos (Car.yaw c2)
                       - Car.velocity c1 * cos (Car.yaw c1)) ^ 2
                      + (Car.velocity c2 * sin (Car.yaw c2)
                         - Car.velocity c1 * sin (Car.yaw c1)) ^ 2)
           /\ CollisionEvent.x e = (Car.x c1 + Car.x c2) / 2
           /\ CollisionEvent.y e = (Car.y c1 + Car.y c2) / 2
           /\ CollisionEvent.lap e = Nat.min (Car.lap_count c1) (Car.lap_count c2))
      /\ CollisionDetector.collisions self'
         = CollisionDetector.collisions (CollisionDetector.mk 2 []) ++ events
      /\ CollisionDetector.collision_radius self'
         = CollisionDetector.collision_radius (CollisionDetector.mk 2 [])).
Proof.
  assert (Hnd : NoDup (map Car.car_id [Car.set_velocity (sample_car 0 0) 10;
                                       Car.set_velocity (sample_car 1 1) 4;
                                       sample_car 2 9])).
  { cbn. repeat constructor; cbn; intuition lia. }
  split; [exact Hnd|].
  exact (check_collisions_events_sound (CollisionDetector.mk 2 [])
           [Car.set_velocity (sample_car 0 0) 10; Car.set_velocity (sample_car 1 1) 4;
            sample_car 2 9] 0 Hnd).
Defined.

(** ** Which cars a pass touches *)

Lemma hit_or_same_refl (c : Car.t) : hit_or_same c c.
Proof. left. reflexivity. Qed.

Lemma hit_or_same_eliminated (c c' : Car.t) :
  hit_or_same c c' -> Car.eliminated c' = Car.eliminated c.
Proof.
  intros [->|(_ & _ & Hs & _)]; [reflexivity|].
  apply stats_only_eliminated. exact Hs.
Qed.

Lemma hit_or_same_trans (a b c : Car.t) : hit_or_same a b -> hit_or_same b c -> hit_or_same a c.
Proof.
  intros [->|(Ha & Hf & Hs & Hn)] Hbc; [exact Hbc|].
  destruct Hbc as [->|(Hb & Hf' & Hs' & Hn')].
  - right. tauto.
  - right. split; [exact Ha|]. split; [exact Hf'|].
    split; [eapply stats_only_trans; eassumption|lia].
Qed.

Lemma check_pair_hit_or_same (radius ts : R) (car1 car2 : Car.t) (st : Pass.t) :
  Car.eliminated car1 = false ->
  hit_or_same car1 (fst (fst (check_pair radius ts car1 car2 st)))
  /\ hit_or_same car2 (snd (fst (check_pair radius ts car1 car2 st))).
Proof.
  intros H1. destruct (check_pair_stats_only radius ts car1 car2 st) as [Hs1 Hs2].
  unfold check_pair in *.
  destruct (Car.eliminated car2) eqn:E2; [split; apply hit_or_same_refl|].
  destruct (pair_in _ _); [split; apply hit_or_same_refl|].
  destruct (Rltb _ _); [|split; apply hit_or_same_refl].
  cbn [fst snd] in *. split; right.
  - split; [exact H1|]. split; [reflexivity|]. split; [exact Hs1|]. cbn. lia.
  - split; [exact E2|]. split; [reflexivity|]. split; [exact Hs2|]. cbn. lia.
Qed.

Lemma check_against_hit_or_same (radius ts : R) (rest : list Car.t) :
  forall (car1 : Car.t) (st : Pass.t),
    Car.eliminated car1 = false ->
    hit_or_same car1 (fst (fst (check_against radius ts car1 rest st)))
    /\ Forall2 hit_or_same rest (snd (fst (check_against radius ts car1 rest st))).
Proof.
  induction rest as [|car2 rest IH]; intros car1 st H1; cbn [check_against].
  - split; [apply hit_or_same_refl|constructor].
  - destruct (check_pair_hit_or_same radius ts car1 car2 st H1) as [Hp1 Hp2].
    destruct (check_pair radius ts car1 car2 st) as [[car1' car2'] st'].
    cbn [fst snd] in Hp1, Hp2.
    assert (H1' : Car.eliminated car1' = false)
      by (rewrite (hit_or_same_eliminated _ _ Hp1); exact H1).
    specialize (IH car1' st' H1').
    destruct (check_against radius ts car1' rest st') as [[car1'' rest'] st''].
    cbn [fst snd] in IH |- *. destruct IH as [IH1 IH2].
    split; [eapply hit_or_same_trans; eassumption|].
    constructor; assumption.
Qed.

Lemma Forall2_hit_or_same_refl (cars : list Car.t) : Forall2 hit_or_same cars cars.
Proof. induction cars; constructor; auto using hit_or_same_refl. Qed.

Lemma Forall2_hit_or_same_trans (a b c : list Car.t) :
  Forall2 hit_or_same a b -> Forall2 hit_or_same b c -> Forall2 hit_or_same a c.
Proof.
  intros Hab. revert c. induction Hab as [|x y a b Hxy Hab IH]; intros c Hbc.
  - inversion Hbc. constructor.
  - inversion Hbc as [|y' z b' c' Hyz Hbc']; subst.
    constructor; [eapply hit_or_same_trans; eassumption|]. apply IH. assumption.
Qed.

Lemma check_from_hit_or_same (n : nat) (radius ts : R) :
  forall (cars : list Car.t) (st : Pass.t),
    Forall2 hit_or_same cars (fst (check_from n radius ts cars st)).
Proof.
  induction n as [|n IH]; intros cars st; cbn [check_from].
  - cbn [fst]. apply Forall2_hit_or_same_refl.
  - destruct cars as [|car1 rest]; [constructor|].
    destruct (Car.eliminated car1) eqn:E1.
    + specialize (IH rest st). destruct (check_from n radius ts rest st) as [rest' st'].
      cbn [fst] in *. constructor; [apply hit_or_same_refl|exact IH].
    + destruct (check_against_hit_or_same radius ts rest car1 st E1) as [H1 H2].
      destruct (check_against radius ts car1 rest st) as [[car1' rest'] st'].
      cbn [fst snd] in H1, H2.
      specialize (IH rest' st'). destruct (check_from n radius ts rest' st') as [rest'' st''].
      cbn [fst] in *. constructor; [exact H1|].
      eapply Forall2_hit_or_same_trans; eassumption.
Qed.

Lemma check_collisions_hit_or_same (self : CollisionDetector.t) (cars : list Car.t) (ts : R) :
  Forall2 hit_or_same cars (snd (check_collisions self cars ts)).
Proof.
  unfold check_collisions.
  match goal with
  | |- context [check_from ?n ?r ?t ?c ?s] =>
      pose proof (check_from_hit_or_same n r t c s) as H;
      destruct (check_from n r t c s) as [cars' st']
  end.
  exact H.
Qed.

Lemma Forall2_and {A B : Type} (P Q : A -> B -> Prop) (l : list A) (l' : list B) :
  Forall2 P l l' -> Forall2 Q l l' -> Forall2 (fun a b => P a b /\ Q a b) l l'.
Proof.
  intros HP. induction HP as [|a b l l' Hab HP IH]; intros HQ; inversion HQ; subst;
    constructor; auto.
Qed.

(** One call of [check_collisions] raises the collision flag of exactly
    the cars named by its events, all of them non-eliminated; every other
    car, and every eliminated car, is left as it was. *)
Theorem check_collisions_marks_collided
    (self : CollisionDetector.t) (cars : list Car.t) (ts : R) :
  NoDup (map Car.car_id cars) ->
  let '(events, _, cars') := check_collisions self cars ts in
  Forall2 (fun c c' =>
             if existsb (involves (Car.car_id c)) events
             then Car.collision_flag c' = true /\ Car.eliminated c = false
             else c' = c)
          cars cars'.
Proof.
  intros Hnd. pose proof (check_collisions_hit_or_same self cars ts) as Hhit.
  destruct (check_collisions_expected self cars ts Hnd) as (cars' & Heq & Hacc).
  rewrite Heq in *. cbn [snd] in Hhit.
  eapply Forall2_impl; [|exact (Forall2_and _ _ _ _ Hhit Hacc)].
  intros c c' [Hh (_ & Hcount & _)]. cbv beta in *.
  set (events := expected_events (CollisionDetector.collision_radius self) ts cars) in *.
  destruct (existsb (involves (Car.car_id c)) events) eqn:Eex.
  - assert (Hlen : (0 < length (filter (involves (Car.car_id c)) events))%nat).
    { apply existsb_exists in Eex. destruct Eex as (e & He & Hinv).
      assert (Hin : In e (filter (involves (Car.car_id c)) events))
        by (apply filter_In; auto).
      destruct (filter _ _); [destruct Hin|cbn; lia]. }
    destruct Hh as [->|(He & Hf & _)]; [lia|auto].
  - assert (Hlen : length (filter (involves (Car.car_id c)) events) = 0%nat).
    { destruct (filter (involves (Car.car_id c)) events) as [|e l] eqn:Ef; [reflexivity|].
      assert (Hin : In e (filter (involves (Car.car_id c)) events))
        by (rewrite Ef; left; reflexivity).
      apply filter_In in Hin. destruct Hin as [Hin Hinv].
      assert (existsb (involves (Car.car_id c)) events = true)
        by (apply existsb_exists; eauto).
      congruence. }
    destruct Hh as [->|(_ & _ & _ & Hlt)]; [reflexivity|lia].
Qed.

Lemma check_collisions_marks_collided_witness :
  NoDup (map Car.car_id [sample_car 0 0; sample_car 1 1; sample_car 2 9])
  /\ (let '(events, _, cars') :=
        check_collisions (CollisionDetector.mk 2 [])
          [sample_car 0 0; sample_car 1 1; sample_car 2 9] 0 in
      Forall2 (fun c c' =>
                 if existsb (involves (Car.car_id c)) events
                 then Car.collision_flag c' = true /\ Car.eliminated c = false
                 else c' = c)
              [sample_car 0 0; sample_car 1 1; sample_car 2 9] cars').
Proof.
  assert (Hnd : NoDup (map Car.car_id [sample_car 0 0; sample_car 1 1; sample_car 2 9])).
  { cbn. repeat constructor; cbn; intuition lia. }
  split; [exact Hnd|].
  exact (check_collisions_marks_collided (CollisionDetector.mk 2 [])
           [sample_car 0 0; sample_car 1 1; sample_car 2 9] 0 Hnd).
Defined.

(** * Near misses *)

Lemma near_miss_monotone (t1 t2 : R) (car1 car2 : Car.t) :
  t1 <= t2 -> (near_miss t1 car1 car2 <= near_miss t2 car1 car2 <= 1)%nat.
Proof.
  intros Ht. unfold near_miss.
  destruct (Rltb _ 10); [|lia]. cbv zeta.
  destruct (Rltb (1 / 10) _); [|lia].
  destruct (Rltb _ 0); [|lia].
  destruct (Rltb 0 _); cbn [andb]; [|lia].
  match goal with
  | |- context [Rltb ?ttc t1] =>
      destruct (Rltb ttc t1) eqn:E1; destruct (Rltb ttc t2) eqn:E2; try lia
  end.
  apply Rltb_true in E1. apply Rltb_false in E2. lra.
Qed.

Lemma near_miss_nonpositive (t : R) (car1 car2 : Car.t) :
  t <= 0 -> near_miss t car1 car2 = 0%nat.
Proof.
  intros Ht. unfold near_miss.
  destruct (Rltb _ 10); [|reflexivity]. cbv zeta.
  destruct (Rltb (1 / 10) _); [|reflexivity].
  destruct (Rltb _ 0); [|reflexivity].
  match goal with
  | |- context [Rltb 0 ?ttc && Rltb ?ttc t] =>
      destruct (Rltb 0 ttc) eqn:E1; destruct (Rltb ttc t) eqn:E2; try reflexivity
  end.
  apply Rltb_true in E1, E2. lra.
Qed.

Lemma near_miss_row (t1 t2 : R) (car1 : Car.t) (rest : list Car.t) :
  t1 <= t2 ->
  forall n1 n2 : nat,
    (n1 <= n2)%nat ->
    (fold_left (fun n car2 => (n + near_miss t1 car1 car2)%nat) rest n1
     <= fold_left (fun n car2 => (n + near_miss t2 car1 car2)%nat) rest n2
     <= n2 + length rest)%nat.
Proof.
  intros Ht. induction rest as [|c rest IH]; intros n1 n2 Hn; cbn [fold_left length].
  - lia.
  - pose proof (near_miss_monotone t1 t2 car1 c Ht) as Hm.
    specialize (IH (n1 + near_miss t1 car1 c)%nat (n2 + near_miss t2 car1 c)%nat
                  ltac:(lia)).
    lia.
Qed.

Lemma near_miss_row_zero (t : R) (car1 : Car.t) (rest : list Car.t) :
  t <= 0 ->
  forall n : nat, fold_left (fun n car2 => (n + near_miss t car1 car2)%nat) rest n = n.
Proof.
  intros Ht. induction rest as [|c rest IH]; intros n; cbn [fold_left]; [reflexivity|].
  rewrite (near_miss_nonpositive t car1 c Ht), Nat.add_0_r. apply IH.
Qed.

(** The near-miss count of a roster grows with the time-to-contact
    threshold, never exceeds the number of pairs, and is zero for a
    threshold that is not positive. *)
Theorem compute_near_misses_monotone (cars : list Car.t) (t1 t2 : R) :
  t1 <= t2 ->
  (compute_near_misses cars t1 <= compute_near_misses cars t2)%nat
  /\ (2 * compute_near_misses cars t2 <= length cars * (length cars - 1))%nat
  /\ (t2 <= 0 -> compute_near_misses cars t2 = 0%nat).
Proof.
  intros Ht. induction cars as [|c rest (IH1 & IH2 & IH3)]; cbn [compute_near_misses length].
  - repeat split; lia.
  - pose proof (near_miss_row t1 t2 c rest Ht 0 0 (Nat.le_refl _)) as Hrow.
    split; [lia|]. split.
    + replace (S (length rest) - 1)%nat with (length rest) by lia.
      destruct (length rest) as [|m] eqn:El; [lia|].
      replace (S m - 1)%nat with m in IH2 by lia. nia.
    + intros H0. rewrite (near_miss_row_zero t2 c rest H0), (IH3 H0). reflexivity.
Qed.

Lemma compute_near_misses_monotone_witness :
  1 <= 2
  /\ (compute_near_misses [Car.set_velocity (sample_car 0 0) 2; sample_car 1 3] 1
      <= compute_near_misses [Car.set_velocity (sample_car 0 0) 2; sample_car 1 3] 2)%nat
  /\ (2 * compute_near_misses [Car.set_velocity (sample_car 0 0) 2; sample_car 1 3] 2
      <= length [Car.set_velocity (sample_car 0 0) 2; sample_car 1 3]
         * (length [Car.set_velocity (sample_car 0 0) 2; sample_car 1 3] - 1))%nat
  /\ (2 <= 0 ->
      compute_near_misses [Car.set_velocity (sample_car 0 0) 2; sample_car 1 3] 2 = 0%nat).
Proof.
  assert (H : 1 <= 2) by lra.
  split; [exact H|].
  exact (compute_near_misses_monotone
           [Car.set_velocity (sample_car 0 0) 2; sample_car 1 3] 1 2 H).
Defined.

(** * What the per-car loops do to each car *)

Lemma update_cars_driven (track : Track.t) (dt : R) (todo : list Car.t) :
  forall (done : list Car.t) (log : list (option (R * R)))
         (cars' : list Car.t) (log' : list (option (R * R))),
    RacingSimulation.update_cars track dt done todo log = Some (cars', log') ->
    exists todo', cars' = done ++ todo' /\ Forall2 (driven track dt) todo todo'.
Proof.
  induction todo as [|car rest IH]; intros done log cars' log' H;
    cbn [RacingSimulation.update_cars] in H.
  - injection H as <- _. exists []. rewrite app_nil_r. split; [reflexivity|constructor].
  - destruct (Car.eliminated car) eqn:Hel.
    + apply IH in H. destruct H as (todo' & -> & Hrest).
      exists (car :: todo'). rewrite <- app_assoc. split; [reflexivity|].
      constructor; [|exact Hrest]. unfold driven. rewrite Hel. reflexivity.
    + destruct (compute_control _ _ _ _ _) as [[a s] c1] eqn:Hc.
      destruct (update_state _ _ _) as [c3|] eqn:Hu; [|discriminate].
      apply IH in H. destruct H as (todo' & -> & Hrest).
      exists (c3 :: todo'). rewrite <- app_assoc. split; [reflexivity|].
      constructor; [|exact Hrest]. unfold driven. rewrite Hel.
      eexists. cbv zeta. rewrite Hc. exact Hu.
Qed.

Lemma markov_update_cars_driven (config : Config.t) (track : Track.t) (dt : R) (step : nat)
    (todo : list Car.t) :
  forall (done cars' : list Car.t) (g g' : Rng.t),
    MarkovChainSimulation.update_cars config track dt step done todo g = Some (cars', g') ->
    exists todo', cars' = done ++ todo' /\ Forall2 (markov_driven config track dt) todo todo'.
Proof.
  induction todo as [|car rest IH]; intros done cars' g g' H;
    cbn [MarkovChainSimulation.update_cars] in H.
  - injection H as <- _. exists []. rewrite app_nil_r. split; [reflexivity|constructor].
  - destruct (Car.eliminated car) eqn:Hel.
    + apply IH in H. destruct H as (todo' & -> & Hrest).
      exists (car :: todo'). rewrite <- app_assoc. split; [reflexivity|].
      constructor; [|exact Hrest]. unfold markov_driven. rewrite Hel. reflexivity.
    + set (ticked := RacingSimulation.tick_lane_change_timer car dt) in *.
      match type of H with
      | context [if ?b then MarkovChainSimulation._transition_state _ _ _ else _] =>
          destruct (if b then MarkovChainSimulation._transition_state config ticked g
                    else Some (ticked, g)) as [[c1 g1]|] eqn:Htr; [|discriminate];
          assert (H1 : c1 = ticked
                       \/ exists g g',
                            MarkovChainSimulation._transition_state config ticked g
                            = Some (c1, g'));
          [ destruct b; [right; eauto | injection Htr as <- _; left; reflexivity] | ]
      end.
      destruct (Car.eliminated c1) eqn:Hel1.
      * apply IH in H. destruct H as (todo' & -> & Hrest).
        exists (c1 :: todo'). rewrite <- app_assoc. split; [reflexivity|].
        constructor; [|exact Hrest]. unfold markov_driven. rewrite Hel.
        exists c1. split; [exact H1|]. rewrite Hel1. reflexivity.
      * destruct (compute_control _ _ _ _ _) as [[a s] c2] eqn:Hc.
        destruct (update_state _ _ _) as [c3|] eqn:Hu; [|discriminate].
        apply IH in H. destruct H as (todo' & -> & Hrest).
        exists (c3 :: todo'). rewrite <- app_assoc. split; [reflexivity|].
        constructor; [|exact Hrest]. unfold markov_driven. rewrite Hel.
        exists c1. split; [exact H1|]. rewrite Hel1.
        eexists. cbv zeta. rewrite Hc. exact Hu.
Qed.

Lemma des_update_cars_driven (track : Track.t) (dt : R) (positions : list nat)
    (todo : list Car.t) :
  forall (done cars' : list Car.t),
    DiscreteEventSimulation.update_cars track dt positions done todo = Some cars' ->
    exists todo', cars' = done ++ todo' /\ Forall2 (driven track dt) todo todo'.
Proof.
  induction todo as [|car rest IH]; intros done cars' H;
    cbn [DiscreteEventSimulation.update_cars] in H.
  - injection H as <-. exists []. rewrite app_nil_r. split; [reflexivity|constructor].
  - destruct (Car.eliminated car) eqn:Hel.
    + apply IH in H. destruct H as (todo' & -> & Hrest).
      exists (car :: todo'). rewrite <- app_assoc. split; [reflexivity|].
      constructor; [|exact Hrest]. unfold driven. rewrite Hel. reflexivity.
    + destruct (compute_control _ _ _ _ _) as [[a s] c1] eqn:Hc.
      destruct (update_state _ _ _) as [c3|] eqn:Hu; [|discriminate].
      apply IH in H. destruct H as (todo' & -> & Hrest).
      exists (c3 :: todo'). rewrite <- app_assoc. split; [reflexivity|].
      constructor; [|exact Hrest]. unfold driven. rewrite Hel.
      eexists. cbv zeta. rewrite Hc. exact Hu.
Qed.

(** * Speeds stay within the limit over whole runs *)

Lemma compute_control_speed_fields (self : CombinedController.t) (car : Car.t)
    (track : Track.t) (all_cars : list Car.t) (radius : R) :
  let car' := snd (compute_control self car track all_cars radius) in
  Car.desired_speed car' = Car.desired_speed car
  /\ Car.speed_multiplier car' = Car.speed_multiplier car
  /\ Car.velocity car' = Car.velocity car.
Proof.
  cbv zeta. unfold compute_control.
  match goal with
  | |- context [Track.get_target_point ?a ?b ?c ?d] =>
      destruct (Track.get_target_point a b c d)
  end.
  cbn [snd].
  destruct (_decide_lane_change car all_cars); cbn;
    repeat match goal with |- context [Rltb ?a ?b] => destruct (Rltb a b) end;
    repeat split; reflexivity.
Qed.

Lemma update_state_speed_fields (car car' : Car.t) (dt : R) (track : Track.t) :
  update_state car dt track = Some car' ->
  Car.desired_speed car' = Car.desired_speed car
  /\ Car.speed_multiplier car' = Car.speed_multiplier car
  /\ Car.velocity car' = Car.velocity car.
Proof.
  unfold update_state.
  destruct (Track.project_car_position _ _ _); [|discriminate].
  intros H. injection H as <-. cbn.
  repeat match goal with |- context [Rltb ?a ?b] => destruct (Rltb a b) end;
    repeat split; reflexivity.
Qed.

Lemma update_car_dynamics_speed_fields (car : Car.t) (a steer dt : R) :
  let car' := update_car_dynamics car a steer dt in
  Car.desired_speed car' = Car.desired_speed car
  /\ Car.speed_multiplier car' = Car.speed_multiplier car.
Proof.
  cbv zeta. unfold update_car_dynamics. cbn. destruct (Rltb _ _); split; reflexivity.
Qed.







Lemma Forall2_Forall_step {A : Type} (P : A -> Prop) (R : A -> A -> Prop) (l l' : list A) :
  (forall a b, P a -> R a b -> P b) -> Forall2 R l l' -> Forall P l -> Forall P l'.
Proof.
  intros Hstep H. induction H as [|a b l l' Hab Hl IH]; intros HP; [constructor|].
  inversion HP; subst. constructor; eauto.
Qed.










(** * Eliminated cars are frozen *)

Lemma after_update_frozen (self : RacingSimulation.t) (k : nat) (car : Car.t) :
  nth_error (RacingSimulation.cars self) k = Some car ->
  Car.eliminated car = true ->
  let '(new_collisions, detector, cars') :=
    check_collisions (RacingSimulation.collision_detector self)
      (RacingSimulation.cars self) (RacingSimulation.timestamp self) in
  let self := RacingSimulation.set_cars
                (RacingSimulation.set_collision_detector self detector) cars' in
  let self :=
    if RacingSimulation.elimination_enabled self
    then RacingSimulation._check_eliminations self new_collisions else self in
  let self :=
    RacingSimulation.set_near_misses self
      (RacingSimulation.near_misses self
       + compute_near_misses (active_cars (RacingSimulation.cars self))
           (RacingSimulation.ttc_threshold self))%nat in
  nth_error (RacingSimulation.cars (RacingSimulation._log_telemetry self)) k
  = Some (reset_collision_flag car).
Proof.
  intros Hk Hel.
  pose proof (check_collisions_hit_or_same (RacingSimulation.collision_detector self)
                (RacingSimulation.cars self) (RacingSimulation.timestamp self)) as Hhit.
  destruct (check_collisions _ _ _) as [[new det] cars1]. cbn [snd] in Hhit.
  destruct (Forall2_nth_error _ _ _ k car Hhit Hk) as (car1 & Hk1 & Hsame).
  assert (car1 = car) as -> by (destruct Hsame as [->|(He & _)]; [reflexivity|congruence]).
  cbv zeta.
  set (s1 := RacingSimulation.set_cars (RacingSimulation.set_collision_detector self det) cars1).
  assert (H2 : nth_error
                 (RacingSimulation.cars
                    (if RacingSimulation.elimination_enabled s1
                     then RacingSimulation._check_eliminations s1 new else s1)) k
               = Some car).
  { destruct (RacingSimulation.elimination_enabled s1);
      [apply check_eliminations_keeps_eliminated|]; assumption. }
  destruct (if RacingSimulation.elimination_enabled s1
            then RacingSimulation._check_eliminations s1 new else s1) as [].
  cbn in H2 |- *. rewrite nth_error_map, H2. reflexivity.
Qed.

Lemma cycle_frozen (self self' : RacingSimulation.t) (events : list CollisionEvent.t)
    (k : nat) (car : Car.t) :
  nth_error (RacingSimulation.cars self) k = Some car ->
  Car.eliminated car = true ->
  RacingSimulation.cycle self = Some (self', events) ->
  nth_error (RacingSimulation.cars self') k = Some (reset_collision_flag car).
Proof.
  intros Hk Hel. unfold RacingSimulation.cycle.
  destruct (RacingSimulation.update_cars _ _ _ _ _) as [[cars1 log1]|] eqn:Hu; [|discriminate].
  apply update_cars_driven in Hu. destruct Hu as (todo' & -> & Hd). cbn [app] in *.
  destruct (Forall2_nth_error _ _ _ k car Hd Hk) as (car1 & Hk1 & Hdr).
  unfold driven in Hdr. rewrite Hel in Hdr. subst car1.
  pose proof (after_update_frozen (RacingSimulation.set_cars self todo') k car) as Hafter.
  cbn [RacingSimulation.cars RacingSimulation.set_cars] in Hafter.
  specialize (Hafter Hk1 Hel).
  destruct (check_collisions _ _ _) as [[new det] cars2].
  intros Heq. injection Heq as <- _. exact Hafter.
Qed.

Lemma markov_cycle_frozen (self self' : RacingSimulation.t) (step : nat)
    (events : list CollisionEvent.t) (k : nat) (car : Car.t) :
  nth_error (RacingSimulation.cars self) k = Some car ->
  Car.eliminated car = true ->
  MarkovChainSimulation.cycle self step = Some (self', events) ->
  nth_error (RacingSimulation.cars self') k = Some (reset_collision_flag car).
Proof.
  intros Hk Hel. unfold MarkovChainSimulation.cycle.
  destruct (MarkovChainSimulation.update_cars _ _ _ _ _ _ _) as [[cars1 g1]|] eqn:Hu;
    [|discriminate].
  apply markov_update_cars_driven in Hu. destruct Hu as (todo' & -> & Hd). cbn [app] in *.
  destruct (Forall2_nth_error _ _ _ k car Hd Hk) as (car1 & Hk1 & Hdr).
  unfold markov_driven in Hdr. rewrite Hel in Hdr. subst car1.
  pose proof (after_update_frozen
                (RacingSimulation.set_rng (RacingSimulation.set_cars self todo') g1) k car)
    as Hafter.
  cbn [RacingSimulation.cars RacingSimulation.set_cars RacingSimulation.set_rng] in Hafter.
  specialize (Hafter Hk1 Hel).
  destruct (check_collisions _ _ _) as [[new det] cars2].
  intros Heq. injection Heq as <- _. exact Hafter.
Qed.

(** An eliminated car stays in the roster at its position and is never
    moved again: through any run of the fixed-timestep scheduler or of the
    Markov layer it keeps every field, apart from the collision flag that
    the telemetry hook clears. *)
Theorem eliminated_car_is_frozen (self : RacingSimulation.t) (step remaining : nat)
    (acc : list CollisionEvent.t) (k : nat) (car : Car.t) :
  nth_error (RacingSimulation.cars self) k = Some car ->
  Car.eliminated car = true ->
  (forall self' events,
      RacingSimulation.run_from self acc step remaining = Some (self', events) ->
      nth_error (RacingSimulation.cars self') k = Some car
      \/ nth_error (RacingSimulation.cars self') k = Some (reset_collision_flag car))
  /\ (forall self' events,
         MarkovChainSimulation.run_from self acc step remaining = Some (self', events) ->
         nth_error (RacingSimulation.cars self') k = Some car
         \/ nth_error (RacingSimulation.cars self') k = Some (reset_collision_flag car)).
Proof.
  intros Hk Hel. split.
  - revert self step acc car Hk Hel.
    induction remaining as [|remaining IH]; intros self step acc car Hk Hel self' events Hrun;
      cbn [RacingSimulation.run_from] in Hrun.
    + injection Hrun as <- _. left. exact Hk.
    + cbn [RacingSimulation.cars RacingSimulation.set_timestamp] in Hrun.
      destruct (length _ =? 0)%nat; [injection Hrun as <- _; left; exact Hk|].
      destruct (RacingSimulation.all_finished _); [injection Hrun as <- _; left; exact Hk|].
      destruct (RacingSimulation.cycle _) as [[self1 new]|] eqn:Hc; [|discriminate].
      apply (cycle_frozen _ _ _ k car) in Hc; [|exact Hk|exact Hel].
      destruct (IH _ _ _ _ Hc Hel _ _ Hrun) as [H|H]; right; exact H.
  - revert self step acc car Hk Hel.
    induction remaining as [|remaining IH]; intros self step acc car Hk Hel self' events Hrun;
      cbn [MarkovChainSimulation.run_from] in Hrun.
    + injection Hrun as <- _. left. exact Hk.
    + cbn [RacingSimulation.cars RacingSimulation.set_timestamp] in Hrun.
      destruct (length _ =? 0)%nat; [injection Hrun as <- _; left; exact Hk|].
      destruct (RacingSimulation.all_finished _); [injection Hrun as <- _; left; exact Hk|].
      destruct (MarkovChainSimulation.cycle _ _) as [[self1 new]|] eqn:Hc; [|discriminate].
      apply (markov_cycle_frozen _ _ _ _ k car) in Hc; [|exact Hk|exact Hel].
      destruct (IH _ _ _ _ Hc Hel _ _ Hrun) as [H|H]; right; exact H.
Qed.

Lemma eliminated_car_is_frozen_witness :
  exists track : Track.t,
    let wreck := Car.set_eliminated (sample_car 1 5) true in
    let self :=
      RacingSimulation.init (sample_config 2 true) track [sample_car 0 0; wreck]
        (Rng.mk (fun _ => 1%Z) (fun _ => 99 / 100) 0) in
    nth_error (RacingSimulation.cars self) 1 = Some wreck
    /\ Car.eliminated wreck = true
    /\ (forall self' events,
           RacingSimulation.run_from self [] 0 20 = Some (self', events) ->
           nth_error (RacingSimulation.cars self') 1 = Some wreck
           \/ nth_error (RacingSimulation.cars self') 1 = Some (reset_collision_flag wreck))
    /\ (forall self' events,
           MarkovChainSimulation.run_from self [] 0 20 = Some (self', events) ->
           nth_error (RacingSimulation.cars self') 1 = Some wreck
           \/ nth_error (RacingSimulation.cars self') 1 = Some (reset_collision_flag wreck)).
Proof.
  destruct (straight_track_built 12 ltac:(lia)) as (track & _).
  exists track. cbv zeta. split; [reflexivity|]. split; [reflexivity|].
  exact (eliminated_car_is_frozen
           (RacingSimulation.init (sample_config 2 true) track
              [sample_car 0 0; Car.set_eliminated (sample_car 1 5) true]
              (Rng.mk (fun _ => 1%Z) (fun _ => 99 / 100) 0)) 0 20 [] 1
           (Car.set_eliminated (sample_car 1 5) true) eq_refl eq_refl).
Defined.

(** * The list of eliminated cars *)

Lemma keeps_elimination_refl (c : Car.t) : keeps_elimination c c.
Proof. split; [reflexivity|intros _; reflexivity]. Qed.

Lemma drive_step_keeps_record (track : Track.t) (dt : R) (c c' : Car.t) :
  drive_step track dt c c' -> elimination_record c' = elimination_record c.
Proof.
  intros (all_cars & Hu). cbv zeta in Hu.
  apply update_state_record in Hu. rewrite Hu, update_car_dynamics_record.
  apply compute_control_record.
Qed.

Lemma driven_keeps (track : Track.t) (dt : R) (c c' : Car.t) :
  driven track dt c c' -> keeps_elimination c c'.
Proof.
  unfold driven. destruct (Car.eliminated c) eqn:Hel.
  - intros ->. apply keeps_elimination_refl.
  - intros Hd. apply drive_step_keeps_record in Hd.
    rewrite tick_lane_change_timer_record in Hd.
    split; [exact Hd|]. intros H. congruence.
Qed.

Lemma hit_or_same_keeps (c c' : Car.t) : hit_or_same c c' -> keeps_elimination c c'.
Proof.
  intros [->|(Hel & _ & Hs & _)]; [apply keeps_elimination_refl|].
  split; [apply stats_only_elimination_record; exact Hs|]. intros H. congruence.
Qed.

Lemma reset_collision_flag_keeps (c : Car.t) : keeps_elimination c (reset_collision_flag c).
Proof. split; [reflexivity|intros _; reflexivity]. Qed.

Lemma keeps_elimination_flag (c c' : Car.t) :
  keeps_elimination c c' -> Car.eliminated c' = Car.eliminated c.
Proof. intros [H _]. unfold elimination_record in H. congruence. Qed.

Lemma Forall2_nth_error_rev {A : Type} (R : A -> A -> Prop) (l l' : list A) (k : nat) (a' : A) :
  Forall2 R l l' -> nth_error l' k = Some a' ->
  exists a, nth_error l k = Some a /\ R a a'.
Proof.
  intros H. revert k. induction H as [|x y l l' Hxy Hl IH]; intros [|k] Hk;
    cbn [nth_error] in *; try discriminate.
  - injection Hk as <-. eauto.
  - apply IH. exact Hk.
Qed.

Lemma positions_listed_keeps (elim : list nat) (cars cars' : list Car.t) :
  Forall2 keeps_elimination cars cars' ->
  positions_listed elim cars -> positions_listed elim cars'.
Proof.
  intros Hk [Hnd Hiff]. split; [exact Hnd|]. intros k. rewrite Hiff. split.
  - intros (car & Hcar & Hel).
    destruct (Forall2_nth_error _ _ _ k car Hk Hcar) as (car' & Hcar' & Hkeep).
    exists car'. split; [exact Hcar'|].
    rewrite (keeps_elimination_flag _ _ Hkeep). exact Hel.
  - intros (car' & Hcar' & Hel).
    destruct (Forall2_nth_error_rev _ _ _ k car' Hk Hcar') as (car & Hcar & Hkeep).
    exists car. split; [exact Hcar|].
    rewrite <- (keeps_elimination_flag _ _ Hkeep). exact Hel.
Qed.

Lemma stopped_by_collision_keeps (c c' : Car.t) :
  stopped_by_collision c -> keeps_elimination c c' -> stopped_by_collision c'.
Proof.
  intros Hs [Hrec Hv] Hel. unfold elimination_record in Hrec.
  injection Hrec as Hr1 Hr2 Hr3.
  assert (Hel0 : Car.eliminated c = true) by congruence.
  destruct (Hs Hel0) as (Hv0 & t & roll & thr & Ht & Hreason & Hlt).
  split; [rewrite (Hv Hel0); exact Hv0|].
  exists t, roll, thr. repeat split; congruence.
Qed.

Lemma nth_error_list_set {A : Type} (l : list A) (i k : nat) (v : A) :
  nth_error (list_set l i v) k
  = if (i =? k)%nat then option_map (fun _ => v) (nth_error l k) else nth_error l k.
Proof.
  revert i k. induction l as [|a l IH]; intros [|i] [|k]; cbn [list_set nth_error Nat.eqb];
    try reflexivity.
  - destruct (_ =? _)%nat; reflexivity.
  - apply IH.
Qed.

Lemma roll_elimination_listed (self : RacingSimulation.t) (found : option nat) :
  eliminated_positions_listed self ->
  Forall stopped_by_collision (RacingSimulation.cars self) ->
  eliminated_positions_listed (RacingSimulation.roll_elimination self found)
  /\ Forall stopped_by_collision
       (RacingSimulation.cars (RacingSimulation.roll_elimination self found)).
Proof.
  intros Hlisted Hstopped. unfold RacingSimulation.roll_elimination.
  destruct found as [i|]; [|split; assumption].
  destruct (nth_error (RacingSimulation.cars self) i) as [c|] eqn:Hi; [|split; assumption].
  destruct (Car.eliminated c) eqn:Hc; [split; assumption|].
  destruct (Rng.randint (RacingSimulation.rng self)) as [roll g].
  cbn [RacingSimulation.set_rng RacingSimulation.elimination_chance RacingSimulation.timestamp].
  destruct (roll <? _)%Z eqn:Eroll; [|destruct self; split; assumption].
  apply Z.ltb_lt in Eroll.
  unfold eliminated_positions_listed in *.
  sim_cbn.
  destruct Hlisted as [Hnd Hiff]. split; [split|].
  - assert (Hnot : ~ In i (RacingSimulation.eliminated_cars self)).
    { intros Hin. apply Hiff in Hin. destruct Hin as (car & Hcar & Hel). congruence. }
    apply NoDup_app; [exact Hnd|repeat constructor; intros []|].
    intros x Hx [<-|[]]. exact (Hnot Hx).
  - intros k. rewrite in_app_iff, Hiff, nth_error_list_set. cbn [In].
    destruct (Nat.eqb_spec i k) as [->|Hne].
    + rewrite Hi. cbn [option_map]. split.
      * intros _. eexists. split; reflexivity.
      * intros _. right. left. reflexivity.
    + split.
      * intros [H|[H|[]]]; [exact H|contradiction].
      * intros H. left. exact H.
  - apply list_set_Forall; [exact Hstopped|].
    intros _. split; [reflexivity|].
    exists (RacingSimulation.timestamp self), roll, (RacingSimulation.elimination_chance self).
    repeat split. exact Eroll.
Qed.

Lemma check_eliminations_listed (events : list CollisionEvent.t) :
  forall self : RacingSimulation.t,
    eliminated_positions_listed self ->
    Forall stopped_by_collision (RacingSimulation.cars self) ->
    eliminated_positions_listed (RacingSimulation._check_eliminations self events)
    /\ Forall stopped_by_collision
         (RacingSimulation.cars (RacingSimulation._check_eliminations self events)).
Proof.
  unfold RacingSimulation._check_eliminations.
  induction events as [|e events IH]; intros self H1 H2; [split; assumption|].
  cbn [fold_left].
  destruct (roll_elimination_listed self
              (find_car (RacingSimulation.cars self) (CollisionEvent.car_id1 e)) H1 H2)
    as [H3 H4].
  match goal with
  | |- context [RacingSimulation.roll_elimination ?s ?f] =>
      match s with
      | RacingSimulation.roll_elimination _ _ =>
          destruct (roll_elimination_listed s f H3 H4) as [H5 H6]
      end
  end.
  apply IH; assumption.
Qed.

Lemma cycle_listed (self self' : RacingSimulation.t) (events : list CollisionEvent.t) :
  eliminated_positions_listed self ->
  Forall stopped_by_collision (RacingSimulation.cars self) ->
  RacingSimulation.cycle self = Some (self', events) ->
  eliminated_positions_listed self'
  /\ Forall stopped_by_collision (RacingSimulation.cars self').
Proof.
  intros Hl Hs. unfold RacingSimulation.cycle.
  destruct (RacingSimulation.update_cars _ _ _ _ _) as [[cars1 log1]|] eqn:Hu; [|discriminate].
  apply update_cars_driven in Hu. destruct Hu as (todo' & -> & Hd). cbn [app] in *.
  assert (Hk1 : Forall2 keeps_elimination (RacingSimulation.cars self) todo').
  { eapply Forall2_impl; [|exact Hd]. intros a b. apply driven_keeps. }
  cbn [RacingSimulation.cars RacingSimulation.set_cars
       RacingSimulation.collision_detector RacingSimulation.timestamp].
  pose proof (check_collisions_hit_or_same (RacingSimulation.collision_detector self)
                todo' (RacingSimulation.timestamp self)) as Hhit.
  destruct (check_collisions _ _ _) as [[new det] cars2]. cbn [snd] in Hhit.
  assert (Hk2 : Forall2 keeps_elimination todo' cars2).
  { eapply Forall2_impl; [|exact Hhit]. intros a b. apply hit_or_same_keeps. }
  set (s2 := RacingSimulation.set_cars
               (RacingSimulation.set_collision_detector
                  (RacingSimulation.set_cars self todo') det) cars2).
  assert (Hl2 : eliminated_positions_listed s2).
  { unfold eliminated_positions_listed in *. subst s2. destruct self. cbn in *.
    eapply positions_listed_keeps; [exact Hk2|].
    eapply positions_listed_keeps; [exact Hk1|]. exact Hl. }
  assert (Hs2 : Forall stopped_by_collision (RacingSimulation.cars s2)).
  { subst s2. destruct self. cbn in *.
    eapply Forall2_Forall_step; [|exact Hk2|].
    - intros a b. apply stopped_by_collision_keeps.
    - eapply Forall2_Forall_step; [|exact Hk1|exact Hs].
      intros a b. apply stopped_by_collision_keeps. }
  assert (H3 : eliminated_positions_listed
                 (if RacingSimulation.elimination_enabled s2
                  then RacingSimulation._check_eliminations s2 new else s2)
               /\ Forall stopped_by_collision
                    (RacingSimulation.cars
                       (if RacingSimulation.elimination_enabled s2
                        then RacingSimulation._check_eliminations s2 new else s2))).
  { destruct (RacingSimulation.elimination_enabled s2);
      [apply check_eliminations_listed|split]; assumption. }
  destruct (if RacingSimulation.elimination_enabled s2
            then RacingSimulation._check_eliminations s2 new else s2) as [].
  intros Heq. injection Heq as <- _.
  unfold eliminated_positions_listed in *. cbn in H3 |- *. destruct H3 as [H3 H4].
  assert (Hk3 : Forall2 keeps_elimination cars (map reset_collision_flag cars)).
  { clear. induction cars; constructor; [apply reset_collision_flag_keeps|assumption]. }
  split.
  - eapply positions_listed_keeps; eassumption.
  - eapply Forall2_Forall_step; [|exact Hk3|exact H4].
    intros a b. apply stopped_by_collision_keeps.
Qed.

(** In the fixed-timestep scheduler, started with no car eliminated, the
    list [eliminated_cars] holds exactly the roster positions of the
    eliminated cars, each once, at the end of any number of cycles; and
    every eliminated car stands still, with an elimination time and a roll
    below the threshold recorded. *)
Theorem eliminated_cars_lists_the_eliminated
    (config : Config.t) (track : Track.t) (cars : list Car.t) (rng : Rng.t) :
  Forall (fun c => Car.eliminated c = false) cars ->
  forall (cycles : nat) (self' : RacingSimulation.t) (events : list CollisionEvent.t),
    RacingSimulation.run_from (RacingSimulation.init config track cars rng) [] 0 cycles
    = Some (self', events) ->
    NoDup (RacingSimulation.eliminated_cars self')
    /\ (forall k : nat,
           In k (RacingSimulation.eliminated_cars self')
           <-> exists car, nth_error (RacingSimulation.cars self') k = Some car
                           /\ Car.eliminated car = true)
    /\ length (RacingSimulation.eliminated_cars self')
       = length (filter Car.eliminated (RacingSimulation.cars self'))
    /\ Forall stopped_by_collision (RacingSimulation.cars self').
Proof.
  intros Hactive cycles self' events Hrun.
  assert (H0 : eliminated_positions_listed (RacingSimulation.init config track cars rng)
               /\ Forall stopped_by_collision
                    (RacingSimulation.cars (RacingSimulation.init config track cars rng))).
  { unfold eliminated_positions_listed. cbn. split; [split; [constructor|]|].
    - intros k. split; [intros []|]. intros (car & Hcar & Hel).
      apply nth_error_In in Hcar. rewrite Forall_forall in Hactive.
      rewrite (Hactive _ Hcar) in Hel. discriminate.
    - eapply Forall_impl; [|exact Hactive]. intros c Hc Hel. congruence. }
  assert (Hgen : eliminated_positions_listed self'
                 /\ Forall stopped_by_collision (RacingSimulation.cars self')).
  { revert Hrun H0. generalize (RacingSimulation.init config track cars rng) as self.
    generalize (@nil CollisionEvent.t) as acc. generalize 0%nat as step.
    induction cycles as [|cycles IH]; intros step acc self Hrun [Hl Hs];
      cbn [RacingSimulation.run_from] in Hrun.
    - injection Hrun as <- _. split; assumption.
    - assert (Hts : eliminated_positions_listed
                      (RacingSimulation.set_timestamp self
                         (INR step * RacingSimulation.dt self))
                    /\ Forall stopped_by_collision
                         (RacingSimulation.cars
                            (RacingSimulation.set_timestamp self
                               (INR step * RacingSimulation.dt self)))).
      { destruct self. split; assumption. }
      cbn [RacingSimulation.cars RacingSimulation.set_timestamp] in Hrun.
      destruct (length _ =? 0)%nat; [injection Hrun as <- _; exact Hts|].
      destruct (RacingSimulation.all_finished _); [injection Hrun as <- _; exact Hts|].
      destruct (RacingSimulation.cycle _) as [[self1 new]|] eqn:Hc; [|discriminate].
      apply cycle_listed in Hc; [|exact (proj1 Hts)|exact (proj2 Hts)].
      exact (IH _ _ _ Hrun Hc). }
  destruct Hgen as [[Hnd Hiff] Hs]. split; [exact Hnd|]. split; [exact Hiff|].
  split; [|exact Hs].
  clear - Hnd Hiff. revert Hnd Hiff.
  generalize (RacingSimulation.eliminated_cars self') as elim.
  generalize (RacingSimulation.cars self') as roster. clear self'.
  induction roster as [|c roster IH] using rev_ind; intros elim Hnd Hiff.
  - destruct elim as [|k elim]; [reflexivity|].
    destruct (proj1 (Hiff k) (or_introl eq_refl)) as (car & Hcar & _).
    destruct k; discriminate.
  - rewrite filter_app, length_app. cbn [filter].
    destruct (Car.eliminated c) eqn:Hc.
    + assert (Hin : In (length roster) elim).
      { apply Hiff. exists c. split; [|exact Hc].
        rewrite nth_error_app2, Nat.sub_diag by lia. reflexivity. }
      apply in_split in Hin. destruct Hin as (e1 & e2 & ->).
      apply NoDup_remove in Hnd. destruct Hnd as [Hnd Hnot].
      rewrite length_app. cbn [length].
      rewrite <- (IH (e1 ++ e2) Hnd); [rewrite length_app; lia|].
      intros k. split.
      * intros Hk. assert (Hk' : In k (e1 ++ length roster :: e2)).
        { apply in_app_iff in Hk. apply in_app_iff. cbn [In]. tauto. }
        apply Hiff in Hk'. destruct Hk' as (car & Hcar & Hel).
        assert (Hne : k <> length roster) by (intros ->; exact (Hnot Hk)).
        assert (Hlt : (k < length (roster ++ [c]))%nat)
          by (apply nth_error_Some; congruence).
        rewrite length_app in Hlt. cbn [length] in Hlt.
        rewrite nth_error_app1 in Hcar by lia. eauto.
      * intros (car & Hcar & Hel).
        assert (Hlt : (k < length roster)%nat) by (apply nth_error_Some; congruence).
        assert (Hk' : In k (e1 ++ length roster :: e2)).
        { apply Hiff. exists car. rewrite nth_error_app1 by lia. auto. }
        apply in_app_iff in Hk'. apply in_app_iff. cbn [In] in Hk'.
        destruct Hk' as [H|[H|H]]; [tauto|lia|tauto].
    + cbn [length]. rewrite Nat.add_0_r. apply IH; [exact Hnd|].
      intros k. rewrite Hiff. split.
      * intros (car & Hcar & Hel).
        assert (Hlt : (k < length (roster ++ [c]))%nat)
          by (apply nth_error_Some; congruence).
        rewrite length_app in Hlt. cbn [length] in Hlt.
        destruct (Nat.eq_dec k (length roster)) as [->|Hne].
        -- rewrite nth_error_app2, Nat.sub_diag in Hcar by lia.
           injection Hcar as <-. congruence.
        -- rewrite nth_error_app1 in Hcar by lia. eauto.
      * intros (car & Hcar & Hel).
        assert (Hlt : (k < length roster)%nat) by (apply nth_error_Some; congruence).
        exists car. rewrite nth_error_app1 by lia. auto.
Qed.

Lemma eliminated_cars_lists_the_eliminated_witness :
  exists track : Track.t,
    Forall (fun c => Car.eliminated c = false) [sample_car 0 0; sample_car 1 1]
    /\ forall (cycles : nat) (self' : RacingSimulation.t) (events : list CollisionEvent.t),
         RacingSimulation.run_from
           (RacingSimulation.init (sample_config 2 true) track
              [sample_car 0 0; sample_car 1 1] (Rng.mk (fun _ => 1%Z) (fun _ => 0) 0))
           [] 0 cycles
         = Some (self', events) ->
         NoDup (RacingSimulation.eliminated_cars self')
         /\ (forall k : nat,
                In k (RacingSimulation.eliminated_cars self')
                <-> exists car, nth_error (RacingSimulation.cars self') k = Some car
                                /\ Car.eliminated car = true)
         /\ length (RacingSimulation.eliminated_cars self')
            = length (filter Car.eliminated (RacingSimulation.cars self'))
         /\ Forall stopped_by_collision (RacingSimulation.cars self').
Proof.
  destruct (straight_track_built 12 ltac:(lia)) as (track & _).
  assert (Hactive : Forall (fun c => Car.eliminated c = false)
                      [sample_car 0 0; sample_car 1 1]) by (repeat constructor).
  exists track. split; [exact Hactive|].
  exact (eliminated_cars_lists_the_eliminated (sample_config 2 true) track
           [sample_car 0 0; sample_car 1 1] (Rng.mk (fun _ => 1%Z) (fun _ => 0) 0) Hactive).
Defined.

(** * The transition probabilities of the Markov layer *)

Lemma Rmin_pos (a b : R) : 0 < a -> 0 < b -> 0 < Rmin a b.
Proof. intros Ha Hb. unfold Rmin. destruct (Rle_dec a b); assumption. Qed.

Lemma Rmax_0_nonneg (a : R) : 0 <= Rmax 0 a.
Proof. apply Rmax_l. Qed.

Lemma normalized_distribution (a b c e : R) :
  0 <= a -> 0 < b -> 0 <= c -> 0 < e ->
  let total := np_sum [a; b; c; e] in
  0 < total
  /\ 0 <= a / total /\ 0 < b / total /\ 0 <= c / total /\ 0 < e / total
  /\ np_sum [a / total; b / total; c / total; e / total] = 1.
Proof.
  intros Ha Hb Hc He total. subst total. unfold np_sum. cbn [fold_left].
  set (t := 0 + a + b + c + e). assert (Ht : 0 < t) by (unfold t; lra).
  split; [exact Ht|].
  assert (Hinv : 0 < / t) by (apply Rinv_0_lt_compat; exact Ht).
  unfold Rdiv. repeat split; try nra.
  replace (0 + a * / t + b * / t + c * / t + e * / t) with (t * / t) by (unfold t; ring).
  apply Rinv_r. lra.
Qed.

Lemma transition_probabilities_normalized (car : Car.t) :
  Car.strategy_type car <> Strategy.eliminated ->
  exists p : TransitionProbs.t,
    MarkovChainSimulation._update_transition_probabilities car = Some p
    /\ 0 <= TransitionProbs.aggressive p /\ 0 < TransitionProbs.balanced p
    /\ 0 <= TransitionProbs.cautious p /\ 0 < TransitionProbs.eliminated p
    /\ np_sum (TransitionProbs.values p) = 1.
Proof.
  intros Hne. unfold MarkovChainSimulation._update_transition_probabilities.
  assert (Hbase : let p := MarkovChainSimulation.base_transition_matrix
                             (Car.strategy_type car) in
                  0 < TransitionProbs.aggressive p /\ 0 < TransitionProbs.balanced p
                  /\ 0 < TransitionProbs.cautious p /\ 0 < TransitionProbs.eliminated p).
  { destruct (Car.strategy_type car); cbn; try lra. contradiction. }
  replace (Strategy.eqb (Car.strategy_type car) Strategy.eliminated) with false
    by (destruct (Car.strategy_type car); try reflexivity; contradiction).
  cbv zeta in Hbase |- *.
  set (p0 := MarkovChainSimulation.base_transition_matrix (Car.strategy_type car)) in *.
  destruct Hbase as (Ha & Hb & Hc & He).
  match goal with
  | |- context [np_sum (TransitionProbs.values ?q)] => set (p := q)
  end.
  assert (Hp : 0 <= TransitionProbs.aggressive p /\ 0 < TransitionProbs.balanced p
               /\ 0 <= TransitionProbs.cautious p /\ 0 < TransitionProbs.eliminated p).
  { subst p. destruct (Rltb (1 / 2) _); [|destruct (_ && _)]; cbn.
    - repeat split; [apply Rmax_0_nonneg|exact Hb| |];
        [apply Rlt_le|]; apply Rmin_pos; lra.
    - repeat split; [apply Rlt_le; apply Rmin_pos; lra|exact Hb|lra|].
      apply Rlt_le_trans with (TransitionProbs.eliminated p0 * (1 / 2)); [lra|apply Rmax_r].
    - repeat split; lra. }
  destruct Hp as (Hpa & Hpb & Hpc & Hpe).
  destruct (normalized_distribution _ _ _ _ Hpa Hpb Hpc Hpe)
    as (Ht & Hna & Hnb & Hnc & Hne' & Hsum).
  unfold TransitionProbs.values at 1.
  rewrite (proj2 (Rltb_true 0 _) Ht).
  eexists. split; [reflexivity|].
  unfold TransitionProbs.values.
  cbn [TransitionProbs.aggressive TransitionProbs.balanced TransitionProbs.cautious
       TransitionProbs.eliminated].
  repeat split; assumption.
Qed.

(** For every car whose strategy is not [eliminated], the transition
    probabilities are a probability distribution over the four states:
    non-negative, summing to one; the balanced state and elimination always
    have positive probability. *)
Theorem _update_transition_probabilities_distribution (car : Car.t) :
  Car.strategy_type car <> Strategy.eliminated ->
  exists p : TransitionProbs.t,
    MarkovChainSimulation._update_transition_probabilities car = Some p
    /\ 0 <= TransitionProbs.aggressive p /\ 0 < TransitionProbs.balanced p
    /\ 0 <= TransitionProbs.cautious p /\ 0 < TransitionProbs.eliminated p
    /\ np_sum (TransitionProbs.values p) = 1.
Proof. apply transition_probabilities_normalized. Qed.

Lemma _update_transition_probabilities_distribution_witness :
  Car.strategy_type (sample_car 0 0) <> Strategy.eliminated
  /\ exists p : TransitionProbs.t,
       MarkovChainSimulation._update_transition_probabilities (sample_car 0 0) = Some p
       /\ 0 <= TransitionProbs.aggressive p /\ 0 < TransitionProbs.balanced p
       /\ 0 <= TransitionProbs.cautious p /\ 0 < TransitionProbs.eliminated p
       /\ np_sum (TransitionProbs.values p) = 1.
Proof.
  assert (H : Car.strategy_type (sample_car 0 0) <> Strategy.eliminated) by discriminate.
  split; [exact H|].
  exact (_update_transition_probabilities_distribution (sample_car 0 0) H).
Defined.

(** * One strategy transition *)

Lemma searchsorted_right_bound (l : list R) (u : R) (k : nat) :
  (k < length l)%nat -> u < nth k l 0 -> (searchsorted_right l u <= k)%nat.
Proof.
  revert k. induction l as [|a l IH]; intros k Hk Hu; cbn [length] in Hk; [lia|].
  cbn [searchsorted_right]. destruct (Rle_dec a u) as [Hle|Hgt]; [|lia].
  destruct k as [|k]; cbn [nth] in Hu; [lra|].
  specialize (IH k ltac:(lia) Hu). lia.
Qed.

Lemma random_choice_total (p : TransitionProbs.t) (g : Rng.t) :
  np_sum (TransitionProbs.values p) = 1 ->
  Rng.random_sample g (Rng.drawn g) < 1 ->
  exists s, MarkovChainSimulation.random_choice TransitionProbs.keys
              (TransitionProbs.values p) g
            = Some (s, snd (Rng.sample g)).
Proof.
  intros Hsum Hu. unfold MarkovChainSimulation.random_choice.
  destruct (Req_dec_T _ 1) as [_|Hne]; [|contradiction].
  unfold Rng.sample. cbn [snd].
  set (u := Rng.random_sample g (Rng.drawn g)) in *.
  match goal with
  | |- context [searchsorted_right ?cdf u] =>
      assert (Hidx : (searchsorted_right cdf u <= 3)%nat);
      [|destruct (searchsorted_right cdf u) as [|[|[|[|n]]]]; try lia; eexists; reflexivity]
  end.
  apply searchsorted_right_bound; [cbn; lia|].
  unfold TransitionProbs.values, np_sum, np_cumsum in *. cbn [fold_left] in Hsum.
  cbn [cumsum_from last map nth]. rewrite Hsum. lra.
Qed.

(** A strategy transition of an active car never raises when the uniform
    sample is below one; it draws one sample, never touches the car's
    desired speed, position or speed, and either leaves the car as it is,
    or flags it eliminated (no time, strategy label unchanged), or moves it
    to another driving strategy with that strategy's speed multiplier, a
    rescaled minimum gap and a controller rebuilt for it. *)
Theorem _transition_state_outcome (config : Config.t) (car : Car.t) (g : Rng.t) :
  Car.eliminated car = false ->
  Car.strategy_type car <> Strategy.eliminated ->
  Rng.random_sample g (Rng.drawn g) < 1 ->
  exists (car' : Car.t) (g' : Rng.t),
    MarkovChainSimulation._transition_state config car g = Some (car', g')
    /\ Rng.drawn g' = S (Rng.drawn g)
    /\ Car.desired_speed car' = Car.desired_speed car
    /\ (Car.car_id car', Car.x car', Car.y car', Car.yaw car', Car.velocity car')
       = (Car.car_id car, Car.x car, Car.y car, Car.yaw car, Car.velocity car)
    /\ (car' = car
        \/ (Car.eliminated car' = true /\ Car.elimination_time car' = None
            /\ Car.elimination_reason car' = Some Markov_Chain_state_transition
            /\ Car.strategy_type car' = Car.strategy_type car
            /\ Car.speed_multiplier car' = Car.speed_multiplier car)
        \/ (Car.eliminated car' = false
            /\ Car.strategy_type car' <> Car.strategy_type car
            /\ Car.strategy_type car' <> Strategy.eliminated
            /\ Car.controller car'
               = CombinedController_init config (Car.strategy_type car')
            /\ Car.speed_multiplier car'
               = match Car.strategy_type car' with
                 | Strategy.aggressive => 12 / 10
                 | Strategy.balanced => 1
                 | _ => 9 / 10
                 end
            /\ Car.min_gap car'
               = match Car.strategy_type car' with
                 | Strategy.aggressive => Car.min_gap car * (8 / 10)
                 | Strategy.balanced => Car.min_gap car
                 | _ => Car.min_gap car * (12 / 10)
                 end)).
Proof.
  intros Hel Hst Hu. unfold MarkovChainSimulation._transition_state. rewrite Hel.
  destruct (transition_probabilities_normalized car Hst) as (p & -> & _ & _ & _ & _ & Hsum).
  destruct (random_choice_total p g Hsum Hu) as (next & ->).
  destruct next; destruct (Car.strategy_type car) eqn:Es; try congruence;
    cbn [Strategy.eqb negb andb]; eexists; eexists;
    (split; [reflexivity|]); (split; [reflexivity|]);
    (split; [reflexivity|]); (split; [reflexivity|]);
    first [ left; reflexivity
          | right; left; cbn; rewrite ?Es; repeat split; (reflexivity || assumption)
          | right; right; cbn; rewrite ?Es; repeat split;
            first [reflexivity | assumption | discriminate] ].
Qed.

Lemma _transition_state_outcome_witness :
  Car.eliminated (sample_car 0 0) = false
  /\ Car.strategy_type (sample_car 0 0) <> Strategy.eliminated
  /\ Rng.random_sample (Rng.mk (fun _ => 1%Z) (fun _ => 99 / 100) 0)
       (Rng.drawn (Rng.mk (fun _ => 1%Z) (fun _ => 99 / 100) 0)) < 1
  /\ exists (car' : Car.t) (g' : Rng.t),
       MarkovChainSimulation._transition_state (sample_config 2 true) (sample_car 0 0)
         (Rng.mk (fun _ => 1%Z) (fun _ => 99 / 100) 0) = Some (car', g')
       /\ Rng.drawn g' = S (Rng.drawn (Rng.mk (fun _ => 1%Z) (fun _ => 99 / 100) 0))
       /\ Car.desired_speed car' = Car.desired_speed (sample_car 0 0)
       /\ (Car.car_id car', Car.x car', Car.y car', Car.yaw car', Car.velocity car')
          = (Car.car_id (sample_car 0 0), Car.x (sample_car 0 0), Car.y (sample_car 0 0),
             Car.yaw (sample_car 0 0), Car.velocity (sample_car 0 0))
       /\ (car' = sample_car 0 0
           \/ (Car.eliminated car' = true /\ Car.elimination_time car' = None
               /\ Car.elimination_reason car' = Some Markov_Chain_state_transition
               /\ Car.strategy_type car' = Car.strategy_type (sample_car 0 0)
               /\ Car.speed_multiplier car' = Car.speed_multiplier (sample_car 0 0))
           \/ (Car.eliminated car' = false
               /\ Car.strategy_type car' <> Car.strategy_type (sample_car 0 0)
               /\ Car.strategy_type car' <> Strategy.eliminated
               /\ Car.controller car'
                  = CombinedController_init (sample_config 2 true) (Car.strategy_type car')
               /\ Car.speed_multiplier car'
                  = match Car.strategy_type car' with
                    | Strategy.aggressive => 12 / 10
                    | Strategy.balanced => 1
                    | _ => 9 / 10
                    end
               /\ Car.min_gap car'
                  = match Car.strategy_type car' with
                    | Strategy.aggressive => Car.min_gap (sample_car 0 0) * (8 / 10)
                    | Strategy.balanced => Car.min_gap (sample_car 0 0)
                    | _ => Car.min_gap (sample_car 0 0) * (12 / 10)
                    end)).
Proof.
  assert (H1 : Car.eliminated (sample_car 0 0) = false) by reflexivity.
  assert (H2 : Car.strategy_type (sample_car 0 0) <> Strategy.eliminated) by discriminate.
  assert (H3 : Rng.random_sample (Rng.mk (fun _ => 1%Z) (fun _ => 99 / 100) 0)
                 (Rng.drawn (Rng.mk (fun _ => 1%Z) (fun _ => 99 / 100) 0)) < 1)
    by (cbn; lra).
  split; [exact H1|]. split; [exact H2|]. split; [exact H3|].
  exact (_transition_state_outcome (sample_config 2 true) (sample_car 0 0)
           (Rng.mk (fun _ => 1%Z) (fun _ => 99 / 100) 0) H1 H2 H3).
Defined.

(** * The event-driven scheduler eliminates nobody *)

Ltac des_cbn_in H :=
  cbn [DiscreteEventSimulation.config DiscreteEventSimulation.event_queue
       DiscreteEventSimulation.current_time DiscreteEventSimulation.track
       DiscreteEventSimulation.cars DiscreteEventSimulation.collision_detector
       DiscreteEventSimulation.target_laps DiscreteEventSimulation.time_limit
       DiscreteEventSimulation.dt DiscreteEventSimulation.collisions
       DiscreteEventSimulation.near_misses DiscreteEventSimulation.eliminated_cars
       DiscreteEventSimulation.rng
       DiscreteEventSimulation.set_event_queue DiscreteEventSimulation.set_current_time
       DiscreteEventSimulation.set_cars DiscreteEventSimulation.set_collision_detector
       DiscreteEventSimulation.set_collisions DiscreteEventSimulation.set_eliminated_cars
       DiscreteEventSimulation.set_rng] in H.

Lemma elimination_state_kept_refl (self : DiscreteEventSimulation.t) :
  elimination_state_kept self self.
Proof. repeat split. Qed.

Lemma elimination_state_kept_trans (a b c : DiscreteEventSimulation.t) :
  elimination_state_kept a b -> elimination_state_kept b c -> elimination_state_kept a c.
Proof.
  intros (H1 & H2 & H3 & H4) (H5 & H6 & H7 & H8). repeat split; congruence.
Qed.

Lemma keeps_elimination_record (c c' : Car.t) :
  keeps_elimination c c' -> elimination_record c' = elimination_record c.
Proof. intros [H _]. exact H. Qed.

Lemma call_handler_periodic_kept (self self' : DiscreteEventSimulation.t) (event : Event.t) :
  is_periodic event = true ->
  DiscreteEventSimulation.call_handler self (Event.handler event) = Some self' ->
  elimination_state_kept self self'.
Proof.
  unfold is_periodic.
  destruct (Event.event_type event), (Event.handler event); try discriminate; intros _;
    cbn [DiscreteEventSimulation.call_handler].
  - unfold DiscreteEventSimulation.update_all_cars.
    destruct (DiscreteEventSimulation.update_cars _ _ _ _ _) as [cars'|] eqn:Hu;
      [|discriminate].
    apply des_update_cars_driven in Hu. destruct Hu as (todo' & -> & Hd). cbn [app].
    intros H. injection H as <-. unfold elimination_state_kept. des_cbn.
    split; [|repeat split].
    apply (Forall2_map_eq elimination_record (driven (DiscreteEventSimulation.track self)
                                                     (DiscreteEventSimulation.dt self)));
      [|exact Hd].
    intros a b Hab. apply keeps_elimination_record. eapply driven_keeps. exact Hab.
  - unfold DiscreteEventSimulation.check_all_collisions.
    pose proof (check_collisions_elimination_record
                  (DiscreteEventSimulation.collision_detector self)
                  (DiscreteEventSimulation.cars self)
                  (DiscreteEventSimulation.current_time self)) as Hrec.
    destruct (check_collisions _ _ _) as [[new det] cars']. cbn [snd] in Hrec.
    intros H. injection H as <-. unfold elimination_state_kept. des_cbn.
    split; [exact Hrec|repeat split].
Qed.

Lemma event_step_kept (self : DiscreteEventSimulation.t) (t : R) :
  periodic_queue self ->
  match DiscreteEventSimulation.event_step self t with
  | DiscreteEventSimulation.Continue self' _ => elimination_state_kept self self'
  | DiscreteEventSimulation.Break self' => elimination_state_kept self self'
  | DiscreteEventSimulation.Raise => True
  end.
Proof.
  intros Hq. unfold DiscreteEventSimulation.event_step.
  destruct (heapq.heappop _ _) as [[event queue]|] eqn:Hpop; [|exact I].
  destruct (heappop_Forall Event.lt _ _ _ _ Hq Hpop) as (Hev & _ & _).
  des_cbn.
  destruct (length _ =? 0)%nat; [repeat split|].
  destruct (forallb _ _); [repeat split|].
  destruct (DiscreteEventSimulation.call_handler _ _) as [self1|] eqn:Hcall; [|exact I].
  apply (call_handler_periodic_kept _ _ _ Hev) in Hcall.
  unfold elimination_state_kept in Hcall. des_cbn_in Hcall.
  destruct Hcall as (H1 & H2 & H3 & H4).
  destruct (Rleb _ _); unfold elimination_state_kept, DiscreteEventSimulation._log_telemetry;
    des_cbn; rewrite ?reset_collision_flag_record; repeat split; assumption.
Qed.

Lemma run_reaches_kept (self self' : DiscreteEventSimulation.t) (t : R) :
  run_reaches self t self' -> periodic_queue self -> elimination_state_kept self self'.
Proof.
  intros H. induction H as [self t|self self' t _ _ Hstep|self self1 self' t t1 _ _ Hstep _ IH];
    intros Hq.
  - apply elimination_state_kept_refl.
  - pose proof (event_step_kept self t Hq) as H. rewrite Hstep in H. exact H.
  - pose proof (event_step_kept self t Hq) as H. rewrite Hstep in H.
    pose proof (event_step_queue self t Hq) as Hq1. rewrite Hstep in Hq1.
    eapply elimination_state_kept_trans; [exact H|]. apply IH. tauto.
Qed.

Lemma process_events_reaches (fuel : nat) :
  forall (self final : DiscreteEventSimulation.t) (t : R),
    DiscreteEventSimulation.process_events fuel self t = Finished final ->
    run_reaches self t final.
Proof.
  induction fuel as [|fuel IH]; intros self final t; cbn [DiscreteEventSimulation.process_events].
  - destruct (DiscreteEventSimulation.event_queue self);
      [intros H; injection H as <-; apply reaches_here|].
    destruct (negb _); [intros H; injection H as <-; apply reaches_here|discriminate].
  - destruct (DiscreteEventSimulation.event_queue self) eqn:Hqueue;
      [intros H; injection H as <-; apply reaches_here|].
    destruct (Rltb _ _) eqn:Et; cbn [negb];
      [|intros H; injection H as <-; apply reaches_here].
    apply Rltb_true in Et.
    destruct (DiscreteEventSimulation.event_step self t) as [self1 t1|self1|] eqn:Hstep;
      [| |discriminate].
    + intros H. apply IH in H.
      eapply reaches_later; [rewrite Hqueue; discriminate|exact Et|exact Hstep|exact H].
    + intros H. injection H as <-.
      eapply reaches_break; [rewrite Hqueue; discriminate|exact Et|exact Hstep].
Qed.

Lemma schedule_all_kept (self : DiscreteEventSimulation.t) :
  elimination_state_kept self (DiscreteEventSimulation.schedule_all self).
Proof.
  unfold DiscreteEventSimulation.schedule_all. cbv zeta.
  apply (fold_left_invariant (elimination_state_kept self)).
  - intros a i Ha. eapply elimination_state_kept_trans; [exact Ha|]. repeat split.
  - apply (fold_left_invariant (elimination_state_kept self)).
    + intros a i Ha. eapply elimination_state_kept_trans; [exact Ha|]. repeat split.
    + apply elimination_state_kept_refl.
Qed.

(** In every state the event-driven [run] passes through, and in the state
    it finishes in, no car's elimination record has changed since the
    start, [eliminated_cars] is empty, the near-miss count is zero and no
    random number has been drawn: whatever the configuration says about
    eliminations, this scheduler neither eliminates cars nor counts near
    misses. *)
Theorem event_driven_run_never_eliminates
    (config : Config.t) (track : Track.t) (cars : list Car.t) (rng : Rng.t)
    (self' : DiscreteEventSimulation.t) :
  run_reaches
    (DiscreteEventSimulation.schedule_all (DiscreteEventSimulation.init config track cars rng))
    0 self'
  \/ DiscreteEventSimulation.run (DiscreteEventSimulation.init config track cars rng)
     = Finished self' ->
  map elimination_record (DiscreteEventSimulation.cars self') = map elimination_record cars
  /\ DiscreteEventSimulation.eliminated_cars self' = []
  /\ DiscreteEventSimulation.near_misses self' = 0%nat
  /\ DiscreteEventSimulation.rng self' = rng.
Proof.
  intros H.
  assert (Hreach : run_reaches
                     (DiscreteEventSimulation.schedule_all
                        (DiscreteEventSimulation.init config track cars rng)) 0 self').
  { destruct H as [H|H]; [exact H|].
    unfold DiscreteEventSimulation.run in H. apply process_events_reaches in H. exact H. }
  pose proof (schedule_all_periodic _ (init_periodic config track cars rng)) as Hq0.
  pose proof (run_reaches_kept _ _ _ Hreach Hq0) as Hkept.
  pose proof (schedule_all_kept (DiscreteEventSimulation.init config track cars rng)) as H0.
  destruct (elimination_state_kept_trans _ _ _ H0 Hkept) as (H1 & H2 & H3 & H4).
  cbn in H1, H2, H3, H4. auto.
Qed.

(** ** States the run reaches on a concrete roster *)

Lemma heappop_nonempty {A : Type} (lt : A -> A -> bool) (heap : list A) :
  heap <> [] -> exists item heap', heapq.heappop lt heap = Some (item, heap').
Proof.
  intros Hne. unfold heapq.heappop.
  destruct (rev heap) as [|lastelt r] eqn:Hrev.
  - exfalso. apply Hne. rewrite <- (rev_involutive heap), Hrev. reflexivity.
  - destruct (removelast heap); eexists _, _; reflexivity.
Qed.

Lemma des_update_cars_total (rx ry w : R) (nl : nat) (cl : list (R * R)) (track : Track.t)
    (dt : R) (positions : list nat) (todo : list Car.t) :
  Track.init rx ry w nl cl = Some track -> (10 <= length cl)%nat ->
  forall done : list Car.t,
  exists cars', DiscreteEventSimulation.update_cars track dt positions done todo = Some cars'.
Proof.
  intros Hinit Hlen.
  induction todo as [|car rest IH]; intros done; cbn [DiscreteEventSimulation.update_cars].
  - eexists. reflexivity.
  - destruct (Car.eliminated car); [apply IH|].
    cbv zeta.
    destruct (compute_control _ _ _ _ _) as [[a s] c].
    destruct (update_state_total rx ry w nl cl track (update_car_dynamics c a s dt) dt
                Hinit Hlen) as (car' & ->).
    apply IH.
Qed.

(** On a track of ten samples or more an iteration that pops a periodic
    event does not raise, and it leaves the track alone. *)
Lemma event_step_completes (rx ry w : R) (nl : nat) (cl : list (R * R))
    (self : DiscreteEventSimulation.t) (t : R) :
  Track.init rx ry w nl cl = Some (DiscreteEventSimulation.track self) ->
  (10 <= length cl)%nat ->
  periodic_queue self ->
  DiscreteEventSimulation.event_queue self <> [] ->
  match DiscreteEventSimulation.event_step self t with
  | DiscreteEventSimulation.Continue self' _ =>
      DiscreteEventSimulation.track self' = DiscreteEventSimulation.track self
  | DiscreteEventSimulation.Break self' => True
  | DiscreteEventSimulation.Raise => False
  end.
Proof.
  intros Hinit Hlen Hq Hne. unfold DiscreteEventSimulation.event_step.
  destruct (heappop_nonempty Event.lt _ Hne) as (event & queue & Hpop). rewrite Hpop.
  destruct (heappop_Forall Event.lt _ _ _ _ Hq Hpop) as (Hev & _ & _).
  des_cbn.
  destruct (length _ =? 0)%nat; [exact I|].
  destruct (forallb _ _); [exact I|].
  unfold is_periodic in Hev.
  destruct (Event.event_type event), (Event.handler event); try discriminate;
    cbn [DiscreteEventSimulation.call_handler].
  - unfold DiscreteEventSimulation.update_all_cars. des_cbn.
    match goal with
    | |- context [DiscreteEventSimulation.update_cars ?tr ?d ?ps ?dn ?td] =>
        destruct (des_update_cars_total rx ry w nl cl tr d ps td Hinit Hlen dn)
          as (cars' & ->)
    end.
    des_cbn. destruct (Rleb _ _); reflexivity.
  - unfold DiscreteEventSimulation.check_all_collisions. des_cbn.
    destruct (check_collisions _ _ _) as [[new det] cars']. des_cbn.
    destruct (Rleb _ _); reflexivity.
Qed.

Lemma process_events_finishes (rx ry w : R) (nl : nat) (cl : list (R * R)) (fuel : nat) :
  forall (self : DiscreteEventSimulation.t) (t : R),
    Track.init rx ry w nl cl = Some (DiscreteEventSimulation.track self) ->
    (10 <= length cl)%nat ->
    periodic_queue self ->
    (length (DiscreteEventSimulation.event_queue self) <= fuel)%nat ->
    exists final, DiscreteEventSimulation.process_events fuel self t = Finished final.
Proof.
  induction fuel as [|fuel IH]; intros self t Hinit Hlen Hq Hfuel;
    cbn [DiscreteEventSimulation.process_events].
  - destruct (DiscreteEventSimulation.event_queue self);
      [eexists; reflexivity|cbn in Hfuel; lia].
  - destruct (DiscreteEventSimulation.event_queue self) eqn:Hqueue; [eexists; reflexivity|].
    destruct (negb _); [eexists; reflexivity|].
    pose proof (event_step_completes rx ry w nl cl self t Hinit Hlen Hq) as Hstep.
    pose proof (event_step_queue self t Hq) as Hstep'.
    destruct (DiscreteEventSimulation.event_step self t) as [self1 t1|self1|].
    + destruct Hstep' as [Hq1 Hl]. apply IH; [|exact Hlen|exact Hq1|].
      * rewrite Hstep; [exact Hinit|rewrite Hqueue; discriminate].
      * rewrite Hqueue in Hl. cbn in Hl, Hfuel. lia.
    + eexists. reflexivity.
    + exfalso. apply Hstep. rewrite Hqueue. discriminate.
Qed.

(** What the scheduling loops leave alone, and how many events they
    queue. *)
Lemma schedule_loop_frame (self : DiscreteEventSimulation.t) (steps : list nat)
    (time_of : nat -> R) (event_type : EventType) (handler : Handler) :
  let self' :=
    fold_left (fun self i =>
                 DiscreteEventSimulation.schedule_event self (time_of i) event_type handler
                   None)
              steps self in
  DiscreteEventSimulation.cars self' = DiscreteEventSimulation.cars self
  /\ DiscreteEventSimulation.track self' = DiscreteEventSimulation.track self
  /\ DiscreteEventSimulation.target_laps self' = DiscreteEventSimulation.target_laps self
  /\ DiscreteEventSimulation.time_limit self' = DiscreteEventSimulation.time_limit self
  /\ DiscreteEventSimulation.current_time self' = DiscreteEventSimulation.current_time self
  /\ length (DiscreteEventSimulation.event_queue self')
     = (length (DiscreteEventSimulation.event_queue self) + length steps)%nat.
Proof.
  cbv zeta. revert self.
  induction steps as [|i steps IH]; intros self; cbn [fold_left].
  - cbn [length]. rewrite Nat.add_0_r. repeat split.
  - destruct (IH (DiscreteEventSimulation.schedule_event self (time_of i) event_type handler
                    None)) as (H1 & H2 & H3 & H4 & H5 & H6).
    rewrite H1, H2, H3, H4, H5, H6.
    unfold DiscreteEventSimulation.schedule_event. des_cbn.
    rewrite heappush_length. cbn [length]. repeat split. lia.
Qed.

Lemma schedule_all_frame (self : DiscreteEventSimulation.t) :
  let self' := DiscreteEventSimulation.schedule_all self in
  DiscreteEventSimulation.cars self' = DiscreteEventSimulation.cars self
  /\ DiscreteEventSimulation.track self' = DiscreteEventSimulation.track self
  /\ DiscreteEventSimulation.target_laps self' = DiscreteEventSimulation.target_laps self
  /\ DiscreteEventSimulation.time_limit self' = DiscreteEventSimulation.time_limit self
  /\ DiscreteEventSimulation.current_time self' = DiscreteEventSimulation.current_time self
  /\ (length (DiscreteEventSimulation.event_queue self)
      + Z.to_nat (py_int (DiscreteEventSimulation.time_limit self / (1 / 10)))
      <= length (DiscreteEventSimulation.event_queue self'))%nat.
Proof.
  cbv zeta. unfold DiscreteEventSimulation.schedule_all. cbv zeta.
  match goal with
  | |- context [fold_left _ ?l2 (fold_left ?g ?l1 self)] =>
      destruct (schedule_loop_frame self l1
                  (fun i => INR i * DiscreteEventSimulation.dt self) update _update_all_cars)
        as (A1 & A2 & A3 & A4 & A5 & A6);
      destruct (schedule_loop_frame (fold_left g l1 self) l2
                  (fun i => INR i * (1 / 10)) collision_check _check_all_collisions)
        as (B1 & B2 & B3 & B4 & B5 & B6)
  end.
  cbv zeta in *.
  rewrite B1, B2, B3, B4, B5, B6, A1, A2, A3, A4, A5, A6.
  rewrite !length_seq, ?A4. repeat split. lia.
Qed.

Lemma event_driven_run_never_eliminates_witness :
  exists (track : Track.t) (self1 final : DiscreteEventSimulation.t) (t1 : R),
    let cars := [Car.set_velocity (sample_car 0 0) 2; sample_car 1 1] in
    let rng := Rng.mk (fun _ => 1%Z) (fun _ => 0) 0 in
    let start := DiscreteEventSimulation.schedule_all
                   (DiscreteEventSimulation.init (sample_config 2 true) track cars rng) in
    (DiscreteEventSimulation.event_step start 0 = DiscreteEventSimulation.Continue self1 t1
     /\ length (DiscreteEventSimulation.event_queue start)
        = S (length (DiscreteEventSimulation.event_queue self1)))
    /\ ((run_reaches start 0 self1
         \/ DiscreteEventSimulation.run
              (DiscreteEventSimulation.init (sample_config 2 true) track cars rng)
            = Finished self1)
        /\ map elimination_record (DiscreteEventSimulation.cars self1)
           = map elimination_record cars
        /\ DiscreteEventSimulation.eliminated_cars self1 = []
        /\ DiscreteEventSimulation.near_misses self1 = 0%nat
        /\ DiscreteEventSimulation.rng self1 = rng)
    /\ ((run_reaches start 0 final
         \/ DiscreteEventSimulation.run
              (DiscreteEventSimulation.init (sample_config 2 true) track cars rng)
            = Finished final)
        /\ map elimination_record (DiscreteEventSimulation.cars final)
           = map elimination_record cars
        /\ DiscreteEventSimulation.eliminated_cars final = []
        /\ DiscreteEventSimulation.near_misses final = 0%nat
        /\ DiscreteEventSimulation.rng final = rng).
Proof.
  destruct (straight_track_built 12 ltac:(lia)) as (track & Ht).
  assert (Hlen : (10 <= length (straight_centerline 12))%nat)
    by (rewrite straight_centerline_length; lia).
  set (cars := [Car.set_velocity (sample_car 0 0) 2; sample_car 1 1]).
  set (rng := Rng.mk (fun _ => 1%Z) (fun _ => 0) 0).
  set (start := DiscreteEventSimulation.schedule_all
                  (DiscreteEventSimulation.init (sample_config 2 true) track cars rng)).
  pose proof (schedule_all_periodic _ (init_periodic (sample_config 2 true) track cars rng))
    as Hq.
  fold start in Hq.
  destruct (schedule_all_frame
              (DiscreteEventSimulation.init (sample_config 2 true) track cars rng))
    as (Hcars & Htrack & Hlaps & Hlimit & Htime & Hqueue).
  fold start in Hcars, Htrack, Hlaps, Hlimit, Htime, Hqueue.
  cbn [DiscreteEventSimulation.init DiscreteEventSimulation.cars DiscreteEventSimulation.track
       DiscreteEventSimulation.target_laps DiscreteEventSimulation.time_limit
       DiscreteEventSimulation.current_time DiscreteEventSimulation.event_queue
       sample_config Config.simulation SimulationConfig.laps SimulationConfig.time_limit
       length Nat.add] in Hcars, Htrack, Hlaps, Hlimit, Htime, Hqueue.
  rewrite py_int_20 in Hqueue.
  assert (Hne : DiscreteEventSimulation.event_queue start <> []).
  { intros H. rewrite H in Hqueue. cbn in Hqueue. lia. }
  assert (Hinit : Track.init 60 40 12 5 (straight_centerline 12)
                  = Some (DiscreteEventSimulation.track start))
    by (rewrite Htrack; exact Ht).
  (* the first iteration *)
  pose proof (event_step_completes 60 40 12 5 _ start 0 Hinit Hlen Hq Hne) as Hgood.
  pose proof (event_step_queue start 0 Hq) as Hshorter.
  assert (Hfirst : exists self1 t1,
             DiscreteEventSimulation.event_step start 0
             = DiscreteEventSimulation.Continue self1 t1).
  { destruct (DiscreteEventSimulation.event_step start 0) as [self1 t1|self1|] eqn:Hstep;
      [eexists _, _; reflexivity| |destruct Hgood].
    exfalso. unfold DiscreteEventSimulation.event_step in Hstep.
    destruct (heapq.heappop _ _) as [[event queue]|]; [|discriminate].
    revert Hstep. des_cbn. rewrite Hcars, Hlaps.
    cbn [cars active_cars filter is_active negb sample_car Car_init Car.eliminated
         Car.set_velocity length Nat.eqb forallb Car.lap_count Nat.leb andb].
    destruct (DiscreteEventSimulation.call_handler _ _); [|discriminate].
    destruct (Rleb _ _); discriminate. }
  destruct Hfirst as (self1 & t1 & Hstep). rewrite Hstep in Hshorter.
  destruct Hshorter as [_ Hshorter].
  (* the whole run *)
  destruct (process_events_finishes 60 40 12 5 _
              (length (DiscreteEventSimulation.event_queue start)) start 0
              Hinit Hlen Hq (le_n _)) as (final & Hfinal).
  assert (Hrun : DiscreteEventSimulation.run
                   (DiscreteEventSimulation.init (sample_config 2 true) track cars rng)
                 = Finished final) by exact Hfinal.
  assert (Hreach : run_reaches start 0 self1).
  { eapply reaches_later; [exact Hne| |exact Hstep|apply reaches_here].
    rewrite Htime, Hlimit. lra. }
  exists track, self1, final, t1. cbv zeta. fold cars rng start.
  split; [split; [exact Hstep|exact Hshorter]|].
  split.
  - split; [left; exact Hreach|].
    exact (event_driven_run_never_eliminates (sample_config 2 true) track cars rng self1
             (or_introl Hreach)).
  - split; [right; exact Hrun|].
    exact (event_driven_run_never_eliminates (sample_config 2 true) track cars rng final
             (or_intror Hrun)).
Defined.

(** * Geometry of a constructed track *)

(** The arc lengths of a constructed track: one per centerline sample,
    starting at zero, each step the distance between consecutive samples,
    hence non-decreasing; [total_length] is the arc length of the last
    sample, the closing segment back to the first sample not counted. *)
Theorem arc_lengths_cumulative
    (rx ry w : R) (nl : nat) (cl : list (R * R)) (t : Track.t) :
  Track.init rx ry w nl cl = Some t ->
  length (Track.arc_lengths t) = length cl
  /\ arc t 0 = 0
  /\ (forall k, (S k < length cl)%nat ->
        arc t (S k)
        = arc t k + norm2 (fst (nth (S k) cl (0, 0)) - fst (nth k cl (0, 0)))
                          (snd (nth (S k) cl (0, 0)) - snd (nth k cl (0, 0))))
  /\ (forall j k, (j <= k)%nat -> (k < length cl)%nat -> arc t j <= arc t k)
  /\ Track.total_length t = arc t (length cl - 1)
  /\ 0 <= Track.total_length t.
Proof.
  intros Hinit.
  destruct (constructed_lengths rx ry w nl cl t Hinit) as (Hn & _ & _ & Hal).
  split; [exact Hal|]. split; [exact (arc_0 rx ry w nl cl t Hinit)|]. split; [|split; [|split]].
  - intros k Hk. rewrite (arc_step rx ry w nl cl t Hinit k Hk).
    rewrite !(sample_x_nth rx ry w nl cl t Hinit), !(sample_y_nth rx ry w nl cl t Hinit).
    reflexivity.
  - exact (arc_mono rx ry w nl cl t Hinit).
  - exact (total_length_last rx ry w nl cl t Hinit).
  - rewrite (total_length_last rx ry w nl cl t Hinit),
      <- (arc_0 rx ry w nl cl t Hinit).
    apply (arc_mono rx ry w nl cl t Hinit); lia.
Qed.

Lemma arc_lengths_cumulative_witness :
  exists t : Track.t,
    Track.init 60 40 12 5 (straight_centerline 12) = Some t
    /\ length (Track.arc_lengths t) = length (straight_centerline 12)
    /\ arc t 0 = 0
    /\ (forall k, (S k < length (straight_centerline 12))%nat ->
          arc t (S k)
          = arc t k
            + norm2 (fst (nth (S k) (straight_centerline 12) (0, 0))
                     - fst (nth k (straight_centerline 12) (0, 0)))
                    (snd (nth (S k) (straight_centerline 12) (0, 0))
                     - snd (nth k (straight_centerline 12) (0, 0))))
    /\ (forall j k, (j <= k)%nat -> (k < length (straight_centerline 12))%nat ->
          arc t j <= arc t k)
    /\ Track.total_length t = arc t (length (straight_centerline 12) - 1)
    /\ 0 <= Track.total_length t.
Proof.
  destruct (straight_track_built 12 ltac:(lia)) as (t & Ht).
  exists t. split; [exact Ht|].
  exact (arc_lengths_cumulative 60 40 12 5 (straight_centerline 12) t Ht).
Defined.

(** ** The position query is an arc-length parametrization *)

Lemma norm2_scaled (dx dy k : R) : 0 <= k -> norm2 (k * dx) (k * dy) = k * norm2 dx dy.
Proof.
  intros Hk. unfold norm2.
  replace ((k * dx) ^ 2 + (k * dy) ^ 2) with (Rsqr k * (dx ^ 2 + dy ^ 2))
    by (unfold Rsqr; ring).
  rewrite sqrt_mult_alt by apply Rle_0_sqr. rewrite sqrt_Rsqr by exact Hk. reflexivity.
Qed.

(** On a centerline without repeated consecutive samples, for an arc
    length [s] in [[0, total_length)] the centerline point returned for [s]
    lies on the segment between the two samples that bracket [s], at
    distance [s - arc_i] from the first of them. *)
Theorem position_at_unit_speed
    (rx ry w : R) (nl : nat) (cl : list (R * R)) (t : Track.t) (s : R) :
  Track.init rx ry w nl cl = Some t ->
  (forall k, (S k < length cl)%nat -> nth k cl (0, 0) <> nth (S k) cl (0, 0)) ->
  0 <= s < Track.total_length t ->
  exists (i : nat) (u : R),
    (S i < length cl)%nat /\ arc t i <= s <= arc t (S i)
    /\ 0 <= u <= 1
    /\ position_at t s
       = (sample_x t i + u * (sample_x t (S i) - sample_x t i),
          sample_y t i + u * (sample_y t (S i) - sample_y t i))
    /\ norm2 (fst (position_at t s) - sample_x t i) (snd (position_at t s) - sample_y t i)
       = s - arc t i.
Proof.
  intros Hinit Hdistinct Hs.
  destruct (position_at_on_segment rx ry w nl cl t Hinit s Hs) as (i & Hi & Harc & Hpos).
  pose proof (arc_step rx ry w nl cl t Hinit i Hi) as Hstep.
  set (dx := sample_x t (S i) - sample_x t i) in *.
  set (dy := sample_y t (S i) - sample_y t i) in *.
  set (l := arc t (S i) - arc t i) in *.
  assert (Hl : l = norm2 dx dy) by (unfold l; lra).
  pose proof (norm2_nonneg dx dy) as Hnn.
  exists i, ((s - arc t i) / l).
  split; [exact Hi|]. split; [exact Harc|].
  assert (Hnz : l <> 0).
  { intros Hz. assert (Hdxy : dx = 0 /\ dy = 0) by (apply norm2_zero; lra).
    destruct Hdxy as [Hdx Hdy]. apply (Hdistinct i Hi).
    unfold dx, dy in Hdx, Hdy.
    rewrite !(sample_x_nth rx ry w nl cl t Hinit) in Hdx.
    rewrite !(sample_y_nth rx ry w nl cl t Hinit) in Hdy.
    destruct (nth i cl (0, 0)) as [a b], (nth (S i) cl (0, 0)) as [c d].
    cbn [fst snd] in Hdx, Hdy. f_equal; lra. }
  assert (Hlpos : 0 < l) by lra.
  assert (Hu : 0 <= (s - arc t i) / l <= 1).
  { split.
    - apply Rmult_le_pos; [lra|]. apply Rlt_le, Rinv_0_lt_compat. exact Hlpos.
    - apply (Rmult_le_reg_r l); [exact Hlpos|]. unfold Rdiv.
      rewrite Rmult_assoc, Rinv_l by exact Hnz. unfold l. lra. }
  split; [exact Hu|]. rewrite Hpos. cbn [fst snd]. split.
  - apply pair_equal_spec. split; unfold dx, dy; field; exact Hnz.
  - replace (dx / l * (s - arc t i) + sample_x t i - sample_x t i)
      with ((s - arc t i) / l * dx) by (unfold Rdiv; field; exact Hnz).
    replace (dy / l * (s - arc t i) + sample_y t i - sample_y t i)
      with ((s - arc t i) / l * dy) by (unfold Rdiv; field; exact Hnz).
    rewrite norm2_scaled by lra. rewrite <- Hl. unfold Rdiv. field. exact Hnz.
Qed.

Lemma straight_centerline_distinct (n k : nat) :
  (S k < length (straight_centerline n))%nat ->
  nth k (straight_centerline n) (0, 0) <> nth (S k) (straight_centerline n) (0, 0).
Proof.
  rewrite straight_centerline_length. intros Hk.
  rewrite !straight_centerline_nth by lia. intros H.
  assert (H' : INR k = INR (S k)) by congruence.
  apply INR_eq in H'. lia.
Qed.

Lemma position_at_unit_speed_witness :
  exists t : Track.t,
    Track.init 60 40 12 5 (straight_centerline 12) = Some t
    /\ (forall k, (S k < length (straight_centerline 12))%nat ->
          nth k (straight_centerline 12) (0, 0) <> nth (S k) (straight_centerline 12) (0, 0))
    /\ 0 <= 1 / 2 < Track.total_length t
    /\ exists (i : nat) (u : R),
         (S i < length (straight_centerline 12))%nat
         /\ arc t i <= 1 / 2 <= arc t (S i)
         /\ 0 <= u <= 1
         /\ position_at t (1 / 2)
            = (sample_x t i + u * (sample_x t (S i) - sample_x t i),
               sample_y t i + u * (sample_y t (S i) - sample_y t i))
         /\ norm2 (fst (position_at t (1 / 2)) - sample_x t i)
                  (snd (position_at t (1 / 2)) - sample_y t i)
            = 1 / 2 - arc t i.
Proof.
  destruct (straight_track_built 12 ltac:(lia)) as (t & Ht).
  assert (Hs : 0 <= 1 / 2 < Track.total_length t).
  { pose proof (straight_track_total_length 12 t Ht). lra. }
  exists t. split; [exact Ht|].
  split; [exact (straight_centerline_distinct 12)|]. split; [exact Hs|].
  exact (position_at_unit_speed 60 40 12 5 (straight_centerline 12) t (1 / 2) Ht
           (straight_centerline_distinct 12) Hs).
Defined.

(** * Lanes and boundaries *)

Lemma Track_init_lanes (rx ry w : R) (nl : nat) (cl : list (R * R)) (t : Track.t) :
  Track.init rx ry w nl cl = Some t ->
  nl <> 0%nat
  /\ Track.width t = w /\ Track.num_lanes t = nl
  /\ Track.lanes t
     = Track._generate_lanes (map fst cl) (map snd cl) (Track.arc_lengths t) w
         (w / INR nl) nl.
Proof.
  unfold Track.init. destruct (nl =? 0)%nat eqn:Hnl; [discriminate|].
  apply Nat.eqb_neq in Hnl.
  destruct (length cl <? 2)%nat; [discriminate|].
  intros H. injection H as <-. cbn. auto.
Qed.

Lemma nth_error_seq_0 (n k : nat) : (k < n)%nat -> nth_error (seq 0 n) k = Some k.
Proof.
  intros Hk. rewrite (nth_error_nth' _ 0%nat) by (rewrite length_seq; exact Hk).
  rewrite seq_nth by exact Hk. reflexivity.
Qed.

(** Every lane of a constructed track runs between the two boundaries: at
    each centerline sample the lane point divides the segment from the
    inner to the outer boundary point in the ratio
    [(lane_id + 1/2) / num_lanes]. *)
Theorem lanes_between_boundaries
    (rx ry w : R) (nl : nat) (cl : list (R * R)) (t : Track.t) (lane_id k : nat) :
  Track.init rx ry w nl cl = Some t ->
  (lane_id < nl)%nat -> (k < length cl)%nat ->
  let '(inner_x, inner_y, outer_x, outer_y) := get_track_boundaries t in
  let ratio := (INR lane_id + 1 / 2) / INR nl in
  length (Track.lanes t) = nl
  /\ 0 < ratio < 1
  /\ exists lane : Lane.t,
       nth_error (Track.lanes t) lane_id = Some lane
       /\ nth k (Lane.x lane) 0
          = nth k inner_x 0 + ratio * (nth k outer_x 0 - nth k inner_x 0)
       /\ nth k (Lane.y lane) 0
          = nth k inner_y 0 + ratio * (nth k outer_y 0 - nth k inner_y 0).
Proof.
  intros Hinit Hlane Hk.
  destruct (Track_init_lanes rx ry w nl cl t Hinit) as (Hnl & Hw & Hn & Hlanes).
  destruct (Track_init_fields _ _ _ _ _ _ Hinit) as (Hmin & Hcx & Hcy & _).
  unfold get_track_boundaries. rewrite Hcx, Hcy, Hw. cbv zeta.
  assert (HnlR : 0 < INR nl) by (apply lt_0_INR; lia).
  assert (HlaneR : INR lane_id + 1 <= INR nl).
  { rewrite <- S_INR. apply le_INR. lia. }
  pose proof (pos_INR lane_id) as Hl0.
  split; [rewrite Hlanes; unfold Track._generate_lanes; rewrite length_map, length_seq;
          reflexivity|].
  split.
  { split.
    - apply Rdiv_lt_0_compat; lra.
    - apply (Rmult_lt_reg_r (INR nl)); [exact HnlR|]. unfold Rdiv.
      rewrite Rmult_assoc, Rinv_l by lra. lra. }
  exists (Track._generate_lane (map fst cl) (map snd cl) (Track.arc_lengths t) w
            (w / INR nl) lane_id).
  split.
  { rewrite Hlanes. unfold Track._generate_lanes.
    rewrite nth_error_map, (nth_error_seq_0 nl lane_id Hlane). reflexivity. }
  unfold Track._generate_lane. cbn [Lane.x Lane.y].
  set (cx := map fst cl). set (cy := map snd cl).
  assert (Hlcx : length cx = length cl) by (unfold cx; apply length_map).
  assert (Hlcy : length cy = length cl) by (unfold cy; apply length_map).
  set (ds := zip_with norm2 (np_diff cx) (np_diff cy)).
  set (tx := zip_with (fun d s : R => d / (s + 1 / 1000000)) (np_diff cx) ds).
  set (ty := zip_with (fun d s : R => d / (s + 1 / 1000000)) (np_diff cy) ds).
  assert (Hlds : length ds = (length cl - 1)%nat).
  { unfold ds. rewrite zip_with_length, !np_diff_length. lia. }
  assert (Hltx : length tx = (length cl - 1)%nat).
  { unfold tx. rewrite zip_with_length, np_diff_length. lia. }
  assert (Hlty : length ty = (length cl - 1)%nat).
  { unfold ty. rewrite zip_with_length, np_diff_length. lia. }
  set (nx := map Ropp ty ++ [last (map Ropp ty) 0]).
  set (ny := tx ++ [last tx 0]).
  assert (Hlnx : length nx = length cl).
  { unfold nx. rewrite length_app, length_map. cbn [length]. lia. }
  assert (Hlny : length ny = length cl).
  { unfold ny. rewrite length_app. cbn [length]. lia. }
  rewrite !(zip_with_nth _ _ _ k 0 0 0) by lia.
  split; field; lra.
Qed.

Lemma lanes_between_boundaries_witness :
  exists t : Track.t,
    Track.init 60 40 12 5 (straight_centerline 12) = Some t
    /\ (2 < 5)%nat /\ (3 < length (straight_centerline 12))%nat
    /\ (let '(inner_x, inner_y, outer_x, outer_y) := get_track_boundaries t in
        let ratio := (INR 2 + 1 / 2) / INR 5 in
        length (Track.lanes t) = 5%nat
        /\ 0 < ratio < 1
        /\ exists lane : Lane.t,
             nth_error (Track.lanes t) 2 = Some lane
             /\ nth 3 (Lane.x lane) 0
                = nth 3 inner_x 0 + ratio * (nth 3 outer_x 0 - nth 3 inner_x 0)
             /\ nth 3 (Lane.y lane) 0
                = nth 3 inner_y 0 + ratio * (nth 3 outer_y 0 - nth 3 inner_y 0)).
Proof.
  destruct (straight_track_built 12 ltac:(lia)) as (t & Ht).
  assert (H1 : (2 < 5)%nat) by lia.
  assert (H2 : (3 < length (straight_centerline 12))%nat)
    by (rewrite straight_centerline_length; lia).
  exists t. split; [exact Ht|]. split; [exact H1|]. split; [exact H2|].
  exact (lanes_between_boundaries 60 40 12 5 (straight_centerline 12) t 2 3 Ht H1 H2).
Defined.

(** * Projection and the per-tick state update *)

Lemma projection_in_range
    (rx ry w : R) (nl : nat) (cl : list (R * R)) (t : Track.t) (x y : R) :
  Track.init rx ry w nl cl = Some t ->
  (10 <= length cl)%nat ->
  exists (i : nat) (s : R),
    Track.project_car_position t x y = Some s
    /\ (i < length cl)%nat /\ s = arc t i /\ 0 <= s <= Track.total_length t.
Proof.
  intros Hinit Hlen.
  destruct (refined_idx_is_closest rx ry w nl cl t x y Hinit Hlen)
    as (i0 & (Hi0 & _) & _ & _ & Hproj).
  destruct (constructed_lengths rx ry w nl cl t Hinit) as (_ & Hlx & _ & _).
  unfold Track.distances_to in Hi0. rewrite zip_with_length in Hi0.
  exists i0, (arc t i0). split; [exact Hproj|]. split; [lia|]. split; [reflexivity|].
  rewrite (total_length_last rx ry w nl cl t Hinit).
  rewrite <- (arc_0 rx ry w nl cl t Hinit) at 1.
  split; apply (arc_mono rx ry w nl cl t Hinit); lia.
Qed.

(** On a constructed track the projection raises exactly when the
    centerline has fewer than ten samples; otherwise it returns the arc
    length of a sample, a value in [[0, total_length]]. *)
Theorem project_car_position_range
    (rx ry w : R) (nl : nat) (cl : list (R * R)) (t : Track.t) (x y : R) :
  Track.init rx ry w nl cl = Some t ->
  ((length cl < 10)%nat -> Track.project_car_position t x y = None)
  /\ ((10 <= length cl)%nat ->
      exists (i : nat) (s : R),
        Track.project_car_position t x y = Some s
        /\ (i < length cl)%nat /\ s = arc t i /\ 0 <= s <= Track.total_length t).
Proof.
  intros Hinit. split.
  - apply (project_car_position_small_track rx ry w nl cl t x y Hinit).
  - apply (projection_in_range rx ry w nl cl t x y Hinit).
Qed.

Lemma project_car_position_range_witness :
  exists t : Track.t,
    Track.init 60 40 12 5 (straight_centerline 12) = Some t
    /\ ((length (straight_centerline 12) < 10)%nat ->
        Track.project_car_position t 3 1 = None)
    /\ ((10 <= length (straight_centerline 12))%nat ->
        exists (i : nat) (s : R),
          Track.project_car_position t 3 1 = Some s
          /\ (i < length (straight_centerline 12))%nat /\ s = arc t i
          /\ 0 <= s <= Track.total_length t).
Proof.
  destruct (straight_track_built 12 ltac:(lia)) as (t & Ht).
  exists t. split; [exact Ht|].
  exact (project_car_position_range 60 40 12 5 (straight_centerline 12) t 3 1 Ht).
Defined.

(** On a constructed track of at least ten samples [update_state] never
    raises.  It leaves the position, heading and speed alone, stores the
    projected arc length (within [[0, total_length]]), appends exactly one
    trajectory point with the car's position, and counts a lap exactly when
    the arc length wraps from the last tenth of the track to the first
    tenth. *)
Theorem update_state_effect
    (rx ry w : R) (nl : nat) (cl : list (R * R)) (track : Track.t) (car : Car.t) (dt : R) :
  Track.init rx ry w nl cl = Some track ->
  (10 <= length cl)%nat ->
  exists car' : Car.t,
    update_state car dt track = Some car'
    /\ pose car' = pose car
    /\ Track.project_car_position track (Car.x car) (Car.y car) = Some (Car.s_position car')
    /\ 0 <= Car.s_position car' <= Track.total_length track
    /\ (exists point,
           Car.trajectory car' = Car.trajectory car ++ [point]
           /\ TrajectoryPoint.x point = Car.x car /\ TrajectoryPoint.y point = Car.y car
           /\ TrajectoryPoint.velocity point = Car.velocity car
           /\ TrajectoryPoint.s_position point = Car.s_position car'
           /\ TrajectoryPoint.lap point = Car.lap_count car')
    /\ Car.lap_count car'
       = if Rltb (Track.total_length track * (9 / 10)) (Car.s_position car)
            && Rltb (Car.s_position car') (Track.total_length track * (1 / 10))
         then S (Car.lap_count car) else Car.lap_count car.
Proof.
  intros Hinit Hlen.
  destruct (projection_in_range rx ry w nl cl track (Car.x car) (Car.y car) Hinit Hlen)
    as (i & s & Hproj & _ & _ & Hs).
  unfold update_state. rewrite Hproj.
  cbn [Car.s_position Car.set_s_position].
  destruct (Rltb (Track.total_length track * (9 / 10)) (Car.s_position car)) eqn:E1;
    destruct (Rltb s (Track.total_length track * (1 / 10))) eqn:E2; cbn [andb];
    repeat match goal with |- context [Rltb ?a ?b] => destruct (Rltb a b) end;
    eexists; (split; [reflexivity|]); cbn; rewrite ?E2, ?Nat.add_1_r;
    (split; [reflexivity|]); (split; [reflexivity|]); (split; [exact Hs|]);
    (split; [eexists; repeat split|reflexivity]).
Qed.

Lemma update_state_effect_witness :
  exists track : Track.t,
    Track.init 60 40 12 5 (straight_centerline 12) = Some track
    /\ (10 <= length (straight_centerline 12))%nat
    /\ exists car' : Car.t,
         update_state (sample_car 0 3) (1 / 10) track = Some car'
         /\ pose car' = pose (sample_car 0 3)
         /\ Track.project_car_position track (Car.x (sample_car 0 3)) (Car.y (sample_car 0 3))
            = Some (Car.s_position car')
         /\ 0 <= Car.s_position car' <= Track.total_length track
         /\ (exists point,
                Car.trajectory car' = Car.trajectory (sample_car 0 3) ++ [point]
                /\ TrajectoryPoint.x point = Car.x (sample_car 0 3)
                /\ TrajectoryPoint.y point = Car.y (sample_car 0 3)
                /\ TrajectoryPoint.velocity point = Car.velocity (sample_car 0 3)
                /\ TrajectoryPoint.s_position point = Car.s_position car'
                /\ TrajectoryPoint.lap point = Car.lap_count car')
         /\ Car.lap_count car'
            = if Rltb (Track.total_length track * (9 / 10)) (Car.s_position (sample_car 0 3))
                 && Rltb (Car.s_position car') (Track.total_length track * (1 / 10))
              then S (Car.lap_count (sample_car 0 3)) else Car.lap_count (sample_car 0 3).
Proof.
  destruct (straight_track_built 12 ltac:(lia)) as (track & Ht).
  assert (Hlen : (10 <= length (straight_centerline 12))%nat)
    by (rewrite straight_centerline_length; lia).
  exists track. split; [exact Ht|]. split; [exact Hlen|].
  exact (update_state_effect 60 40 12 5 (straight_centerline 12) track (sample_car 0 3)
           (1 / 10) Ht Hlen).
Defined.

(** * The elimination pass *)

Lemma find_car_spec (cars : list Car.t) (car_id i : nat) :
  find_car cars car_id = Some i ->
  exists c, nth_error cars i = Some c /\ Car.car_id c = car_id.
Proof.
  revert i. induction cars as [|c cars IH]; intros i; cbn [find_car]; [discriminate|].
  destruct (Car.car_id c =? car_id)%nat eqn:E.
  - intros H. injection H as <-. apply Nat.eqb_eq in E. exists c. auto.
  - destruct (find_car cars car_id) as [j|]; [|discriminate].
    intros H. injection H as <-. destruct (IH j eq_refl) as (c' & Hc' & Hid).
    exists c'. auto.
Qed.

Lemma rolled_out_refl (time : R) (threshold : Z) (events : list CollisionEvent.t)
    (c : Car.t) : rolled_out time threshold events c c.
Proof. left. reflexivity. Qed.

Lemma rolled_out_trans (time : R) (threshold : Z) (ev1 ev2 : list CollisionEvent.t)
    (a b c : Car.t) :
  rolled_out time threshold ev1 a b -> rolled_out time threshold ev2 b c ->
  rolled_out time threshold (ev1 ++ ev2) a c.
Proof.
  intros [->|(Ha & (e & He & Hinv) & roll & Hroll & ->)] Hbc.
  - destruct Hbc as [->|(Hb & (e & He & Hinv) & roll & Hroll & ->)];
      [left; reflexivity|].
    right. split; [exact Hb|]. split; [|eauto].
    exists e. split; [apply in_or_app; right; exact He|exact Hinv].
  - destruct Hbc as [->|(Hb & _)]; [|discriminate Hb].
    right. split; [exact Ha|]. split; [|eauto].
    exists e. split; [apply in_or_app; left; exact He|exact Hinv].
Qed.

Lemma Forall2_rolled_out_refl (time : R) (threshold : Z) (events : list CollisionEvent.t)
    (cars : list Car.t) : Forall2 (rolled_out time threshold events) cars cars.
Proof. induction cars; constructor; auto using rolled_out_refl. Qed.

Lemma Forall2_rolled_out_trans (time : R) (threshold : Z) (ev1 ev2 : list CollisionEvent.t)
    (a b c : list Car.t) :
  Forall2 (rolled_out time threshold ev1) a b ->
  Forall2 (rolled_out time threshold ev2) b c ->
  Forall2 (rolled_out time threshold (ev1 ++ ev2)) a c.
Proof.
  intros Hab. revert c. induction Hab as [|x y a b Hxy Hab IH]; intros c Hbc.
  - inversion Hbc. constructor.
  - inversion Hbc as [|y' z b' c' Hyz Hbc']; subst.
    constructor; [eapply rolled_out_trans; eassumption|]. apply IH. assumption.
Qed.

Lemma Forall2_list_set {A : Type} (R : A -> A -> Prop) (l : list A) (i : nat) (a v : A) :
  (forall x, R x x) -> nth_error l i = Some a -> R a v -> Forall2 R l (list_set l i v).
Proof.
  intros Hrefl. revert i. induction l as [|x l IH]; intros [|i] Hi Hav;
    cbn [nth_error list_set] in *; try discriminate.
  - injection Hi as ->. constructor; [exact Hav|].
    clear - Hrefl. induction l; constructor; auto.
  - constructor; [apply Hrefl|]. apply IH; assumption.
Qed.

Lemma roll_elimination_effect (self : RacingSimulation.t) (e : CollisionEvent.t)
    (found : option nat) :
  (forall i, found = Some i ->
     exists c, nth_error (RacingSimulation.cars self) i = Some c
               /\ involves (Car.car_id c) e = true) ->
  let self' := RacingSimulation.roll_elimination self found in
  Forall2 (rolled_out (RacingSimulation.timestamp self)
             (RacingSimulation.elimination_chance self) [e])
          (RacingSimulation.cars self) (RacingSimulation.cars self')
  /\ RacingSimulation.timestamp self' = RacingSimulation.timestamp self
  /\ RacingSimulation.elimination_chance self' = RacingSimulation.elimination_chance self
  /\ Rng.randint_1_11 (RacingSimulation.rng self')
     = Rng.randint_1_11 (RacingSimulation.rng self)
  /\ ((forall n, (RacingSimulation.elimination_chance self
                  <= Rng.randint_1_11 (RacingSimulation.rng self) n)%Z) ->
      RacingSimulation.cars self' = RacingSimulation.cars self
      /\ RacingSimulation.eliminated_cars self' = RacingSimulation.eliminated_cars self).
Proof.
  intros Hfound. cbv zeta. unfold RacingSimulation.roll_elimination.
  destruct found as [i|]; [|split; [apply Forall2_rolled_out_refl|auto]].
  destruct (Hfound i eq_refl) as (c & Hc & Hinv). rewrite Hc.
  destruct (Car.eliminated c) eqn:Hel; [split; [apply Forall2_rolled_out_refl|auto]|].
  unfold Rng.randint. sim_cbn.
  destruct (_ <? _)%Z eqn:Eroll; sim_cbn.
  - apply Z.ltb_lt in Eroll. split; [|split; [reflexivity|split; [reflexivity|split]]].
    + apply (Forall2_list_set _ _ i c); [apply rolled_out_refl|exact Hc|].
      right. split; [exact Hel|]. split; [exists e; cbn; auto|].
      eexists. split; [exact Eroll|reflexivity].
    + reflexivity.
    + intros Hall. specialize (Hall (Rng.drawn (RacingSimulation.rng self))). lia.
  - split; [apply Forall2_rolled_out_refl|]. repeat split; reflexivity.
Qed.

Lemma rolled_out_car_id (time : R) (threshold : Z) (events : list CollisionEvent.t)
    (c c' : Car.t) :
  rolled_out time threshold events c c' -> Car.car_id c' = Car.car_id c.
Proof. intros [->|(_ & _ & roll & _ & ->)]; reflexivity. Qed.

Lemma rolled_out_incl (time : R) (threshold : Z) (ev1 ev2 : list CollisionEvent.t)
    (c c' : Car.t) :
  incl ev1 ev2 -> rolled_out time threshold ev1 c c' -> rolled_out time threshold ev2 c c'.
Proof.
  intros Hincl [->|(H1 & (e & He & Hinv) & H3)]; [left; reflexivity|].
  right. split; [exact H1|]. split; [|exact H3]. exists e. split; [apply Hincl|]; assumption.
Qed.

Lemma check_eliminations_effect (events : list CollisionEvent.t) :
  forall self : RacingSimulation.t,
    let self' := RacingSimulation._check_eliminations self events in
    Forall2 (rolled_out (RacingSimulation.timestamp self)
               (RacingSimulation.elimination_chance self) events)
            (RacingSimulation.cars self) (RacingSimulation.cars self')
    /\ RacingSimulation.timestamp self' = RacingSimulation.timestamp self
    /\ RacingSimulation.elimination_chance self' = RacingSimulation.elimination_chance self
    /\ Rng.randint_1_11 (RacingSimulation.rng self')
       = Rng.randint_1_11 (RacingSimulation.rng self)
    /\ ((forall n, (RacingSimulation.elimination_chance self
                    <= Rng.randint_1_11 (RacingSimulation.rng self) n)%Z) ->
        RacingSimulation.cars self' = RacingSimulation.cars self
        /\ RacingSimulation.eliminated_cars self'
           = RacingSimulation.eliminated_cars self).
Proof.
  unfold RacingSimulation._check_eliminations.
  induction events as [|e events IH]; intros self; cbn [fold_left].
  - split; [apply Forall2_rolled_out_refl|]. repeat split; reflexivity.
  - assert (Hinv1 : involves (CollisionEvent.car_id1 e) e = true)
      by (unfold involves; rewrite Nat.eqb_refl; reflexivity).
    assert (Hinv2 : involves (CollisionEvent.car_id2 e) e = true)
      by (unfold involves; rewrite Nat.eqb_refl, orb_true_r; reflexivity).
    cbv zeta.
    assert (Hf1 : forall i,
               find_car (RacingSimulation.cars self) (CollisionEvent.car_id1 e) = Some i ->
               exists c, nth_error (RacingSimulation.cars self) i = Some c
                         /\ involves (Car.car_id c) e = true).
    { intros i Hi. destruct (find_car_spec _ _ _ Hi) as (c & Hc & Hid).
      exists c. rewrite Hid. auto. }
    destruct (roll_elimination_effect self e _ Hf1) as (Ha1 & Ha2 & Ha3 & Ha4 & Ha5).
    set (s1 := RacingSimulation.roll_elimination self
                 (find_car (RacingSimulation.cars self) (CollisionEvent.car_id1 e))) in *.
    assert (Hf2 : forall i,
               find_car (RacingSimulation.cars self) (CollisionEvent.car_id2 e) = Some i ->
               exists c, nth_error (RacingSimulation.cars s1) i = Some c
                         /\ involves (Car.car_id c) e = true).
    { intros i Hi. destruct (find_car_spec _ _ _ Hi) as (c & Hc & Hid).
      destruct (Forall2_nth_error _ _ _ i c Ha1 Hc) as (c1 & Hc1 & Hr).
      exists c1. rewrite (rolled_out_car_id _ _ _ _ _ Hr), Hid. auto. }
    destruct (roll_elimination_effect s1 e _ Hf2) as (Hb1 & Hb2 & Hb3 & Hb4 & Hb5).
    set (s2 := RacingSimulation.roll_elimination s1
                 (find_car (RacingSimulation.cars self) (CollisionEvent.car_id2 e))) in *.
    destruct (IH s2) as (Hc1 & Hc2 & Hc3 & Hc4 & Hc5).
    rewrite Hb2, Ha2, Hb3, Ha3 in Hc1. rewrite Ha2, Ha3 in Hb1.
    split; [|split; [congruence|split; [congruence|split; [congruence|]]]].
    + change (e :: events) with ([e] ++ events).
      eapply Forall2_rolled_out_trans; [|exact Hc1].
      eapply Forall2_impl; [|exact (Forall2_rolled_out_trans _ _ _ _ _ _ _ Ha1 Hb1)].
      intros a b. apply rolled_out_incl. intros x [<-|[<-|[]]]; left; reflexivity.
    + intros Hall. destruct (Ha5 Hall) as [Ha6 Ha7].
      assert (Hall1 : forall n, (RacingSimulation.elimination_chance s1
                                 <= Rng.randint_1_11 (RacingSimulation.rng s1) n)%Z).
      { intros n. rewrite Ha3, Ha4. apply Hall. }
      destruct (Hb5 Hall1) as [Hb6 Hb7].
      assert (Hall2 : forall n, (RacingSimulation.elimination_chance s2
                                 <= Rng.randint_1_11 (RacingSimulation.rng s2) n)%Z).
      { intros n. rewrite Hb3, Hb4. apply Hall1. }
      destruct (Hc5 Hall2) as [Hc6 Hc7]. split; congruence.
Qed.

(** The elimination pass only ever touches active cars named by one of
    the collision events, and only when the roll is below the threshold:
    such a car is flagged, stopped, and stamped with the time of the cycle
    and with the roll.  When no roll can fall below the threshold the pass
    changes no car. *)
Theorem _check_eliminations_effect
    (self : RacingSimulation.t) (new_collisions : list CollisionEvent.t) :
  let self' := RacingSimulation._check_eliminations self new_collisions in
  Forall2 (fun c c' =>
             c' = c
             \/ (Car.eliminated c = false
                 /\ (exists e, In e new_collisions /\ involves (Car.car_id c) e = true)
                 /\ exists roll : Z,
                      (roll < RacingSimulation.elimination_chance self)%Z
                      /\ Car.eliminated c' = true /\ Car.velocity c' = 0
                      /\ Car.elimination_time c' = Some (RacingSimulation.timestamp self)
                      /\ Car.elimination_reason c'
                         = Some (Eliminated_after_collision roll
                                   (RacingSimulation.elimination_chance self))
                      /\ (Car.car_id c', Car.x c', Car.y c', Car.yaw c')
                         = (Car.car_id c, Car.x c, Car.y c, Car.yaw c)))
          (RacingSimulation.cars self) (RacingSimulation.cars self')
  /\ ((forall n, (RacingSimulation.elimination_chance self
                  <= Rng.randint_1_11 (RacingSimulation.rng self) n)%Z) ->
      RacingSimulation.cars self' = RacingSimulation.cars self
      /\ RacingSimulation.eliminated_cars self' = RacingSimulation.eliminated_cars self).
Proof.
  cbv zeta. destruct (check_eliminations_effect new_collisions self) as (H1 & _ & _ & _ & H5).
  split; [|exact H5].
  eapply Forall2_impl; [|exact H1].
  intros c c' [->|(Hel & He & roll & Hroll & ->)]; [left; reflexivity|].
  right. split; [exact Hel|]. split; [exact He|].
  exists roll. split; [exact Hroll|]. unfold stamped. cbn.
  repeat split; reflexivity.
Qed.

(** * The car-following law drives the speed toward the desired speed *)

Lemma np_clip_mono (a b lo hi : R) : a <= b -> np_clip a lo hi <= np_clip b lo hi.
Proof.
  intros H. unfold np_clip.
  apply Rle_min_compat_r, Rle_max_compat_r, H.
Qed.

Lemma pow4_lt_1 (q : R) : 0 <= q < 1 -> 0 <= q ^ 4 < 1.
Proof.
  intros [H0 H1]. replace (q ^ 4) with ((q * q) * (q * q)) by ring.
  assert (Hq : 0 <= q * q < 1) by nra. nra.
Qed.

Lemma pow4_gt_1 (q : R) : 1 < q -> 1 < q ^ 4.
Proof.
  intros H1. replace (q ^ 4) with ((q * q) * (q * q)) by ring.
  assert (Hq : 1 < q * q) by nra. nra.
Qed.

(** With positive limits and a positive desired speed, the free-road
    acceleration is positive below the desired speed, zero at it and
    negative above it; a leader never raises the commanded acceleration
    above the free-road one. *)
Theorem compute_acceleration_toward_desired_speed
    (config : Config.t) (strategy : Strategy.t) (car leader : Car.t) (d dv : R) :
  let idm := CombinedController.idm (CombinedController_init config strategy) in
  let a_max := ControllerConfig.a_max (Config.controller config) in
  let b_max := ControllerConfig.b_max (Config.controller config) in
  let v := Car.velocity car in
  let v0 := Car.desired_speed car * Car.speed_multiplier car in
  0 < a_max -> 0 < b_max -> 0 <= v -> 0 < v0 ->
  let free := compute_acceleration idm car None None 0 in
  (v < v0 -> 0 < free <= a_max)
  /\ (v = v0 -> free = 0)
  /\ (v0 < v -> - b_max <= free < 0)
  /\ compute_acceleration idm car (Some leader) (Some d) dv <= free.
Proof.
  intros idm a_max b_max v v0 Ha Hb Hv Hv0 free.
  subst free idm. unfold compute_acceleration, CombinedController_init.
  cbn [CombinedController.idm IDMController.a_max IDMController.b_max IDMController.delta
       IDMController.min_gap IDMController.reaction_time].
  fold a_max b_max v v0.
  set (q := v / v0).
  assert (Hq0 : 0 <= q) by (unfold q; apply Rmult_le_pos; [lra|];
                            apply Rlt_le, Rinv_0_lt_compat; lra).
  assert (Hqv : v = q * v0) by (unfold q; field; lra).
  repeat split.
  - assert (Hq : 0 <= q ^ 4 < 1) by (apply pow4_lt_1; split; [lra|nra]).
    rewrite np_clip_inside by nra. nra.
  - assert (Hq : 0 <= q ^ 4 < 1) by (apply pow4_lt_1; split; [lra|nra]).
    rewrite np_clip_inside by nra. nra.
  - intros Heq. assert (Hq1 : q = 1) by nra. rewrite Hq1.
    replace (a_max * (1 - 1 ^ 4)) with 0 by ring. apply np_clip_inside. lra.
  - apply np_clip_bounds. lra.
  - assert (Hq : 1 < q ^ 4) by (apply pow4_gt_1; nra).
    unfold np_clip.
    apply Rle_lt_trans with (Rmax (a_max * (1 - q ^ 4)) (- b_max)); [apply Rmin_l|].
    apply Rmax_lub_lt; nra.
  - apply np_clip_mono.
    match goal with
    | |- context [(?s / Rmax d (1 / 10)) ^ 2] =>
        pose proof (pow2_ge_0 (s / Rmax d (1 / 10))) as Hi
    end.
    nra.
Qed.

Lemma compute_acceleration_toward_desired_speed_witness :
  let car := Car.set_velocity (sample_car 0 0) 10 in
  let idm := CombinedController.idm
               (CombinedController_init (sample_config 2 true) Strategy.balanced) in
  0 < ControllerConfig.a_max (Config.controller (sample_config 2 true))
  /\ 0 < ControllerConfig.b_max (Config.controller (sample_config 2 true))
  /\ 0 <= Car.velocity car
  /\ 0 < Car.desired_speed car * Car.speed_multiplier car
  /\ (Car.velocity car < Car.desired_speed car * Car.speed_multiplier car ->
      0 < compute_acceleration idm car None None 0
      <= ControllerConfig.a_max (Config.controller (sample_config 2 true)))
  /\ (Car.velocity car = Car.desired_speed car * Car.speed_multiplier car ->
      compute_acceleration idm car None None 0 = 0)
  /\ (Car.desired_speed car * Car.speed_multiplier car < Car.velocity car ->
      - ControllerConfig.b_max (Config.controller (sample_config 2 true))
      <= compute_acceleration idm car None None 0 < 0)
  /\ compute_acceleration idm car (Some (sample_car 1 8)) (Some 8) (- 10)
     <= compute_acceleration idm car None None 0.
Proof.
  cbv zeta.
  assert (H1 : 0 < ControllerConfig.a_max (Config.controller (sample_config 2 true)))
    by (cbn; lra).
  assert (H2 : 0 < ControllerConfig.b_max (Config.controller (sample_config 2 true)))
    by (cbn; lra).
  assert (H3 : 0 <= Car.velocity (Car.set_velocity (sample_car 0 0) 10)) by (cbn; lra).
  assert (H4 : 0 < Car.desired_speed (Car.set_velocity (sample_car 0 0) 10)
                   * Car.speed_multiplier (Car.set_velocity (sample_car 0 0) 10))
    by (cbn; lra).
  split; [exact H1|]. split; [exact H2|]. split; [exact H3|]. split; [exact H4|].
  exact (compute_acceleration_toward_desired_speed (sample_config 2 true) Strategy.balanced
           (Car.set_velocity (sample_car 0 0) 10) (sample_car 1 8) 8 (- 10) H1 H2 H3 H4).
Defined.

(** * Runs complete and return the detector's log *)

(** ** The collision pass extends both logs by the same events *)

Lemma check_pair_log (radius ts : R) (c1 c2 : Car.t) (st : Pass.t) :
  exists d,
    Pass.new_collisions (snd (check_pair radius ts c1 c2 st)) = Pass.new_collisions st ++ d
    /\ Pass.collisions (snd (check_pair radius ts c1 c2 st)) = Pass.collisions st ++ d.
Proof.
  unfold check_pair.
  destruct (Car.eliminated c2); [exists []; cbn; rewrite !app_nil_r; auto|].
  destruct (pair_in _ _); [exists []; cbn; rewrite !app_nil_r; auto|].
  destruct (Rltb _ _); [|exists []; cbn; rewrite !app_nil_r; auto].
  eexists. cbn [snd Pass.new_collisions Pass.collisions]. split; reflexivity.
Qed.

Lemma check_against_log (radius ts : R) (rest : list Car.t) :
  forall (c1 : Car.t) (st : Pass.t),
  exists d,
    Pass.new_collisions (snd (check_against radius ts c1 rest st)) = Pass.new_collisions st ++ d
    /\ Pass.collisions (snd (check_against radius ts c1 rest st)) = Pass.collisions st ++ d.
Proof.
  induction rest as [|c2 rest IH]; intros c1 st; cbn [check_against].
  - exists []. cbn. rewrite !app_nil_r. auto.
  - destruct (check_pair_log radius ts c1 c2 st) as (d1 & Hn1 & Hc1).
    destruct (check_pair radius ts c1 c2 st) as [[c1' c2'] st1]. cbn [snd] in Hn1, Hc1.
    destruct (IH c1' st1) as (d2 & Hn2 & Hc2).
    destruct (check_against radius ts c1' rest st1) as [[c1'' rest'] st2].
    cbn [snd] in *. exists (d1 ++ d2). rewrite Hn2, Hc2, Hn1, Hc1, !app_assoc. auto.
Qed.

Lemma check_from_log (n : nat) (radius ts : R) :
  forall (cars : list Car.t) (st : Pass.t),
  exists d,
    Pass.new_collisions (snd (check_from n radius ts cars st)) = Pass.new_collisions st ++ d
    /\ Pass.collisions (snd (check_from n radius ts cars st)) = Pass.collisions st ++ d.
Proof.
  induction n as [|n IH]; intros cars st.
  - exists []. cbn. rewrite !app_nil_r. auto.
  - destruct cars as [|c1 rest]; [exists []; cbn; rewrite !app_nil_r; auto|].
    cbn [check_from]. destruct (Car.eliminated c1).
    + destruct (IH rest st) as (d & Hn & Hc).
      destruct (check_from n radius ts rest st) as [rest' st']. cbn [snd] in *.
      exists d. auto.
    + destruct (check_against_log radius ts rest c1 st) as (d1 & Hn1 & Hc1).
      destruct (check_against radius ts c1 rest st) as [[c1' rest1] st1].
      cbn [snd] in Hn1, Hc1.
      destruct (IH rest1 st1) as (d2 & Hn2 & Hc2).
      destruct (check_from n radius ts rest1 st1) as [rest2 st2]. cbn [snd] in *.
      exists (d1 ++ d2). rewrite Hn2, Hc2, Hn1, Hc1, !app_assoc. auto.
Qed.

Lemma check_collisions_log (self : CollisionDetector.t) (cars : list Car.t) (ts : R) :
  CollisionDetector.collisions (snd (fst (check_collisions self cars ts)))
  = CollisionDetector.collisions self ++ fst (fst (check_collisions self cars ts)).
Proof.
  unfold check_collisions.
  match goal with
  | |- context [check_from ?n ?r ?t ?c ?s] =>
      destruct (check_from_log n r t c s) as (d & Hn & Hc);
      destruct (check_from n r t c s) as [cars' st']
  end.
  cbn [fst snd Pass.new_collisions Pass.collisions CollisionDetector.collisions] in *.
  rewrite Hn, Hc. reflexivity.
Qed.

(** ** Fields the elimination pass leaves alone *)

Lemma roll_elimination_frame (self : RacingSimulation.t) (found : option nat) :
  RacingSimulation.track (RacingSimulation.roll_elimination self found)
  = RacingSimulation.track self
  /\ RacingSimulation.collision_detector (RacingSimulation.roll_elimination self found)
     = RacingSimulation.collision_detector self.
Proof.
  unfold RacingSimulation.roll_elimination.
  destruct found as [i|]; [|auto].
  destruct (nth_error _ i) as [car|]; [|auto].
  destruct (Car.eliminated car); [auto|].
  destruct (Rng.randint _) as [roll g]. sim_cbn.
  destruct (roll <? _)%Z; sim_cbn; auto.
Qed.

Lemma check_eliminations_frame (events : list CollisionEvent.t) :
  forall self : RacingSimulation.t,
    RacingSimulation.track (RacingSimulation._check_eliminations self events)
    = RacingSimulation.track self
    /\ RacingSimulation.collision_detector (RacingSimulation._check_eliminations self events)
       = RacingSimulation.collision_detector self.
Proof.
  unfold RacingSimulation._check_eliminations.
  induction events as [|e events IH]; intros self; cbn [fold_left]; [auto|].
  cbv zeta.
  destruct (IH (RacingSimulation.roll_elimination
                  (RacingSimulation.roll_elimination self
                     (find_car (RacingSimulation.cars self) (CollisionEvent.car_id1 e)))
                  (find_car (RacingSimulation.cars self) (CollisionEvent.car_id2 e))))
    as [Ht Hd].
  rewrite Ht, Hd.
  destruct (roll_elimination_frame
              (RacingSimulation.roll_elimination self
                 (find_car (RacingSimulation.cars self) (CollisionEvent.car_id1 e)))
              (find_car (RacingSimulation.cars self) (CollisionEvent.car_id2 e))) as [-> ->].
  apply roll_elimination_frame.
Qed.

(** ** The per-car loop returns on a track of ten samples or more *)

Lemma update_cars_total (rx ry w : R) (nl : nat) (cl : list (R * R)) (track : Track.t)
    (dt : R) (todo : list Car.t) :
  Track.init rx ry w nl cl = Some track -> (10 <= length cl)%nat ->
  forall (done : list Car.t) (log : list (option (R * R))),
  exists r, RacingSimulation.update_cars track dt done todo log = Some r.
Proof.
  intros Hinit Hlen.
  induction todo as [|car rest IH]; intros done log; cbn [RacingSimulation.update_cars].
  - eexists. reflexivity.
  - destruct (Car.eliminated car); [apply IH|].
    cbv zeta.
    destruct (compute_control _ _ _ _ _) as [[a s] c].
    destruct (update_state_total rx ry w nl cl track (update_car_dynamics c a s dt) dt
                Hinit Hlen) as (car' & ->).
    apply IH.
Qed.

(** ** The desired speed stays defined *)

Lemma v0_defined_fields (c c' : Car.t) :
  Car.desired_speed c' = Car.desired_speed c ->
  Car.speed_multiplier c' = Car.speed_multiplier c ->
  v0_defined c -> v0_defined c'.
Proof. unfold v0_defined. intros -> ->. auto. Qed.

Lemma tick_lane_change_timer_v0 (c : Car.t) (dt : R) :
  v0_defined c -> v0_defined (RacingSimulation.tick_lane_change_timer c dt).
Proof.
  unfold RacingSimulation.tick_lane_change_timer. destruct (Rltb _ _); intros H; exact H.
Qed.

Lemma drive_step_v0 (track : Track.t) (dt : R) (c c' : Car.t) :
  v0_defined c -> drive_step track dt c c' -> v0_defined c'.
Proof.
  intros Hv (all_cars & Hu). cbv zeta in Hu.
  destruct (compute_control_speed_fields (Car.controller c) c track all_cars 50)
    as (Hd1 & Hm1 & _).
  destruct (compute_control (Car.controller c) c track all_cars 50) as [[a s] c1].
  cbn [fst snd] in *.
  destruct (update_state_speed_fields _ _ _ _ Hu) as (Hd3 & Hm3 & _).
  destruct (update_car_dynamics_speed_fields c1 a s dt) as (Hd2 & Hm2).
  apply (v0_defined_fields c); [congruence|congruence|exact Hv].
Qed.

Lemma driven_v0 (track : Track.t) (dt : R) (c c' : Car.t) :
  v0_defined c -> driven track dt c c' -> v0_defined c'.
Proof.
  intros Hv. unfold driven. destruct (Car.eliminated c); [intros ->; exact Hv|].
  apply drive_step_v0. apply tick_lane_change_timer_v0. exact Hv.
Qed.

Lemma stats_only_v0 (c c' : Car.t) : v0_defined c -> stats_only c c' -> v0_defined c'.
Proof. intros Hv (n & s & f & ->). exact Hv. Qed.

Lemma rolled_out_v0 (time : R) (threshold : Z) (events : list CollisionEvent.t)
    (c c' : Car.t) :
  v0_defined c -> rolled_out time threshold events c c' -> v0_defined c'.
Proof. intros Hv [->|(_ & _ & roll & _ & ->)]; exact Hv. Qed.

Lemma reset_collision_flag_v0 (cars : list Car.t) :
  Forall v0_defined cars -> Forall v0_defined (map reset_collision_flag cars).
Proof.
  intros H. apply Forall_map. revert H. apply Forall_impl. intros c Hc. exact Hc.
Qed.

Lemma log_telemetry_cars (self : RacingSimulation.t) (n : nat) :
  RacingSimulation.cars
    (RacingSimulation._log_telemetry (RacingSimulation.set_near_misses self n))
  = map reset_collision_flag (RacingSimulation.cars self).
Proof. destruct self. reflexivity. Qed.

Lemma log_telemetry_frame (self : RacingSimulation.t) (n : nat) :
  RacingSimulation.track
    (RacingSimulation._log_telemetry (RacingSimulation.set_near_misses self n))
  = RacingSimulation.track self
  /\ RacingSimulation.dt
       (RacingSimulation._log_telemetry (RacingSimulation.set_near_misses self n))
     = RacingSimulation.dt self
  /\ RacingSimulation.collision_detector
       (RacingSimulation._log_telemetry (RacingSimulation.set_near_misses self n))
     = RacingSimulation.collision_detector self.
Proof. destruct self. cbn. auto. Qed.

Lemma cycle_completes (rx ry w : R) (nl : nat) (cl : list (R * R))
    (self : RacingSimulation.t) :
  Track.init rx ry w nl cl = Some (RacingSimulation.track self) -> (10 <= length cl)%nat ->
  Forall v0_defined (RacingSimulation.cars self) ->
  exists self' new,
    RacingSimulation.cycle self = Some (self', new)
    /\ RacingSimulation.track self' = RacingSimulation.track self
    /\ CollisionDetector.collisions (RacingSimulation.collision_detector self')
       = CollisionDetector.collisions (RacingSimulation.collision_detector self) ++ new
    /\ Forall v0_defined (RacingSimulation.cars self').
Proof.
  intros Hinit Hlen Hv0. unfold RacingSimulation.cycle.
  destruct (update_cars_total rx ry w nl cl _ (RacingSimulation.dt self)
              (RacingSimulation.cars self) Hinit Hlen [] []) as ([cars' log'] & Hu).
  rewrite Hu. apply update_cars_driven in Hu. destruct Hu as (todo' & Hcars & Hd).
  cbn [app] in Hcars. subst cars'.
  assert (Hv1 : Forall v0_defined todo').
  { revert Hd Hv0. apply Forall2_Forall_step. intros a b. apply driven_v0. }
  sim_cbn.
  pose proof (check_collisions_log (RacingSimulation.collision_detector self) todo'
                (RacingSimulation.timestamp self)) as Hlog.
  pose proof (check_collisions_stats_only (RacingSimulation.collision_detector self) todo'
                (RacingSimulation.timestamp self)) as Hst.
  destruct (check_collisions _ _ _) as [[new det] cars'']. cbn [fst snd] in Hlog, Hst.
  assert (Hv2 : Forall v0_defined cars'').
  { revert Hst Hv1. apply Forall2_Forall_step. exact stats_only_v0. }
  eexists _, new. split; [reflexivity|].
  match goal with
  | |- context [RacingSimulation._log_telemetry (RacingSimulation.set_near_misses ?s ?n)] =>
      destruct (log_telemetry_frame s n) as (-> & _ & ->);
      rewrite (log_telemetry_cars s n)
  end.
  destruct (RacingSimulation.elimination_enabled self).
  - match goal with
    | |- context [RacingSimulation._check_eliminations ?s new] =>
        destruct (check_eliminations_frame new s) as [-> ->];
        destruct (check_eliminations_effect new s) as (Hroll & _)
    end.
    sim_cbn. cbn [RacingSimulation.cars RacingSimulation.set_cars
                  RacingSimulation.set_collision_detector] in Hroll.
    split; [reflexivity|]. split; [exact Hlog|].
    apply reset_collision_flag_v0.
    revert Hroll Hv2. apply Forall2_Forall_step. apply rolled_out_v0.
  - sim_cbn. split; [reflexivity|]. split; [exact Hlog|].
    apply reset_collision_flag_v0. exact Hv2.
Qed.

Lemma run_from_completes (rx ry w : R) (nl : nat) (cl : list (R * R))
    (self : RacingSimulation.t) (acc : list CollisionEvent.t) (step remaining : nat) :
  Track.init rx ry w nl cl = Some (RacingSimulation.track self) -> (10 <= length cl)%nat ->
  Forall (fun c => Car.desired_speed c * Car.speed_multiplier c <> 0)
         (RacingSimulation.cars self) ->
  exists self' new,
    RacingSimulation.run_from self acc step remaining = Some (self', acc ++ new)
    /\ CollisionDetector.collisions (RacingSimulation.collision_detector self')
       = CollisionDetector.collisions (RacingSimulation.collision_detector self) ++ new
    /\ Forall (fun c => Car.desired_speed c * Car.speed_multiplier c <> 0)
              (RacingSimulation.cars self').
Proof.
  intros Hinit Hlen. revert self acc step Hinit.
  induction remaining as [|remaining IH]; intros self acc step Hinit Hv0;
    cbn [RacingSimulation.run_from].
  - exists self, []. rewrite !app_nil_r. auto.
  - cbv zeta.
    assert (Hstop : exists self' new,
               Some (RacingSimulation.set_timestamp self
                       (INR step * RacingSimulation.dt self), acc)
               = Some (self', acc ++ new)
               /\ CollisionDetector.collisions (RacingSimulation.collision_detector self')
                  = CollisionDetector.collisions (RacingSimulation.collision_detector self)
                    ++ new
               /\ Forall (fun c => Car.desired_speed c * Car.speed_multiplier c <> 0)
                         (RacingSimulation.cars self')).
    { eexists _, []. rewrite !app_nil_r. split; [reflexivity|]. sim_cbn. auto. }
    destruct (length _ =? 0)%nat; [exact Hstop|].
    destruct (RacingSimulation.all_finished _); [exact Hstop|].
    destruct (cycle_completes rx ry w nl cl
                (RacingSimulation.set_timestamp self (INR step * RacingSimulation.dt self)))
      as (self1 & new1 & -> & Ht & Hl & Hv1);
      [sim_cbn; exact Hinit|exact Hlen|sim_cbn; exact Hv0|].
    cbn [RacingSimulation.track RacingSimulation.set_timestamp] in Ht.
    cbn [RacingSimulation.collision_detector RacingSimulation.set_timestamp] in Hl.
    destruct (IH self1 (acc ++ new1) (S step)) as (self2 & new2 & -> & Hl2 & Hv2);
      [rewrite Ht; exact Hinit|exact Hv1|].
    exists self2, (new1 ++ new2). rewrite Hl2, Hl, !app_assoc. auto.
Qed.

(** On a track built from ten centerline samples or more, with a time
    step different from zero and every car's desired speed
    [desired_speed * speed_multiplier] different from zero, the
    fixed-timestep scheduler never raises, whatever the roster, the rest
    of the configuration and the random source: its loop completes from
    any step for any number of iterations, and so does [run].  The desired
    speeds stay different from zero, so the quotient of the car-following
    law is defined at every tick; and the events returned are the ones the
    loop started with followed by exactly what it appended to the
    collision detector's log. *)
Theorem run_completes_and_returns_log (rx ry w : R) (nl : nat) (cl : list (R * R))
    (self : RacingSimulation.t) :
  Track.init rx ry w nl cl = Some (RacingSimulation.track self) -> (10 <= length cl)%nat ->
  RacingSimulation.dt self <> 0 ->
  Forall (fun c => Car.desired_speed c * Car.speed_multiplier c <> 0)
         (RacingSimulation.cars self) ->
  (forall (acc : list CollisionEvent.t) (step remaining : nat),
      exists self' new,
        RacingSimulation.run_from self acc step remaining = Some (self', acc ++ new)
        /\ CollisionDetector.collisions (RacingSimulation.collision_detector self')
           = CollisionDetector.collisions (RacingSimulation.collision_detector self) ++ new
        /\ Forall (fun c => Car.desired_speed c * Car.speed_multiplier c <> 0)
                  (RacingSimulation.cars self'))
  /\ exists self' events,
       RacingSimulation.run self = Some (self', events)
       /\ CollisionDetector.collisions (RacingSimulation.collision_detector self')
          = CollisionDetector.collisions (RacingSimulation.collision_detector self) ++ events
       /\ Forall (fun c => Car.desired_speed c * Car.speed_multiplier c <> 0)
                 (RacingSimulation.cars self').
Proof.
  intros Hinit Hlen _ Hv0. split.
  - intros acc step remaining.
    exact (run_from_completes rx ry w nl cl self acc step remaining Hinit Hlen Hv0).
  - unfold RacingSimulation.run. cbv zeta.
    destruct (run_from_completes rx ry w nl cl self [] 0
                (Z.to_nat (py_int (RacingSimulation.time_limit self
                                   / RacingSimulation.dt self))) Hinit Hlen Hv0)
      as (self' & new & Hrun & Hlog & Hv).
    exists self', new. auto.
Qed.

Lemma run_completes_and_returns_log_witness :
  exists track : Track.t,
    let self :=
      RacingSimulation.init (sample_config 2 true) track [sample_car 0 0; sample_car 1 1]
        (Rng.mk (fun _ => 1%Z) (fun _ => 99 / 100) 0) in
    Track.init 60 40 12 5 (straight_centerline 12) = Some (RacingSimulation.track self)
    /\ (10 <= length (straight_centerline 12))%nat
    /\ RacingSimulation.dt self <> 0
    /\ Forall (fun c => Car.desired_speed c * Car.speed_multiplier c <> 0)
              (RacingSimulation.cars self)
    /\ (forall (acc : list CollisionEvent.t) (step remaining : nat),
           exists self' new,
             RacingSimulation.run_from self acc step remaining = Some (self', acc ++ new)
             /\ CollisionDetector.collisions (RacingSimulation.collision_detector self')
                = CollisionDetector.collisions (RacingSimulation.collision_detector self)
                  ++ new
             /\ Forall (fun c => Car.desired_speed c * Car.speed_multiplier c <> 0)
                       (RacingSimulation.cars self'))
    /\ exists self' events,
         RacingSimulation.run self = Some (self', events)
         /\ CollisionDetector.collisions (RacingSimulation.collision_detector self')
            = CollisionDetector.collisions (RacingSimulation.collision_detector self)
              ++ events
         /\ Forall (fun c => Car.desired_speed c * Car.speed_multiplier c <> 0)
                   (RacingSimulation.cars self').
Proof.
  destruct (straight_track_built 12 ltac:(lia)) as (track & Ht).
  exists track. cbv zeta.
  assert (Hlen : (10 <= length (straight_centerline 12))%nat)
    by (rewrite straight_centerline_length; lia).
  assert (Hdt : RacingSimulation.dt
                  (RacingSimulation.init (sample_config 2 true) track
                     [sample_car 0 0; sample_car 1 1]
                     (Rng.mk (fun _ => 1%Z) (fun _ => 99 / 100) 0)) <> 0)
    by (cbn; lra).
  assert (Hv0 : Forall (fun c => Car.desired_speed c * Car.speed_multiplier c <> 0)
                  (RacingSimulation.cars
                     (RacingSimulation.init (sample_config 2 true) track
                        [sample_car 0 0; sample_car 1 1]
                        (Rng.mk (fun _ => 1%Z) (fun _ => 99 / 100) 0)))).
  { cbn [RacingSimulation.init RacingSimulation.cars].
    constructor; [cbn; lra|]. constructor; [cbn; lra|]. constructor. }
  split; [exact Ht|]. split; [exact Hlen|]. split; [exact Hdt|]. split; [exact Hv0|].
  exact (run_completes_and_returns_log 60 40 12 5 (straight_centerline 12)
           (RacingSimulation.init (sample_config 2 true) track
              [sample_car 0 0; sample_car 1 1]
              (Rng.mk (fun _ => 1%Z) (fun _ => 99 / 100) 0)) Ht Hlen Hdt Hv0).
Defined.

(** ** A track of fewer than ten samples *)

Lemma update_cars_raises (rx ry w : R) (nl : nat) (cl : list (R * R)) (track : Track.t)
    (dt : R) (todo : list Car.t) :
  Track.init rx ry w nl cl = Some track -> (length cl < 10)%nat ->
  (exists car, In car todo /\ Car.eliminated car = false) ->
  forall (done : list Car.t) (log : list (option (R * R))),
    RacingSimulation.update_cars track dt done todo log = None.
Proof.
  intros Hinit Hlen.
  induction todo as [|car rest IH]; intros (c & Hin & Hc) done log;
    cbn [RacingSimulation.update_cars]; [destruct Hin|].
  destruct (Car.eliminated car) eqn:Ecar.
  - apply IH. exists c. split; [|exact Hc].
    destruct Hin as [<-|Hin]; [congruence|exact Hin].
  - cbv zeta. destruct (compute_control _ _ _ _ _) as [[a s] c'].
    unfold update_state.
    rewrite (project_car_position_small_track rx ry w nl cl track _ _ Hinit Hlen).
    reflexivity.
Qed.

(** On a track of fewer than ten centerline samples the first cycle of
    the fixed-timestep scheduler raises as soon as one active car still
    has laps to drive: its position cannot be reprojected. *)
Theorem run_raises_on_short_track (rx ry w : R) (nl : nat) (cl : list (R * R))
    (self : RacingSimulation.t) (acc : list CollisionEvent.t) (step remaining : nat)
    (car : Car.t) :
  Track.init rx ry w nl cl = Some (RacingSimulation.track self) -> (length cl < 10)%nat ->
  In car (RacingSimulation.cars self) -> Car.eliminated car = false ->
  (Car.lap_count car < RacingSimulation.target_laps self)%nat ->
  RacingSimulation.run_from self acc step (S remaining) = None.
Proof.
  intros Hinit Hlen Hin Hel Hlap. cbn [RacingSimulation.run_from]. cbv zeta. sim_cbn.
  assert (Hact : In car (active_cars (RacingSimulation.cars self))).
  { unfold active_cars. apply filter_In. split; [exact Hin|].
    unfold is_active. rewrite Hel. reflexivity. }
  destruct (length _ =? 0)%nat eqn:E0.
  { apply Nat.eqb_eq, length_zero_iff_nil in E0. rewrite E0 in Hact. destruct Hact. }
  destruct (RacingSimulation.all_finished _) eqn:Efin.
  { unfold RacingSimulation.all_finished in Efin.
    cbn [RacingSimulation.cars RacingSimulation.target_laps RacingSimulation.set_timestamp]
      in Efin.
    rewrite forallb_forall in Efin. specialize (Efin car Hact).
    apply Nat.leb_le in Efin. lia. }
  unfold RacingSimulation.cycle. sim_cbn.
  rewrite (update_cars_raises rx ry w nl cl _ _ (RacingSimulation.cars self) Hinit Hlen);
    [reflexivity|].
  exists car. auto.
Qed.

Lemma run_raises_on_short_track_witness :
  exists track : Track.t,
    let self :=
      RacingSimulation.init (sample_config 2 true) track [sample_car 0 0; sample_car 1 1]
        (Rng.mk (fun _ => 1%Z) (fun _ => 99 / 100) 0) in
    Track.init 60 40 12 5 (straight_centerline 5) = Some (RacingSimulation.track self)
    /\ (length (straight_centerline 5) < 10)%nat
    /\ In (sample_car 0 0) (RacingSimulation.cars self)
    /\ Car.eliminated (sample_car 0 0) = false
    /\ (Car.lap_count (sample_car 0 0) < RacingSimulation.target_laps self)%nat
    /\ RacingSimulation.run_from self [] 0 20 = None.
Proof.
  destruct (straight_track_built 5 ltac:(lia)) as (track & Ht).
  exists track. cbv zeta.
  assert (Hlen : (length (straight_centerline 5) < 10)%nat)
    by (rewrite straight_centerline_length; lia).
  assert (Hin : In (sample_car 0 0)
                  (RacingSimulation.cars
                     (RacingSimulation.init (sample_config 2 true) track
                        [sample_car 0 0; sample_car 1 1]
                        (Rng.mk (fun _ => 1%Z) (fun _ => 99 / 100) 0))))
    by (left; reflexivity).
  assert (Hlap : (Car.lap_count (sample_car 0 0)
                  < RacingSimulation.target_laps
                      (RacingSimulation.init (sample_config 2 true) track
                         [sample_car 0 0; sample_car 1 1]
                         (Rng.mk (fun _ => 1%Z) (fun _ => (99 / 100)%R) 0)))%nat)
    by (cbn; lia).
  split; [exact Ht|]. split; [exact Hlen|]. split; [exact Hin|].
  split; [reflexivity|]. split; [exact Hlap|].
  exact (run_raises_on_short_track 60 40 12 5 (straight_centerline 5)
           (RacingSimulation.init (sample_config 2 true) track
              [sample_car 0 0; sample_car 1 1]
              (Rng.mk (fun _ => 1%Z) (fun _ => 99 / 100) 0)) [] 0 19 (sample_car 0 0)
           Ht Hlen Hin eq_refl Hlap).
Defined.

(** * Runs of the Markov layer complete *)

Lemma tick_lane_change_timer_strategy (car : Car.t) (dt : R) :
  Car.strategy_type (RacingSimulation.tick_lane_change_timer car dt) = Car.strategy_type car.
Proof.
  unfold RacingSimulation.tick_lane_change_timer. destruct (Rltb _ _); reflexivity.
Qed.

Lemma compute_control_strategy (self : CombinedController.t) (car : Car.t) (track : Track.t)
    (all_cars : list Car.t) (radius : R) :
  Car.strategy_type (snd (compute_control self car track all_cars radius))
  = Car.strategy_type car.
Proof.
  unfold compute_control.
  match goal with
  | |- context [Track.get_target_point ?a ?b ?c ?d] =>
      destruct (Track.get_target_point a b c d)
  end.
  cbn [snd].
  destruct (_decide_lane_change car all_cars); cbn;
    repeat match goal with |- context [Rltb ?a ?b] => destruct (Rltb a b) end;
    reflexivity.
Qed.

Lemma update_car_dynamics_strategy (car : Car.t) (a steer dt : R) :
  Car.strategy_type (update_car_dynamics car a steer dt) = Car.strategy_type car.
Proof.
  unfold update_car_dynamics. cbn. destruct (Rltb _ _); reflexivity.
Qed.

Lemma update_state_strategy (car car' : Car.t) (dt : R) (track : Track.t) :
  update_state car dt track = Some car' ->
  Car.strategy_type car' = Car.strategy_type car.
Proof.
  unfold update_state.
  destruct (Track.project_car_position _ _ _); [|discriminate].
  intros H. injection H as <-. cbn.
  repeat match goal with |- context [Rltb ?a ?b] => destruct (Rltb a b) end;
    reflexivity.
Qed.

Lemma record_eliminated (c c' : Car.t) :
  elimination_record c' = elimination_record c -> Car.eliminated c' = Car.eliminated c.
Proof. unfold elimination_record. intros H. injection H as H _ _. exact H. Qed.

Lemma drive_strategy_ok (track : Track.t) (dt a s : R) (all_cars : list Car.t)
    (c c2 c3 : Car.t) :
  compute_control (Car.controller c) c track all_cars 50 = ((a, s), c2) ->
  update_state (update_car_dynamics c2 a s dt) dt track = Some c3 ->
  strategy_ok c -> strategy_ok c3.
Proof.
  intros Hc Hu Hok.
  pose proof (compute_control_strategy (Car.controller c) c track all_cars 50) as Hs.
  pose proof (compute_control_record (Car.controller c) c track all_cars 50) as Hr.
  rewrite Hc in Hs, Hr. cbn [snd] in Hs, Hr.
  pose proof (update_state_strategy _ _ _ _ Hu) as Hs3.
  pose proof (update_state_record _ _ _ _ Hu) as Hr3.
  rewrite update_car_dynamics_strategy in Hs3. rewrite update_car_dynamics_record in Hr3.
  unfold strategy_ok. rewrite Hs3, Hs.
  rewrite (record_eliminated _ _ Hr3), (record_eliminated _ _ Hr). exact Hok.
Qed.

Lemma tick_lane_change_timer_strategy_ok (car : Car.t) (dt : R) :
  strategy_ok car -> strategy_ok (RacingSimulation.tick_lane_change_timer car dt).
Proof.
  unfold strategy_ok.
  rewrite tick_lane_change_timer_strategy,
    (record_eliminated _ _ (tick_lane_change_timer_record car dt)).
  auto.
Qed.

Lemma transition_state_total (config : Config.t) (car : Car.t) (g : Rng.t) :
  Car.eliminated car = false -> strategy_ok car ->
  Rng.random_sample g (Rng.drawn g) < 1 ->
  exists car',
    MarkovChainSimulation._transition_state config car g = Some (car', snd (Rng.sample g))
    /\ strategy_ok car'.
Proof.
  intros Hel Hok Hu. specialize (Hok Hel).
  unfold MarkovChainSimulation._transition_state. rewrite Hel.
  destruct (transition_probabilities_normalized car Hok) as (p & -> & _ & _ & _ & _ & Hsum).
  destruct (random_choice_total p g Hsum Hu) as (s & ->).
  destruct s, (Car.strategy_type car) eqn:Es;
    cbn [Strategy.eqb negb andb]; try congruence;
    (eexists; split; [reflexivity|]); unfold strategy_ok; cbn;
    first [ rewrite Es; intros _; discriminate
          | intros _; discriminate
          | intros H; discriminate H ].
Qed.

Lemma markov_update_cars_total (rx ry w : R) (nl : nat) (cl : list (R * R))
    (config : Config.t) (track : Track.t) (dt : R) (step : nat) (todo : list Car.t) :
  Track.init rx ry w nl cl = Some track -> (10 <= length cl)%nat ->
  forall (done : list Car.t) (g : Rng.t),
    (forall n, Rng.random_sample g n < 1) -> Forall strategy_ok todo ->
    exists todo' g',
      MarkovChainSimulation.update_cars config track dt step done todo g
      = Some (done ++ todo', g')
      /\ Forall strategy_ok todo'
      /\ Rng.random_sample g' = Rng.random_sample g.
Proof.
  intros Hinit Hlen.
  induction todo as [|car rest IH]; intros done g Hg Hok;
    cbn [MarkovChainSimulation.update_cars].
  - exists [], g. rewrite app_nil_r. auto.
  - inversion Hok as [|? ? Hcar Hrest]; subst.
    destruct (Car.eliminated car) eqn:Hel.
    + destruct (IH (done ++ [car]) g Hg Hrest) as (todo' & g' & -> & Hok' & Hg').
      exists (car :: todo'), g'. rewrite <- app_assoc. auto.
    + cbv zeta.
      set (ticked := RacingSimulation.tick_lane_change_timer car dt).
      assert (Htel : Car.eliminated ticked = false).
      { unfold ticked.
        rewrite (record_eliminated _ _ (tick_lane_change_timer_record car dt)). exact Hel. }
      assert (Htok : strategy_ok ticked)
        by (apply tick_lane_change_timer_strategy_ok; exact Hcar).
      assert (Htr : exists c1 g1,
                 (if (step mod 20 =? 0)%nat
                  then MarkovChainSimulation._transition_state config ticked g
                  else Some (ticked, g)) = Some (c1, g1)
                 /\ strategy_ok c1 /\ Rng.random_sample g1 = Rng.random_sample g).
      { destruct (step mod 20 =? 0)%nat.
        - destruct (transition_state_total config ticked g Htel Htok (Hg _))
            as (c1 & -> & Hc1).
          exists c1, (snd (Rng.sample g)). auto.
        - exists ticked, g. auto. }
      destruct Htr as (c1 & g1 & -> & Hc1 & Hg1).
      assert (Hg1' : forall n, Rng.random_sample g1 n < 1) by (rewrite Hg1; exact Hg).
      destruct (Car.eliminated c1) eqn:Hel1.
      * destruct (IH (done ++ [c1]) g1 Hg1' Hrest) as (todo' & g' & -> & Hok' & Hg').
        exists (c1 :: todo'), g'. rewrite <- app_assoc.
        split; [reflexivity|]. split; [constructor; assumption|congruence].
      * destruct (compute_control _ _ _ _ _) as [[a s] c2] eqn:Hc.
        destruct (update_state_total rx ry w nl cl track (update_car_dynamics c2 a s dt) dt
                    Hinit Hlen) as (c3 & Hu).
        rewrite Hu.
        destruct (IH (done ++ [c3]) g1 Hg1' Hrest) as (todo' & g' & -> & Hok' & Hg').
        exists (c3 :: todo'), g'. rewrite <- app_assoc.
        split; [reflexivity|]. split; [|congruence].
        constructor; [|exact Hok'].
        exact (drive_strategy_ok track dt a s _ c1 c2 c3 Hc Hu Hc1).
Qed.

Lemma hit_or_same_strategy_ok (c c' : Car.t) :
  strategy_ok c -> hit_or_same c c' -> strategy_ok c'.
Proof.
  intros Hok [->|(_ & _ & (n & s & f & ->) & _)]; [exact Hok|]. exact Hok.
Qed.

Lemma rolled_out_strategy_ok (time : R) (threshold : Z) (events : list CollisionEvent.t)
    (c c' : Car.t) :
  strategy_ok c -> rolled_out time threshold events c c' -> strategy_ok c'.
Proof.
  intros Hok [->|(_ & _ & roll & _ & ->)]; [exact Hok|].
  unfold strategy_ok, stamped. cbn. discriminate.
Qed.

Lemma roll_elimination_samples (self : RacingSimulation.t) (found : option nat) :
  Rng.random_sample (RacingSimulation.rng (RacingSimulation.roll_elimination self found))
  = Rng.random_sample (RacingSimulation.rng self).
Proof.
  unfold RacingSimulation.roll_elimination.
  destruct found as [i|]; [|auto].
  destruct (nth_error _ i) as [car|]; [|auto].
  destruct (Car.eliminated car); [auto|].
  unfold Rng.randint. sim_cbn.
  destruct (_ <? _)%Z; sim_cbn; reflexivity.
Qed.

Lemma check_eliminations_samples (events : list CollisionEvent.t) :
  forall self : RacingSimulation.t,
    Rng.random_sample (RacingSimulation.rng (RacingSimulation._check_eliminations self events))
    = Rng.random_sample (RacingSimulation.rng self).
Proof.
  unfold RacingSimulation._check_eliminations.
  induction events as [|e events IH]; intros self; cbn [fold_left]; [auto|].
  cbv zeta. rewrite IH, !roll_elimination_samples. reflexivity.
Qed.

Lemma log_telemetry_cars_rng (self : RacingSimulation.t) (n : nat) :
  RacingSimulation.cars
    (RacingSimulation._log_telemetry (RacingSimulation.set_near_misses self n))
  = map reset_collision_flag (RacingSimulation.cars self)
  /\ RacingSimulation.rng
       (RacingSimulation._log_telemetry (RacingSimulation.set_near_misses self n))
     = RacingSimulation.rng self.
Proof. destruct self. cbn. auto. Qed.

Lemma reset_collision_flag_strategy_ok (cars : list Car.t) :
  Forall strategy_ok cars -> Forall strategy_ok (map reset_collision_flag cars).
Proof.
  intros H. apply Forall_map. revert H. apply Forall_impl. intros c Hc. exact Hc.
Qed.

Lemma transition_state_v0 (config : Config.t) (car car' : Car.t) (g g' : Rng.t) :
  v0_defined car ->
  MarkovChainSimulation._transition_state config car g = Some (car', g') ->
  v0_defined car'.
Proof.
  intros Hv. unfold MarkovChainSimulation._transition_state.
  destruct (Car.eliminated car).
  { intros H. injection H as <- _. exact Hv. }
  destruct (MarkovChainSimulation._update_transition_probabilities car); [|discriminate].
  destruct (MarkovChainSimulation.random_choice _ _ _) as [[next g1]|]; [|discriminate].
  assert (Hd : Car.desired_speed car <> 0).
  { intros H0. apply Hv. rewrite H0. ring. }
  destruct (negb (Strategy.eqb next (Car.strategy_type car))
            && negb (Strategy.eqb next Strategy.eliminated)) eqn:Echg.
  - intros H. injection H as <- _.
    destruct next; cbn in Echg |- *; try (rewrite andb_false_r in Echg; discriminate);
      unfold v0_defined; cbn; intros H0;
      apply Rmult_integral in H0; destruct H0 as [H0|H0]; first [exact (Hd H0)|lra].
  - destruct (Strategy.eqb next Strategy.eliminated); intros H; injection H as <- _;
      exact Hv.
Qed.

Lemma markov_driven_v0 (config : Config.t) (track : Track.t) (dt : R) (c c' : Car.t) :
  v0_defined c -> markov_driven config track dt c c' -> v0_defined c'.
Proof.
  intros Hv. unfold markov_driven. destruct (Car.eliminated c); [intros ->; exact Hv|].
  intros (c1 & Hc1 & Hd).
  pose proof (tick_lane_change_timer_v0 c dt Hv) as Ht.
  assert (H1 : v0_defined c1).
  { destruct Hc1 as [->|(g & g' & Htr)]; [exact Ht|].
    eapply transition_state_v0; eassumption. }
  destruct (Car.eliminated c1); [subst c'; exact H1|].
  eapply drive_step_v0; eassumption.
Qed.

Lemma markov_cycle_completes (rx ry w : R) (nl : nat) (cl : list (R * R))
    (self : RacingSimulation.t) (step : nat) :
  Track.init rx ry w nl cl = Some (RacingSimulation.track self) -> (10 <= length cl)%nat ->
  (forall n, Rng.random_sample (RacingSimulation.rng self) n < 1) ->
  Forall strategy_ok (RacingSimulation.cars self) ->
  Forall v0_defined (RacingSimulation.cars self) ->
  exists self' new,
    MarkovChainSimulation.cycle self step = Some (self', new)
    /\ RacingSimulation.track self' = RacingSimulation.track self
    /\ Rng.random_sample (RacingSimulation.rng self')
       = Rng.random_sample (RacingSimulation.rng self)
    /\ Forall strategy_ok (RacingSimulation.cars self')
    /\ Forall v0_defined (RacingSimulation.cars self')
    /\ CollisionDetector.collisions (RacingSimulation.collision_detector self')
       = CollisionDetector.collisions (RacingSimulation.collision_detector self) ++ new.
Proof.
  intros Hinit Hlen Hg Hok Hv0. unfold MarkovChainSimulation.cycle.
  destruct (markov_update_cars_total rx ry w nl cl (RacingSimulation.config self) _
              (RacingSimulation.dt self) step (RacingSimulation.cars self) Hinit Hlen []
              (RacingSimulation.rng self) Hg Hok) as (cars' & g' & Hu & Hok' & Hg').
  rewrite Hu.
  assert (Hv1 : Forall v0_defined cars').
  { apply markov_update_cars_driven in Hu. destruct Hu as (todo' & Heq & Hd).
    cbn [app] in Heq. subst todo'.
    revert Hd Hv0. apply Forall2_Forall_step. intros a b. apply markov_driven_v0. }
  cbn [app]. sim_cbn.
  pose proof (check_collisions_log (RacingSimulation.collision_detector self) cars'
                (RacingSimulation.timestamp self)) as Hlog.
  pose proof (check_collisions_hit_or_same (RacingSimulation.collision_detector self) cars'
                (RacingSimulation.timestamp self)) as Hhit.
  pose proof (check_collisions_stats_only (RacingSimulation.collision_detector self) cars'
                (RacingSimulation.timestamp self)) as Hst.
  destruct (check_collisions _ _ _) as [[new det] cars'']. cbn [fst snd] in Hlog, Hhit, Hst.
  assert (Hok'' : Forall strategy_ok cars'').
  { revert Hhit Hok'. apply Forall2_Forall_step. exact hit_or_same_strategy_ok. }
  assert (Hv2 : Forall v0_defined cars'').
  { revert Hst Hv1. apply Forall2_Forall_step. exact stats_only_v0. }
  eexists _, new. split; [reflexivity|].
  match goal with
  | |- context [RacingSimulation._log_telemetry (RacingSimulation.set_near_misses ?s ?n)] =>
      destruct (log_telemetry_frame s n) as (-> & _ & ->);
      destruct (log_telemetry_cars_rng s n) as (-> & ->)
  end.
  destruct (RacingSimulation.elimination_enabled self).
  - match goal with
    | |- context [RacingSimulation._check_eliminations ?s new] =>
        destruct (check_eliminations_frame new s) as [-> ->];
        rewrite (check_eliminations_samples new s);
        destruct (check_eliminations_effect new s) as (Hroll & _)
    end.
    sim_cbn. cbn [RacingSimulation.cars RacingSimulation.set_cars
                  RacingSimulation.set_collision_detector RacingSimulation.set_rng] in Hroll.
    split; [reflexivity|]. split; [exact Hg'|].
    split; [|split; [|exact Hlog]].
    + apply reset_collision_flag_strategy_ok.
      revert Hroll Hok''. apply Forall2_Forall_step. apply rolled_out_strategy_ok.
    + apply reset_collision_flag_v0.
      revert Hroll Hv2. apply Forall2_Forall_step. apply rolled_out_v0.
  - sim_cbn. split; [reflexivity|]. split; [exact Hg'|].
    split; [|split; [|exact Hlog]].
    + apply reset_collision_flag_strategy_ok. exact Hok''.
    + apply reset_collision_flag_v0. exact Hv2.
Qed.

Lemma markov_run_from_completes (rx ry w : R) (nl : nat) (cl : list (R * R))
    (self : RacingSimulation.t) (acc : list CollisionEvent.t) (step remaining : nat) :
  Track.init rx ry w nl cl = Some (RacingSimulation.track self) -> (10 <= length cl)%nat ->
  (forall n, Rng.random_sample (RacingSimulation.rng self) n < 1) ->
  Forall (fun c => Car.eliminated c = false -> Car.strategy_type c <> Strategy.eliminated)
         (RacingSimulation.cars self) ->
  Forall (fun c => Car.desired_speed c * Car.speed_multiplier c <> 0)
         (RacingSimulation.cars self) ->
  exists self' new,
    MarkovChainSimulation.run_from self acc step remaining = Some (self', acc ++ new)
    /\ CollisionDetector.collisions (RacingSimulation.collision_detector self')
       = CollisionDetector.collisions (RacingSimulation.collision_detector self) ++ new
    /\ Forall (fun c => Car.eliminated c = false -> Car.strategy_type c <> Strategy.eliminated)
              (RacingSimulation.cars self')
    /\ Forall (fun c => Car.desired_speed c * Car.speed_multiplier c <> 0)
              (RacingSimulation.cars self').
Proof.
  intros Hinit Hlen. revert self acc step Hinit.
  induction remaining as [|remaining IH]; intros self acc step Hinit Hg Hok Hv0;
    cbn [MarkovChainSimulation.run_from].
  - exists self, []. rewrite !app_nil_r. auto.
  - cbv zeta.
    assert (Hstop : exists self' new,
               Some (RacingSimulation.set_timestamp self
                       (INR step * RacingSimulation.dt self), acc)
               = Some (self', acc ++ new)
               /\ CollisionDetector.collisions (RacingSimulation.collision_detector self')
                  = CollisionDetector.collisions (RacingSimulation.collision_detector self)
                    ++ new
               /\ Forall (fun c => Car.eliminated c = false ->
                                   Car.strategy_type c <> Strategy.eliminated)
                         (RacingSimulation.cars self')
               /\ Forall (fun c => Car.desired_speed c * Car.speed_multiplier c <> 0)
                         (RacingSimulation.cars self')).
    { eexists _, []. rewrite !app_nil_r. split; [reflexivity|]. sim_cbn. auto. }
    destruct (length _ =? 0)%nat; [exact Hstop|].
    destruct (RacingSimulation.all_finished _); [exact Hstop|].
    destruct (markov_cycle_completes rx ry w nl cl
                (RacingSimulation.set_timestamp self (INR step * RacingSimulation.dt self))
                step)
      as (self1 & new1 & -> & Ht & Hg1 & Hok1 & Hv1 & Hl);
      [sim_cbn; exact Hinit|exact Hlen|sim_cbn; exact Hg|sim_cbn; exact Hok
      |sim_cbn; exact Hv0|].
    cbn [RacingSimulation.track RacingSimulation.set_timestamp] in Ht.
    cbn [RacingSimulation.rng RacingSimulation.set_timestamp] in Hg1.
    cbn [RacingSimulation.collision_detector RacingSimulation.set_timestamp] in Hl.
    destruct (IH self1 (acc ++ new1) (S step)) as (self2 & new2 & -> & Hl2 & Hok2 & Hv2);
      [rewrite Ht; exact Hinit|rewrite Hg1; exact Hg|exact Hok1|exact Hv1|].
    exists self2, (new1 ++ new2). rewrite Hl2, Hl, !app_assoc. auto.
Qed.

(** On a track built from ten centerline samples or more, with a time
    step different from zero, transition samples below 1, every active car
    on one of the three driving strategies and every car's desired speed
    [desired_speed * speed_multiplier] different from zero, the Markov
    layer never raises: its loop completes from any step for any number of
    iterations, and so does [run].  The strategy choice always finds
    normalized probabilities, and the quotient of the car-following law
    stays defined through every strategy change.  The returned events are
    the initial ones followed by what the loop added to the collision
    detector's log. *)
Theorem markov_run_completes (rx ry w : R) (nl : nat) (cl : list (R * R))
    (self : RacingSimulation.t) :
  Track.init rx ry w nl cl = Some (RacingSimulation.track self) -> (10 <= length cl)%nat ->
  RacingSimulation.dt self <> 0 ->
  (forall n, Rng.random_sample (RacingSimulation.rng self) n < 1) ->
  Forall (fun c => Car.eliminated c = false -> Car.strategy_type c <> Strategy.eliminated)
         (RacingSimulation.cars self) ->
  Forall (fun c => Car.desired_speed c * Car.speed_multiplier c <> 0)
         (RacingSimulation.cars self) ->
  (forall (acc : list CollisionEvent.t) (step remaining : nat),
      exists self' new,
        MarkovChainSimulation.run_from self acc step remaining = Some (self', acc ++ new)
        /\ CollisionDetector.collisions (RacingSimulation.collision_detector self')
           = CollisionDetector.collisions (RacingSimulation.collision_detector self) ++ new
        /\ Forall (fun c => Car.eliminated c = false ->
                            Car.strategy_type c <> Strategy.eliminated)
                  (RacingSimulation.cars self')
        /\ Forall (fun c => Car.desired_speed c * Car.speed_multiplier c <> 0)
                  (RacingSimulation.cars self'))
  /\ exists self' events,
       MarkovChainSimulation.run self = Some (self', events)
       /\ CollisionDetector.collisions (RacingSimulation.collision_detector self')
          = CollisionDetector.collisions (RacingSimulation.collision_detector self) ++ events
       /\ Forall (fun c => Car.eliminated c = false ->
                           Car.strategy_type c <> Strategy.eliminated)
                 (RacingSimulation.cars self')
       /\ Forall (fun c => Car.desired_speed c * Car.speed_multiplier c <> 0)
                 (RacingSimulation.cars self').
Proof.
  intros Hinit Hlen _ Hg Hok Hv0. split.
  - intros acc step remaining.
    exact (markov_run_from_completes rx ry w nl cl self acc step remaining
             Hinit Hlen Hg Hok Hv0).
  - unfold MarkovChainSimulation.run. cbv zeta.
    destruct (markov_run_from_completes rx ry w nl cl self [] 0
                (Z.to_nat (py_int (RacingSimulation.time_limit self
                                   / RacingSimulation.dt self))) Hinit Hlen Hg Hok Hv0)
      as (self' & new & Hrun & Hlog & Hs & Hv).
    exists self', new. auto.
Qed.

Lemma markov_run_completes_witness :
  exists track : Track.t,
    let self :=
      RacingSimulation.init (sample_config 2 true) track [sample_car 0 0; sample_car 1 1]
        (Rng.mk (fun _ => 1%Z) (fun _ => 99 / 100) 0) in
    Track.init 60 40 12 5 (straight_centerline 12) = Some (RacingSimulation.track self)
    /\ (10 <= length (straight_centerline 12))%nat
    /\ RacingSimulation.dt self <> 0
    /\ (forall n, Rng.random_sample (RacingSimulation.rng self) n < 1)
    /\ Forall (fun c => Car.eliminated c = false ->
                        Car.strategy_type c <> Strategy.eliminated)
              (RacingSimulation.cars self)
    /\ Forall (fun c => Car.desired_speed c * Car.speed_multiplier c <> 0)
              (RacingSimulation.cars self)
    /\ (forall (acc : list CollisionEvent.t) (step remaining : nat),
           exists self' new,
             MarkovChainSimulation.run_from self acc step remaining
             = Some (self', acc ++ new)
             /\ CollisionDetector.collisions (RacingSimulation.collision_detector self')
                = CollisionDetector.collisions (RacingSimulation.collision_detector self)
                  ++ new
             /\ Forall (fun c => Car.eliminated c = false ->
                                 Car.strategy_type c <> Strategy.eliminated)
                       (RacingSimulation.cars self')
             /\ Forall (fun c => Car.desired_speed c * Car.speed_multiplier c <> 0)
                       (RacingSimulation.cars self'))
    /\ exists self' events,
         MarkovChainSimulation.run self = Some (self', events)
         /\ CollisionDetector.collisions (RacingSimulation.collision_detector self')
            = CollisionDetector.collisions (RacingSimulation.collision_detector self)
              ++ events
         /\ Forall (fun c => Car.eliminated c = false ->
                             Car.strategy_type c <> Strategy.eliminated)
                   (RacingSimulation.cars self')
         /\ Forall (fun c => Car.desired_speed c * Car.speed_multiplier c <> 0)
                   (RacingSimulation.cars self').
Proof.
  destruct (straight_track_built 12 ltac:(lia)) as (track & Ht).
  exists track. cbv zeta.
  assert (Hlen : (10 <= length (straight_centerline 12))%nat)
    by (rewrite straight_centerline_length; lia).
  assert (Hdt : RacingSimulation.dt
                  (RacingSimulation.init (sample_config 2 true) track
                     [sample_car 0 0; sample_car 1 1]
                     (Rng.mk (fun _ => 1%Z) (fun _ => 99 / 100) 0)) <> 0)
    by (cbn; lra).
  assert (Hg : forall n : nat,
             Rng.random_sample
               (RacingSimulation.rng
                  (RacingSimulation.init (sample_config 2 true) track
                     [sample_car 0 0; sample_car 1 1]
                     (Rng.mk (fun _ => 1%Z) (fun _ => 99 / 100) 0))) n < 1)
    by (intros n; cbn; lra).
  assert (Hok : Forall (fun c => Car.eliminated c = false ->
                                 Car.strategy_type c <> Strategy.eliminated)
                  (RacingSimulation.cars
                     (RacingSimulation.init (sample_config 2 true) track
                        [sample_car 0 0; sample_car 1 1]
                        (Rng.mk (fun _ => 1%Z) (fun _ => 99 / 100) 0)))).
  { cbn [RacingSimulation.init RacingSimulation.cars].
    constructor; [intros _; discriminate|]. constructor; [intros _; discriminate|].
    constructor. }
  assert (Hv0 : Forall (fun c => Car.desired_speed c * Car.speed_multiplier c <> 0)
                  (RacingSimulation.cars
                     (RacingSimulation.init (sample_config 2 true) track
                        [sample_car 0 0; sample_car 1 1]
                        (Rng.mk (fun _ => 1%Z) (fun _ => 99 / 100) 0)))).
  { cbn [RacingSimulation.init RacingSimulation.cars].
    constructor; [cbn; lra|]. constructor; [cbn; lra|]. constructor. }
  split; [exact Ht|]. split; [exact Hlen|]. split; [exact Hdt|]. split; [exact Hg|].
  split; [exact Hok|]. split; [exact Hv0|].
  exact (markov_run_completes 60 40 12 5 (straight_centerline 12)
           (RacingSimulation.init (sample_config 2 true) track
              [sample_car 0 0; sample_car 1 1]
              (Rng.mk (fun _ => 1%Z) (fun _ => 99 / 100) 0)) Ht Hlen Hdt Hg Hok Hv0).
Defined.
